(* ===== verification/_CoqProject ===== *)
-Q . S2P
Prelude.v
RustStr.v
Metrics.v
Domain.v
Protocol.v
SearchQuery.v
Storage.v
Notifications.v
Schema.v
RepoCore.v
Security.v
RepoAccounts.v
RepoMailboxes.v
RepoMessages.v
RepoQueue.v
Invariant.v
Integrity.v
Redis.v
Coordination.v
Auth.v
Mime.v
Search.v
Scenario.v
MessageSpecs.v
MailboxSpecs.v
AccountSpecs.v
Engine.v
SearchEval.v
Threads.v
ImapText.v
Ingest.v
Mutations.v
ImapSession.v
ImapFetch.v
ImapCommands.v
ImapServer.v
ImapScenario.v
ImapFrames.v
QueueSpecs.v
SyncEngine.v
SyncSpecs.v
Convergence.v
ImapSessionSpecs.v
ImapTextSpecs.v
ImapSafetySpecs.v
ImapSoundness.v
ImapTermination.v
ImapMailSpecs.v
ImapFindings.v
Upstream.v
UpstreamSpecs.v
MimeTree.v
MimeSpecs.v
Stores.v
StoreSpecs.v
Config.v
Services.v
Http.v
SearchIndex.v
SearchIndexSpecs.v
Admin.v
Main.v
AdminSoundness.v
AdminSpecs.v
EventSpecs.v
AdminTotality.v
ImapGauges.v
Deployment.v
DeploymentSpecs.v
Serving.v
EndToEnd.v
IdleChanges.v
IdleSpecs.v
QuotaSpecs.v
AppendSpecs.v
Conformance.v
