(* ===== verification/Prelude.v ===== *)
(** * imap-cache-rs: a verification library

    imap-cache-rs is a caching IMAP proxy.  Clients speak IMAP to it
    (crates/imap-server over crates/protocol); mailboxes, messages, queued
    changes and quotas live in PostgreSQL behind one repository
    (crates/db); raw messages and MIME parts are blobs in a content-addressed
    object store (crates/core, crates/storage); a sync engine (crates/sync)
    pulls new mail from the upstream server (crates/upstream), ingests it, and
    replays local changes upstream; logins are checked and throttled by
    crates/auth; a lock per account keeps two processes from syncing it at once
    (crates/coordination); every change is announced on an event sink
    (crates/notifications).  The configuration (crates/config) decides which
    services a process builds (crates/imap-server/src/lib.rs); the binary
    (src/main.rs, src/lib.rs) starts the server with its worker and its HTTP
    endpoints, or runs one admin command (src/admin.rs).

    The library follows the code: one definition per function, with its name,
    guards, early returns and the order of its effects.  A stateful function is
    a computation in [M E S A], a state-and-error monad with a third outcome for
    a panic; an error keeps the state it was raised in, and [transaction] rolls
    it back where the code opens one.

    ** Files

    - Prelude: the monad with its notations in [rust_scope], machine widths,
      sorting and deduplication, shared lemmas and tactics.
    - RustStr: the string functions of the standard library the code uses, on
      lists of Unicode scalar values, with UTF-8.
    - Domain: crates/core/src/domain.rs and error.rs, and JSON values.
    - Protocol: crates/protocol/src/lib.rs, every function.
    - Storage: crates/core/src/storage.rs and crates/storage/src/memory.rs.  The
      trait is the class [ObjectStore], its contract [ObjectStoreLaws]; the
      memory backend is an instance of both, and the sync theorems are proved
      against the contract.
    - Stores: crates/storage/src/filesystem.rs on a file system with faults, and
      r2.rs over the class [S3Client]; StoreSpecs relates both to the memory
      store.
    - Notifications: crates/notifications/src/lib.rs, events, sinks and the relay
      of Redis; EventSpecs: what reaches an idling client through both.
    - Schema: the tables of migrations/*.sql as lists of rows, the row and input
      structs of crates/db/src/repository.rs with their conversions, the SQL
      building blocks, the unique keys, foreign keys and delete cascades.
    - RepoCore, RepoAccounts, RepoMailboxes, RepoMessages, RepoQueue: every
      method of [PostgresRepository] in crates/db/src/repository.rs.  The state
      is [World]: the database, its sequences, the clock and the published
      events.
    - Security: crates/core/src/security.rs over the class [Crypto].
    - Invariant, Integrity: the invariant [db_ok] of the database, one [safe_]
      lemma per repository method, and the transition system of repository
      calls.
    - Redis, Coordination: the Redis commands with their documented laws and a
      concrete server, and the three lock managers of
      crates/coordination/src/lib.rs behind the class [SyncLockManager].
    - Auth: crates/auth/src/lib.rs, two throttles behind the class
      [LoginThrottle] and three authenticators.
    - Metrics: the counters of crates/metrics/src/lib.rs.
    - Mime, Search: the records of crates/mime and the search document of
      crates/search that ingestion goes through.
    - MimeTree: [parse_message] of crates/mime/src/lib.rs over mailparse, an
      instance of the class [MimeParser] the engines run on.
    - SearchQuery: the SEARCH queries of crates/search/src/lib.rs and their
      parser.
    - Engine, Ingest, Mutations, SyncEngine: crates/sync/src/lib.rs.  [Engine] is
      the product of the states the engines share: database, object store,
      upstream connection, search index, locks and metrics.
    - crates/imap-server/src/imap.rs: SearchEval (matching and sorting), Threads
      (the two THREAD algorithms), ImapText (flags, sections, ENVELOPE,
      BODYSTRUCTURE, LIST patterns, SASL texts), ImapSession (the session and
      the commands on mailboxes), ImapFetch (finding messages and their bytes),
      ImapCommands (the commands on messages and the dispatcher), ImapServer
      (the connection loop, STARTTLS, AUTHENTICATE, IDLE).  The state is
      [Server]: the session, the engine, the authenticator, the bytes still to
      be read and those written.
    - Upstream: crates/upstream/src/lib.rs, the client's connection, commands and
      response texts and the limit of connections per account.  [UpstreamConn]
      is an instance of the class [UpstreamClient] the engines run on.
    - SearchIndex: the index of crates/search/src/lib.rs over the class [Tantivy];
      [TantivySearchEngine] is an instance of the class [SearchBackend] the
      engines run on; SearchIndexSpecs: what a search finds.
    - Config: crates/config/src/lib.rs over the class [System].
    - Services: the services built from a configuration
      (crates/imap-server/src/lib.rs), the authenticator chosen
      (crates/auth/src/lib.rs), TLS set-up and [run] of src/lib.rs up to its
      listeners, over the class [Platform].
    - Http: the text of crates/metrics/src/lib.rs with the lines from the
      database, and crates/imap-server/src/http.rs.
    - Admin, Main: src/admin.rs, and src/main.rs with the worker of src/lib.rs.
      The state is [Process]: the database, the stores and locks the command
      works on, and its standard input.
    - Deployment: the running server with its connections, its worker and the
      processes beside it, as a sequence of steps in any order.
    - Scenario, ImapScenario: a concrete database made by repository calls and a
      concrete server on it, on which the theorems are applied.
    - MessageSpecs, MailboxSpecs, AccountSpecs, QueueSpecs, SyncSpecs,
      Convergence, Serving, QuotaSpecs: what the repository and the engines
      promise; EndToEnd, AppendSpecs: what a client is served of the upstream
      server's messages and of its own; IdleChanges, IdleSpecs: what it is told
      while it idles.
    - ImapFrames, ImapSessionSpecs, ImapTextSpecs, ImapSafetySpecs,
      ImapSoundness, ImapTermination, ImapMailSpecs, ImapFindings: what the
      server promises and where it does not keep to IMAP; UpstreamSpecs: what
      the client does on the wire; MimeSpecs: what the MIME tree promises;
      AdminSoundness, AdminSpecs, AdminTotality: what the admin commands do and
      that they return; ImapGauges, DeploymentSpecs: what holds of the running
      server.
    - Conformance: the repository's own tests that need no network, replayed on
      the model.

    ** What is shown

    - End to end (EndToEnd, over Serving): after a sync pass a client that fetches
      a message the upstream server listed reads a literal with the digest of that
      server's message; AppendSpecs: the same of a message the client appended,
      under the UID it was told.
    - Soundness of the database (Integrity): every state any series of
      repository calls reaches from an empty database, failing calls included,
      satisfies its unique and foreign keys.
    - Messages (MessageSpecs): sequence numbers are positions in the listing;
      flag updates, appends and deletions change exactly what they should, with
      the right mod-sequence and event; UIDs are reused after a deletion.
    - Mailboxes, accounts, cache (MailboxSpecs, AccountSpecs): create then find;
      counters; credentials and checkpoints round trip; reference counts of
      blobs; the unseen counter and mod-sequences do not do what IMAP asks.
    - Queue (QueueSpecs, Engine): which mutations are due, what a flush does to
      a mutation it applied or failed to apply, backoff, and the price of the
      idempotency key.
    - Synchronisation (Convergence, SyncSpecs): a successful pass over a mailbox
      leaves it with the server's messages above the checkpoint and with no
      synced message the server does not have; reconciliation and the reset after a changed
      UIDVALIDITY remove exactly the right rows; the quota gate writes nothing, and
      usage grows by exactly what was ingested within the limit (QuotaSpecs); an
      ingested message has its blob; a busy lock means no work; and how
      appended messages and upstream UIDs collide.
    - Logins and locks (Auth, Coordination): the throttle locks exactly at its
      limit; a login is only given to a valid user; mutual exclusion of the
      in-process lock; a stale Redis guard cannot release its successor's lock.
    - Wire grammar and store (Protocol, Storage): totality of the command
      parser, round trips, the meaning of message sets, verified reads.
    - Connections (ImapSessionSpecs, ImapSoundness, ImapTermination): every
      command is answered with one completion; the session's snapshot and
      selection stay consistent; whatever a client sends, the database stays
      sound; a connection ends within a number of turns its input bounds.
    - Access (ImapSafetySpecs): without an account no command changes anything;
      a read-only selection is not changed by the commands on its messages.
    - Mail on the wire (ImapMailSpecs, ImapTextSpecs): EXPUNGE numbers keep a
      client in step; FETCH and STORE mean the same messages; SEARCH answers
      exactly the matching ones; ranges, flags, LIST patterns and SASL PLAIN.
    - Idling (IdleSpecs): whatever other sessions do to the mailbox, as long as
      each change is announced before the next, a client that follows the lines it
      is sent keeps its number of messages and their flags.
    - Queries and threads (SearchQuery, SearchEval, Threads): the parser of
      SEARCH and both THREAD algorithms terminate; a list of criteria is their
      conjunction; threads partition the messages.
    - The upstream client (UpstreamSpecs): a command takes exactly its response
      off the stream, a message is fetched byte for byte, the server's LIST
      lines are read back, no account exceeds its connection limit.
    - MIME (MimeSpecs): every part can be fetched by its path and is content
      addressed, the body structure lists the stored parts, parsing returns.
    - Stores and search (StoreSpecs, SearchIndexSpecs): the file system and S3
      stores answer what the memory store answers; a search of the index returns
      exactly the messages its query holds of, up to the limit of 1000.
    - Configuration and start-up (Config, Services): every setting is that of the
      environment, else of the file, else the default, and fits its width; who
      can log in follows from the configuration.
    - Admin commands (AdminSoundness, AdminSpecs, AdminTotality): every command
      keeps the database sound and returns; deleting an account removes all of it
      and nothing of the others.
    - The endpoints (Http): a reader of the response gets exactly the body.
    - The running server (DeploymentSpecs): in every order of what its tasks and
      other processes do, the database stays sound, sessions stay well formed and
      the gauges count the connections and logins.
    - Where the code and IMAP part (ImapFindings and the last sections of the
      other files): examples that compute what the server or the client does.

    ** Choices

    - Integers are [Z]; arithmetic that can leave its width is written out
      (saturating, checked, wrapping, or the out-of-range error PostgreSQL
      raises).  Times are microseconds.  The clock stands still within a call,
      as it does within a PostgreSQL transaction.
    - Loops that are not structural run on fuel: the tokenizer, the fields of a
      query and the decoder of damaged UTF-8 on the length of their text, the
      threads on the number of messages, the client's response loops on the
      bytes to be read.  Each consumes at least one of what it counts, so that
      the fuel is enough ([tokenize_loop_total], [from_imap_args_total],
      [thread_references_total], [read_lines_fuel]).  The loop that purges an
      account has one turn per reference its cache rows hold, and one more
      ([purge_spec]); the parentheses of a query are stripped on its length.  A
      connection is a step
      relation, run on the fuel [budget], which [connection_terminates] shows
      to be enough.  The MIME tree follows embedded messages as deep as [depth]
      says, which stands for the stack ([parse_rfc822_returns]).
    - The other side of a connection is the environment: what a client sends is
      a list of bytes, what wakes IDLE a list of wake-ups (a line that wakes it
      is read whole), the upstream server a function of what it was sent; a TLS
      handshake is a parameter on the bytes behind it.
    - Rows of equal sort key keep their insertion order; SQL leaves it open.
      Statements of concurrent callers interleave as whole method calls; the
      tasks of a deployment interleave as whole turns.
    - Code that is not in the repository is a parameter with its documented
      laws: hashes and ciphers, the PostgreSQL locale, UUIDs, Redis, chrono and
      serde_json texts, mailparse, Tantivy.

    ** Not modelled

    - Foreign code behind the parameters: PostgreSQL and sqlx (with the execution
      of the migrations), Redis, Tantivy, the S3 client, mailparse, rustls, clap,
      TOML, the tracing subscriber, tokio's channels and sockets.
    - Waiting: permits of the connection limiter and of the sync limiter, the
      intervals of the worker, and the [select!] at the end of [run].
    - The transports (AsyncRead and AsyncWrite by delegation), constructors that
      only store their arguments, getters of the counters, and [QuotaScope] and
      [MutationJob], which nothing uses.
    - Test code and fixtures (crates/test-support). *)

From stdpp Require Import base list gmap.
From Stdlib Require Import ZArith Lia Sorting.Sorted Permutation.

Set Default Proof Using "Type".

Local Open Scope Z_scope.

(** ** Outcomes of a Rust computation

    [Result<A, E>] plus the third way a call ends: a panic (slice index out of
    range, [unwrap] on [None]). *)
Inductive outcome (E A : Type) : Type :=
| Ok (a : A)
| Err (e : E)
| Panic.
Arguments Ok {E A} a.
Arguments Err {E A} e.
Arguments Panic {E A}.

(** ** The state-and-error monad of the stateful components

    An [async fn] on shared state is a function from the state to the new state
    and its outcome.  An error keeps the state it was raised in: what a callee
    already wrote stays written, unless a transaction rolls it back. *)
Definition M (E S A : Type) : Type := S -> S * outcome E A.

Section Monad.
Context {E S : Type}.

Definition ret {A} (a : A) : M E S A := fun s => (s, Ok a).
Definition fail {A} (e : E) : M E S A := fun s => (s, Err e).
Definition panic {A} : M E S A := fun s => (s, Panic).

(** The [?] operator followed by the rest of the function. *)
Definition bind {A B} (m : M E S A) (k : A -> M E S B) : M E S B :=
  fun s => match m s with
           | (s', Ok a) => k a s'
           | (s', Err e) => (s', Err e)
           | (s', Panic) => (s', Panic)
           end.

Definition get : M E S S := fun s => (s, Ok s).
Definition put (s' : S) : M E S unit := fun _ => (s', Ok tt).
Definition gets {A} (f : S -> A) : M E S A := fun s => (s, Ok (f s)).
Definition modify (f : S -> S) : M E S unit := fun s => (f s, Ok tt).

(** A pure [Result] used with [?]. *)
Definition lift {A} (r : outcome E A) : M E S A := fun s => (s, r).

(** [let _ = m.await;]: the effect of [m], its outcome dropped (a panic
    still unwinds). *)
Definition ignore {A} (m : M E S A) : M E S unit :=
  fun s => match m s with
           | (s', Panic) => (s', Panic)
           | (s', _) => (s', Ok tt)
           end.

(** [match m.await { Ok(a) => .., Err(e) => .. }]. *)
Definition try {A} (m : M E S A) : M E S (A + E) :=
  fun s => match m s with
           | (s', Ok a) => (s', Ok (inl a))
           | (s', Err e) => (s', Ok (inr e))
           | (s', Panic) => (s', Panic)
           end.

(** [for x in xs { m(x).await?; }]. *)
Fixpoint for_each {A} (xs : list A) (m : A -> M E S unit) : M E S unit :=
  match xs with
  | [] => ret tt
  | x :: xs' => bind (m x) (fun _ => for_each xs' m)
  end.

(** A loop that carries an accumulator: [for x in xs { acc = m(acc, x).await?; }]. *)
Fixpoint fold_each {A B} (xs : list A) (acc : B) (m : B -> A -> M E S B) : M E S B :=
  match xs with
  | [] => ret acc
  | x :: xs' => bind (m acc x) (fun acc' => fold_each xs' acc' m)
  end.

(** A computation on one part of a larger state. *)
Definition zoom {T A} (part : S -> T) (set_part : T -> S -> S) (m : M E T A) : M E S A :=
  fun s => let '(t, r) := m (part s) in (set_part t s, r).
End Monad.

Declare Scope rust_scope.
Delimit Scope rust_scope with rust.

Notation "'do' x <- m ;; k" := (bind m (fun x => k))
  (at level 100, x name, m at next level, right associativity) : rust_scope.
Notation "'do' ' p <- m ;; k" := (bind m (fun y => match y with p => k end))
  (at level 100, p pattern, m at next level, right associativity) : rust_scope.
Notation "m ;;; k" := (bind m (fun _ => k))
  (at level 100, right associativity) : rust_scope.
Open Scope rust_scope.

(** ** Running a computation *)
Lemma bind_Ok {E S A B} (m : M E S A) (k : A -> M E S B) s s' a :
  m s = (s', Ok a) -> bind m k s = k a s'.
Proof. unfold bind. by intros ->. Qed.

Lemma bind_Err {E S A B} (m : M E S A) (k : A -> M E S B) s s' e :
  m s = (s', Err e) -> bind m k s = (s', Err e).
Proof. unfold bind. by intros ->. Qed.

(** Inverting a successful run: every step of it succeeded. *)
Lemma bind_inv_Ok {E S A B} (m : M E S A) (k : A -> M E S B) s s'' b :
  bind m k s = (s'', Ok b) -> exists s' a, m s = (s', Ok a) /\ k a s' = (s'', Ok b).
Proof. unfold bind. destruct (m s) as [s' [a|e|]]; [eauto|done|done]. Qed.

Lemma bind_assoc {E S A B C} (m : M E S A) (k : A -> M E S B) (h : B -> M E S C) s :
  bind (bind m k) h s = bind m (fun a => bind (k a) h) s.
Proof. unfold bind. by destruct (m s) as [s' [a|e|]]. Qed.

(** Peel one step off a hypothesis [m w = (w', Ok a)]. *)
Ltac inv_bind H :=
  let w1 := fresh "w" in let x := fresh "x" in let H1 := fresh "Hstep" in
  apply bind_inv_Ok in H as (w1 & x & H1 & H).

(** ** Invariants of computations

    [preserves I m]: whatever its outcome, [m] takes states in [I] to states in
    [I]. *)
Definition preserves {E S A} (I : S -> Prop) (m : M E S A) : Prop :=
  forall s, I s -> I (fst (m s)).

Lemma preserves_ret {E S A} (I : S -> Prop) (a : A) : preserves I (@ret E S A a).
Proof. by intros s Hs. Qed.
Lemma preserves_fail {E S A} (I : S -> Prop) (e : E) : preserves I (@fail E S A e).
Proof. by intros s Hs. Qed.
Lemma preserves_gets {E S A} (I : S -> Prop) (f : S -> A) : preserves I (@gets E S A f).
Proof. by intros s Hs. Qed.
Lemma preserves_lift {E S A} (I : S -> Prop) (r : outcome E A) : preserves I (@lift E S A r).
Proof. by intros s Hs. Qed.
Lemma preserves_bind {E S A B} (I : S -> Prop) (m : M E S A) (k : A -> M E S B) :
  preserves I m -> (forall a, preserves I (k a)) -> preserves I (bind m k).
Proof.
  intros Hm Hk s Hs. specialize (Hm s Hs). unfold bind.
  destruct (m s) as [s' [a|e|]]; simpl in *; [by apply Hk|done|done].
Qed.
Lemma preserves_for_each {E S A} (I : S -> Prop) (xs : list A) (m : A -> M E S unit) :
  (forall x, preserves I (m x)) -> preserves I (for_each xs m).
Proof.
  intros Hm. induction xs as [|x xs IH]; simpl; [apply preserves_ret|].
  apply preserves_bind; [apply Hm|]. intros _. apply IH.
Qed.
Lemma preserves_fold_each {E S A B} (I : S -> Prop) (xs : list A) (m : B -> A -> M E S B) b :
  (forall b x, preserves I (m b x)) -> preserves I (fold_each xs b m).
Proof.
  intros Hm. revert b. induction xs as [|x xs IH]; intros b; simpl; [apply preserves_ret|].
  apply preserves_bind; [apply Hm|]. intros b'. apply IH.
Qed.
Lemma preserves_ignore {E S A} (I : S -> Prop) (m : M E S A) :
  preserves I m -> preserves I (ignore m).
Proof.
  intros Hm s Hs. specialize (Hm s Hs). unfold ignore.
  destruct (m s) as [s' [a|e|]]; done.
Qed.
Lemma preserves_try {E S A} (I : S -> Prop) (m : M E S A) :
  preserves I m -> preserves I (try m).
Proof.
  intros Hm s Hs. specialize (Hm s Hs). unfold try.
  destruct (m s) as [s' [a|e|]]; done.
Qed.

Create HintDb repo.
#[export] Hint Resolve preserves_ret preserves_fail preserves_gets preserves_lift
  preserves_bind preserves_for_each preserves_fold_each preserves_ignore preserves_try : repo.

(** The error-or-value plumbing of pure fallible functions. *)
Definition obind {E A B} (r : outcome E A) (k : A -> outcome E B) : outcome E B :=
  match r with
  | Ok a => k a
  | Err e => Err e
  | Panic => Panic
  end.
Notation "'try!' x <- r ;; k" := (obind r (fun x => k))
  (at level 100, x name, r at next level, right associativity) : rust_scope.

Lemma obind_Ok {E A B} (r : outcome E A) (k : A -> outcome E B) b :
  obind r k = Ok b <-> exists a, r = Ok a /\ k a = Ok b.
Proof.
  destruct r as [a|e|]; simpl; split; try done; [eauto|intros (a' & [= <-] & Hk); done| |];
    by intros (a' & [=] & Hk).
Qed.

Definition ok_or {E A} (o : option A) (e : E) : outcome E A :=
  match o with Some a => Ok a | None => Err e end.

(** ** Machine integers *)
Definition i64_min : Z := - 2 ^ 63.
Definition i64_max : Z := 2 ^ 63 - 1.
Definition i32_min : Z := - 2 ^ 31.
Definition i32_max : Z := 2 ^ 31 - 1.
Definition u64_max : Z := 2 ^ 64 - 1.
Definition u32_max : Z := 2 ^ 32 - 1.

Definition in_i64 (z : Z) : bool := (i64_min <=? z) && (z <=? i64_max).
Definition in_u64 (z : Z) : bool := (0 <=? z) && (z <=? u64_max).
Definition in_i32 (z : Z) : bool := (i32_min <=? z) && (z <=? i32_max).

(** [i64::checked_add]. *)
Definition checked_add_i64 (a b : Z) : option Z :=
  if in_i64 (a + b) then Some (a + b) else None.
(** [i64::saturating_add]. *)
Definition saturating_add_i64 (a b : Z) : Z :=
  Z.max i64_min (Z.min i64_max (a + b)).
(** [+] on [i32] in a release build. *)
Definition wrapping_i32 (z : Z) : Z := (z - i32_min) mod 2 ^ 32 + i32_min.
(** [as u32] and [as u64] of a signed integer. *)
Definition as_u32 (z : Z) : Z := z mod 2 ^ 32.
Definition as_u64 (z : Z) : Z := z mod 2 ^ 64.
(** [as i64] of an unsigned integer, and [as u16] of an [i32]. *)
Definition as_i64 (z : Z) : Z := (z - i64_min) mod 2 ^ 64 + i64_min.
Definition as_u16 (z : Z) : Z := z mod 2 ^ 16.

(** ** Tactics *)

(** Case analysis on the scrutinee of a [match] or [if], remembering it. *)
Ltac case_any :=
  match goal with
  | |- context [match ?x with _ => _ end] => destruct x eqn:?
  | H : context [match ?x with _ => _ end] |- _ => destruct x eqn:?
  end.

(** Boolean hypotheses to propositions. *)
Ltac b2p :=
  repeat match goal with
  | H : _ && _ = true |- _ => apply andb_true_iff in H; destruct H
  | H : _ && _ = false |- _ => apply andb_false_iff in H
  | H : _ || _ = true |- _ => apply orb_true_iff in H
  | H : _ || _ = false |- _ => apply orb_false_iff in H; destruct H
  | H : negb _ = true |- _ => apply negb_true_iff in H
  | H : negb _ = false |- _ => apply negb_false_iff in H
  | H : (_ =? _) = true |- _ => apply Z.eqb_eq in H
  | H : (_ =? _) = false |- _ => apply Z.eqb_neq in H
  | H : (_ <=? _) = true |- _ => apply Z.leb_le in H
  | H : (_ <=? _) = false |- _ => apply Z.leb_gt in H
  | H : (_ <? _) = true |- _ => apply Z.ltb_lt in H
  | H : (_ <? _) = false |- _ => apply Z.ltb_ge in H
  | H : bool_decide _ = true |- _ => apply bool_decide_eq_true in H
  | H : bool_decide _ = false |- _ => apply bool_decide_eq_false in H
  end.

(** ** Sorting and deduplication

    [Vec::sort_unstable] on a total order and SQL's [ORDER BY]: insertion sort,
    which is stable, with [dedup] ([Vec::dedup]) for consecutive equals. *)
Section Sorting.
Context {A : Type} (leb : A -> A -> bool).

Fixpoint insert_by (x : A) (l : list A) : list A :=
  match l with
  | [] => [x]
  | y :: l' => if leb x y then x :: y :: l' else y :: insert_by x l'
  end.

Fixpoint sort_by (l : list A) : list A :=
  match l with
  | [] => []
  | x :: l' => insert_by x (sort_by l')
  end.

Lemma insert_by_perm x l : Permutation (x :: l) (insert_by x l).
Proof.
  induction l as [|y l IH]; simpl; [done|].
  destruct (leb x y); [done|].
  etransitivity; [apply perm_swap|]. by apply perm_skip.
Qed.

Lemma sort_by_perm l : Permutation l (sort_by l).
Proof.
  induction l as [|x l IH]; simpl; [done|].
  etransitivity; [by apply perm_skip|]. apply insert_by_perm.
Qed.

Lemma sort_by_In x l : In x (sort_by l) <-> In x l.
Proof. split; apply Permutation_in; [symmetry|]; apply sort_by_perm. Qed.

Lemma length_sort_by l : length (sort_by l) = length l.
Proof. symmetry. apply Permutation_length, sort_by_perm. Qed.

Definition le_rel (x y : A) : Prop := leb x y = true.

Hypothesis leb_total : forall x y, leb x y = true \/ leb y x = true.
Hypothesis leb_trans : forall x y z,
  leb x y = true -> leb y z = true -> leb x z = true.

Lemma insert_by_sorted x l :
  StronglySorted le_rel l -> StronglySorted le_rel (insert_by x l).
Proof using leb_total leb_trans.
  induction 1 as [|y l Hs IH Hall]; simpl; [by repeat constructor|].
  destruct (leb x y) eqn:E.
  - constructor; [by constructor|]. constructor; [done|].
    eapply List.Forall_impl; [|exact Hall]. intros z Hz. by eapply leb_trans.
  - constructor; [done|].
    assert (Hyx : le_rel y x) by (destruct (leb_total x y); congruence).
    apply List.Forall_forall. intros z Hz.
    apply (Permutation_in _ (Permutation_sym (insert_by_perm x l))) in Hz.
    destruct Hz as [<-|Hz]; [done|].
    rewrite List.Forall_forall in Hall. by apply Hall.
Qed.

Lemma sort_by_sorted l : StronglySorted le_rel (sort_by l).
Proof using leb_total leb_trans.
  induction l as [|x l IH]; simpl; [constructor|]. by apply insert_by_sorted.
Qed.
End Sorting.

Section Dedup.
Context {A : Type} `{EqDecision A}.

Fixpoint dedup (l : list A) : list A :=
  match l with
  | [] => []
  | x :: l' =>
      match dedup l' with
      | (y :: _) as d => if decide (x = y) then d else x :: d
      | [] => [x]
      end
  end.

Lemma dedup_In x l : In x (dedup l) <-> In x l.
Proof.
  induction l as [|y l IH]; simpl; [done|].
  destruct (dedup l) as [|z d] eqn:E; [simpl in *; tauto|].
  case_decide as Hd; [rewrite Hd|]; simpl in *; tauto.
Qed.

Lemma dedup_sorted (R : A -> A -> Prop) l :
  (forall x y, R x y -> R y x -> x = y) ->
  StronglySorted R l -> StronglySorted (fun x y => R x y /\ x <> y) (dedup l).
Proof.
  intros Hanti. induction 1 as [|x l Hs IH Hall]; simpl; [constructor|].
  destruct (dedup l) as [|z d] eqn:E; [by repeat constructor|].
  assert (Hin : forall w, In w (z :: d) -> In w l)
    by (intros w Hw; apply (dedup_In w l); by rewrite E).
  rewrite List.Forall_forall in Hall.
  case_decide as Hxz; [done|].
  constructor; [done|]. apply List.Forall_forall. intros w Hw. split; [by apply Hall, Hin|].
  intros ->. apply Hxz. apply Hanti; [apply Hall, Hin; by left|].
  destruct Hw as [<-|Hw]; [apply Hall, Hin; by left|].
  inversion_clear IH as [|?? _ Hz]. rewrite List.Forall_forall in Hz. by apply Hz.
Qed.
End Dedup.

(** The two lists of integers that are strictly increasing and have the same
    members are equal. *)
Lemma strictly_sorted_ext (l1 l2 : list Z) :
  StronglySorted Z.lt l1 -> StronglySorted Z.lt l2 ->
  (forall z, In z l1 <-> In z l2) -> l1 = l2.
Proof.
  revert l2. induction l1 as [|x l1 IH]; intros l2 H1 H2 Hiff.
  - destruct l2 as [|y l2]; [done|]. destruct (proj2 (Hiff y)); by left.
  - destruct l2 as [|y l2]; [destruct (proj1 (Hiff x)); by left|].
    inversion_clear H1 as [|?? H1' Hx]. inversion_clear H2 as [|?? H2' Hy].
    rewrite List.Forall_forall in Hx, Hy.
    assert (x = y) as ->.
    { destruct (proj1 (Hiff x)) as [->|Hxy]; [by left|done|].
      destruct (proj2 (Hiff y)) as [->|Hyx]; [by left|done|].
      apply Hy in Hxy. apply Hx in Hyx. lia. }
    f_equal. apply IH; [done..|]. intros z. split; intros Hz.
    + destruct (proj1 (Hiff z)) as [->|]; [by right| |done]. apply Hx in Hz. lia.
    + destruct (proj2 (Hiff z)) as [->|]; [by right| |done]. apply Hy in Hz. lia.
Qed.
