(* ===== verification/RustStr.v ===== *)
(** * Rust strings

    The part of [core::str] and [alloc::string] the program uses.  A [str] is
    the list of its Unicode scalar values; the byte indices the code slices at
    always fall next to an ASCII character, so a slice is a prefix or a suffix
    of that list.  [lit] turns a literal of this file into a [str]. *)

From stdpp Require Import base list.
From Stdlib Require Import ZArith Lia Ascii String.
From S2P Require Import Prelude.

Local Open Scope Z_scope.

Abbreviation str := (list Z).
Abbreviation bytes := (list Z).

Fixpoint lit (s : string) : str :=
  match s with
  | EmptyString => []
  | String a s' => Z.of_nat (nat_of_ascii a) :: lit s'
  end.
Arguments lit s%_string.

Definition str_eqb (a b : str) : bool := bool_decide (a = b).

(** The order of [String]: that of its UTF-8 bytes, which is that of its
    characters. *)
Fixpoint str_leb (a b : str) : bool :=
  match a, b with
  | [], _ => true
  | _ :: _, [] => false
  | x :: a', y :: b' => if x =? y then str_leb a' b' else x <? y
  end.

(** ** Character classes *)

(** [char::is_whitespace]: the Unicode property [White_Space]. *)
Definition is_whitespace (c : Z) : bool :=
  ((9 <=? c) && (c <=? 13)) || (c =? 32) || (c =? 133) || (c =? 160)
  || (c =? 5760) || ((8192 <=? c) && (c <=? 8202)) || (c =? 8232) || (c =? 8233)
  || (c =? 8239) || (c =? 8287) || (c =? 12288).

Definition is_ascii_digit (c : Z) : bool := (48 <=? c) && (c <=? 57).

Definition ascii_lower (c : Z) : Z :=
  if (65 <=? c) && (c <=? 90) then c + 32 else c.
Definition ascii_upper (c : Z) : Z :=
  if (97 <=? c) && (c <=? 122) then c - 32 else c.

Definition to_ascii_lowercase (s : str) : str := map ascii_lower s.
Definition to_ascii_uppercase (s : str) : str := map ascii_upper s.
Definition eq_ignore_ascii_case (a b : str) : bool :=
  str_eqb (to_ascii_lowercase a) (to_ascii_lowercase b).

(** ** Prefixes, suffixes, trimming *)
Fixpoint strip_prefix (p s : str) : option str :=
  match p, s with
  | [], _ => Some s
  | c :: p', d :: s' => if c =? d then strip_prefix p' s' else None
  | _ :: _, [] => None
  end.

Definition strip_suffix (p s : str) : option str :=
  match strip_prefix (rev p) (rev s) with
  | Some r => Some (rev r)
  | None => None
  end.

Definition is_some {A} (o : option A) : bool :=
  match o with Some _ => true | None => false end.

Definition starts_with (p s : str) : bool := is_some (strip_prefix p s).
Definition ends_with (p s : str) : bool := is_some (strip_suffix p s).

Fixpoint trim_start_by (f : Z -> bool) (s : str) : str :=
  match s with
  | c :: s' => if f c then trim_start_by f s' else s
  | [] => []
  end.
Definition trim_end_by (f : Z -> bool) (s : str) : str :=
  rev (trim_start_by f (rev s)).
Definition trim (s : str) : str :=
  trim_end_by is_whitespace (trim_start_by is_whitespace s).

(** ** Splitting, searching, joining *)

(** [s.split(c)]: always at least one piece. *)
Fixpoint split_char (c : Z) (s : str) : list str :=
  match s with
  | [] => [[]]
  | d :: s' =>
      if d =? c then [] :: split_char c s'
      else match split_char c s' with
           | p :: ps => (d :: p) :: ps
           | [] => [[d]]
           end
  end.

(** [s.split_once(c)]. *)
Fixpoint split_once (c : Z) (s : str) : option (str * str) :=
  match s with
  | [] => None
  | d :: s' =>
      if d =? c then Some ([], s')
      else match split_once c s' with
           | Some (a, b) => Some (d :: a, b)
           | None => None
           end
  end.

(** [s.split_whitespace()]: the maximal runs of non-whitespace. *)
Fixpoint split_whitespace_from (cur : str) (s : str) : list str :=
  match s with
  | [] => match cur with [] => [] | _ => [rev cur] end
  | c :: s' =>
      if is_whitespace c then
        match cur with
        | [] => split_whitespace_from [] s'
        | _ => rev cur :: split_whitespace_from [] s'
        end
      else split_whitespace_from (c :: cur) s'
  end.
Definition split_whitespace (s : str) : list str := split_whitespace_from [] s.

(** [s.find(pat)] for a non-empty [pat], as the text before the match and the
    text from the match on. *)
Fixpoint find_str (pat s : str) : option (str * str) :=
  if starts_with pat s then Some ([], s)
  else match s with
       | [] => None
       | c :: s' => match find_str pat s' with
                    | Some (a, b) => Some (c :: a, b)
                    | None => None
                    end
       end.

(** [s.rfind(c)], as the text before and the text after the last [c]. *)
Definition rsplit_once (c : Z) (s : str) : option (str * str) :=
  match split_once c (rev s) with
  | Some (a, b) => Some (rev b, rev a)
  | None => None
  end.

(** [s.replace(c, r)]. *)
Definition replace_char (c : Z) (r : str) (s : str) : str :=
  flat_map (fun d => if d =? c then r else [d]) s.

(** [parts.join(sep)]. *)
Fixpoint join (sep : str) (parts : list str) : str :=
  match parts with
  | [] => []
  | [p] => p
  | p :: ps => p ++ sep ++ join sep ps
  end.

(** ** Decimal integers *)
Fixpoint digits_val (acc : Z) (s : str) : option Z :=
  match s with
  | [] => Some acc
  | c :: s' => if is_ascii_digit c then digits_val (acc * 10 + (c - 48)) s' else None
  end.

Definition parse_digits (s : str) : option Z :=
  match s with
  | [] => None
  | _ => digits_val 0 s
  end.

Definition in_range (lo hi : Z) (o : option Z) : option Z :=
  match o with
  | Some z => if (lo <=? z) && (z <=? hi) then Some z else None
  | None => None
  end.

(** [s.parse::<i64>().ok()]. *)
Definition parse_i64 (s : str) : option Z :=
  in_range i64_min i64_max
    match s with
    | 43 :: s' => parse_digits s'
    | 45 :: s' => match parse_digits s' with Some z => Some (- z) | None => None end
    | _ => parse_digits s
    end.

(** [s.parse::<u64>().ok()], and [usize] on a 64-bit target. *)
Definition parse_u64 (s : str) : option Z :=
  in_range 0 u64_max
    match s with
    | 43 :: s' => parse_digits s'
    | _ => parse_digits s
    end.

(** [str::parse] of an unsigned type up to [max], with its error text: an invalid
    digit is noticed before an overflow at the same place. *)
Fixpoint uint_loop (max acc : Z) (s : str) : Z + str :=
  match s with
  | [] => inl acc
  | c :: s' =>
      if negb (is_ascii_digit c) then inr (lit "invalid digit found in string")
      else
        let n := acc * 10 + (c - 48) in
        if max <? n then inr (lit "number too large to fit in target type")
        else uint_loop max n s'
  end.
Definition parse_uint (max : Z) (s : str) : Z + str :=
  match s with
  | [] => inr (lit "cannot parse integer from empty string")
  | [c] => if is_ascii_digit c then inl (c - 48) else inr (lit "invalid digit found in string")
  | c :: s' => if c =? 43 then uint_loop max 0 s' else uint_loop max 0 s
  end.

Fixpoint digits (fuel : nat) (n : Z) (acc : str) : str :=
  match fuel with
  | O => acc
  | S f => let acc' := (48 + n mod 10) :: acc in
           if n <? 10 then acc' else digits f (n / 10) acc'
  end.

(** [n.to_string()] for an unsigned and for a signed integer; the fuel is the
    number of binary digits of [n], at least its number of decimal ones. *)
Definition fmt_u (n : Z) : str := digits (S (Z.to_nat (Z.log2 n))) n [].
Definition fmt_i (n : Z) : str := if n <? 0 then 45 :: fmt_u (- n) else fmt_u n.

(** ** Facts *)
Lemma str_eqb_eq a b : str_eqb a b = true <-> a = b.
Proof. unfold str_eqb. apply bool_decide_eq_true. Qed.

Lemma str_eqb_refl a : str_eqb a a = true.
Proof. by apply str_eqb_eq. Qed.

Lemma str_eqb_neq a b : str_eqb a b = false <-> a <> b.
Proof. unfold str_eqb. apply bool_decide_eq_false. Qed.

Lemma ascii_lower_idem c : ascii_lower (ascii_lower c) = ascii_lower c.
Proof. unfold ascii_lower. repeat case_match; b2p; lia. Qed.

Lemma to_ascii_lowercase_idem s :
  to_ascii_lowercase (to_ascii_lowercase s) = to_ascii_lowercase s.
Proof.
  unfold to_ascii_lowercase. rewrite map_map. apply map_ext, ascii_lower_idem.
Qed.

Lemma digits_val_digits fuel n acc :
  0 <= n < 2 ^ Z.of_nat fuel -> (0 < fuel)%nat ->
  digits_val 0 (digits fuel n acc) = digits_val n acc.
Proof.
  revert n acc. induction fuel as [|f IH]; intros n acc Hn Hf; [lia|]. simpl.
  assert (Hd : is_ascii_digit (48 + n mod 10) = true).
  { unfold is_ascii_digit. pose proof (Z.mod_pos_bound n 10). lia. }
  assert (Hm : n = n / 10 * 10 + (48 + n mod 10 - 48)).
  { pose proof (Z.div_mod n 10). lia. }
  destruct (n <? 10) eqn:E; b2p.
  - simpl. rewrite Hd. f_equal. rewrite Z.mod_small; lia.
  - rewrite IH; [simpl; by rewrite Hd, <- Hm| |].
    + rewrite Nat2Z.inj_succ, Z.pow_succ_r in Hn by lia.
      split; [apply Z.div_pos; lia|]. apply Z.div_lt_upper_bound; lia.
    + destruct f; [simpl in Hn; lia|lia].
Qed.

Lemma digits_ne fuel n acc : (0 < fuel)%nat \/ acc <> [] -> digits fuel n acc <> [].
Proof.
  revert n acc. induction fuel as [|f IH]; intros n acc H; simpl.
  - destruct H; [lia|done].
  - case_match; [done|]. apply IH. by right.
Qed.

Lemma digits_all_digits fuel n acc :
  Forall (fun c => is_ascii_digit c = true) acc ->
  Forall (fun c => is_ascii_digit c = true) (digits fuel n acc).
Proof.
  revert n acc. induction fuel as [|f IH]; intros n acc H; simpl; [done|].
  assert (is_ascii_digit (48 + n mod 10) = true).
  { unfold is_ascii_digit. pose proof (Z.mod_pos_bound n 10). lia. }
  case_match; [by constructor|]. apply IH. by constructor.
Qed.

Lemma fmt_u_digits n : Forall (fun c => is_ascii_digit c = true) (fmt_u n).
Proof. apply digits_all_digits. constructor. Qed.

Lemma parse_digits_fmt_u n : 0 <= n -> parse_digits (fmt_u n) = Some n.
Proof.
  intros Hn. unfold parse_digits, fmt_u.
  pose proof (digits_ne (S (Z.to_nat (Z.log2 n))) n [] (or_introl (Nat.lt_0_succ _))) as Hne.
  assert (Hv : digits_val 0 (digits (S (Z.to_nat (Z.log2 n))) n []) = Some n);
    [apply digits_val_digits; [split; [done|]|lia]|].
  - rewrite Nat2Z.inj_succ, Z2Nat.id by apply Z.log2_nonneg.
    destruct (Z.eq_dec n 0) as [->|]; [done|]. apply Z.log2_spec. lia.
  - by destruct (digits _ _ _).
Qed.

(** A digit string has no sign, so the signed and unsigned parsers read it as
    the plain digit parser does. *)
Lemma parse_unsigned_shape s :
  Forall (fun c => is_ascii_digit c = true) s ->
  (parse_i64 s = in_range i64_min i64_max (parse_digits s)) /\
  (parse_u64 s = in_range 0 u64_max (parse_digits s)).
Proof.
  intros Hs. destruct s as [|c s]; [done|].
  inversion_clear Hs as [|?? Hc _]. unfold is_ascii_digit in Hc. b2p.
  unfold parse_i64, parse_u64.
  assert (c <> 43 /\ c <> 45) as [? ?] by lia.
  repeat (case_match; try lia; try done).
Qed.

Lemma parse_i64_fmt_u n : 0 <= n <= i64_max -> parse_i64 (fmt_u n) = Some n.
Proof.
  intros Hn. rewrite (proj1 (parse_unsigned_shape _ (fmt_u_digits n))).
  rewrite parse_digits_fmt_u by lia. unfold in_range, i64_min in *.
  destruct (_ && _) eqn:E; [done|]. b2p. lia.
Qed.

Lemma parse_u64_fmt_u n : 0 <= n <= u64_max -> parse_u64 (fmt_u n) = Some n.
Proof.
  intros Hn. rewrite (proj2 (parse_unsigned_shape _ (fmt_u_digits n))).
  rewrite parse_digits_fmt_u by lia. unfold in_range.
  destruct (_ && _) eqn:E; [done|]. b2p. lia.
Qed.

Lemma digits_val_ge s : forall acc n, 0 <= acc -> digits_val acc s = Some n -> acc <= n.
Proof.
  induction s as [|c s IH]; intros acc n Hacc; simpl; [by intros [= <-]|].
  destruct (is_ascii_digit c) eqn:Hc; [|done]. unfold is_ascii_digit in Hc. b2p.
  intros Hv%IH; lia.
Qed.

Lemma uint_loop_digits max s : forall acc n,
  0 <= acc -> n <= max -> digits_val acc s = Some n -> uint_loop max acc s = inl n.
Proof.
  induction s as [|c s IH]; intros acc n Hacc Hn; cbn [digits_val uint_loop]; [by intros [= <-]|].
  destruct (is_ascii_digit c) eqn:Hc; [|done]. cbn [negb]. intros Hv.
  assert (0 <= acc * 10 + (c - 48)) by (unfold is_ascii_digit in Hc; b2p; lia).
  pose proof (digits_val_ge _ _ _ H Hv).
  rewrite (proj2 (Z.ltb_ge _ _)) by lia. by apply IH.
Qed.

Lemma parse_uint_fmt_u max n : 0 <= n <= max -> parse_uint max (fmt_u n) = inl n.
Proof.
  intros [Hn Hmax]. pose proof (parse_digits_fmt_u n Hn) as Hv. pose proof (fmt_u_digits n) as Hd.
  destruct (fmt_u n) as [|c [|c' s]]; [done| |]; inversion_clear Hd as [|?? Hc _].
  - simpl in *. rewrite Hc in *. f_equal. by injection Hv as <-.
  - unfold parse_uint. assert ((c =? 43) = false) as -> by (unfold is_ascii_digit in Hc; b2p; lia).
    by apply uint_loop_digits.
Qed.

(** ** UTF-8: [str::as_bytes] and [String::from_utf8] *)

(** A Unicode scalar value: a code point that is not a surrogate. *)
Definition is_scalar (c : Z) : bool :=
  ((0 <=? c) && (c <? 55296)) || ((57344 <=? c) && (c <? 1114112)).

Definition utf8_char (c : Z) : bytes :=
  if c <? 128 then [c]
  else if c <? 2048 then [192 + c / 64; 128 + c mod 64]
  else if c <? 65536 then [224 + c / 4096; 128 + (c / 64) mod 64; 128 + c mod 64]
  else [240 + c / 262144; 128 + (c / 4096) mod 64; 128 + (c / 64) mod 64; 128 + c mod 64].

Definition as_bytes (s : str) : bytes := flat_map utf8_char s.

(** A continuation byte. *)
Definition is_cont (b : Z) : bool := (128 <=? b) && (b <? 192).

Fixpoint from_utf8 (b : bytes) : option str :=
  match b with
  | [] => Some []
  | b0 :: r0 =>
      if (0 <=? b0) && (b0 <? 128) then cons b0 <$> from_utf8 r0
      else if (194 <=? b0) && (b0 <? 224) then
        match r0 with
        | b1 :: r1 =>
            if is_cont b1
            then cons ((b0 - 192) * 64 + (b1 - 128)) <$> from_utf8 r1 else None
        | _ => None
        end
      else if (224 <=? b0) && (b0 <? 240) then
        match r0 with
        | b1 :: b2 :: r2 =>
            let c := (b0 - 224) * 4096 + (b1 - 128) * 64 + (b2 - 128) in
            if is_cont b1 && is_cont b2 && (2048 <=? c) && is_scalar c
            then cons c <$> from_utf8 r2 else None
        | _ => None
        end
      else if (240 <=? b0) && (b0 <? 245) then
        match r0 with
        | b1 :: b2 :: b3 :: r3 =>
            let c := (b0 - 240) * 262144 + (b1 - 128) * 4096 + (b2 - 128) * 64 + (b3 - 128) in
            if is_cont b1 && is_cont b2 && is_cont b3 && (65536 <=? c) && is_scalar c
            then cons c <$> from_utf8 r3 else None
        | _ => None
        end
      else None
  end.

Lemma from_utf8_char c rest :
  is_scalar c = true -> from_utf8 (utf8_char c ++ rest) = cons c <$> from_utf8 rest.
Proof.
  intros Hc. unfold is_scalar in Hc. unfold utf8_char.
  assert (0 <= c < 1114112) by lia.
  pose proof (Z.div_mod c 64 ltac:(lia)). pose proof (Z.mod_pos_bound c 64 ltac:(lia)).
  pose proof (Z.div_mod (c / 64) 64 ltac:(lia)).
  pose proof (Z.mod_pos_bound (c / 64) 64 ltac:(lia)).
  pose proof (Z.div_mod (c / 4096) 64 ltac:(lia)).
  pose proof (Z.mod_pos_bound (c / 4096) 64 ltac:(lia)).
  assert (c / 64 / 64 = c / 4096) by (rewrite Z.div_div; [done|lia|lia]).
  assert (c / 4096 / 64 = c / 262144) by (rewrite Z.div_div; [done|lia|lia]).
  assert (0 <= c / 262144) by (apply Z.div_pos; lia).
  destruct (c <? 128) eqn:E1; b2p; [|destruct (c <? 2048) eqn:E2; b2p;
    [|destruct (c <? 65536) eqn:E3; b2p]]; cbn [app from_utf8]; unfold is_cont.
  - rewrite (proj2 (Z.leb_le 0 c)), (proj2 (Z.ltb_lt c 128)) by lia. done.
  - replace ((0 <=? 192 + c / 64) && (192 + c / 64 <? 128)) with false by lia.
    replace ((194 <=? 192 + c / 64) && (192 + c / 64 <? 224)) with true by lia.
    replace ((128 <=? 128 + c mod 64) && (128 + c mod 64 <? 192)) with true by lia.
    f_equal. f_equal. lia.
  - replace ((0 <=? 224 + c / 4096) && (224 + c / 4096 <? 128)) with false by lia.
    replace ((194 <=? 224 + c / 4096) && (224 + c / 4096 <? 224)) with false by lia.
    replace ((224 <=? 224 + c / 4096) && (224 + c / 4096 <? 240)) with true by lia.
    replace ((224 + c / 4096 - 224) * 4096 + (128 + (c / 64) mod 64 - 128) * 64 +
             (128 + c mod 64 - 128)) with c by lia.
    replace (is_scalar c) with true by (unfold is_scalar; lia).
    match goal with |- (if ?b then _ else _) = _ => replace b with true by lia end. done.
  - replace ((0 <=? 240 + c / 262144) && (240 + c / 262144 <? 128)) with false by lia.
    replace ((194 <=? 240 + c / 262144) && (240 + c / 262144 <? 224)) with false by lia.
    replace ((224 <=? 240 + c / 262144) && (240 + c / 262144 <? 240)) with false by lia.
    replace ((240 <=? 240 + c / 262144) && (240 + c / 262144 <? 245)) with true by lia.
    replace ((240 + c / 262144 - 240) * 262144 + (128 + (c / 4096) mod 64 - 128) * 4096 +
             (128 + (c / 64) mod 64 - 128) * 64 + (128 + c mod 64 - 128)) with c by lia.
    replace (is_scalar c) with true by (unfold is_scalar; lia).
    match goal with |- (if ?b then _ else _) = _ => replace b with true by lia end. done.
Qed.

(** Decoding what was encoded gives the string back. *)
Lemma from_utf8_as_bytes s :
  Forall (fun c => is_scalar c = true) s -> from_utf8 (as_bytes s) = Some s.
Proof.
  induction 1 as [|c s Hc _ IH]; [done|].
  change (as_bytes (c :: s)) with (utf8_char c ++ as_bytes s).
  by rewrite from_utf8_char, IH.
Qed.

(** [String::from_utf8_lossy]: each maximal invalid sequence becomes U+FFFD.
    [utf8_step] is one step: the character and the bytes it takes.  A missing
    byte reads as 0. *)
Definition utf8_step (b : bytes) : Z * nat :=
  let at_ i := nth i b 0 in
  let b0 := at_ 0%nat in
  let b1 := at_ 1%nat in
  let second_ok lo hi := (lo <=? b1) && (b1 <? hi) in
  let bad n := (65533, n) in
  if b0 <? 128 then (b0, 1%nat)
  else if (194 <=? b0) && (b0 <? 224) then
    if is_cont b1 then ((b0 - 192) * 64 + (b1 - 128), 2%nat) else bad 1%nat
  else if (224 <=? b0) && (b0 <? 240) then
    if negb (if b0 =? 224 then second_ok 160 192
             else if b0 =? 237 then second_ok 128 160 else is_cont b1) then bad 1%nat
    else if negb (is_cont (at_ 2%nat)) then bad 2%nat
    else ((b0 - 224) * 4096 + (b1 - 128) * 64 + (at_ 2%nat - 128), 3%nat)
  else if (240 <=? b0) && (b0 <? 245) then
    if negb (if b0 =? 240 then second_ok 144 192
             else if b0 =? 244 then second_ok 128 144 else is_cont b1) then bad 1%nat
    else if negb (is_cont (at_ 2%nat)) then bad 2%nat
    else if negb (is_cont (at_ 3%nat)) then bad 3%nat
    else ((b0 - 240) * 262144 + (b1 - 128) * 4096 + (at_ 2%nat - 128) * 64 +
          (at_ 3%nat - 128), 4%nat)
  else bad 1%nat.

(** Every step takes a byte, so the number of bytes is enough fuel. *)
Fixpoint lossy_loop (fuel : nat) (b : bytes) : str :=
  match fuel, b with
  | S fuel', _ :: _ => let '(c, n) := utf8_step b in c :: lossy_loop fuel' (drop n b)
  | _, _ => []
  end.
Definition from_utf8_lossy (b : bytes) : str := lossy_loop (List.length b) b.
