(* ===== verification/Metrics.v ===== *)
(** * Metrics

    Models crates/metrics/src/lib.rs: the counters and gauges of [AppMetrics],
    the methods that move them and the text of [render_static].  The four locked
    maps are [gmap]s; an [AtomicU64] wraps at 2^64 and an [AtomicI64] at 2^63.
    The decimal text of a quotient of floats is a parameter. *)

From stdpp Require Import base strings list gmap.
From Stdlib Require Import ZArith Lia.
From S2P Require Import Prelude RustStr.

Local Open Scope Z_scope.

(** ** State *)
Record AppMetrics : Type := mkAppMetrics {
  active_connections : Z;
  authenticated_sessions : Z;
  commands_total : Z;
  cache_hits : Z;
  cache_misses : Z;
  downstream_bytes_served : Z;
  upstream_bytes_fetched : Z;
  upstream_bytes_sent : Z;
  upstream_connections : Z;
  object_store_bytes_read : Z;
  object_store_bytes_written : Z;
  redis_pubsub_events_published : Z;
  redis_pubsub_events_relayed : Z;
  sync_runs_total : Z;
  sync_runs_failed : Z;
  sync_duration_seconds_total : Z;
  command_duration_nanos_total : gmap str Z;
  command_duration_count : gmap str Z;
  command_error_counts : gmap str Z;
  command_counts : gmap str Z
}.

Definition AppMetrics_new : AppMetrics :=
  mkAppMetrics 0 0 0 0 0 0 0 0 0 0 0 0 0 0 0 0 ∅ ∅ ∅ ∅.

(** [fetch_add] on an [AtomicU64], and [fetch_add]/[fetch_sub] on an [AtomicI64]. *)
Definition add_u64 (a b : Z) : Z := as_u64 (a + b).
Definition add_i64 (a b : Z) : Z := as_i64 (a + b).

(** [*counts.entry(key).or_insert(0) += n]; the counts are [u64], the sum of the
    nanoseconds a [u128]. *)
Definition bump (width : Z) (key : str) (n : Z) (m : gmap str Z) : gmap str Z :=
  <[key := (default 0 (m !! key) + n) mod 2 ^ width]> m.

(** ** Methods *)
Definition inc_active_connections (m : AppMetrics) : AppMetrics :=
  mkAppMetrics (add_i64 (active_connections m) 1) (authenticated_sessions m) (commands_total
    m) (cache_hits m) (cache_misses m) (downstream_bytes_served m) (upstream_bytes_fetched
    m) (upstream_bytes_sent m) (upstream_connections m) (object_store_bytes_read m)
    (object_store_bytes_written m) (redis_pubsub_events_published m)
    (redis_pubsub_events_relayed m) (sync_runs_total m) (sync_runs_failed m)
    (sync_duration_seconds_total m) (command_duration_nanos_total m) (command_duration_count
    m) (command_error_counts m) (command_counts m).
Definition dec_active_connections (m : AppMetrics) : AppMetrics :=
  mkAppMetrics (add_i64 (active_connections m) (-1)) (authenticated_sessions m)
    (commands_total m) (cache_hits m) (cache_misses m) (downstream_bytes_served m)
    (upstream_bytes_fetched m) (upstream_bytes_sent m) (upstream_connections m)
    (object_store_bytes_read m) (object_store_bytes_written m)
    (redis_pubsub_events_published m) (redis_pubsub_events_relayed m) (sync_runs_total m)
    (sync_runs_failed m) (sync_duration_seconds_total m) (command_duration_nanos_total m)
    (command_duration_count m) (command_error_counts m) (command_counts m).
Definition inc_authenticated_sessions (m : AppMetrics) : AppMetrics :=
  mkAppMetrics (active_connections m) (add_i64 (authenticated_sessions m) 1) (commands_total
    m) (cache_hits m) (cache_misses m) (downstream_bytes_served m) (upstream_bytes_fetched
    m) (upstream_bytes_sent m) (upstream_connections m) (object_store_bytes_read m)
    (object_store_bytes_written m) (redis_pubsub_events_published m)
    (redis_pubsub_events_relayed m) (sync_runs_total m) (sync_runs_failed m)
    (sync_duration_seconds_total m) (command_duration_nanos_total m) (command_duration_count
    m) (command_error_counts m) (command_counts m).
Definition dec_authenticated_sessions (m : AppMetrics) : AppMetrics :=
  mkAppMetrics (active_connections m) (add_i64 (authenticated_sessions m) (-1))
    (commands_total m) (cache_hits m) (cache_misses m) (downstream_bytes_served m)
    (upstream_bytes_fetched m) (upstream_bytes_sent m) (upstream_connections m)
    (object_store_bytes_read m) (object_store_bytes_written m)
    (redis_pubsub_events_published m) (redis_pubsub_events_relayed m) (sync_runs_total m)
    (sync_runs_failed m) (sync_duration_seconds_total m) (command_duration_nanos_total m)
    (command_duration_count m) (command_error_counts m) (command_counts m).
Definition record_command (command : str) (m : AppMetrics) : AppMetrics :=
  mkAppMetrics (active_connections m) (authenticated_sessions m) (add_u64 (commands_total m)
    1) (cache_hits m) (cache_misses m) (downstream_bytes_served m) (upstream_bytes_fetched
    m) (upstream_bytes_sent m) (upstream_connections m) (object_store_bytes_read m)
    (object_store_bytes_written m) (redis_pubsub_events_published m)
    (redis_pubsub_events_relayed m) (sync_runs_total m) (sync_runs_failed m)
    (sync_duration_seconds_total m) (command_duration_nanos_total m) (command_duration_count
    m) (command_error_counts m) (bump 64 (to_ascii_uppercase command) 1 (command_counts m)).
Definition record_cache_hit (m : AppMetrics) : AppMetrics :=
  mkAppMetrics (active_connections m) (authenticated_sessions m) (commands_total m) (add_u64
    (cache_hits m) 1) (cache_misses m) (downstream_bytes_served m) (upstream_bytes_fetched
    m) (upstream_bytes_sent m) (upstream_connections m) (object_store_bytes_read m)
    (object_store_bytes_written m) (redis_pubsub_events_published m)
    (redis_pubsub_events_relayed m) (sync_runs_total m) (sync_runs_failed m)
    (sync_duration_seconds_total m) (command_duration_nanos_total m) (command_duration_count
    m) (command_error_counts m) (command_counts m).
Definition record_cache_miss (m : AppMetrics) : AppMetrics :=
  mkAppMetrics (active_connections m) (authenticated_sessions m) (commands_total m)
    (cache_hits m) (add_u64 (cache_misses m) 1) (downstream_bytes_served m)
    (upstream_bytes_fetched m) (upstream_bytes_sent m) (upstream_connections m)
    (object_store_bytes_read m) (object_store_bytes_written m)
    (redis_pubsub_events_published m) (redis_pubsub_events_relayed m) (sync_runs_total m)
    (sync_runs_failed m) (sync_duration_seconds_total m) (command_duration_nanos_total m)
    (command_duration_count m) (command_error_counts m) (command_counts m).
Definition record_downstream_bytes (n : Z) (m : AppMetrics) : AppMetrics :=
  mkAppMetrics (active_connections m) (authenticated_sessions m) (commands_total m)
    (cache_hits m) (cache_misses m) (add_u64 (downstream_bytes_served m) n)
    (upstream_bytes_fetched m) (upstream_bytes_sent m) (upstream_connections m)
    (object_store_bytes_read m) (object_store_bytes_written m)
    (redis_pubsub_events_published m) (redis_pubsub_events_relayed m) (sync_runs_total m)
    (sync_runs_failed m) (sync_duration_seconds_total m) (command_duration_nanos_total m)
    (command_duration_count m) (command_error_counts m) (command_counts m).
Definition record_bytes_read (n : Z) (m : AppMetrics) : AppMetrics :=
  mkAppMetrics (active_connections m) (authenticated_sessions m) (commands_total m)
    (cache_hits m) (cache_misses m) (downstream_bytes_served m) (upstream_bytes_fetched m)
    (upstream_bytes_sent m) (upstream_connections m) (add_u64 (object_store_bytes_read m) n)
    (object_store_bytes_written m) (redis_pubsub_events_published m)
    (redis_pubsub_events_relayed m) (sync_runs_total m) (sync_runs_failed m)
    (sync_duration_seconds_total m) (command_duration_nanos_total m) (command_duration_count
    m) (command_error_counts m) (command_counts m).
Definition record_bytes_written (n : Z) (m : AppMetrics) : AppMetrics :=
  mkAppMetrics (active_connections m) (authenticated_sessions m) (commands_total m)
    (cache_hits m) (cache_misses m) (downstream_bytes_served m) (upstream_bytes_fetched m)
    (upstream_bytes_sent m) (upstream_connections m) (object_store_bytes_read m) (add_u64
    (object_store_bytes_written m) n) (redis_pubsub_events_published m)
    (redis_pubsub_events_relayed m) (sync_runs_total m) (sync_runs_failed m)
    (sync_duration_seconds_total m) (command_duration_nanos_total m) (command_duration_count
    m) (command_error_counts m) (command_counts m).
Definition record_upstream_bytes_fetched (n : Z) (m : AppMetrics) : AppMetrics :=
  mkAppMetrics (active_connections m) (authenticated_sessions m) (commands_total m)
    (cache_hits m) (cache_misses m) (downstream_bytes_served m) (add_u64
    (upstream_bytes_fetched m) n) (upstream_bytes_sent m) (upstream_connections m)
    (object_store_bytes_read m) (object_store_bytes_written m)
    (redis_pubsub_events_published m) (redis_pubsub_events_relayed m) (sync_runs_total m)
    (sync_runs_failed m) (sync_duration_seconds_total m) (command_duration_nanos_total m)
    (command_duration_count m) (command_error_counts m) (command_counts m).
Definition record_upstream_bytes_sent (n : Z) (m : AppMetrics) : AppMetrics :=
  mkAppMetrics (active_connections m) (authenticated_sessions m) (commands_total m)
    (cache_hits m) (cache_misses m) (downstream_bytes_served m) (upstream_bytes_fetched m)
    (add_u64 (upstream_bytes_sent m) n) (upstream_connections m) (object_store_bytes_read m)
    (object_store_bytes_written m) (redis_pubsub_events_published m)
    (redis_pubsub_events_relayed m) (sync_runs_total m) (sync_runs_failed m)
    (sync_duration_seconds_total m) (command_duration_nanos_total m) (command_duration_count
    m) (command_error_counts m) (command_counts m).
Definition inc_upstream_connections (m : AppMetrics) : AppMetrics :=
  mkAppMetrics (active_connections m) (authenticated_sessions m) (commands_total m)
    (cache_hits m) (cache_misses m) (downstream_bytes_served m) (upstream_bytes_fetched m)
    (upstream_bytes_sent m) (add_i64 (upstream_connections m) 1) (object_store_bytes_read m)
    (object_store_bytes_written m) (redis_pubsub_events_published m)
    (redis_pubsub_events_relayed m) (sync_runs_total m) (sync_runs_failed m)
    (sync_duration_seconds_total m) (command_duration_nanos_total m) (command_duration_count
    m) (command_error_counts m) (command_counts m).
Definition dec_upstream_connections (m : AppMetrics) : AppMetrics :=
  mkAppMetrics (active_connections m) (authenticated_sessions m) (commands_total m)
    (cache_hits m) (cache_misses m) (downstream_bytes_served m) (upstream_bytes_fetched m)
    (upstream_bytes_sent m) (add_i64 (upstream_connections m) (-1)) (object_store_bytes_read
    m) (object_store_bytes_written m) (redis_pubsub_events_published m)
    (redis_pubsub_events_relayed m) (sync_runs_total m) (sync_runs_failed m)
    (sync_duration_seconds_total m) (command_duration_nanos_total m) (command_duration_count
    m) (command_error_counts m) (command_counts m).
Definition record_redis_pubsub_event_published (m : AppMetrics) : AppMetrics :=
  mkAppMetrics (active_connections m) (authenticated_sessions m) (commands_total m)
    (cache_hits m) (cache_misses m) (downstream_bytes_served m) (upstream_bytes_fetched m)
    (upstream_bytes_sent m) (upstream_connections m) (object_store_bytes_read m)
    (object_store_bytes_written m) (add_u64 (redis_pubsub_events_published m) 1)
    (redis_pubsub_events_relayed m) (sync_runs_total m) (sync_runs_failed m)
    (sync_duration_seconds_total m) (command_duration_nanos_total m) (command_duration_count
    m) (command_error_counts m) (command_counts m).
Definition record_redis_pubsub_event_relayed (m : AppMetrics) : AppMetrics :=
  mkAppMetrics (active_connections m) (authenticated_sessions m) (commands_total m)
    (cache_hits m) (cache_misses m) (downstream_bytes_served m) (upstream_bytes_fetched m)
    (upstream_bytes_sent m) (upstream_connections m) (object_store_bytes_read m)
    (object_store_bytes_written m) (redis_pubsub_events_published m) (add_u64
    (redis_pubsub_events_relayed m) 1) (sync_runs_total m) (sync_runs_failed m)
    (sync_duration_seconds_total m) (command_duration_nanos_total m) (command_duration_count
    m) (command_error_counts m) (command_counts m).
Definition record_run (duration_seconds : Z) (succeeded : bool) (m : AppMetrics) : AppMetrics :=
  mkAppMetrics (active_connections m) (authenticated_sessions m) (commands_total m)
    (cache_hits m) (cache_misses m) (downstream_bytes_served m) (upstream_bytes_fetched m)
    (upstream_bytes_sent m) (upstream_connections m) (object_store_bytes_read m)
    (object_store_bytes_written m) (redis_pubsub_events_published m)
    (redis_pubsub_events_relayed m) (add_u64 (sync_runs_total m) 1) (if succeeded then
    sync_runs_failed m else add_u64 (sync_runs_failed m) 1) (add_u64
    (sync_duration_seconds_total m) duration_seconds) (command_duration_nanos_total m)
    (command_duration_count m) (command_error_counts m) (command_counts m).
Definition record_command_duration (command : str) (nanos : Z) (m : AppMetrics) : AppMetrics :=
  mkAppMetrics (active_connections m) (authenticated_sessions m) (commands_total m)
    (cache_hits m) (cache_misses m) (downstream_bytes_served m) (upstream_bytes_fetched m)
    (upstream_bytes_sent m) (upstream_connections m) (object_store_bytes_read m)
    (object_store_bytes_written m) (redis_pubsub_events_published m)
    (redis_pubsub_events_relayed m) (sync_runs_total m) (sync_runs_failed m)
    (sync_duration_seconds_total m) (bump 128 (to_ascii_uppercase command) nanos
    (command_duration_nanos_total m)) (bump 64 (to_ascii_uppercase command) 1
    (command_duration_count m)) (command_error_counts m) (command_counts m).
Definition record_command_error (command : str) (m : AppMetrics) : AppMetrics :=
  mkAppMetrics (active_connections m) (authenticated_sessions m) (commands_total m)
    (cache_hits m) (cache_misses m) (downstream_bytes_served m) (upstream_bytes_fetched m)
    (upstream_bytes_sent m) (upstream_connections m) (object_store_bytes_read m)
    (object_store_bytes_written m) (redis_pubsub_events_published m)
    (redis_pubsub_events_relayed m) (sync_runs_total m) (sync_runs_failed m)
    (sync_duration_seconds_total m) (command_duration_nanos_total m) (command_duration_count
    m) (bump 64 (to_ascii_uppercase command) 1 (command_error_counts m)) (command_counts m).

(** ** Rendering *)

(** [format!("{}", a as f64 / b as f64)]. *)
Class Floats : Type := { fmt_quotient : Z -> Z -> str }.

Definition metric (name help kind value : str) : list str :=
  [lit "# HELP " ++ name ++ lit " " ++ help; lit "# TYPE " ++ name ++ lit " " ++ kind;
   name ++ lit " " ++ value].

(** A sample with the label [command]. *)
Definition command_sample (name command value : str) : str :=
  name ++ lit "{command=" ++ [34] ++ command ++ [34] ++ lit "} " ++ value.

(** The entries of a [HashMap] sorted by key. *)
Definition sorted_entries (m : gmap str Z) : list (str * Z) :=
  sort_by (fun a b => str_leb (fst a) (fst b)) (map_to_list m).

Definition gauge : str := lit "gauge".
Definition counter : str := lit "counter".

Definition duration_lines `{Floats} (m : AppMetrics) : list str :=
  match sorted_entries (command_duration_count m) with
  | [] => []
  | entries =>
      [lit "# HELP imap_command_duration_seconds_total Total command duration in seconds";
       lit "# TYPE imap_command_duration_seconds_total counter";
       lit "# HELP imap_command_duration_seconds_count Command count used for duration totals";
       lit "# TYPE imap_command_duration_seconds_count counter"] ++
      flat_map (fun '(command, count) =>
        let nanos := default 0 (command_duration_nanos_total m !! command) in
        let errors := default 0 (command_error_counts m !! command) in
        [command_sample (lit "imap_command_duration_seconds_total") command
           (fmt_quotient nanos 1000000000);
         command_sample (lit "imap_command_duration_seconds_count") command (fmt_u count);
         command_sample (lit "imap_command_errors_total") command (fmt_u errors)]) entries
  end.

Definition render_lines `{Floats} (m : AppMetrics) : list str :=
  let total_cache := Z.min (cache_hits m + cache_misses m) u64_max in
  metric (lit "imap_active_connections") (lit "Active IMAP connections") gauge
    (fmt_i (active_connections m)) ++
  metric (lit "imap_authenticated_sessions") (lit "Authenticated IMAP sessions") gauge
    (fmt_i (authenticated_sessions m)) ++
  metric (lit "imap_commands_total") (lit "IMAP commands processed") counter
    (fmt_u (commands_total m)) ++
  metric (lit "imap_cache_hits") (lit "Cache hits") counter (fmt_u (cache_hits m)) ++
  metric (lit "imap_cache_misses") (lit "Cache misses") counter (fmt_u (cache_misses m)) ++
  metric (lit "imap_cache_hit_ratio") (lit "Cache hit ratio") gauge
    (if total_cache =? 0 then fmt_quotient 0 1 else fmt_quotient (cache_hits m) total_cache) ++
  metric (lit "imap_downstream_bytes_served") (lit "Bytes served to clients") counter
    (fmt_u (downstream_bytes_served m)) ++
  metric (lit "imap_upstream_bytes_fetched") (lit "Bytes fetched from upstream IMAP servers")
    counter (fmt_u (upstream_bytes_fetched m)) ++
  metric (lit "imap_upstream_bytes_sent") (lit "Bytes sent to upstream IMAP servers") counter
    (fmt_u (upstream_bytes_sent m)) ++
  metric (lit "imap_upstream_connections") (lit "Active upstream IMAP connections") gauge
    (fmt_i (upstream_connections m)) ++
  metric (lit "imap_object_store_bytes_read") (lit "Bytes read from object storage") counter
    (fmt_u (object_store_bytes_read m)) ++
  metric (lit "imap_object_store_bytes_written") (lit "Bytes written to object storage") counter
    (fmt_u (object_store_bytes_written m)) ++
  metric (lit "imap_redis_pubsub_events_published") (lit "Redis pub/sub events published") counter
    (fmt_u (redis_pubsub_events_published m)) ++
  metric (lit "imap_redis_pubsub_events_relayed") (lit "Redis pub/sub events relayed") counter
    (fmt_u (redis_pubsub_events_relayed m)) ++
  metric (lit "imap_sync_runs_total") (lit "Sync runs completed") counter
    (fmt_u (sync_runs_total m)) ++
  metric (lit "imap_sync_runs_failed") (lit "Sync runs that failed") counter
    (fmt_u (sync_runs_failed m)) ++
  metric (lit "imap_sync_duration_seconds_total") (lit "Total sync duration in seconds") counter
    (fmt_u (sync_duration_seconds_total m)) ++
  map (fun '(command, count) =>
    command_sample (lit "imap_commands_total") command (fmt_u count))
    (sorted_entries (command_counts m)) ++
  duration_lines m.

Definition render_static `{Floats} (m : AppMetrics) : str :=
  flat_map (fun line => line ++ [10]) (render_lines m).

Definition escape_metric_label (value : str) : str :=
  replace_char 34 [92; 34] (replace_char 92 [92; 92] value).
