(* ===== verification/Domain.v ===== *)
(** * The shared domain: errors, JSON values, enums and records

    Models crates/core/src/error.rs and crates/core/src/domain.rs: the crate's
    [Error], the enums with their [Display] and [FromStr], and the record types
    the other components exchange.  A [DateTime<Utc>] is its number of
    microseconds since the epoch, an [i64] or [i32] an integer. *)

From stdpp Require Import base strings list decidable.
From Stdlib Require Import ZArith Lia.
From S2P Require Import Prelude RustStr.

Local Open Scope Z_scope.
Local Set Warnings "-register-all".

(** ** serde_json::Value

    The constructors the program builds and inspects.  Numbers are the integers
    ([i64] and [u64]); an object is the association list of its entries.  The
    program never builds a floating-point number. *)
Inductive Value : Type :=
| Null
| Bool (b : bool)
| Number (n : Z)
| VString (s : str)
| Array (vs : list Value)
| Object (fields : list (str * Value)).

(** [value.get(key)], [as_str], [as_i64], [as_u64], [as_array]. *)
Fixpoint assoc (k : str) (l : list (str * Value)) : option Value :=
  match l with
  | [] => None
  | (k', v) :: l' => if str_eqb k k' then Some v else assoc k l'
  end.

Definition Value_get (v : Value) (key : str) : option Value :=
  match v with Object fs => assoc key fs | _ => None end.
Definition Value_as_str (v : Value) : option str :=
  match v with VString s => Some s | _ => None end.
Definition Value_as_i64 (v : Value) : option Z :=
  match v with Number n => if in_i64 n then Some n else None | _ => None end.
Definition Value_as_u64 (v : Value) : option Z :=
  match v with Number n => if in_u64 n then Some n else None | _ => None end.
Definition Value_as_array (v : Value) : option (list Value) :=
  match v with Array vs => Some vs | _ => None end.

(** [json!(opt)]. *)
Definition json_opt {A} (f : A -> Value) (o : option A) : Value :=
  match o with Some a => f a | None => Null end.
Definition json_strings (l : list str) : Value := Array (map VString l).

(** ** Errors *)

(** The ways a statement fails at PostgreSQL or in sqlx's decoding. *)
Inductive SqlxError : Type :=
| RowNotFound
| UniqueViolation (constraint : str)
| ForeignKeyViolation (constraint : str)
| NumericOutOfRange
| UnexpectedNull.

Inductive Error : Type :=
| EConfig (msg : str)
| EAuthenticationFailed
| EImapCommand (msg : str)
| EParse (msg : str)
| EStorage (msg : str)
| EIo (msg : str)
| ETomlDe (msg : str)
| ETomlSer (msg : str)
| ESqlx (e : SqlxError)
| EMigrate (msg : str)
| EUtf8 (msg : str)
| EUtf8Slice (msg : str).

(** [Error]'s [Display]; a transparent variant prints what the foreign error
    prints, which is [foreign]. *)
Definition Error_to_string (foreign : Error -> str) (e : Error) : str :=
  match e with
  | EConfig m => lit "configuration error: " ++ m
  | EAuthenticationFailed => lit "authentication failed"
  | EImapCommand m => lit "invalid IMAP command: " ++ m
  | EParse m => lit "parse error: " ++ m
  | EStorage m => lit "storage error: " ++ m
  | _ => foreign e
  end.

Abbreviation Result := (outcome Error).

(** ** Enums *)
Inductive UpstreamTlsMode : Type := Plain | StartTls | Tls.
Inductive UpstreamAuthMethod : Type := Login | OAuth2 | XOAuth2.
Inductive MutationStatus : Type := Pending | InFlight | Succeeded | Failed | DeadLetter.

#[export] Instance UpstreamTlsMode_eq_dec : EqDecision UpstreamTlsMode.
Proof. solve_decision. Defined.
#[export] Instance UpstreamAuthMethod_eq_dec : EqDecision UpstreamAuthMethod.
Proof. solve_decision. Defined.
#[export] Instance MutationStatus_eq_dec : EqDecision MutationStatus.
Proof. solve_decision. Defined.

(** A [match] of a string against literal arms, the first equal one wins. *)
Fixpoint match_str {A} (s : str) (arms : list (str * A)) : option A :=
  match arms with
  | [] => None
  | (p, a) :: arms' => if str_eqb s p then Some a else match_str s arms'
  end.

Definition UpstreamTlsMode_to_string (m : UpstreamTlsMode) : str :=
  match m with
  | Plain => lit "plain"
  | StartTls => lit "starttls"
  | Tls => lit "tls"
  end.

Definition UpstreamTlsMode_from_str (s : str) : UpstreamTlsMode + str :=
  match match_str (to_ascii_lowercase s)
          [(lit "plain", Plain); (lit "starttls", StartTls); (lit "tls", Tls)] with
  | Some m => inl m
  | None => inr (lit "invalid upstream TLS mode")
  end.

Definition UpstreamAuthMethod_to_string (m : UpstreamAuthMethod) : str :=
  match m with
  | Login => lit "login"
  | OAuth2 => lit "oauth2"
  | XOAuth2 => lit "xoauth2"
  end.

Definition UpstreamAuthMethod_from_str (s : str) : UpstreamAuthMethod + str :=
  match match_str (to_ascii_lowercase s)
          [(lit "login", Login); (lit "oauth2", OAuth2); (lit "xoauth2", XOAuth2);
           (lit "xoauth", XOAuth2)] with
  | Some m => inl m
  | None => inr (lit "invalid upstream auth method")
  end.

Definition MutationStatus_to_string (s : MutationStatus) : str :=
  match s with
  | Pending => lit "pending"
  | InFlight => lit "in_flight"
  | Succeeded => lit "succeeded"
  | Failed => lit "failed"
  | DeadLetter => lit "dead_letter"
  end.

Definition MutationStatus_from_str (s : str) : MutationStatus + str :=
  match match_str (to_ascii_lowercase s)
          [(lit "pending", Pending); (lit "in_flight", InFlight); (lit "inflight", InFlight);
           (lit "succeeded", Succeeded); (lit "failed", Failed);
           (lit "dead_letter", DeadLetter); (lit "deadletter", DeadLetter)] with
  | Some m => inl m
  | None => inr (lit "invalid mutation status")
  end.

(** ** Records *)
Record User : Type := mkUser {
  User_id : Z;
  User_username_email : str;
  User_password_hash : str;
  User_created_at : Z;
  User_disabled_at : option Z
}.

Record MailAccount : Type := mkMailAccount {
  MailAccount_id : Z;
  MailAccount_user_id : Z;
  MailAccount_display_name : str;
  MailAccount_email_address : str;
  MailAccount_upstream_host : str;
  MailAccount_upstream_port : Z;
  MailAccount_upstream_tls_mode : UpstreamTlsMode;
  MailAccount_upstream_auth_method : UpstreamAuthMethod;
  MailAccount_encrypted_upstream_username : bytes;
  MailAccount_encrypted_upstream_secret : bytes;
  MailAccount_created_at : Z;
  MailAccount_disabled_at : option Z;
  MailAccount_last_sync_at : option Z;
  MailAccount_last_sync_error : option str
}.

Record Mailbox : Type := mkMailbox {
  Mailbox_id : Z;
  Mailbox_account_id : Z;
  Mailbox_name : str;
  Mailbox_canonical_name : str;
  Mailbox_delimiter : option str;
  Mailbox_attributes : list str;
  Mailbox_subscribed : bool;
  Mailbox_special_use : option str;
  Mailbox_uidvalidity : option Z;
  Mailbox_uidnext : option Z;
  Mailbox_highestmodseq : option Z;
  Mailbox_exists_count : Z;
  Mailbox_recent_count : Z;
  Mailbox_unseen_count : Z;
  Mailbox_created_at : Z;
  Mailbox_updated_at : Z
}.

Record Message : Type := mkMessage {
  Message_id : Z;
  Message_account_id : Z;
  Message_rfc822_blob_key : str;
  Message_rfc822_sha256 : str;
  Message_message_id_header : option str;
  Message_subject : option str;
  Message_from_json : Value;
  Message_to_json : Value;
  Message_cc_json : Value;
  Message_bcc_json : Value;
  Message_reply_to_json : Value;
  Message_envelope_json : Value;
  Message_bodystructure_json : Value;
  Message_internal_date : option Z;
  Message_sent_date : option Z;
  Message_size_octets : Z;
  Message_text_preview : option str;
  Message_created_at : Z
}.

Record MailboxMessage : Type := mkMailboxMessage {
  MailboxMessage_id : Z;
  MailboxMessage_mailbox_id : Z;
  MailboxMessage_message_id : Z;
  MailboxMessage_local_uid : Z;
  MailboxMessage_upstream_uid : option Z;
  MailboxMessage_modseq : option Z;
  MailboxMessage_flags : list str;
  MailboxMessage_keywords : list str;
  MailboxMessage_is_expunged : bool;
  MailboxMessage_expunged_at : option Z;
  MailboxMessage_created_at : Z;
  MailboxMessage_updated_at : Z
}.

Record MimePart : Type := mkMimePart {
  MimePart_id : Z;
  MimePart_message_id : Z;
  MimePart_part_path : str;
  MimePart_content_type : str;
  MimePart_charset : option str;
  MimePart_disposition : option str;
  MimePart_filename : option str;
  MimePart_content_id : option str;
  MimePart_size_octets : Z;
  MimePart_blob_key : str;
  MimePart_sha256 : str;
  MimePart_transfer_encoding : option str;
  MimePart_metadata_json : Value
}.

Record UidMapping : Type := mkUidMapping {
  UidMapping_id : Z;
  UidMapping_mailbox_id : Z;
  UidMapping_local_uid : Z;
  UidMapping_upstream_uid : Z;
  UidMapping_upstream_uidvalidity : Z;
  UidMapping_created_at : Z
}.

Record SyncState : Type := mkSyncState {
  SyncState_id : Z;
  SyncState_account_id : Z;
  SyncState_mailbox_id : option Z;
  SyncState_state_json : Value;
  SyncState_last_success_at : option Z;
  SyncState_last_attempt_at : option Z;
  SyncState_last_error : option str
}.

Record PendingMutation : Type := mkPendingMutation {
  PendingMutation_id : Z;
  PendingMutation_account_id : Z;
  PendingMutation_mailbox_id : Z;
  PendingMutation_message_id : option Z;
  PendingMutation_mutation_type : str;
  PendingMutation_payload_json : Value;
  PendingMutation_status : MutationStatus;
  PendingMutation_attempts : Z;
  PendingMutation_next_attempt_at : option Z;
  PendingMutation_idempotency_key : str;
  PendingMutation_created_at : Z;
  PendingMutation_updated_at : Z
}.

Record SessionRecord : Type := mkSessionRecord {
  SessionRecord_id : Z;
  SessionRecord_user_id : Z;
  SessionRecord_account_id : option Z;
  SessionRecord_connection_id : str;
  SessionRecord_remote_addr : option str;
  SessionRecord_authenticated_at : option Z;
  SessionRecord_disconnected_at : option Z
}.

Record AuditLogEntry : Type := mkAuditLogEntry {
  AuditLogEntry_id : Z;
  AuditLogEntry_user_id : option Z;
  AuditLogEntry_account_id : option Z;
  AuditLogEntry_action : str;
  AuditLogEntry_metadata_json : Value;
  AuditLogEntry_created_at : Z
}.

Record CacheObject : Type := mkCacheObject {
  CacheObject_id : Z;
  CacheObject_account_id : option Z;
  CacheObject_object_type : str;
  CacheObject_blob_key : str;
  CacheObject_sha256 : str;
  CacheObject_size_octets : Z;
  CacheObject_ref_count : Z;
  CacheObject_last_accessed_at : option Z;
  CacheObject_created_at : Z
}.

Record Quota : Type := mkQuota {
  Quota_id : Z;
  Quota_user_id : option Z;
  Quota_account_id : option Z;
  Quota_max_bytes : Z;
  Quota_used_bytes : Z;
  Quota_updated_at : Z
}.

(** ** Facts *)

(** Printing an enum and reading it back, in any letter case, is the identity. *)
Lemma UpstreamTlsMode_roundtrip m s :
  to_ascii_lowercase s = UpstreamTlsMode_to_string m ->
  UpstreamTlsMode_from_str s = inl m.
Proof. unfold UpstreamTlsMode_from_str. intros ->. by destruct m. Qed.

Lemma UpstreamAuthMethod_roundtrip m s :
  to_ascii_lowercase s = UpstreamAuthMethod_to_string m ->
  UpstreamAuthMethod_from_str s = inl m.
Proof. unfold UpstreamAuthMethod_from_str. intros ->. by destruct m. Qed.

Lemma MutationStatus_roundtrip m s :
  to_ascii_lowercase s = MutationStatus_to_string m ->
  MutationStatus_from_str s = inl m.
Proof. unfold MutationStatus_from_str. intros ->. by destruct m. Qed.

Lemma MutationStatus_to_string_inj a b :
  MutationStatus_to_string a = MutationStatus_to_string b -> a = b.
Proof. by destruct a, b. Qed.
