(* ===== verification/Protocol.v ===== *)
(** * The IMAP wire grammar

    Models crates/protocol/src/lib.rs: session states, command lines and their
    tokens, flag lists, literal markers, message sets, STORE, STATUS and FETCH
    arguments, and the formatting of number sets and STATUS responses. *)

From stdpp Require Import base strings list list_numbers.
From Stdlib Require Import ZArith Lia Sorting.Sorted.
From S2P Require Import Prelude RustStr Domain.

Local Open Scope Z_scope.

(** ** Data *)
Inductive State : Type :=
| NotAuthenticated
| Authenticated
| SelectedMailbox (read_only : bool) (mailbox : str)
| Logout.

Record ParsedCommand : Type := mkParsedCommand {
  ParsedCommand_tag : str;
  ParsedCommand_name : str;
  ParsedCommand_args : list str
}.

Inductive StoreMode : Type := Replace | Add | Remove.

Inductive FetchBodySection : Type :=
| SecFull
| SecHeader
| SecText
| SecMime
| SecHeaderFields (names : list str) (not : bool).

Inductive RawFetchSection : Type :=
| Whole (section : FetchBodySection)
| Part (path : str) (section : FetchBodySection).

Record RawFetchRequest : Type := mkRawFetchRequest {
  RawFetchRequest_label : str;
  RawFetchRequest_section : RawFetchSection;
  RawFetchRequest_partial : option (Z * option Z);
  RawFetchRequest_peek : bool
}.

(** ** Tagged responses *)
Definition ok (tag text : str) : str := tag ++ lit " OK " ++ text.
Definition bad (tag text : str) : str := tag ++ lit " BAD " ++ text.
Definition no (tag code text : str) : str :=
  tag ++ lit " NO [" ++ code ++ lit "] " ++ text.

(** ** The tokenizer *)

(** The loop after an opening quote: up to the closing quote or the end of the
    input, a backslash standing for the character after it. *)
Fixpoint take_quoted (token : str) (chars : str) : str * str :=
  match chars with
  | [] => (rev token, [])
  | c :: chars' =>
      if c =? 34 then (rev token, chars')
      else if c =? 92 then
        match chars' with
        | [] => (rev token, [])
        | escaped :: chars'' => take_quoted (escaped :: token) chars''
        end
      else take_quoted (c :: token) chars'
  end.

(** The loop over an unquoted token: up to a whitespace outside all parentheses
    and brackets, which is left in the input. *)
Fixpoint take_atom (paren_depth bracket_depth : Z) (token : str) (chars : str) : str * str :=
  match chars with
  | [] => (rev token, [])
  | c :: chars' =>
      if is_whitespace c && (paren_depth =? 0) && (bracket_depth =? 0)
      then (rev token, chars)
      else
        let '(p, b) :=
          if c =? 40 then (paren_depth + 1, bracket_depth)
          else if c =? 41 then (Z.max 0 (paren_depth - 1), bracket_depth)
          else if c =? 91 then (paren_depth, bracket_depth + 1)
          else if c =? 93 then (paren_depth, Z.max 0 (bracket_depth - 1))
          else (paren_depth, bracket_depth) in
        take_atom p b (c :: token) chars'
  end.

(** The outer loop; [None] is running out of [fuel]. *)
Fixpoint tokenize_loop (fuel : nat) (input : str) (chars : str) (out : list str)
  : option (Result (list str)) :=
  match fuel with
  | O => None
  | S fuel' =>
      match chars with
      | [] => Some (Ok (rev out))
      | c :: chars' =>
          if is_whitespace c then tokenize_loop fuel' input chars' out
          else if c =? 34 then
            let '(token, rest) := take_quoted [] chars' in
            tokenize_loop fuel' input rest (token :: out)
          else
            let '(token, rest) := take_atom 0 0 [] chars in
            match token with
            | [] => Some (Err (EParse (lit "failed to tokenize IMAP command: " ++ input)))
            | _ => tokenize_loop fuel' input rest (token :: out)
            end
      end
  end.

(** Every turn of the outer loop consumes a character, so one more than the
    length of the input is enough fuel. *)
Definition tokenize (input : str) : Result (list str) :=
  match tokenize_loop (S (length input)) input input [] with
  | Some r => r
  | None => Panic
  end.

Definition parse_command (line : str) : Result (option ParsedCommand) :=
  let line := trim_end_by (fun c => (c =? 13) || (c =? 10)) line in
  match line with
  | [] => Ok None
  | _ =>
      try! tokens <- tokenize line ;;
      match tokens with
      | tag :: name :: args => Ok (Some (mkParsedCommand tag name args))
      | _ => Err (EParse (lit "expected tag and command: " ++ line))
      end
  end.

(** ** Arguments *)

(** [s.strip_prefix(p).unwrap_or(s)] and its suffix twin: the optional
    parentheses around a list. *)
Definition unparen (s : str) : str :=
  let s := default s (strip_prefix (lit "(") s) in
  default s (strip_suffix (lit ")") s).

Definition non_empty (s : str) : bool := match s with [] => false | _ => true end.

Definition parse_flag_list (value : str) : list str :=
  List.filter non_empty (map trim (split_whitespace (unparen (trim value)))).

Definition parse_literal_marker (value : str) : option (Z * bool) :=
  let trimmed := trim value in
  match strip_prefix (lit "{") trimmed with
  | None => None
  | Some rest =>
      match strip_suffix (lit "}") rest with
      | None => None
      | Some inner =>
          let non_sync := ends_with (lit "+") inner in
          let length_text :=
            if non_sync then default inner (strip_suffix (lit "+") inner) else inner in
          match parse_u64 length_text with
          | None => None
          | Some length => Some (length, non_sync)
          end
      end
  end.

(** One token of a message set: [*] is the largest number in use. *)
Definition expand (max_value : Z) (token : str) : option Z :=
  if str_eqb token (lit "*") then Some max_value else parse_i64 token.

(** [lo..=hi]. *)
Definition range_inclusive (lo hi : Z) : list Z := seqZ lo (hi - lo + 1).

(** What one comma-separated part adds to the set. *)
Definition parse_number_part (max_value : Z) (part : str) : list Z :=
  match split_once 58 part with
  | Some (start, end_) =>
      match expand max_value (trim start), expand max_value (trim end_) with
      | Some start, Some end_ =>
          if start <=? end_ then range_inclusive start end_ else range_inclusive end_ start
      | _, _ => []
      end
  | None =>
      match expand max_value part with
      | Some value => [value]
      | None => []
      end
  end.

Definition parse_number_set (value : str) (max_value : Z) : list Z :=
  let parts := List.filter non_empty (map trim (split_char 44 value)) in
  let out := flat_map (parse_number_part max_value) parts in
  List.filter (fun v => 0 <? v) (dedup (sort_by Z.leb out)).

Definition parse_store_item (item : str) : option (StoreMode * bool) :=
  let upper := to_ascii_uppercase (trim item) in
  let silent := ends_with (lit ".SILENT") upper in
  let base := default upper (strip_suffix (lit ".SILENT") upper) in
  match match_str base [(lit "FLAGS", Replace); (lit "+FLAGS", Add); (lit "-FLAGS", Remove)] with
  | Some mode => Some (mode, silent)
  | None => None
  end.

Definition parse_store_request (args : list str)
  : Result (str * StoreMode * bool * list str) :=
  match args with
  | [] => Err (EParse (lit "STORE requires a message set"))
  | [_] => Err (EParse (lit "STORE requires a flag list"))
  | sequence_set :: arg1 :: rest =>
      let '(store_mode, silent, flags_value) :=
        match parse_store_item arg1 with
        | Some (mode, is_silent) => (mode, is_silent, head rest)
        | None => (Replace, false, Some arg1)
        end in
      match flags_value with
      | None => Err (EParse (lit "STORE requires a flag list"))
      | Some flags_value =>
          Ok (sequence_set, store_mode, silent, parse_flag_list flags_value)
      end
  end.

Definition status_items : list str :=
  map lit ["MESSAGES"; "RECENT"; "UIDNEXT"; "UIDVALIDITY"; "UNSEEN"; "HIGHESTMODSEQ"]%string.

Fixpoint parse_status_loop (words : list str) (items : list str) : Result (list str) :=
  match words with
  | [] => Ok items
  | item :: words' =>
      let upper := to_ascii_uppercase (trim item) in
      if existsb (str_eqb upper) status_items then
        parse_status_loop words'
          (if existsb (str_eqb upper) items then items else items ++ [upper])
      else Err (EParse (lit "STATUS does not support item " ++ upper))
  end.

Definition parse_status_items (args : list str) : Result (list str) :=
  match args with
  | [] => Err (EParse (lit "STATUS requires a status item list"))
  | items_value :: _ =>
      try! items <- parse_status_loop (split_whitespace (unparen (trim items_value))) [] ;;
      match items with
      | [] => Err (EParse (lit "STATUS requires at least one item"))
      | _ => Ok items
      end
  end.

(** ** Responses *)
Definition quote_imap_string (value : str) : str :=
  let escaped := replace_char 34 [92; 34] (replace_char 92 [92; 92] value) in
  34 :: escaped ++ [34].

Definition format_status_item (mailbox : Mailbox) (item : str) : list str :=
  match match_str item
          [(lit "MESSAGES", lit "MESSAGES " ++ fmt_i (Mailbox_exists_count mailbox));
           (lit "RECENT", lit "RECENT " ++ fmt_i (Mailbox_recent_count mailbox));
           (lit "UNSEEN", lit "UNSEEN " ++ fmt_i (Mailbox_unseen_count mailbox));
           (lit "UIDNEXT", lit "UIDNEXT " ++ fmt_i (default 1 (Mailbox_uidnext mailbox)));
           (lit "UIDVALIDITY", 
             lit "UIDVALIDITY " ++ fmt_i (default 1 (Mailbox_uidvalidity mailbox)));
           (lit "HIGHESTMODSEQ", 
             lit "HIGHESTMODSEQ " ++ fmt_i (default 0 (Mailbox_highestmodseq mailbox)))]
  with
  | Some text => [text]
  | None => []
  end.

Definition format_status_response (mailbox : Mailbox) (requested_items : list str) : str :=
  lit "* STATUS " ++ quote_imap_string (Mailbox_name mailbox) ++ lit " (" ++
  join (lit " ") (flat_map (format_status_item mailbox) requested_items) ++ lit ")".

(** [now] is the clock the two timestamps of the placeholder mailbox read. *)
Definition format_status_response_with_defaults
  (now : Z) (mailbox_name : str) (requested_items : list str) : str :=
  let mailbox :=
    mkMailbox 0 0 mailbox_name (to_ascii_lowercase mailbox_name) (Some (lit "/")) []
      false None (Some 1) (Some 1) None 0 0 0 now now in
  format_status_response mailbox requested_items.

Definition format_range (start end_ : Z) : str :=
  if start =? end_ then fmt_u start else fmt_u start ++ lit ":" ++ fmt_u end_.

Fixpoint format_ranges (start end_ : Z) (values : list Z) : list str :=
  match values with
  | [] => [format_range start end_]
  | value :: values' =>
      if value =? end_ + 1 then format_ranges start value values'
      else format_range start end_ :: format_ranges value value values'
  end.

Definition format_number_set (values : list Z) : str :=
  match values with
  | [] => []
  | _ =>
      match dedup (sort_by Z.leb values) with
      | [] => []
      | first :: rest => join (lit ",") (format_ranges first first rest)
      end
  end.

(** ** FETCH arguments *)

(** The character loop of [parse_fetch_items]; [current] is kept reversed. *)
Fixpoint fetch_items_loop (chars : str) (items : list str) (current : str)
  (paren_depth bracket_depth : Z) (in_quotes : bool) : list str :=
  let flush := to_ascii_uppercase (trim (rev current)) in
  match chars with
  | [] => if non_empty (trim (rev current)) then items ++ [flush] else items
  | ch :: chars' =>
      if ch =? 34 then
        fetch_items_loop chars' items (ch :: current) paren_depth bracket_depth (negb in_quotes)
      else if (ch =? 40) && negb in_quotes then
        fetch_items_loop chars' items (ch :: current) (paren_depth + 1) bracket_depth in_quotes
      else if (ch =? 41) && negb in_quotes then
        fetch_items_loop chars' items (ch :: current)
          (Z.max 0 (paren_depth - 1)) bracket_depth in_quotes
      else if (ch =? 91) && negb in_quotes then
        fetch_items_loop chars' items (ch :: current) paren_depth (bracket_depth + 1) in_quotes
      else if (ch =? 93) && negb in_quotes then
        fetch_items_loop chars' items (ch :: current)
          paren_depth (Z.max 0 (bracket_depth - 1)) in_quotes
      else if is_whitespace ch && negb in_quotes && (paren_depth =? 0) && (bracket_depth =? 0)
      then
        if non_empty (trim (rev current))
        then fetch_items_loop chars' (items ++ [flush]) [] paren_depth bracket_depth in_quotes
        else fetch_items_loop chars' items current paren_depth bracket_depth in_quotes
      else fetch_items_loop chars' items (ch :: current) paren_depth bracket_depth in_quotes
  end.

Definition default_fetch_items : list str :=
  [lit "FLAGS"; lit "UID"; lit "RFC822.SIZE"; lit "ENVELOPE"; lit "BODYSTRUCTURE"].

Definition parse_fetch_items (args : list str) : list str :=
  let joined := join (lit " ") args in
  match fetch_items_loop (unparen (trim joined)) [] [] 0 0 false with
  | [] => default_fetch_items
  | items => items
  end.

(** [split_whitespace().map(|name| name.trim().to_string())]. *)
Definition header_names (inner : str) : list str := map trim (split_whitespace inner).

(** The loop over the section markers: a marker that occurs decides, except
    that a plain marker with trailing text falls through to the next one. *)
Fixpoint section_markers_loop (inner : str) (markers : list (str * bool * bool))
  : option (option (str * FetchBodySection)) :=
  match markers with
  | [] => None
  | (marker, is_header_fields, is_not) :: markers' =>
      match find_str marker inner with
      | None => section_markers_loop inner markers'
      | Some (path, matched) =>
          let suffix := tail matched in
          if is_header_fields : bool then
            Some
              (match
                 match strip_prefix (lit "HEADER.FIELDS.NOT (") suffix with
                 | Some r => Some r
                 | None => strip_prefix (lit "HEADER.FIELDS (") suffix
                 end
               with
               | None => None
               | Some r =>
                   match strip_suffix (lit ")") r with
                   | None => None
                   | Some names => Some (path, SecHeaderFields (header_names names) is_not)
                   end
               end)
          else
            match match_str suffix
                    [(lit "HEADER", SecHeader); (lit "TEXT", SecText); (lit "MIME", SecMime)]
            with
            | Some section => Some (Some (path, section))
            | None => section_markers_loop inner markers'
            end
      end
  end.

Definition section_markers : list (str * bool * bool) :=
  [(lit ".HEADER.FIELDS.NOT (", true, true);
   (lit ".HEADER.FIELDS (", true, false);
   (lit ".HEADER", false, false);
   (lit ".TEXT", false, false);
   (lit ".MIME", false, false)].

Definition parse_body_part_fetch_request (item : str) : option (str * FetchBodySection) :=
  match strip_prefix (lit "BODY[") item with
  | None => None
  | Some rest =>
      match strip_suffix (lit "]") rest with
      | None => None
      | Some [] => Some (lit "1", SecFull)
      | Some inner =>
          match section_markers_loop inner section_markers with
          | Some r => r
          | None =>
              if forallb (fun ch => is_ascii_digit ch || (ch =? 46)) inner
              then Some (inner, SecFull) else None
          end
      end
  end.

(** The [<offset.count>] suffix: [None] is the early return of an unreadable
    offset. *)
Definition parse_partial (item : str) : option (str * option (Z * option Z)) :=
  match rsplit_once 60 item with
  | None => Some (item, None)
  | Some (before, after) =>
      match strip_suffix (lit ">") after with
      | None => Some (item, None)
      | Some marker =>
          match split_char 46 marker with
          | [] => None
          | first :: rest =>
              match parse_u64 first with
              | None => None
              | Some offset =>
                  let count := match rest with [] => None | c :: _ => parse_u64 c end in
                  Some (before, Some (offset, count))
              end
          end
      end
  end.

(** [strip_prefix(p).and_then(|v| v.strip_suffix(s))]. *)
Definition between (p s item : str) : option str :=
  match strip_prefix p item with
  | Some v => strip_suffix s v
  | None => None
  end.

Definition parse_raw_fetch_request (item : str) : option RawFetchRequest :=
  let label := item in
  let peek := starts_with (lit "BODY.PEEK[") item in
  let normalized :=
    match strip_prefix (lit "BODY.PEEK[") item with
    | Some rest => lit "BODY[" ++ rest
    | None => item
    end in
  match parse_partial normalized with
  | None => None
  | Some (item, partial) =>
      let req section peek := Some (mkRawFetchRequest label section partial peek) in
      if str_eqb item (lit "RFC822") then req (Whole SecFull) false
      else if str_eqb item (lit "RFC822.HEADER") then req (Whole SecHeader) false
      else if str_eqb item (lit "RFC822.TEXT") then req (Whole SecText) false
      else if str_eqb item (lit "BODY[]") || str_eqb item (lit "BODY.PEEK[]")
      then req (Whole SecFull) peek
      else if str_eqb item (lit "BODY[HEADER]") then req (Whole SecHeader) peek
      else if str_eqb item (lit "BODY[TEXT]") then req (Whole SecText) peek
      else if str_eqb item (lit "BODY[MIME]") then req (Whole SecMime) peek
      else
        match between (lit "BODY[HEADER.FIELDS (") (lit ")]") item with
        | Some inner => req (Whole (SecHeaderFields (header_names inner) false)) peek
        | None =>
            match between (lit "BODY[HEADER.FIELDS.NOT (") (lit ")]") item with
            | Some inner => req (Whole (SecHeaderFields (header_names inner) true)) peek
            | None =>
                match parse_body_part_fetch_request item with
                | Some (path, section) => req (Part path section) peek
                | None => None
                end
            end
        end
  end.

Example fetch_items_ex :
  parse_fetch_items [lit "(flags BODY.PEEK[HEADER.FIELDS (From"; lit "To)] uid)"] =
  [lit "FLAGS"; lit "BODY.PEEK[HEADER.FIELDS (FROM TO)]"; lit "UID"].
Proof. vm_compute. reflexivity. Qed.

Example raw_fetch_ex :
  parse_raw_fetch_request (lit "BODY.PEEK[1.2.HEADER]<10.20>") =
  Some (mkRawFetchRequest (lit "BODY.PEEK[1.2.HEADER]<10.20>")
          (Part (lit "1.2") SecHeader) (Some (10, Some 20)) true).
Proof. vm_compute. reflexivity. Qed.

Example command_ex :
  parse_command (lit "a1 STORE 1:3 +FLAGS.SILENT (\Seen  \Deleted)" ++ [13; 10]) =
  Ok (Some (mkParsedCommand (lit "a1") (lit "STORE")
              [lit "1:3"; lit "+FLAGS.SILENT"; lit "(\Seen  \Deleted)"])).
Proof. vm_compute. reflexivity. Qed.

Example number_set_ex : parse_number_set (lit "5,3:1, 7:*") 9 = [1; 2; 3; 5; 7; 8; 9].
Proof. vm_compute. reflexivity. Qed.

(** ** Facts: the tokenizer *)
Lemma take_quoted_shorter token chars :
  (length (snd (take_quoted token chars)) <= length chars)%nat.
Proof.
  remember (length chars) as n eqn:Hn.
  revert token chars Hn. induction n as [n IH] using lt_wf_ind. intros token chars ->.
  destruct chars as [|c chars]; simpl; [done|].
  case_match; [simpl; lia|]. case_match.
  - destruct chars as [|e chars]; simpl; [lia|].
    etransitivity; [apply (IH (length chars)); [simpl; lia|done]|lia].
  - etransitivity; [apply (IH (length chars)); [simpl; lia|done]|lia].
Qed.

Lemma take_atom_spec p b token chars :
  exists pre, fst (take_atom p b token chars) = rev token ++ pre /\
    chars = pre ++ snd (take_atom p b token chars).
Proof.
  revert p b token. induction chars as [|c chars IH]; intros p b token; simpl.
  - exists []. by rewrite app_nil_r.
  - destruct (is_whitespace c && (p =? 0) && (b =? 0)).
    + exists []. simpl. by rewrite app_nil_r.
    + destruct (if c =? 40 then _ else _) as [p' b'].
      destruct (IH p' b' (c :: token)) as (pre & H1 & H2).
      exists (c :: pre). split; [|simpl; by rewrite <- H2].
      rewrite H1. simpl. by rewrite <- app_assoc.
Qed.

(** An unquoted token that starts at a non-blank character is not empty. *)
Lemma take_atom_progress c chars :
  is_whitespace c = false ->
  exists t rest, take_atom 0 0 [] (c :: chars) = (c :: t, rest) /\
    (length rest <= length chars)%nat.
Proof.
  intros Hc. simpl. rewrite Hc. simpl.
  destruct (if c =? 40 then _ else _) as [p' b'].
  destruct (take_atom_spec p' b' [c] chars) as (pre & H1 & H2).
  destruct (take_atom p' b' [c] chars) as [t rest]. simpl in *. subst.
  exists pre, rest. split; [done|]. rewrite length_app. lia.
Qed.

Lemma tokenize_loop_total fuel input chars out :
  (length chars < fuel)%nat ->
  exists tokens, tokenize_loop fuel input chars out = Some (Ok tokens).
Proof.
  revert chars out. induction fuel as [|fuel IH]; intros chars out Hf; [lia|].
  destruct chars as [|c chars]; simpl in *; [eauto|].
  destruct (is_whitespace c) eqn:Hws; [apply IH; lia|].
  destruct (c =? 34).
  - pose proof (take_quoted_shorter [] chars) as Hl.
    destruct (take_quoted [] chars) as [token rest]. apply IH. simpl in Hl. lia.
  - destruct (take_atom_progress c chars Hws) as (t & rest & Ht & Hl).
    simpl in Ht. rewrite Hws in Ht. simpl in Ht. rewrite Ht. apply IH. lia.
Qed.

Lemma tokenize_total input : exists tokens, tokenize input = Ok tokens.
Proof.
  unfold tokenize.
  destruct (tokenize_loop_total (S (length input)) input input []) as [tokens ->]; [lia|].
  eauto.
Qed.

#[local] Arguments quote_imap_string : simpl never.

(** The quoting of one character. *)
Definition escape_char (c : Z) : str :=
  if c =? 92 then [92; 92] else if c =? 34 then [92; 34] else [c].

Lemma quote_imap_string_escape v :
  quote_imap_string v = 34 :: flat_map escape_char v ++ [34].
Proof.
  unfold quote_imap_string. f_equal. f_equal.
  induction v as [|c v IH]; [done|]. unfold replace_char, escape_char in *. simpl.
  rewrite flat_map_app, IH. f_equal.
  destruct (c =? 92) eqn:E1; b2p; [by subst|]. simpl. by destruct (c =? 34).
Qed.

Lemma take_quoted_escape token v rest :
  take_quoted token (flat_map escape_char v ++ 34 :: rest) = (rev token ++ v, rest).
Proof.
  revert token. induction v as [|c v IH]; intros token; simpl.
  - by rewrite app_nil_r.
  - unfold escape_char at 1.
    destruct (c =? 92) eqn:E1; [|destruct (c =? 34) eqn:E2]; b2p; subst; simpl;
      rewrite ?(proj2 (Z.eqb_neq c 34)), ?(proj2 (Z.eqb_neq c 92)) by done;
      rewrite IH; simpl; by rewrite <- app_assoc.
Qed.

(** A word the tokenizer reads back unchanged without quotes. *)
Definition plain_char (c : Z) : bool :=
  negb (is_whitespace c) && negb (existsb (Z.eqb c) [34; 40; 41; 91; 93]).
Definition plain_word (w : str) : Prop := w <> [] /\ Forall (fun c => plain_char c = true) w.

Lemma plain_char_neq c :
  plain_char c = true ->
  is_whitespace c = false /\ (c =? 34) = false /\ (c =? 40) = false /\
  (c =? 41) = false /\ (c =? 91) = false /\ (c =? 93) = false.
Proof.
  unfold plain_char. simpl. intros H. b2p. repeat split; try done; by apply Z.eqb_neq.
Qed.

Lemma take_atom_plain token w rest :
  Forall (fun c => plain_char c = true) w ->
  (rest = [] \/ exists c r, rest = c :: r /\ is_whitespace c = true) ->
  take_atom 0 0 token (w ++ rest) = (rev token ++ w, rest).
Proof.
  intros Hw Hrest. revert token. induction Hw as [|c w Hc Hw IH]; intros token; simpl.
  - rewrite app_nil_r. destruct Hrest as [->|(c & r & -> & Hc)]; [done|]. simpl. by rewrite Hc.
  - destruct (plain_char_neq c Hc) as (-> & _ & -> & -> & -> & ->). simpl.
    rewrite IH. simpl. by rewrite <- app_assoc.
Qed.

Lemma tokenize_loop_word fuel input w rest out :
  plain_word w -> (rest = [] \/ exists c r, rest = c :: r /\ is_whitespace c = true) ->
  tokenize_loop (S fuel) input (w ++ rest) out = tokenize_loop fuel input rest (w :: out).
Proof.
  intros [Hne Hw] Hrest. destruct w as [|c w]; [done|]. simpl.
  pose proof Hw as Hw'. inversion_clear Hw' as [|?? Hc _].
  pose proof (take_atom_plain [] (c :: w) rest Hw Hrest) as Ht. simpl in Ht.
  destruct (plain_char_neq c Hc) as (Hws & -> & H40 & H41 & H91 & H93).
  rewrite Hws, H40, H41, H91, H93 in *. simpl in *. by rewrite Ht.
Qed.

Lemma tokenize_loop_quoted fuel input v rest out :
  tokenize_loop (S fuel) input (quote_imap_string v ++ rest) out =
  tokenize_loop fuel input rest (v :: out).
Proof.
  rewrite quote_imap_string_escape. simpl. rewrite <- app_assoc. simpl.
  by rewrite take_quoted_escape.
Qed.

(** A command line with quoted arguments, as a client writes it. *)
Definition quoted_args (args : list str) : str :=
  flat_map (fun a => 32 :: quote_imap_string a) args.

Lemma tokenize_loop_quoted_args fuel input args out :
  (2 * length args < fuel)%nat ->
  tokenize_loop fuel input (quoted_args args) out = Some (Ok (rev out ++ args)).
Proof.
  revert fuel out. induction args as [|a args IH]; intros fuel out Hf.
  - destruct fuel; [simpl in Hf; lia|]. simpl. by rewrite app_nil_r.
  - destruct fuel as [|[|fuel]]; simpl in Hf; [lia|lia|].
    change (quoted_args (a :: args)) with (32 :: quote_imap_string a ++ quoted_args args).
    change (tokenize_loop (S (S fuel)) input (32 :: quote_imap_string a ++ quoted_args args) out)
      with (tokenize_loop (S fuel) input (quote_imap_string a ++ quoted_args args) out).
    rewrite tokenize_loop_quoted, IH by lia. simpl. by rewrite <- app_assoc.
Qed.

Lemma length_quoted_args args : (2 * length args <= length (quoted_args args))%nat.
Proof.
  induction args as [|a args IH]; [simpl; lia|].
  change (quoted_args (a :: args)) with (32 :: quote_imap_string a ++ quoted_args args).
  rewrite quote_imap_string_escape, !length_cons, length_app, length_cons, length_app.
  simpl. lia.
Qed.

Lemma quoted_args_head args :
  quoted_args args = [] \/ exists c r, quoted_args args = c :: r /\ is_whitespace c = true.
Proof. destruct args; simpl; [by left|]. right. by eexists _, _. Qed.

Definition command_line (tag name : str) (args : list str) : str :=
  tag ++ 32 :: name ++ quoted_args args.

Lemma tokenize_command_line tag name args :
  plain_word tag -> plain_word name ->
  tokenize (command_line tag name args) = Ok (tag :: name :: args).
Proof.
  intros Htag Hname. unfold tokenize.
  assert (Hlen : (3 + 2 * length args <= length (command_line tag name args))%nat).
  { pose proof (length_quoted_args args). destruct Htag as [Ht _], Hname as [Hn _].
    unfold command_line. rewrite length_app, length_cons, length_app.
    destruct tag, name; simpl; try done. lia. }
  revert Hlen. generalize (length (command_line tag name args)) as n.
  generalize (command_line tag name args) at 1 as input.
  intros input n Hlen. destruct n as [|[|n]]; [lia|lia|]. unfold command_line.
  rewrite tokenize_loop_word; [|done|right; by eexists _, _].
  change (tokenize_loop (S (S n)) input (32 :: name ++ quoted_args args) [tag])
    with (tokenize_loop (S n) input (name ++ quoted_args args) [tag]).
  rewrite tokenize_loop_word by (done || apply quoted_args_head).
  rewrite tokenize_loop_quoted_args by lia. done.
Qed.

Definition is_eol (c : Z) : bool := (c =? 13) || (c =? 10).

Lemma trim_start_by_all f suf s :
  Forall (fun c => f c = true) suf -> trim_start_by f (suf ++ s) = trim_start_by f s.
Proof. induction 1 as [|c suf Hc _ IH]; simpl; [done|]. by rewrite Hc. Qed.

Lemma trim_end_by_app f l c suf :
  f c = false -> Forall (fun c => f c = true) suf ->
  trim_end_by f ((l ++ [c]) ++ suf) = l ++ [c].
Proof.
  intros Hc Hsuf. unfold trim_end_by. rewrite rev_app_distr, trim_start_by_all.
  - rewrite rev_app_distr. simpl. rewrite Hc. simpl. by rewrite rev_involutive.
  - apply List.Forall_rev, Hsuf.
Qed.

Lemma command_line_last tag name args :
  plain_word name -> exists l c, command_line tag name args = l ++ [c] /\ is_eol c = false.
Proof.
  intros [Hne Hname]. unfold command_line. destruct args as [|a args _] using rev_ind.
  - destruct name as [|c name _] using rev_ind; [done|].
    exists (tag ++ 32 :: name), c. simpl. rewrite app_nil_r. split.
    + by rewrite <- app_assoc.
    + apply List.Forall_app in Hname as [_ Hc]. inversion_clear Hc as [|?? Hc' _].
      apply plain_char_neq in Hc' as [Hws _]. unfold is_eol, is_whitespace in *. b2p.
      apply orb_false_iff. split; apply Z.eqb_neq; lia.
  - exists (tag ++ 32 :: name ++ quoted_args args ++ 32 :: 34 :: flat_map escape_char a), 34.
    split; [|done]. unfold quoted_args. rewrite flat_map_app. cbn [flat_map].
    rewrite quote_imap_string_escape, app_nil_r. cbn [app].
    rewrite <- !app_assoc. cbn [app]. by rewrite <- !app_assoc.
Qed.

(** A command line round-trips through the parser. *)
Lemma parse_command_line tag name args eol :
  plain_word tag -> plain_word name -> Forall (fun c => is_eol c = true) eol ->
  parse_command (command_line tag name args ++ eol) =
  Ok (Some (mkParsedCommand tag name args)).
Proof.
  intros Htag Hname Heol. unfold parse_command.
  destruct (command_line_last tag name args Hname) as (l & c & Hl & Hc).
  change (fun c0 => (c0 =? 13) || (c0 =? 10)) with is_eol.
  rewrite Hl, trim_end_by_app, <- Hl by done.
  assert (command_line tag name args <> []).
  { rewrite Hl. by destruct l. }
  rewrite tokenize_command_line by done. by destruct (command_line tag name args).
Qed.

(** ** Facts: message sets *)
Lemma Z_leb_total x y : (x <=? y) = true \/ (y <=? x) = true.
Proof. rewrite !Z.leb_le. lia. Qed.
Lemma Z_leb_trans x y z : (x <=? y) = true -> (y <=? z) = true -> (x <=? z) = true.
Proof. rewrite !Z.leb_le. lia. Qed.

Lemma filter_StronglySorted {A} (R : A -> A -> Prop) f l :
  StronglySorted R l -> StronglySorted R (List.filter f l).
Proof.
  induction 1 as [|x l Hs IH Hall]; simpl; [constructor|].
  case_match; [|done]. constructor; [done|]. apply List.Forall_forall. intros y Hy.
  apply filter_In in Hy as [Hy _]. rewrite List.Forall_forall in Hall. by apply Hall.
Qed.

Lemma StronglySorted_weaken {A} (R R' : A -> A -> Prop) l :
  (forall x y, R x y -> R' x y) -> StronglySorted R l -> StronglySorted R' l.
Proof.
  intros HR. induction 1 as [|x l Hs IH Hall]; constructor; [done|].
  eapply List.Forall_impl; [|exact Hall]. apply HR.
Qed.

Lemma sorted_dedup_Z l : StronglySorted Z.lt (dedup (sort_by Z.leb l)).
Proof.
  eapply StronglySorted_weaken; [|apply (dedup_sorted (le_rel Z.leb))].
  - unfold le_rel. intros x y [Hle Hne]. apply Z.leb_le in Hle. lia.
  - unfold le_rel. intros x y Hxy Hyx. b2p. lia.
  - apply sort_by_sorted; [apply Z_leb_total|apply Z_leb_trans].
Qed.

Lemma sorted_dedup_In z l : In z (dedup (sort_by Z.leb l)) <-> In z l.
Proof. by rewrite dedup_In, sort_by_In. Qed.

Lemma range_inclusive_In lo hi z : In z (range_inclusive lo hi) <-> lo <= z <= hi.
Proof.
  unfold range_inclusive. rewrite <- list_elem_of_In, elem_of_seqZ. lia.
Qed.

(** What a message set means: [tok] denotes [n], and a part denotes a number or
    the closed interval between its two ends, whichever is the smaller. *)
Inductive part_denotes (max_value : Z) (part : str) (z : Z) : Prop :=
| denotes_one :
    split_once 58 part = None -> expand max_value part = Some z ->
    part_denotes max_value part z
| denotes_range a b x y :
    split_once 58 part = Some (a, b) ->
    expand max_value (trim a) = Some x -> expand max_value (trim b) = Some y ->
    Z.min x y <= z <= Z.max x y ->
    part_denotes max_value part z.

Lemma parse_number_part_In max_value part z :
  In z (parse_number_part max_value part) <-> part_denotes max_value part z.
Proof.
  unfold parse_number_part. split.
  - destruct (split_once 58 part) as [[a b]|] eqn:Es.
    + destruct (expand max_value (trim a)) as [x|] eqn:Ex; [|done].
      destruct (expand max_value (trim b)) as [y|] eqn:Ey; [|done].
      intros Hz. apply (denotes_range _ _ _ a b x y Es Ex Ey).
      case_match; b2p; apply range_inclusive_In in Hz; lia.
    + destruct (expand max_value part) as [x|] eqn:Ex; [|done].
      intros [->|[]]. by apply denotes_one.
  - intros [Es Ex|a b x y Es Ex Ey Hz]; rewrite Es.
    + rewrite Ex. by left.
    + rewrite Ex, Ey. case_match; b2p; apply range_inclusive_In; lia.
Qed.

Definition set_parts (value : str) : list str :=
  List.filter non_empty (map trim (split_char 44 value)).

Lemma parse_number_set_In value max_value z :
  In z (parse_number_set value max_value) <->
  0 < z /\ exists part, In part (set_parts value) /\ part_denotes max_value part z.
Proof.
  unfold parse_number_set. rewrite filter_In, sorted_dedup_In, in_flat_map, Z.ltb_lt.
  setoid_rewrite parse_number_part_In. unfold set_parts. tauto.
Qed.

Lemma parse_number_set_sorted value max_value :
  StronglySorted Z.lt (parse_number_set value max_value).
Proof. apply filter_StronglySorted, sorted_dedup_Z. Qed.

(** ** Facts: printing and reading a number set *)
Lemma split_once_absent c s : ~ In c s -> split_once c s = None.
Proof.
  induction s as [|d s IH]; simpl; intros H; [done|].
  destruct (d =? c) eqn:E; b2p; [tauto|]. rewrite IH by tauto. done.
Qed.

Lemma split_once_suffix c s a b : split_once c s = Some (a, b) -> s = a ++ c :: b.
Proof.
  revert a b. induction s as [|x s IH]; intros a b; simpl; [done|].
  destruct (x =? c) eqn:E; [apply Z.eqb_eq in E as ->; by intros [= <- <-]|].
  destruct (split_once c s) as [[a' b']|] eqn:Es; [|done]. intros [= <- <-].
  simpl. f_equal. by apply IH.
Qed.

Lemma split_once_app c a b : ~ In c a -> split_once c (a ++ c :: b) = Some (a, b).
Proof.
  induction a as [|d a IH]; simpl; intros H; [by rewrite Z.eqb_refl|].
  destruct (d =? c) eqn:E; b2p; [tauto|]. rewrite IH by tauto. done.
Qed.

Lemma split_char_absent c s : ~ In c s -> split_char c s = [s].
Proof.
  induction s as [|d s IH]; simpl; intros H; [done|].
  destruct (d =? c) eqn:E; b2p; [tauto|]. rewrite IH by tauto. done.
Qed.

Lemma split_char_app c a b : ~ In c a -> split_char c (a ++ c :: b) = a :: split_char c b.
Proof.
  induction a as [|d a IH]; simpl; intros H; [by rewrite Z.eqb_refl|].
  destruct (d =? c) eqn:E; b2p; [tauto|]. rewrite IH by tauto. done.
Qed.

Lemma split_char_join c parts :
  parts <> [] -> Forall (fun p => ~ In c p) parts -> split_char c (join [c] parts) = parts.
Proof.
  intros Hne H. induction H as [|p parts Hp Hps IH]; [done|].
  destruct parts as [|q parts]; simpl; [by apply split_char_absent|].
  rewrite split_char_app by done. f_equal. by apply IH.
Qed.

Lemma trim_no_whitespace s : Forall (fun c => is_whitespace c = false) s -> trim s = s.
Proof.
  assert (Hts : forall s, Forall (fun c => is_whitespace c = false) s ->
            trim_start_by is_whitespace s = s).
  { intros t [|c t' Hc _]; simpl; [done|]. by rewrite Hc. }
  intros H. unfold trim, trim_end_by. rewrite (Hts s) by done.
  rewrite Hts by (by apply List.Forall_rev). apply rev_involutive.
Qed.

Lemma is_ascii_digit_range c : is_ascii_digit c = true -> 48 <= c <= 57.
Proof. unfold is_ascii_digit. intros H. b2p. lia. Qed.

Lemma digit_not_whitespace c : 48 <= c <= 58 -> is_whitespace c = false.
Proof. intros Hc. unfold is_whitespace. lia. Qed.

Lemma fmt_u_char n c : In c (fmt_u n) -> 48 <= c <= 57.
Proof.
  intros Hc. apply is_ascii_digit_range.
  pose proof (fmt_u_digits n) as H. rewrite List.Forall_forall in H. by apply H.
Qed.

Lemma fmt_u_ne n : fmt_u n <> [].
Proof. apply digits_ne. left. apply Nat.lt_0_succ. Qed.

Lemma format_range_char s e c : In c (format_range s e) -> 48 <= c <= 58.
Proof.
  unfold format_range. change (lit ":" ++ fmt_u e) with (58 :: fmt_u e).
  case_match; intros Hc; [apply fmt_u_char in Hc; lia|].
  apply in_app_iff in Hc as [Hc|[<-|Hc]]; [apply fmt_u_char in Hc; lia|lia|].
  apply fmt_u_char in Hc; lia.
Qed.

Lemma format_range_ne s e : format_range s e <> [].
Proof.
  unfold format_range. case_match; [apply fmt_u_ne|].
  pose proof (fmt_u_ne s). by destruct (fmt_u s).
Qed.

Lemma expand_fmt_u mx n : 0 <= n <= i64_max -> expand mx (trim (fmt_u n)) = Some n.
Proof.
  intros Hn. rewrite trim_no_whitespace.
  - unfold expand. rewrite parse_i64_fmt_u by done.
    destruct (str_eqb _ _) eqn:E; [|done]. apply str_eqb_eq in E.
    exfalso. assert (H : In 42 (fmt_u n)) by (rewrite E; by left).
    apply fmt_u_char in H. lia.
  - apply List.Forall_forall. intros c Hc. apply digit_not_whitespace.
    apply fmt_u_char in Hc. lia.
Qed.

Lemma parse_format_range mx s e z :
  0 <= s <= e -> e <= i64_max ->
  In z (parse_number_part mx (format_range s e)) <-> s <= z <= e.
Proof.
  intros Hs He. unfold parse_number_part, format_range.
  assert (Hno : forall n, ~ In 58 (fmt_u n)) by (intros n H; apply fmt_u_char in H; lia).
  destruct (s =? e) eqn:E; b2p.
  - rewrite split_once_absent by done.
    pose proof (expand_fmt_u mx s) as Hx.
    rewrite trim_no_whitespace in Hx; [rewrite Hx by lia; simpl; lia|].
    apply List.Forall_forall. intros c Hc. apply digit_not_whitespace.
    apply fmt_u_char in Hc. lia.
  - change (lit ":" ++ fmt_u e) with (58 :: fmt_u e).
    rewrite split_once_app by done. rewrite !expand_fmt_u by lia.
    rewrite (proj2 (Z.leb_le s e)) by lia. apply range_inclusive_In.
Qed.

Lemma format_ranges_In mx s e values z :
  0 <= s <= e -> StronglySorted Z.lt (e :: values) ->
  Forall (fun v => v <= i64_max) (e :: values) ->
  In z (flat_map (parse_number_part mx) (format_ranges s e values)) <->
  s <= z <= e \/ In z values.
Proof.
  revert s e. induction values as [|v values IH]; intros s e Hs Hsort Hmax.
  - simpl. rewrite app_nil_r, parse_format_range by (inversion Hmax; done || lia). tauto.
  - inversion_clear Hsort as [|?? Hsort' Hall]. inversion_clear Hall as [|?? Hev _].
    inversion_clear Hmax as [|?? He Hmax']. inversion Hmax'; subst. simpl.
    destruct (v =? e + 1) eqn:E; b2p.
    + rewrite IH by (done || lia). split.
      * intros [?|?]; [|tauto]. destruct (Z.eq_dec z v); [right; left; lia|left; lia].
      * intros [?|[?|?]]; [left; lia|left; lia|tauto].
    + simpl. rewrite in_app_iff, parse_format_range, IH by (done || lia).
      split; [intros [?|[?|?]]|intros [?|[?|?]]]; try tauto; right; left; lia.
Qed.

Lemma format_ranges_parts s e values :
  Forall (fun p => ~ In 44 p /\ p <> [] /\ trim p = p) (format_ranges s e values).
Proof.
  assert (H : forall s e, ~ In 44 (format_range s e) /\ format_range s e <> [] /\
            trim (format_range s e) = format_range s e).
  { intros s' e'. split; [|split].
    - intros Hc. apply format_range_char in Hc. lia.
    - apply format_range_ne.
    - apply trim_no_whitespace, List.Forall_forall. intros c Hc.
      apply digit_not_whitespace, (format_range_char s' e'), Hc. }
  revert s e. induction values as [|v values IH]; intros s e; simpl.
  - constructor; [apply H|constructor].
  - case_match; [apply IH|]. constructor; [apply H|apply IH].
Qed.

Lemma format_ranges_ne s e values : format_ranges s e values <> [].
Proof.
  revert s e. induction values as [|v values IH]; intros s e; simpl; [done|].
  case_match; [apply IH|done].
Qed.

Lemma set_parts_format s e values :
  set_parts (join (lit ",") (format_ranges s e values)) = format_ranges s e values.
Proof.
  pose proof (format_ranges_parts s e values) as H.
  unfold set_parts. change (lit ",") with [44].
  rewrite split_char_join.
  - induction H as [|p ps (H1 & H2 & H3) Hps IH]; [done|]. simpl. rewrite H3, IH.
    by destruct p.
  - apply format_ranges_ne.
  - eapply List.Forall_impl; [|exact H]. simpl. tauto.
Qed.

Lemma parse_format_number_set values mx :
  Forall (fun v => 0 < v <= i64_max) values ->
  parse_number_set (format_number_set values) mx = dedup (sort_by Z.leb values).
Proof.
  intros Hv. apply strictly_sorted_ext;
    [apply parse_number_set_sorted|apply sorted_dedup_Z|].
  intros z. rewrite parse_number_set_In. unfold format_number_set.
  pose proof (sorted_dedup_Z values) as Hs. pose proof (sorted_dedup_In z values) as Hz.
  assert (Hd : Forall (fun v => 0 < v <= i64_max) (dedup (sort_by Z.leb values))).
  { rewrite List.Forall_forall in *. intros v Hin. by apply Hv, sorted_dedup_In. }
  destruct values as [|v0 values0]; [simpl; split; [intros (_ & p & [] & _)|done]|].
  destruct (dedup (sort_by Z.leb (v0 :: values0))) as [|f r].
  { simpl. split; [intros (_ & p & [] & _)|done]. }
  rewrite set_parts_format. inversion Hd as [|?? Hf Hr]; subst.
  assert (Hm : Forall (fun v => v <= i64_max) (f :: r)).
  { eapply List.Forall_impl; [|exact Hd]. simpl. lia. }
  pose proof (format_ranges_In mx f f r z ltac:(lia) Hs Hm) as Hin.
  rewrite in_flat_map in Hin. setoid_rewrite parse_number_part_In in Hin.
  rewrite Hin. simpl. split; [intros (_ & [?|?]); [left; lia|by right]|].
  intros Hzf. rewrite List.Forall_forall in Hd. split; [by apply Hd|].
  destruct Hzf as [<-|]; [left; lia|by right].
Qed.

(** ** Facts: literals and STATUS *)
Lemma strip_prefix_app p s : strip_prefix p (p ++ s) = Some s.
Proof. induction p as [|c p IH]; simpl; [done|]. by rewrite Z.eqb_refl. Qed.

Lemma strip_suffix_app p s : strip_suffix p (s ++ p) = Some s.
Proof.
  unfold strip_suffix. by rewrite rev_app_distr, strip_prefix_app, rev_involutive.
Qed.

Lemma strip_prefix_Some p s r : strip_prefix p s = Some r -> s = p ++ r.
Proof.
  revert s. induction p as [|c p IH]; intros [|d s]; simpl; try (intros [= ->]; done); try done.
  case_match; [|done]. b2p. subst. intros H. f_equal. by apply IH.
Qed.

Lemma strip_suffix_Some p s r : strip_suffix p s = Some r -> s = r ++ p.
Proof.
  unfold strip_suffix. case_match eqn:E; [|done]. intros [= <-].
  apply strip_prefix_Some in E. rewrite <- (rev_involutive s), E, rev_app_distr.
  by rewrite rev_involutive.
Qed.

(** The text of a literal marker: [{n}], or [{n+}] when non-synchronising. *)
Definition literal_marker (n : Z) (non_sync : bool) : str :=
  lit "{" ++ fmt_u n ++ (if non_sync then lit "+" else []) ++ lit "}".

Lemma parse_literal_marker_print n non_sync :
  0 <= n <= u64_max -> parse_literal_marker (literal_marker n non_sync) = Some (n, non_sync).
Proof.
  intros Hn. unfold parse_literal_marker, literal_marker.
  change (lit "{") with [123]. change (lit "}") with [125]. change (lit "+") with [43].
  assert (Hw : forall s, Forall (fun c => 43 <= c <= 125 /\ c <> 133) s ->
                Forall (fun c => is_whitespace c = false) s).
  { intros s. apply List.Forall_impl. intros c Hc. unfold is_whitespace. lia. }
  assert (Hd : Forall (fun c => 43 <= c <= 125 /\ c <> 133) (fmt_u n)).
  { apply List.Forall_forall. intros c Hc. apply fmt_u_char in Hc. lia. }
  rewrite trim_no_whitespace.
  2:{ apply Hw. apply List.Forall_app. split; [constructor; [simpl; lia|constructor]|].
      apply List.Forall_app. split; [done|]. apply List.Forall_app. split.
      - destruct non_sync; [constructor; [simpl; lia|]|]; constructor.
      - constructor; [simpl; lia|constructor]. }
  rewrite strip_prefix_app, app_assoc, strip_suffix_app.
  destruct non_sync.
  - unfold ends_with. rewrite strip_suffix_app. simpl. by rewrite parse_u64_fmt_u.
  - rewrite app_nil_r. unfold ends_with.
    destruct (strip_suffix [43] (fmt_u n)) as [r|] eqn:E.
    + apply strip_suffix_Some in E.
      assert (In 43 (fmt_u n)) as H by (rewrite E; apply in_app_iff; right; by left).
      apply fmt_u_char in H. lia.
    + simpl. by rewrite parse_u64_fmt_u.
Qed.

Lemma existsb_str_In s l : existsb (str_eqb s) l = true <-> In s l.
Proof.
  rewrite existsb_exists. split; [intros (x & Hx & ->%str_eqb_eq); done|].
  intros H. exists s. by rewrite str_eqb_refl.
Qed.

Lemma parse_status_loop_spec words items0 :
  NoDup items0 -> Forall (fun i => In i status_items) items0 ->
  match parse_status_loop words items0 with
  | Ok items =>
      NoDup items /\ Forall (fun i => In i status_items) items /\
      (forall i, In i items <->
         In i items0 \/ exists w, In w words /\ i = to_ascii_uppercase (trim w)) /\
      Forall (fun w => In (to_ascii_uppercase (trim w)) status_items) words
  | Err e =>
      exists w, In w words /\ ~ In (to_ascii_uppercase (trim w)) status_items
  | Panic => False
  end.
Proof.
  revert items0. induction words as [|w words IH]; intros items0 Hnd Hall;
    cbn [parse_status_loop]; cbv zeta.
  - split; [done|]. split; [done|]. split; [|constructor]. intros i. split; [by left|].
    intros [?|(w & [] & _)]; done.
  - destruct (existsb (str_eqb (to_ascii_uppercase (trim w))) status_items) eqn:Es.
    2:{ exists w. split; [by left|]. rewrite <- existsb_str_In. congruence. }
    apply existsb_str_In in Es.
    set (u := to_ascii_uppercase (trim w)) in *.
    set (items1 := if existsb (str_eqb u) items0 then items0 else items0 ++ [u]).
    assert (H1 : NoDup items1 /\ Forall (fun i => In i status_items) items1 /\
                 forall i, In i items1 <-> In i items0 \/ i = u).
    { unfold items1. destruct (existsb (str_eqb u) items0) eqn:Eu.
      - apply existsb_str_In in Eu. split; [done|]. split; [done|].
        intros i. split; [by left|]. intros [?| ->]; done.
      - assert (~ In u items0) by (rewrite <- existsb_str_In; congruence).
        split.
        { apply NoDup_app. split_and!; [done| |apply NoDup_singleton].
          intros x Hx Hx'. apply list_elem_of_singleton in Hx' as ->.
          by apply list_elem_of_In in Hx. }
        split; [apply List.Forall_app; split; [done|constructor; [done|constructor]]|].
        intros i. rewrite in_app_iff. simpl. intuition congruence. }
    destruct H1 as (Hnd1 & Hall1 & Hin1).
    specialize (IH items1 Hnd1 Hall1).
    destruct (parse_status_loop words items1) as [items|e|]; [|destruct IH as (w' & ? & ?);
      exists w'; split; [by right|done]|done].
    destruct IH as (? & ? & Hin & ?). split; [done|]. split; [done|]. split; [|by constructor].
    intros i. rewrite Hin, Hin1. split.
    + intros [[?| ->]|(w' & ? & ->)]; [by left|right; exists w; split; [by left|done]|].
      right. exists w'. split; [by right|done].
    + intros [?|(w' & [<-|?] & ->)]; [by left; left|left; by right|].
      right. by exists w'.
Qed.

(** ** What the parser promises *)

(** Parsing any command line terminates without a panic: a blank line is no
    command, a line with fewer than two words is a parse error naming the line,
    and every other line is a command with a tag, a name and arguments. *)
Theorem parse_command_total line :
  parse_command line = Ok None \/
  (exists cmd, parse_command line = Ok (Some cmd)) \/
  parse_command line =
    Err (EParse (lit "expected tag and command: " ++ trim_end_by is_eol line)).
Proof.
  unfold parse_command. change (fun c => (c =? 13) || (c =? 10)) with is_eol.
  destruct (trim_end_by is_eol line) as [|c l]; [by left|]. right.
  destruct (tokenize_total (c :: l)) as [tokens ->]. simpl.
  destruct tokens as [|tag [|name args]]; [by right|by right|left; eauto].
Qed.

(** C32 Printing a command and parsing it gives the command back: for a plain tag
    and name and any arguments, each sent as a quoted string with quotes and
    backslashes escaped, followed by any line ending. *)
Theorem parse_command_roundtrip tag name args eol :
  plain_word tag -> plain_word name -> Forall (fun c => is_eol c = true) eol ->
  parse_command (command_line tag name args ++ eol) =
  Ok (Some (mkParsedCommand tag name args)).
Proof. apply parse_command_line. Qed.

Lemma parse_command_roundtrip_witness :
  parse_command (command_line (lit "a1") (lit "LOGIN") [lit "bob"; [34; 92; 32]] ++ [13; 10]) =
  Ok (Some (mkParsedCommand (lit "a1") (lit "LOGIN") [lit "bob"; [34; 92; 32]])).
Proof.
  apply (parse_command_roundtrip (lit "a1") (lit "LOGIN") [lit "bob"; [34; 92; 32]] [13; 10]).
  - split; [done|]. constructor; [reflexivity|]. constructor; [reflexivity|constructor].
  - split; [done|]. do 5 (constructor; [reflexivity|]). constructor.
  - constructor; [reflexivity|]. constructor; [reflexivity|constructor].
Defined.


(** Formatting a list of positive numbers as a message set (runs folded into
    ranges) and parsing it gives the numbers back, sorted and without
    repetition. *)
Theorem number_set_roundtrip values mx :
  Forall (fun v => 0 < v <= i64_max) values ->
  parse_number_set (format_number_set values) mx = dedup (sort_by Z.leb values).
Proof. apply parse_format_number_set. Qed.

Lemma number_set_roundtrip_witness :
  parse_number_set (format_number_set [9; 3; 4; 5; 3]) 0 = [3; 4; 5; 9].
Proof.
  apply (number_set_roundtrip [9; 3; 4; 5; 3] 0).
  do 5 (constructor; [unfold i64_max; lia|]). constructor.
Defined.

(** A literal marker is read back as it was printed: its size over the whole
    unsigned 64-bit range and whether it is non-synchronising. *)
Theorem literal_marker_roundtrip n non_sync :
  0 <= n <= u64_max -> parse_literal_marker (literal_marker n non_sync) = Some (n, non_sync).
Proof. apply parse_literal_marker_print. Qed.

Lemma literal_marker_roundtrip_witness :
  parse_literal_marker (lit "{18446744073709551615+}") = Some (u64_max, true).
Proof. apply (literal_marker_roundtrip u64_max true). unfold u64_max. lia. Defined.

(** STATUS items: an accepted list has at least one item, no repetition, only
    items the server knows, and is exactly the upper-cased words of the request;
    a request with an unknown word is refused. *)
Theorem parse_status_items_spec value rest :
  let words := split_whitespace (unparen (trim value)) in
  match parse_status_items (value :: rest) with
  | Ok items => items <> [] /\ NoDup items /\ Forall (fun i => In i status_items) items /\
      forall i, In i items <-> exists w, In w words /\ i = to_ascii_uppercase (trim w)
  | Err _ => words = [] \/
      exists w, In w words /\ ~ In (to_ascii_uppercase (trim w)) status_items
  | Panic => False
  end.
Proof.
  intros words. unfold parse_status_items. fold words.
  pose proof (parse_status_loop_spec words [] (NoDup_nil_2) (List.Forall_nil _)) as H.
  destruct (parse_status_loop words []) as [items|e|]; cbn [obind]; [|by right|done].
  destruct H as (Hnd & Hall & Hin & _). destruct items as [|i items].
  - left. destruct words as [|w words']; [done|]. exfalso.
    apply (proj2 (Hin (to_ascii_uppercase (trim w)))). right. exists w. split; [by left|done].
  - split; [done|]. split; [done|]. split; [done|]. intros j. rewrite Hin.
    split; [intros [[]|?]; done|by right].
Qed.
