(* ===== verification/SearchQuery.v ===== *)
(** * SEARCH queries

    Models the query half of crates/search/src/lib.rs: [SearchQuery] with its
    boolean expressions, the parser of SEARCH criteria and the merging of the
    criteria of a conjunction into one flat query.  A [NaiveDate] is its number
    of days since the epoch; chrono's parsers and printers are the class
    [Chrono]. *)

From stdpp Require Import base strings list.
From Stdlib Require Import ZArith Lia.
From S2P Require Import Prelude RustStr Domain Protocol.

Local Open Scope Z_scope.
Local Set Warnings "-register-all".

(** ** chrono

    [NaiveDate::parse_from_str(s, "%d-%b-%Y")], [DateTime::date_naive],
    [DateTime::format("%d-%b-%Y %H:%M:%S %z")] and its parser, which returns the
    text of its error. *)
Class Chrono : Type := {
  parse_naive_date : str -> option Z;
  date_naive : Z -> Z;
  format_date_time : Z -> str;
  parse_date_time : str -> Z + str
}.

(** ** Data *)
Definition UidSet : Type := list (Z * Z).

Definition UidSet_contains (set : UidSet) (uid : Z) : bool :=
  existsb (fun '(start, end_) => (start <=? uid) && (uid <=? end_)) set.

Definition UidSet_push (set : UidSet) (start end_ : Z) : UidSet :=
  set ++ [(Z.min start end_, Z.max start end_)].

(** [SearchQuery], over the type of the boxed expression. *)
Record SearchQueryOf (E : Type) : Type := mkSearchQuery {
  match_all : bool;
  expr : option E;
  query_string : option str;
  uid_filter : option UidSet;
  recent_only : bool;
  old_only : bool;
  header_filters : list (str * str);
  required_flags : list str;
  forbidden_flags : list str;
  required_keywords : list str;
  forbidden_keywords : list str;
  larger_than : option Z;
  smaller_than : option Z;
  internal_date_before : option Z;
  internal_date_on : option Z;
  internal_date_since : option Z;
  sent_date_before : option Z;
  sent_date_on : option Z;
  sent_date_since : option Z
}.
Arguments mkSearchQuery {E}.
Arguments match_all {E}.
Arguments expr {E}.
Arguments query_string {E}.
Arguments uid_filter {E}.
Arguments recent_only {E}.
Arguments old_only {E}.
Arguments header_filters {E}.
Arguments required_flags {E}.
Arguments forbidden_flags {E}.
Arguments required_keywords {E}.
Arguments forbidden_keywords {E}.
Arguments larger_than {E}.
Arguments smaller_than {E}.
Arguments internal_date_before {E}.
Arguments internal_date_on {E}.
Arguments internal_date_since {E}.
Arguments sent_date_before {E}.
Arguments sent_date_on {E}.
Arguments sent_date_since {E}.

Definition set_match_all {E} (x : bool) (q : SearchQueryOf E) : SearchQueryOf E :=
  mkSearchQuery x (expr q) (query_string q) (uid_filter q) (recent_only q) (old_only q)
    (header_filters q) (required_flags q) (forbidden_flags q) (required_keywords q)
    (forbidden_keywords q) (larger_than q) (smaller_than q) (internal_date_before q)
    (internal_date_on q) (internal_date_since q) (sent_date_before q) (sent_date_on q)
    (sent_date_since q).
Definition set_expr {E} (x : option E) (q : SearchQueryOf E) : SearchQueryOf E :=
  mkSearchQuery (match_all q) x (query_string q) (uid_filter q) (recent_only q) (old_only
    q) (header_filters q) (required_flags q) (forbidden_flags q) (required_keywords q)
    (forbidden_keywords q) (larger_than q) (smaller_than q) (internal_date_before q)
    (internal_date_on q) (internal_date_since q) (sent_date_before q) (sent_date_on q)
    (sent_date_since q).
Definition set_query_string {E} (x : option str) (q : SearchQueryOf E) : SearchQueryOf E :=
  mkSearchQuery (match_all q) (expr q) x (uid_filter q) (recent_only q) (old_only q)
    (header_filters q) (required_flags q) (forbidden_flags q) (required_keywords q)
    (forbidden_keywords q) (larger_than q) (smaller_than q) (internal_date_before q)
    (internal_date_on q) (internal_date_since q) (sent_date_before q) (sent_date_on q)
    (sent_date_since q).
Definition set_uid_filter {E} (x : option UidSet) (q : SearchQueryOf E) : SearchQueryOf E :=
  mkSearchQuery (match_all q) (expr q) (query_string q) x (recent_only q) (old_only q)
    (header_filters q) (required_flags q) (forbidden_flags q) (required_keywords q)
    (forbidden_keywords q) (larger_than q) (smaller_than q) (internal_date_before q)
    (internal_date_on q) (internal_date_since q) (sent_date_before q) (sent_date_on q)
    (sent_date_since q).
Definition set_recent_only {E} (x : bool) (q : SearchQueryOf E) : SearchQueryOf E :=
  mkSearchQuery (match_all q) (expr q) (query_string q) (uid_filter q) x (old_only q)
    (header_filters q) (required_flags q) (forbidden_flags q) (required_keywords q)
    (forbidden_keywords q) (larger_than q) (smaller_than q) (internal_date_before q)
    (internal_date_on q) (internal_date_since q) (sent_date_before q) (sent_date_on q)
    (sent_date_since q).
Definition set_old_only {E} (x : bool) (q : SearchQueryOf E) : SearchQueryOf E :=
  mkSearchQuery (match_all q) (expr q) (query_string q) (uid_filter q) (recent_only q) x
    (header_filters q) (required_flags q) (forbidden_flags q) (required_keywords q)
    (forbidden_keywords q) (larger_than q) (smaller_than q) (internal_date_before q)
    (internal_date_on q) (internal_date_since q) (sent_date_before q) (sent_date_on q)
    (sent_date_since q).
Definition set_header_filters {E} (x : list (str * str)) (q : SearchQueryOf E) : SearchQueryOf E :=
  mkSearchQuery (match_all q) (expr q) (query_string q) (uid_filter q) (recent_only q)
    (old_only q) x (required_flags q) (forbidden_flags q) (required_keywords q)
    (forbidden_keywords q) (larger_than q) (smaller_than q) (internal_date_before q)
    (internal_date_on q) (internal_date_since q) (sent_date_before q) (sent_date_on q)
    (sent_date_since q).
Definition set_required_flags {E} (x : list str) (q : SearchQueryOf E) : SearchQueryOf E :=
  mkSearchQuery (match_all q) (expr q) (query_string q) (uid_filter q) (recent_only q)
    (old_only q) (header_filters q) x (forbidden_flags q) (required_keywords q)
    (forbidden_keywords q) (larger_than q) (smaller_than q) (internal_date_before q)
    (internal_date_on q) (internal_date_since q) (sent_date_before q) (sent_date_on q)
    (sent_date_since q).
Definition set_forbidden_flags {E} (x : list str) (q : SearchQueryOf E) : SearchQueryOf E :=
  mkSearchQuery (match_all q) (expr q) (query_string q) (uid_filter q) (recent_only q)
    (old_only q) (header_filters q) (required_flags q) x (required_keywords q)
    (forbidden_keywords q) (larger_than q) (smaller_than q) (internal_date_before q)
    (internal_date_on q) (internal_date_since q) (sent_date_before q) (sent_date_on q)
    (sent_date_since q).
Definition set_required_keywords {E} (x : list str) (q : SearchQueryOf E) : SearchQueryOf E :=
  mkSearchQuery (match_all q) (expr q) (query_string q) (uid_filter q) (recent_only q)
    (old_only q) (header_filters q) (required_flags q) (forbidden_flags q) x
    (forbidden_keywords q) (larger_than q) (smaller_than q) (internal_date_before q)
    (internal_date_on q) (internal_date_since q) (sent_date_before q) (sent_date_on q)
    (sent_date_since q).
Definition set_forbidden_keywords {E} (x : list str) (q : SearchQueryOf E) : SearchQueryOf E :=
  mkSearchQuery (match_all q) (expr q) (query_string q) (uid_filter q) (recent_only q)
    (old_only q) (header_filters q) (required_flags q) (forbidden_flags q)
    (required_keywords q) x (larger_than q) (smaller_than q) (internal_date_before q)
    (internal_date_on q) (internal_date_since q) (sent_date_before q) (sent_date_on q)
    (sent_date_since q).
Definition set_larger_than {E} (x : option Z) (q : SearchQueryOf E) : SearchQueryOf E :=
  mkSearchQuery (match_all q) (expr q) (query_string q) (uid_filter q) (recent_only q)
    (old_only q) (header_filters q) (required_flags q) (forbidden_flags q)
    (required_keywords q) (forbidden_keywords q) x (smaller_than q) (internal_date_before
    q) (internal_date_on q) (internal_date_since q) (sent_date_before q) (sent_date_on q)
    (sent_date_since q).
Definition set_smaller_than {E} (x : option Z) (q : SearchQueryOf E) : SearchQueryOf E :=
  mkSearchQuery (match_all q) (expr q) (query_string q) (uid_filter q) (recent_only q)
    (old_only q) (header_filters q) (required_flags q) (forbidden_flags q)
    (required_keywords q) (forbidden_keywords q) (larger_than q) x (internal_date_before
    q) (internal_date_on q) (internal_date_since q) (sent_date_before q) (sent_date_on q)
    (sent_date_since q).
Definition set_internal_date_before {E} (x : option Z) (q : SearchQueryOf E) : SearchQueryOf E :=
  mkSearchQuery (match_all q) (expr q) (query_string q) (uid_filter q) (recent_only q)
    (old_only q) (header_filters q) (required_flags q) (forbidden_flags q)
    (required_keywords q) (forbidden_keywords q) (larger_than q) (smaller_than q) x
    (internal_date_on q) (internal_date_since q) (sent_date_before q) (sent_date_on q)
    (sent_date_since q).
Definition set_internal_date_on {E} (x : option Z) (q : SearchQueryOf E) : SearchQueryOf E :=
  mkSearchQuery (match_all q) (expr q) (query_string q) (uid_filter q) (recent_only q)
    (old_only q) (header_filters q) (required_flags q) (forbidden_flags q)
    (required_keywords q) (forbidden_keywords q) (larger_than q) (smaller_than q)
    (internal_date_before q) x (internal_date_since q) (sent_date_before q) (sent_date_on
    q) (sent_date_since q).
Definition set_internal_date_since {E} (x : option Z) (q : SearchQueryOf E) : SearchQueryOf E :=
  mkSearchQuery (match_all q) (expr q) (query_string q) (uid_filter q) (recent_only q)
    (old_only q) (header_filters q) (required_flags q) (forbidden_flags q)
    (required_keywords q) (forbidden_keywords q) (larger_than q) (smaller_than q)
    (internal_date_before q) (internal_date_on q) x (sent_date_before q) (sent_date_on q)
    (sent_date_since q).
Definition set_sent_date_before {E} (x : option Z) (q : SearchQueryOf E) : SearchQueryOf E :=
  mkSearchQuery (match_all q) (expr q) (query_string q) (uid_filter q) (recent_only q)
    (old_only q) (header_filters q) (required_flags q) (forbidden_flags q)
    (required_keywords q) (forbidden_keywords q) (larger_than q) (smaller_than q)
    (internal_date_before q) (internal_date_on q) (internal_date_since q) x (sent_date_on
    q) (sent_date_since q).
Definition set_sent_date_on {E} (x : option Z) (q : SearchQueryOf E) : SearchQueryOf E :=
  mkSearchQuery (match_all q) (expr q) (query_string q) (uid_filter q) (recent_only q)
    (old_only q) (header_filters q) (required_flags q) (forbidden_flags q)
    (required_keywords q) (forbidden_keywords q) (larger_than q) (smaller_than q)
    (internal_date_before q) (internal_date_on q) (internal_date_since q)
    (sent_date_before q) x (sent_date_since q).
Definition set_sent_date_since {E} (x : option Z) (q : SearchQueryOf E) : SearchQueryOf E :=
  mkSearchQuery (match_all q) (expr q) (query_string q) (uid_filter q) (recent_only q)
    (old_only q) (header_filters q) (required_flags q) (forbidden_flags q)
    (required_keywords q) (forbidden_keywords q) (larger_than q) (smaller_than q)
    (internal_date_before q) (internal_date_on q) (internal_date_since q)
    (sent_date_before q) (sent_date_on q) x.

Inductive SearchExpr : Type :=
| Leaf (query : SearchQueryOf SearchExpr)
| And (children : list SearchExpr)
| Or (left right : SearchExpr)
| Not (inner : SearchExpr).

Definition SearchQuery : Type := SearchQueryOf SearchExpr.

Definition SearchQuery_all : SearchQuery :=
  mkSearchQuery true None None None false false [] [] [] [] [] None None None None None None
    None None.

(** ** Small parsers *)
Definition parse_imap_date `{Chrono} (value : str) : Result Z :=
  ok_or (parse_naive_date value) (EParse (lit "invalid IMAP date: " ++ value)).

Definition quote_query (term : str) : str :=
  if existsb (fun c => is_whitespace c || existsb (Z.eqb c) [58; 34; 40; 41; 92]) term
  then 34 :: replace_char 34 [92; 34] (replace_char 92 [92; 92] term) ++ [34]
  else term.

Definition header_query_string (field value : str) : option str :=
  match match_str field
          [(lit "subject", lit "subject"); (lit "from", lit "from"); (lit "to", lit "to");
           (lit "cc", lit "cc"); (lit "bcc", lit "bcc");
           (lit "message-id", lit "message_id"); (lit "message_id", lit "message_id");
           (lit "reply-to", lit "reply_to"); (lit "reply_to", lit "reply_to")] with
  | Some query_field => Some (query_field ++ lit ":" ++ quote_query value)
  | None => None
  end.

Definition parse_uid_bound (value : str) : Result (option Z) :=
  if str_eqb value (lit "*") then Ok None
  else match parse_u64 value with
       | Some uid => Ok (Some uid)
       | None => Err (EParse (lit "invalid UID bound: " ++ value))
       end.

Definition parse_uid_part (set : UidSet) (part : str) : Result UidSet :=
  match split_once 58 part with
  | Some (start, end_) =>
      try! start <- parse_uid_bound start ;;
      try! end_ <- parse_uid_bound end_ ;;
      Ok (UidSet_push set (default 1 start) (default u64_max end_))
  | None =>
      try! uid <- parse_uid_bound part ;;
      try! uid <- ok_or uid (EParse (lit "UID must be numeric")) ;;
      Ok (UidSet_push set uid uid)
  end.

Fixpoint parse_uid_parts (set : UidSet) (parts : list str) : Result UidSet :=
  match parts with
  | [] => Ok set
  | part :: parts' => try! set' <- parse_uid_part set part ;; parse_uid_parts set' parts'
  end.

Definition parse_uid_set (value : str) : Result UidSet :=
  parse_uid_parts [] (split_char 44 value).

Definition union_uid_sets (acc : option UidSet) (set : UidSet) : option UidSet :=
  Some (match acc with Some acc => acc ++ set | None => set end).

(** ** Merging *)
Definition is_none {A} (o : option A) : bool := negb (is_some o).
Definition is_empty {A} (l : list A) : bool := match l with [] => true | _ => false end.

Definition is_identity_query (query : SearchQuery) : bool :=
  is_none (expr query) && is_none (query_string query) && is_none (uid_filter query)
  && is_empty (required_flags query) && is_empty (forbidden_flags query)
  && is_empty (required_keywords query) && is_empty (forbidden_keywords query)
  && is_empty (header_filters query)
  && negb (recent_only query) && negb (old_only query)
  && is_none (larger_than query) && is_none (smaller_than query)
  && is_none (internal_date_before query) && is_none (internal_date_on query)
  && is_none (internal_date_since query) && is_none (sent_date_before query)
  && is_none (sent_date_on query) && is_none (sent_date_since query).

(** The [match (acc, fragment)] of the bounds: the tighter of two. *)
Definition merge_bound (tighter : Z -> Z -> Z) (acc fragment : option Z) : option Z :=
  match acc, fragment with
  | Some existing, Some next => Some (tighter existing next)
  | None, Some next => Some next
  | existing, None => existing
  end.

(** [acc.or(fragment)]. *)
Definition option_or {A} (acc fragment : option A) : option A :=
  match acc with Some a => Some a | None => fragment end.

Definition merge_query_fields (acc fragment : SearchQuery) : SearchQuery :=
  mkSearchQuery false (expr acc)
    (match query_string fragment with
     | Some fragment_query =>
         match query_string acc with
         | Some existing => Some (existing ++ lit " " ++ fragment_query)
         | None => Some fragment_query
         end
     | None => query_string acc
     end)
    (match uid_filter acc, uid_filter fragment with
     | Some existing, Some next => union_uid_sets (Some existing) next
     | None, Some next => Some next
     | existing, None => existing
     end)
    (recent_only acc || recent_only fragment)
    (old_only acc || old_only fragment)
    (header_filters acc ++ header_filters fragment)
    (required_flags acc ++ required_flags fragment)
    (forbidden_flags acc ++ forbidden_flags fragment)
    (required_keywords acc ++ required_keywords fragment)
    (forbidden_keywords acc ++ forbidden_keywords fragment)
    (merge_bound Z.max (larger_than acc) (larger_than fragment))
    (merge_bound Z.min (smaller_than acc) (smaller_than fragment))
    (merge_bound Z.min (internal_date_before acc) (internal_date_before fragment))
    (option_or (internal_date_on acc) (internal_date_on fragment))
    (merge_bound Z.max (internal_date_since acc) (internal_date_since fragment))
    (merge_bound Z.min (sent_date_before acc) (sent_date_before fragment))
    (option_or (sent_date_on acc) (sent_date_on fragment))
    (merge_bound Z.max (sent_date_since acc) (sent_date_since fragment)).

(** ** [ImapSearchParser]

    The parser's [index] is the suffix of tokens not read yet. *)
Definition next_token (tokens : list str) : option str * list str :=
  match tokens with
  | [] => (None, [])
  | token :: rest => (Some token, rest)
  end.

Definition expect_term (tokens : list str) : Result (str * list str) :=
  match next_token tokens with
  | (Some token, rest) => Ok (token, rest)
  | (None, _) => Err (EParse (lit "missing SEARCH term"))
  end.

(** A criterion with one argument, made of [all] by [f]. *)
Definition with_term (tokens : list str) (f : str -> Result SearchQuery)
  : Result (SearchQuery * list str) :=
  try! t <- expect_term tokens ;;
  try! q <- f (fst t) ;;
  Ok (q, snd t).

Definition field_leaf (prefix : str) (term : str) : Result SearchQuery :=
  Ok (set_query_string (Some (prefix ++ quote_query term)) SearchQuery_all).

Definition flag_seen : str := lit "\Seen".
Definition flag_answered : str := lit "\Answered".
Definition flag_flagged : str := lit "\Flagged".
Definition flag_deleted : str := lit "\Deleted".

Definition text_query (term : str) : str :=
  let term := quote_query term in
  lit "body:" ++ term ++ lit " OR subject:" ++ term ++ lit " OR from:" ++ term ++
  lit " OR to:" ++ term ++ lit " OR cc:" ++ term ++ lit " OR bcc:" ++ term.

Definition parse_size (key : str) (set : option Z -> SearchQuery -> SearchQuery) (term : str)
  : Result SearchQuery :=
  match parse_u64 term with
  | Some value => Ok (set (Some value) SearchQuery_all)
  | None => Err (EParse (key ++ lit " requires a numeric size"))
  end.

Definition parse_date_key `{Chrono} (set : option Z -> SearchQuery -> SearchQuery) (term : str)
  : Result SearchQuery :=
  try! date <- parse_imap_date term ;;
  Ok (set (Some date) SearchQuery_all).

(** The arms that read a plain search key, its arguments taken from [tokens]. *)
Definition search_key_arms `{Chrono} (tokens : list str)
  : list (str * Result (SearchQuery * list str)) :=
  let leaf q := Ok (q, tokens) in
  let arg f := with_term tokens f in
  let q0 := SearchQuery_all in
  [(lit "ALL", Ok (q0, tokens));
   (lit "SUBJECT", arg (field_leaf (lit "subject:")));
   (lit "FROM", arg (field_leaf (lit "from:")));
   (lit "TO", arg (field_leaf (lit "to:")));
   (lit "CC", arg (field_leaf (lit "cc:")));
   (lit "BCC", arg (field_leaf (lit "bcc:")));
   (lit "HEADER",
     try! field <- expect_term tokens ;;
     try! value <- expect_term (snd field) ;;
     let field_lower := to_ascii_lowercase (fst field) in
     Ok (set_query_string (header_query_string field_lower (fst value))
           (set_header_filters [(field_lower, fst value)] q0), snd value));
   (lit "RECENT", leaf (set_recent_only true q0));
   (lit "NEW", leaf (set_recent_only true (set_forbidden_flags [flag_seen] q0)));
   (lit "OLD", leaf (set_old_only true q0));
   (lit "BODY", arg (fun t => Ok (set_query_string (Some (text_query t)) q0)));
   (lit "TEXT", arg (fun t => Ok (set_query_string (Some (text_query t)) q0)));
   (lit "SEEN", leaf (set_required_flags [flag_seen] q0));
   (lit "UNSEEN", leaf (set_forbidden_flags [flag_seen] q0));
   (lit "ANSWERED", leaf (set_required_flags [flag_answered] q0));
   (lit "UNANSWERED", leaf (set_forbidden_flags [flag_answered] q0));
   (lit "FLAGGED", leaf (set_required_flags [flag_flagged] q0));
   (lit "UNFLAGGED", leaf (set_forbidden_flags [flag_flagged] q0));
   (lit "DELETED", leaf (set_required_flags [flag_deleted] q0));
   (lit "UNDELETED", leaf (set_forbidden_flags [flag_deleted] q0));
   (lit "KEYWORD", arg (fun t => Ok (set_required_keywords [t] q0)));
   (lit "UNKEYWORD", arg (fun t => Ok (set_forbidden_keywords [t] q0)));
   (lit "LARGER", arg (parse_size (lit "LARGER") set_larger_than));
   (lit "SMALLER", arg (parse_size (lit "SMALLER") set_smaller_than));
   (lit "BEFORE", arg (parse_date_key set_internal_date_before));
   (lit "SINCE", arg (parse_date_key set_internal_date_since));
   (lit "ON", arg (parse_date_key set_internal_date_on));
   (lit "SENTBEFORE", arg (parse_date_key set_sent_date_before));
   (lit "SENTSINCE", arg (parse_date_key set_sent_date_since));
   (lit "SENTON", arg (parse_date_key set_sent_date_on))].

(** A key no arm reads is a text query of its upper-case form.  [match_all] is
    set for [ALL] alone. *)
Definition parse_search_key `{Chrono} (token : str) (tokens : list str)
  : Result (SearchExpr * list str) :=
  let upper := to_ascii_uppercase token in
  try! r <- match match_str upper (search_key_arms tokens) with
            | Some r => r
            | None => Ok (set_query_string (Some upper) SearchQuery_all, tokens)
            end ;;
  Ok (Leaf (set_match_all (str_eqb upper (lit "ALL")) (fst r)), snd r).

(** Each call reads a token, so as much fuel as there are tokens is enough; an
    exhausted fuel is [Panic], which [parse_term_total] excludes. *)
Fixpoint parse_term `{Chrono} (fuel : nat) (tokens : list str) : Result (SearchExpr * list str) :=
  match fuel with
  | O => Panic
  | S fuel' =>
      match next_token tokens with
      | (None, _) => Err (EParse (lit "unexpected end of SEARCH criteria"))
      | (Some token, tokens) =>
          if eq_ignore_ascii_case token (lit "NOT") then
            try! inner <- parse_term fuel' tokens ;;
            Ok (Not (fst inner), snd inner)
          else if eq_ignore_ascii_case token (lit "OR") then
            try! left <- parse_term fuel' tokens ;;
            try! right <- parse_term fuel' (snd left) ;;
            Ok (Or (fst left) (fst right), snd right)
          else if eq_ignore_ascii_case token (lit "UID") then
            match next_token tokens with
            | (None, _) => Err (EParse (lit "UID requires a sequence set"))
            | (Some value, tokens) =>
                try! set <- parse_uid_set value ;;
                Ok (Leaf (set_match_all false (set_uid_filter (Some set) SearchQuery_all)), tokens)
            end
          else parse_search_key token tokens
      end
  end.

(** The loop of [parse]: leaves are merged into [flat], the others collected. *)
Fixpoint parse_loop `{Chrono} (fuel : nat) (tokens : list str) (flat : SearchQuery)
  (expr_terms : list SearchExpr) : Result (SearchQuery * list SearchExpr) :=
  match tokens with
  | [] => Ok (flat, expr_terms)
  | _ =>
      match fuel with
      | O => Panic
      | S fuel' =>
          try! r <- parse_term (S (length tokens)) tokens ;;
          match fst r with
          | Leaf fragment =>
              parse_loop fuel' (snd r)
                (if is_identity_query fragment then flat else merge_query_fields flat fragment)
                expr_terms
          | other => parse_loop fuel' (snd r) flat (expr_terms ++ [other])
          end
      end
  end.

Definition search_parser_parse `{Chrono} (tokens : list str) : Result SearchQuery :=
  try! r <- parse_loop (length tokens) tokens (set_match_all false SearchQuery_all) [] ;;
  let '(flat, expr_terms) := r in
  match tokens with
  | [] => Ok SearchQuery_all
  | _ =>
      match expr_terms with
      | [] => Ok (if is_identity_query flat then SearchQuery_all else flat)
      | [e] => Ok (set_match_all false (set_expr (Some e) flat))
      | _ => Ok (set_match_all false (set_expr (Some (And expr_terms)) flat))
      end
  end.

Definition from_imap_args `{Chrono} (args : list str) : Result SearchQuery :=
  match args with
  | [] => Ok SearchQuery_all
  | _ => search_parser_parse args
  end.

(** ** The parser ends on every input *)

(** A parser that never panics and, when it succeeds, leaves at most [n]
    tokens. *)
Definition leaves {A} (n : nat) (r : Result (A * list str)) : Prop :=
  match r with
  | Ok (_, rest) => (length rest <= n)%nat
  | Err _ => True
  | Panic => False
  end.

Lemma leaves_obind {A B} n m (r : Result (A * list str)) (k : A * list str -> Result (B * list str)) :
  leaves m r -> (forall a rest, (length rest <= m)%nat -> leaves n (k (a, rest))) ->
  leaves n (obind r k).
Proof. destruct r as [[a rest]|e|]; simpl; intros Hr Hk; [by apply Hk|done|done]. Qed.

Lemma leaves_pure {A B} n (r : Result A) (k : A -> Result (B * list str)) :
  r <> Panic -> (forall a, leaves n (k a)) -> leaves n (obind r k).
Proof. destruct r; simpl; intros Hr Hk; [by apply Hk|done|done]. Qed.

Lemma expect_term_leaves tokens : leaves (length tokens) (expect_term tokens).
Proof. destruct tokens; simpl; [done|lia]. Qed.

Lemma with_term_leaves tokens f :
  (forall t, f t <> Panic) -> leaves (length tokens) (with_term tokens f).
Proof.
  intros Hf. unfold with_term. eapply leaves_obind; [apply expect_term_leaves|].
  intros a rest Hr. apply leaves_pure; [apply Hf|]. intros q. exact Hr.
Qed.

Lemma parse_uid_parts_no_panic set parts : parse_uid_parts set parts <> Panic.
Proof.
  revert set. induction parts as [|part parts IH]; intros set; simpl; [done|].
  unfold parse_uid_part, parse_uid_bound, ok_or.
  repeat (case_match; simpl; try done); apply IH.
Qed.

Section Totality.
Context `{Chrono}.

Lemma search_key_arms_leave upper tokens r :
  match_str upper (search_key_arms tokens) = Some r -> leaves (length tokens) r.
Proof.
  assert (Hall : List.Forall (fun arm => leaves (length tokens) (snd arm))
                   (search_key_arms tokens)).
  { unfold search_key_arms. repeat apply List.Forall_cons; try apply List.Forall_nil;
      cbn [snd];
      try (apply with_term_leaves; intros t; unfold field_leaf, parse_size, parse_date_key,
        parse_imap_date, ok_or, obind; repeat case_match; done);
      try (unfold leaves; lia).
    eapply leaves_obind; [apply expect_term_leaves|]. intros a rest Hr. simpl.
    eapply leaves_obind; [apply expect_term_leaves|]. intros b rest' Hr'. simpl in *. lia. }
  revert Hall. generalize (search_key_arms tokens). intros arms Hall Hm.
  induction Hall as [|[p a] arms Ha _ IH]; simpl in *; [done|].
  destruct (str_eqb upper p); [by injection Hm as <-|by apply IH].
Qed.

Lemma parse_search_key_leaves token tokens :
  leaves (length tokens) (parse_search_key token tokens).
Proof.
  unfold parse_search_key. eapply (leaves_obind _ (length tokens)).
  - destruct (match_str _ _) eqn:E; [by eapply search_key_arms_leave|simpl; lia].
  - intros q rest Hr. exact Hr.
Qed.

(** With more fuel than tokens the parser of one criterion does not run out,
    and it reads at least one token. *)
Lemma parse_term_leaves fuel tokens :
  (length tokens < fuel)%nat -> leaves (length tokens - 1) (parse_term fuel tokens).
Proof.
  revert tokens. induction fuel as [|fuel IH]; intros tokens Hf; [lia|].
  destruct tokens as [|token tokens]; simpl in *; [done|]. rewrite Nat.sub_0_r.
  case_match; [|case_match; [|case_match]].
  - eapply leaves_obind; [apply IH; lia|]. intros a rest Hr. simpl. lia.
  - eapply leaves_obind; [apply IH; lia|]. intros a rest Hr. simpl.
    eapply leaves_obind; [apply IH; lia|]. intros b rest' Hr'. simpl. lia.
  - destruct tokens as [|value tokens]; simpl; [done|].
    apply leaves_pure; [apply parse_uid_parts_no_panic|]. intros set. simpl. lia.
  - apply parse_search_key_leaves.
Qed.

Lemma parse_loop_total fuel tokens flat expr_terms :
  (length tokens <= fuel)%nat -> parse_loop fuel tokens flat expr_terms <> Panic.
Proof.
  revert tokens flat expr_terms. induction fuel as [|fuel IH]; intros tokens flat terms Hf.
  - destruct tokens; [done|simpl in Hf; lia].
  - destruct tokens as [|token tokens]; [done|].
    pose proof (parse_term_leaves (S (length (token :: tokens))) (token :: tokens)
                  ltac:(lia)) as Hl.
    unfold parse_loop; fold @parse_loop.
    destruct (parse_term (S (length (token :: tokens))) (token :: tokens))
      as [[e rest]|err|]; simpl in Hl; simpl obind; [|done|done].
    simpl in Hf. cbn [fst snd]. destruct e; apply IH; lia.
Qed.

(** Parsing SEARCH criteria ends on every token list, with a query or a parse
    error: the recursion of NOT and OR and the loop over the criteria never run
    past the tokens. *)
Theorem from_imap_args_total args :
  (exists query, from_imap_args args = Ok query) \/ (exists err, from_imap_args args = Err err).
Proof.
  destruct args as [|a args]; [by left; eexists|]. unfold from_imap_args, search_parser_parse.
  pose proof (parse_loop_total (length (a :: args)) (a :: args)
                (set_match_all false SearchQuery_all) [] ltac:(lia)) as Hp.
  destruct (parse_loop _ _ _ _) as [[flat terms]|err|]; simpl; [|eauto|done].
  left. destruct terms as [|? [|? ?]]; eauto.
Qed.
End Totality.
