(* ===== verification/Storage.v ===== *)
(** * Content-addressed object storage

    Models crates/core/src/storage.rs (keys, validation, the [ObjectStore]
    trait with its default [get_range]) and crates/storage/src/memory.rs (the
    in-memory backend).  SHA-256 with its hexadecimal rendering is a parameter.
    The trait is the class [ObjectStore]; [ObjectStoreLaws] is what the sync
    and fetch code relies on, and the memory backend satisfies it. *)

From stdpp Require Import base strings list gmap.
From Stdlib Require Import ZArith Lia.
From S2P Require Import Prelude RustStr Domain.

Local Open Scope Z_scope.

(** [hex::encode(Sha256::digest(bytes))], from the sha2 and hex crates. *)
Class Sha256 : Type := { sha256_hex : bytes -> str }.

Inductive ObjectType : Type := Rfc822 | MimePartObject | Attachment | Cache.

(** [format!("{:?}", object_type)]: the derived [Debug] of the enum. *)
Definition ObjectType_debug (t : ObjectType) : str :=
  match t with
  | Rfc822 => lit "Rfc822"
  | MimePartObject => lit "MimePart"
  | Attachment => lit "Attachment"
  | Cache => lit "Cache"
  end.

Record ObjectMetadata : Type := mkObjectMetadata {
  ObjectMetadata_key : str;
  ObjectMetadata_sha256 : str;
  ObjectMetadata_size_octets : Z
}.

(** [bytes[start..end].to_vec()]: a panic unless [start <= end <= len]. *)
Definition slice (bytes : bytes) (start end_ : Z) : Result (list Z) :=
  if (start <=? end_) && (end_ <=? Z.of_nat (length bytes)) then
    Ok (take (Z.to_nat (end_ - start)) (drop (Z.to_nat start) bytes))
  else Panic.

(** The body shared by the trait's default [get_range] and the memory store's,
    after the blob was found. *)
Definition slice_range (bytes : bytes) (start : Z) (end_ : option Z) : Result (list Z) :=
  let len := Z.of_nat (length bytes) in
  if len <=? start then Ok []
  else slice bytes start (Z.min (default len end_) len).

(** ** The trait *)
Class ObjectStore (S : Type) : Type := {
  store_put : str -> bytes -> M Error S ObjectMetadata;
  store_get : str -> M Error S (option bytes);
  store_get_range : str -> Z -> option Z -> M Error S (option bytes);
  store_delete : str -> M Error S unit;
  store_exists : str -> M Error S bool
}.

Section Keys.
Context `{Sha256}.

Definition content_addressed_key (object_type : ObjectType) (bytes : bytes) : str :=
  ObjectType_debug object_type ++ lit "/" ++ sha256_hex bytes.

Definition object_type_of_prefix (prefix : str) : option ObjectType :=
  match_str prefix
    [(lit "Rfc822", Rfc822); (lit "MimePart", MimePartObject);
     (lit "Attachment", Attachment); (lit "Cache", Cache)].

Definition validate_content_addressed_bytes (expected_key : str) (bytes : bytes)
  : Result unit :=
  match split_once 47 expected_key with
  | None => Err (EStorage (lit "invalid content-addressed key: " ++ expected_key))
  | Some (prefix, hash) =>
      match object_type_of_prefix prefix with
      | None =>
          Err (EStorage (lit "unknown content-addressed key prefix: " ++ prefix))
      | Some object_type =>
          let actual_key := content_addressed_key object_type bytes in
          if negb (str_eqb actual_key expected_key) then
            Err (EStorage
                   (lit "content hash mismatch for " ++ expected_key ++
                    lit ": expected " ++ hash ++ lit ", got " ++
                    match split_once 47 actual_key with
                    | Some (_, value) => value
                    | None => []
                    end))
          else Ok tt
      end
  end.

Definition validate_object_key (expected : str) (actual : ObjectMetadata) : Result unit :=
  if negb (str_eqb expected (ObjectMetadata_key actual)) then
    Err (EStorage (lit "object key mismatch: expected " ++ expected ++ lit ", got " ++
                   ObjectMetadata_key actual))
  else Ok tt.

(** ** The memory backend *)
Record MemoryObjectStore : Type := mkMemoryObjectStore {
  blobs : gmap str bytes
}.

Definition memory_put (key : str) (b : bytes) : M Error MemoryObjectStore ObjectMetadata :=
  lift (validate_content_addressed_bytes key b) ;;;
  modify (fun s => mkMemoryObjectStore (<[key := b]> (blobs s))) ;;;
  ret (mkObjectMetadata key (sha256_hex b) (Z.of_nat (length b))).

Definition memory_get (key : str) : M Error MemoryObjectStore (option bytes) :=
  do found <- gets (fun s => blobs s !! key) ;;
  match found with
  | None => ret None
  | Some b =>
      lift (validate_content_addressed_bytes key b) ;;;
      ret (Some b)
  end.

Definition memory_get_range (key : str) (start : Z) (end_ : option Z)
  : M Error MemoryObjectStore (option bytes) :=
  do found <- gets (fun s => blobs s !! key) ;;
  match found with
  | None => ret None
  | Some b => do r <- lift (slice_range b start end_) ;; ret (Some r)
  end.

Definition memory_delete (key : str) : M Error MemoryObjectStore unit :=
  modify (fun s => mkMemoryObjectStore (delete key (blobs s))).

Definition memory_exists (key : str) : M Error MemoryObjectStore bool :=
  gets (fun s => is_some (blobs s !! key)).

(** The trait's default [get_range], for a backend that only has [get]. *)
Definition default_get_range {S} (get : str -> M Error S (option bytes))
  (key : str) (start : Z) (end_ : option Z) : M Error S (option bytes) :=
  do found <- get key ;;
  match found with
  | None => ret None
  | Some b => do r <- lift (slice_range b start end_) ;; ret (Some r)
  end.

#[export] Instance memory_object_store : ObjectStore MemoryObjectStore := {
  store_put := memory_put;
  store_get := memory_get;
  store_get_range := memory_get_range;
  store_delete := memory_delete;
  store_exists := memory_exists
}.

(** ** What a store promises its clients

    [contents] is the abstract value: the blobs by key.  [store_ok] is an
    invariant of the backend, kept by every call. *)
Class ObjectStoreLaws (S : Type) `{ObjectStore S} : Type := {
  store_contents : S -> gmap str bytes;
  store_ok : S -> Prop;
  law_put_ok : forall key b s,
    store_ok s -> (exists t, key = content_addressed_key t b) ->
    exists s', store_put key b s =
               (s', Ok (mkObjectMetadata key (sha256_hex b) (Z.of_nat (length b)))) /\
      store_ok s' /\ store_contents s' = <[key := b]> (store_contents s);
  law_put_reject : forall key b s,
    (forall t, key <> content_addressed_key t b) ->
    exists e, store_put key b s = (s, Err e);
  law_get : forall key s,
    store_ok s -> store_get key s = (s, Ok (store_contents s !! key));
  law_delete : forall key s,
    store_ok s ->
    exists s', store_delete key s = (s', Ok tt) /\ store_ok s' /\
      store_contents s' = delete key (store_contents s);
  law_exists : forall key s,
    store_exists key s = (s, Ok (is_some (store_contents s !! key)))
}.

(** ** Facts *)
Lemma split_once_no_slash p s :
  Forall (fun c => c <> 47) p -> split_once 47 (p ++ 47 :: s) = Some (p, s).
Proof.
  induction 1 as [|c p Hc _ IH]; simpl; [done|].
  rewrite (proj2 (Z.eqb_neq c 47)) by done. by rewrite IH.
Qed.

Lemma content_addressed_key_split t b :
  split_once 47 (content_addressed_key t b) = Some (ObjectType_debug t, sha256_hex b).
Proof. by destruct t. Qed.

Lemma object_type_of_prefix_Some p t :
  object_type_of_prefix p = Some t -> p = ObjectType_debug t.
Proof.
  unfold object_type_of_prefix, match_str.
  repeat (case_match; [match goal with E : str_eqb _ _ = true |- _ =>
    apply str_eqb_eq in E; subst; by intros [= <-] end|]). done.
Qed.

(** A key is accepted for a blob exactly when it is one of the blob's own
    content addresses. *)
Lemma validate_iff key b :
  validate_content_addressed_bytes key b = Ok tt <->
  exists t, key = content_addressed_key t b.
Proof.
  unfold validate_content_addressed_bytes. split.
  - destruct (split_once 47 key) as [[prefix hash]|]; [|done].
    destruct (object_type_of_prefix prefix) as [t|]; [|done].
    destruct (str_eqb _ key) eqn:E; simpl; [|done].
    apply str_eqb_eq in E. eauto.
  - intros [t ->]. rewrite content_addressed_key_split.
    assert (object_type_of_prefix (ObjectType_debug t) = Some t) as -> by (by destruct t).
    by rewrite str_eqb_refl.
Qed.

Lemma validate_not_panic key b : validate_content_addressed_bytes key b <> Panic.
Proof. unfold validate_content_addressed_bytes. repeat case_match; done. Qed.

Definition memory_ok (s : MemoryObjectStore) : Prop :=
  forall key b, blobs s !! key = Some b -> exists t, key = content_addressed_key t b.

#[export] Instance memory_object_store_laws : ObjectStoreLaws MemoryObjectStore.
Proof.
  refine {| store_contents := blobs; store_ok := memory_ok |}; simpl.
  - intros key b s Hok Hkey. apply validate_iff in Hkey as Hv.
    unfold memory_put, bind, lift, modify, ret. rewrite Hv. eexists. split; [done|].
    split; [|done]. intros key' b'. simpl. rewrite lookup_insert. case_decide; [|apply Hok].
    intros [= <-]. by subst.
  - intros key b s Hkey. unfold memory_put, bind, lift.
    destruct (validate_content_addressed_bytes key b) as [[]|e|] eqn:E; [|eauto|].
    + apply validate_iff in E as [t Ht]. by destruct (Hkey t).
    + by apply validate_not_panic in E.
  - intros key s Hok. unfold memory_get, bind, gets, lift, ret.
    destruct (blobs s !! key) as [b|] eqn:E; [|done].
    apply Hok, validate_iff in E. by rewrite E.
  - intros key s Hok. eexists. split; [done|]. split; [|done].
    intros key' b. simpl. rewrite lookup_delete. case_decide; [done|]. apply Hok.
  - done.
Defined.

(** The memory store never hands out bytes that do not match their key: a
    [get] answers bytes exactly when they are stored under the key and the key
    is their content address; bytes stored under a key that is not their
    content address are an error, and no call changes the store. *)
Theorem memory_get_verifies key s :
  (forall b, memory_get key s = (s, Ok (Some b)) <->
     blobs s !! key = Some b /\ exists t, key = content_addressed_key t b) /\
  (memory_get key s = (s, Ok None) <-> blobs s !! key = None) /\
  (forall b, blobs s !! key = Some b -> (forall t, key <> content_addressed_key t b) ->
     exists e, memory_get key s = (s, Err e)).
Proof.
  unfold memory_get, bind, gets, lift, ret. destruct (blobs s !! key) as [b0|].
  - destruct (validate_content_addressed_bytes key b0) as [[]|e|] eqn:E.
    + apply validate_iff in E as Ht. split_and!.
      * intros b. split; [by intros [= <-]|by intros [[= <-] _]].
      * by split.
      * intros b [= <-] Hn. destruct Ht as [t Ht]. by destruct (Hn t).
    + split_and!; [|by split|by eauto].
      intros b. split; [done|]. intros [[= <-] Ht]. apply validate_iff in Ht. congruence.
    + by apply validate_not_panic in E.
  - split_and!; [|done|done]. intros b. split; [done|by intros [? _]].
Qed.

(** The bytes of a range request that is not inverted. *)
Lemma slice_range_ok b start end_ :
  0 <= start -> (forall n, end_ = Some n -> start <= n) ->
  slice_range b start end_ =
  Ok (take (Z.to_nat (default (Z.of_nat (length b)) end_ - start)) (drop (Z.to_nat start) b)).
Proof.
  intros H0 Hend. unfold slice_range, slice. set (len := Z.of_nat (length b)).
  destruct (Z.leb_spec len start) as [Hle|Hlt].
  - f_equal. rewrite drop_ge by lia. by rewrite take_nil.
  - assert (start <= default len end_) by (destruct end_; simpl; [by apply Hend|lia]).
    rewrite (proj2 (Z.leb_le start _)) by lia. rewrite (proj2 (Z.leb_le _ len)) by lia. simpl.
    f_equal. destruct (Z.le_gt_cases (default len end_) len).
    + by rewrite Z.min_l.
    + rewrite Z.min_r by lia. rewrite !take_ge; [done| |]; rewrite length_drop; lia.
Qed.

(** Ranged reads: on a sound store the memory backend's own [get_range]
    agrees with the trait's default, which reads the blob, verifies it and cuts
    the range; for a range that is not inverted the answer is exactly the bytes
    from [start] up to [end] or the end of the blob, without a panic. *)
Theorem memory_get_range_is_default key start end_ s :
  memory_ok s ->
  memory_get_range key start end_ s = default_get_range memory_get key start end_ s /\
  (0 <= start -> (forall n, end_ = Some n -> start <= n) ->
   memory_get_range key start end_ s =
   (s, Ok ((fun b => take (Z.to_nat (default (Z.of_nat (length b)) end_ - start))
                          (drop (Z.to_nat start) b)) <$> blobs s !! key))).
Proof.
  intros Hok. unfold memory_get_range, default_get_range, memory_get, bind, gets, lift, ret.
  destruct (blobs s !! key) as [b|] eqn:E; [|done].
  assert (validate_content_addressed_bytes key b = Ok tt) as ->
    by (by apply validate_iff, Hok). split; [done|].
  intros H0 Hend. by rewrite slice_range_ok.
Qed.
End Keys.

(** ** Witnesses *)
Module StorageWitness.

#[local] Instance sha : Sha256 := { sha256_hex := fun b => b }.

Definition key : str := content_addressed_key Rfc822 (lit "hello").
Definition store : MemoryObjectStore := fst (memory_put key (lit "hello") (mkMemoryObjectStore ∅)).

Lemma memory_get_range_is_default_witness :
memory_get_range key 1 (Some 3) store = (store, Ok (Some (lit "el"))).
Proof.
apply (proj2 (memory_get_range_is_default key 1 (Some 3) store
  ltac:(intros k b; unfold store, memory_put, bind, modify, ret, lift; simpl;
        rewrite lookup_insert; case_decide; [intros [= <-]; subst; by exists Rfc822|];
        rewrite lookup_empty; done))); [lia|].
intros n [= <-]. lia.
Defined.

End StorageWitness.
