(* ===== verification/Notifications.v ===== *)
(** * Mutation events and their sinks

    Models crates/notifications/src/lib.rs: the event record with its smart
    constructors and the [MutationEventSink] implementations.  A sink is a
    computation on the state [H] of the process it feeds; tokio's broadcast
    channel and the Redis client are parameters. *)

From stdpp Require Import base strings list.
From Stdlib Require Import ZArith Lia.
From S2P Require Import Prelude RustStr Domain.

Local Open Scope Z_scope.

Inductive MutationEventKind : Type :=
| AccountChanged
| MailboxChanged
| MessageChanged
| PendingMutationChanged.

Record MutationEvent : Type := mkMutationEvent {
  MutationEvent_kind : MutationEventKind;
  MutationEvent_account_id : option Z;
  MutationEvent_mailbox_id : option Z;
  MutationEvent_message_id : option Z;
  MutationEvent_mutation_id : option Z;
  MutationEvent_local_uid : option Z;
  MutationEvent_sequence_number : option Z;
  MutationEvent_flags : list str;
  MutationEvent_detail : str;
  MutationEvent_occurred_at : Z
}.

(** ** Constructors; [now] is [Utc::now()] *)
Definition MutationEvent_new (now : Z) (kind : MutationEventKind)
  (account_id mailbox_id message_id mutation_id local_uid sequence_number : option Z)
  (flags : list str) (detail : str) : MutationEvent :=
  mkMutationEvent kind account_id mailbox_id message_id mutation_id local_uid
    sequence_number flags detail now.

Definition account_changed (now : Z) (account_id : Z) (detail : str) : MutationEvent :=
  MutationEvent_new now AccountChanged (Some account_id) None None None None None [] detail.

Definition mailbox_changed (now : Z) (account_id mailbox_id : option Z) (detail : str)
  : MutationEvent :=
  MutationEvent_new now MailboxChanged account_id mailbox_id None None None None [] detail.

Definition message_changed (now : Z) (account_id mailbox_id message_id : option Z)
  (detail : str) : MutationEvent :=
  MutationEvent_new now MessageChanged account_id mailbox_id message_id None None None []
    detail.

Definition message_changed_with_context (now : Z)
  (account_id mailbox_id message_id local_uid sequence_number : option Z)
  (flags : list str) (detail : str) : MutationEvent :=
  MutationEvent_new now MessageChanged account_id mailbox_id message_id None local_uid
    sequence_number flags detail.

Definition pending_mutation_changed (now : Z) (account_id mailbox_id mutation_id : option Z)
  (detail : str) : MutationEvent :=
  MutationEvent_new now PendingMutationChanged account_id mailbox_id None mutation_id
    None None [] detail.

Definition mailbox_changed_with_context (now : Z)
  (account_id mailbox_id local_uid sequence_number : option Z)
  (flags : list str) (detail : str) : MutationEvent :=
  MutationEvent_new now MailboxChanged account_id mailbox_id None None local_uid
    sequence_number flags detail.

(** ** Sinks *)
Section Sinks.
Context {H : Type}.

Definition MutationEventSink : Type := MutationEvent -> M Error H unit.

Definition NoopMutationEventSink : MutationEventSink := fun _ => ret tt.

(** [hub.publish] drops the outcome of the broadcast [send]. *)
Definition HubMutationEventSink (hub_send : MutationEvent -> M Error H Z)
  : MutationEventSink :=
  fun event => ignore (hub_send event) ;;; ret tt.

Definition CompositeMutationEventSink (sinks : list MutationEventSink)
  : MutationEventSink :=
  fun event => for_each sinks (fun sink => sink event).

(** [serialize], [connect] and [publish] are serde_json and the Redis client;
    [published] counts the event in the metrics, when there are any. *)
Definition RedisMutationEventSink
  (serialize : MutationEvent -> Result str) (connect : M Error H unit)
  (publish : str -> str -> M Error H Z) (published : option (H -> H))
  : MutationEventSink :=
  fun event =>
    do payload <- lift (serialize event) ;;
    connect ;;;
    publish (lit "imap:mutations") payload ;;;
    match published with
    | Some count => modify count
    | None => ret tt
    end.

(** ** The relay *)

(** One message of the subscription: its payload, or the text of the error of
    reading it.  [deserialize] is serde_json; what it refuses is discarded. *)
Definition relay_message (deserialize : str -> option MutationEvent)
  (hub_send : MutationEvent -> M Error H Z) (relayed : option (H -> H)) (message : str + str)
  : M Error H unit :=
  match message with
  | inr err => fail (EStorage (lit "reading redis event payload: " ++ err))
  | inl payload =>
      match deserialize payload with
      | Some event =>
          ignore (hub_send event) ;;;
          match relayed with Some count => modify count | None => ret tt end
      | None => ret tt
      end
  end.

(** [connect] and [subscribe] are the Redis client; [messages] are what the
    subscription delivers until it ends. *)
Definition RedisMutationEventRelay_run (deserialize : str -> option MutationEvent)
  (connect : M Error H unit) (subscribe : str -> M Error H unit)
  (hub_send : MutationEvent -> M Error H Z) (relayed : option (H -> H)) (messages : list (str + str))
  : M Error H unit :=
  connect ;;;
  subscribe (lit "imap:mutations") ;;;
  for_each messages (relay_message deserialize hub_send relayed).

(** ** Facts *)

(** A composite sink is the sinks in order, up to the first that fails. *)
Lemma composite_app (l1 l2 : list MutationEventSink) event s :
  CompositeMutationEventSink (l1 ++ l2) event s =
  bind (CompositeMutationEventSink l1 event)
       (fun _ => CompositeMutationEventSink l2 event) s.
Proof.
  unfold CompositeMutationEventSink. revert s.
  induction l1 as [|sink l1 IH]; intros s; simpl; [done|].
  unfold bind at 1 2. destruct (sink event s) as [s' [[]|e|]] eqn:E.
  - rewrite IH. unfold bind. by rewrite E.
  - unfold bind. by rewrite E.
  - unfold bind. by rewrite E.
Qed.
End Sinks.
