(* ===== verification/Schema.v ===== *)
(** * The relational store under the repository

    The tables of migrations/*.sql as lists of rows in insertion order, the row
    and input structs of crates/db/src/repository.rs with their conversions to
    the domain records, the SQL building blocks the statements are made of, and
    the constraints PostgreSQL checks when a statement ends.

    A statement that violates a constraint fails and changes no table.  A
    sequence number once drawn stays drawn, also when the statement or its
    transaction fails. *)

From stdpp Require Import base strings list.
From Stdlib Require Import ZArith Lia Permutation.
From S2P Require Import Prelude RustStr Domain Notifications.

Local Open Scope Z_scope.

(** ** Row structs *)
Record UserRow : Type := mkUserRow {
  UserRow_id : Z;
  UserRow_username_email : str;
  UserRow_password_hash : str;
  UserRow_created_at : Z;
  UserRow_disabled_at : option Z
}.

Record MailAccountRow : Type := mkMailAccountRow {
  MailAccountRow_id : Z;
  MailAccountRow_user_id : Z;
  MailAccountRow_display_name : str;
  MailAccountRow_email_address : str;
  MailAccountRow_upstream_host : str;
  MailAccountRow_upstream_port : Z;
  MailAccountRow_upstream_tls_mode : str;
  MailAccountRow_upstream_auth_method : str;
  MailAccountRow_encrypted_upstream_username : bytes;
  MailAccountRow_encrypted_upstream_secret : bytes;
  MailAccountRow_created_at : Z;
  MailAccountRow_disabled_at : option Z;
  MailAccountRow_last_sync_at : option Z;
  MailAccountRow_last_sync_error : option str
}.

Record MailboxRow : Type := mkMailboxRow {
  MailboxRow_id : Z;
  MailboxRow_account_id : Z;
  MailboxRow_name : str;
  MailboxRow_canonical_name : str;
  MailboxRow_delimiter : option str;
  MailboxRow_attributes : list str;
  MailboxRow_subscribed : bool;
  MailboxRow_special_use : option str;
  MailboxRow_uidvalidity : option Z;
  MailboxRow_uidnext : option Z;
  MailboxRow_highestmodseq : option Z;
  MailboxRow_exists_count : Z;
  MailboxRow_recent_count : Z;
  MailboxRow_unseen_count : Z;
  MailboxRow_created_at : Z;
  MailboxRow_updated_at : Z
}.

Record MessageRow : Type := mkMessageRow {
  MessageRow_id : Z;
  MessageRow_account_id : Z;
  MessageRow_rfc822_blob_key : str;
  MessageRow_rfc822_sha256 : str;
  MessageRow_message_id_header : option str;
  MessageRow_subject : option str;
  MessageRow_from_json : Value;
  MessageRow_to_json : Value;
  MessageRow_cc_json : Value;
  MessageRow_bcc_json : Value;
  MessageRow_reply_to_json : Value;
  MessageRow_envelope_json : Value;
  MessageRow_bodystructure_json : Value;
  MessageRow_internal_date : option Z;
  MessageRow_sent_date : option Z;
  MessageRow_size_octets : Z;
  MessageRow_text_preview : option str;
  MessageRow_created_at : Z
}.

Record MimePartRow : Type := mkMimePartRow {
  MimePartRow_id : Z;
  MimePartRow_message_id : Z;
  MimePartRow_part_path : str;
  MimePartRow_content_type : str;
  MimePartRow_charset : option str;
  MimePartRow_disposition : option str;
  MimePartRow_filename : option str;
  MimePartRow_content_id : option str;
  MimePartRow_size_octets : Z;
  MimePartRow_blob_key : str;
  MimePartRow_sha256 : str;
  MimePartRow_transfer_encoding : option str;
  MimePartRow_metadata_json : Value
}.

Record SyncStateRow : Type := mkSyncStateRow {
  SyncStateRow_id : Z;
  SyncStateRow_account_id : Z;
  SyncStateRow_mailbox_id : option Z;
  SyncStateRow_state_json : Value;
  SyncStateRow_last_success_at : option Z;
  SyncStateRow_last_attempt_at : option Z;
  SyncStateRow_last_error : option str
}.

Record PendingMutationRow : Type := mkPendingMutationRow {
  PendingMutationRow_id : Z;
  PendingMutationRow_account_id : Z;
  PendingMutationRow_mailbox_id : Z;
  PendingMutationRow_message_id : option Z;
  PendingMutationRow_mutation_type : str;
  PendingMutationRow_payload_json : Value;
  PendingMutationRow_status : str;
  PendingMutationRow_attempts : Z;
  PendingMutationRow_next_attempt_at : option Z;
  PendingMutationRow_idempotency_key : str;
  PendingMutationRow_created_at : Z;
  PendingMutationRow_updated_at : Z
}.

Record MailboxMessageRow : Type := mkMailboxMessageRow {
  MailboxMessageRow_id : Z;
  MailboxMessageRow_mailbox_id : Z;
  MailboxMessageRow_message_id : Z;
  MailboxMessageRow_local_uid : Z;
  MailboxMessageRow_upstream_uid : option Z;
  MailboxMessageRow_modseq : option Z;
  MailboxMessageRow_flags : list str;
  MailboxMessageRow_keywords : list str;
  MailboxMessageRow_is_expunged : bool;
  MailboxMessageRow_expunged_at : option Z;
  MailboxMessageRow_created_at : Z;
  MailboxMessageRow_updated_at : Z
}.

Record MailboxMessageViewRow : Type := mkMailboxMessageViewRow {
  MailboxMessageViewRow_id : Z;
  MailboxMessageViewRow_mailbox_id : Z;
  MailboxMessageViewRow_message_id : Z;
  MailboxMessageViewRow_local_uid : Z;
  MailboxMessageViewRow_upstream_uid : option Z;
  MailboxMessageViewRow_modseq : option Z;
  MailboxMessageViewRow_flags : list str;
  MailboxMessageViewRow_keywords : list str;
  MailboxMessageViewRow_is_expunged : bool;
  MailboxMessageViewRow_expunged_at : option Z;
  MailboxMessageViewRow_created_at : Z;
  MailboxMessageViewRow_updated_at : Z;
  MailboxMessageViewRow_rfc822_blob_key : str;
  MailboxMessageViewRow_rfc822_sha256 : str;
  MailboxMessageViewRow_message_id_header : option str;
  MailboxMessageViewRow_subject : option str;
  MailboxMessageViewRow_envelope_json : Value;
  MailboxMessageViewRow_bodystructure_json : Value;
  MailboxMessageViewRow_internal_date : option Z;
  MailboxMessageViewRow_sent_date : option Z;
  MailboxMessageViewRow_size_octets : Z;
  MailboxMessageViewRow_text_preview : option str
}.

Record MailboxMessageView : Type := mkMailboxMessageView {
  MailboxMessageView_id : Z;
  MailboxMessageView_mailbox_id : Z;
  MailboxMessageView_message_id : Z;
  MailboxMessageView_local_uid : Z;
  MailboxMessageView_upstream_uid : option Z;
  MailboxMessageView_modseq : option Z;
  MailboxMessageView_flags : list str;
  MailboxMessageView_keywords : list str;
  MailboxMessageView_is_expunged : bool;
  MailboxMessageView_expunged_at : option Z;
  MailboxMessageView_created_at : Z;
  MailboxMessageView_updated_at : Z;
  MailboxMessageView_rfc822_blob_key : str;
  MailboxMessageView_rfc822_sha256 : str;
  MailboxMessageView_message_id_header : option str;
  MailboxMessageView_subject : option str;
  MailboxMessageView_envelope_json : Value;
  MailboxMessageView_bodystructure_json : Value;
  MailboxMessageView_internal_date : option Z;
  MailboxMessageView_sent_date : option Z;
  MailboxMessageView_size_octets : Z;
  MailboxMessageView_text_preview : option str
}.

Record CacheObjectRow : Type := mkCacheObjectRow {
  CacheObjectRow_id : Z;
  CacheObjectRow_account_id : option Z;
  CacheObjectRow_object_type : str;
  CacheObjectRow_blob_key : str;
  CacheObjectRow_sha256 : str;
  CacheObjectRow_size_octets : Z;
  CacheObjectRow_ref_count : Z;
  CacheObjectRow_last_accessed_at : option Z;
  CacheObjectRow_created_at : Z
}.

Record CacheObjectReferenceRow : Type := mkCacheObjectReferenceRow {
  CacheObjectReferenceRow_object_type : str;
  CacheObjectReferenceRow_blob_key : str;
  CacheObjectReferenceRow_sha256 : str;
  CacheObjectReferenceRow_size_octets : Z
}.

Record CacheObjectReference : Type := mkCacheObjectReference {
  CacheObjectReference_object_type : str;
  CacheObjectReference_blob_key : str;
  CacheObjectReference_sha256 : str;
  CacheObjectReference_size_octets : Z
}.

Record QuotaRow : Type := mkQuotaRow {
  QuotaRow_id : Z;
  QuotaRow_user_id : option Z;
  QuotaRow_account_id : option Z;
  QuotaRow_max_bytes : Z;
  QuotaRow_used_bytes : Z;
  QuotaRow_updated_at : Z
}.

Record AuditLogRow : Type := mkAuditLogRow {
  AuditLogRow_id : Z;
  AuditLogRow_user_id : option Z;
  AuditLogRow_account_id : option Z;
  AuditLogRow_action : str;
  AuditLogRow_metadata_json : Value;
  AuditLogRow_created_at : Z
}.

Record SessionRow : Type := mkSessionRow {
  SessionRow_id : Z;
  SessionRow_user_id : Z;
  SessionRow_account_id : option Z;
  SessionRow_connection_id : str;
  SessionRow_remote_addr : option str;
  SessionRow_authenticated_at : option Z;
  SessionRow_disconnected_at : option Z
}.

(** ** Input structs *)
Record NewMailAccount : Type := mkNewMailAccount {
  NewMailAccount_user_id : Z;
  NewMailAccount_display_name : str;
  NewMailAccount_email_address : str;
  NewMailAccount_upstream_host : str;
  NewMailAccount_upstream_port : Z;
  NewMailAccount_upstream_tls_mode : UpstreamTlsMode;
  NewMailAccount_upstream_auth_method : UpstreamAuthMethod;
  NewMailAccount_upstream_username : str;
  NewMailAccount_upstream_secret : str
}.

Record NewUser : Type := mkNewUser {
  NewUser_username_email : str;
  NewUser_password_hash : str
}.

Record NewMailbox : Type := mkNewMailbox {
  NewMailbox_account_id : Z;
  NewMailbox_name : str;
  NewMailbox_canonical_name : str;
  NewMailbox_delimiter : option str;
  NewMailbox_attributes : list str;
  NewMailbox_subscribed : bool;
  NewMailbox_special_use : option str;
  NewMailbox_uidvalidity : option Z;
  NewMailbox_uidnext : option Z;
  NewMailbox_highestmodseq : option Z;
  NewMailbox_exists_count : Z;
  NewMailbox_recent_count : Z;
  NewMailbox_unseen_count : Z
}.

Record NewMessage : Type := mkNewMessage {
  NewMessage_account_id : Z;
  NewMessage_rfc822_blob_key : str;
  NewMessage_rfc822_sha256 : str;
  NewMessage_message_id_header : option str;
  NewMessage_subject : option str;
  NewMessage_from_json : Value;
  NewMessage_to_json : Value;
  NewMessage_cc_json : Value;
  NewMessage_bcc_json : Value;
  NewMessage_reply_to_json : Value;
  NewMessage_envelope_json : Value;
  NewMessage_bodystructure_json : Value;
  NewMessage_internal_date : option Z;
  NewMessage_sent_date : option Z;
  NewMessage_size_octets : Z;
  NewMessage_text_preview : option str
}.

Record NewMimePart : Type := mkNewMimePart {
  NewMimePart_message_id : Z;
  NewMimePart_part_path : str;
  NewMimePart_content_type : str;
  NewMimePart_charset : option str;
  NewMimePart_disposition : option str;
  NewMimePart_filename : option str;
  NewMimePart_content_id : option str;
  NewMimePart_size_octets : Z;
  NewMimePart_blob_key : str;
  NewMimePart_sha256 : str;
  NewMimePart_transfer_encoding : option str;
  NewMimePart_metadata_json : Value
}.

Record NewMailboxMessage : Type := mkNewMailboxMessage {
  NewMailboxMessage_mailbox_id : Z;
  NewMailboxMessage_message_id : Z;
  NewMailboxMessage_local_uid : Z;
  NewMailboxMessage_upstream_uid : option Z;
  NewMailboxMessage_modseq : option Z;
  NewMailboxMessage_flags : list str;
  NewMailboxMessage_keywords : list str;
  NewMailboxMessage_is_expunged : bool;
  NewMailboxMessage_expunged_at : option Z
}.

Record NewCacheObject : Type := mkNewCacheObject {
  NewCacheObject_account_id : option Z;
  NewCacheObject_object_type : str;
  NewCacheObject_blob_key : str;
  NewCacheObject_sha256 : str;
  NewCacheObject_size_octets : Z;
  NewCacheObject_ref_count : Z;
  NewCacheObject_last_accessed_at : option Z
}.

Record NewSyncState : Type := mkNewSyncState {
  NewSyncState_account_id : Z;
  NewSyncState_mailbox_id : option Z;
  NewSyncState_state_json : Value;
  NewSyncState_last_success_at : option Z;
  NewSyncState_last_attempt_at : option Z;
  NewSyncState_last_error : option str
}.

Record NewPendingMutation : Type := mkNewPendingMutation {
  NewPendingMutation_account_id : Z;
  NewPendingMutation_mailbox_id : Z;
  NewPendingMutation_message_id : option Z;
  NewPendingMutation_mutation_type : str;
  NewPendingMutation_payload_json : Value;
  NewPendingMutation_status : MutationStatus;
  NewPendingMutation_attempts : Z;
  NewPendingMutation_next_attempt_at : option Z;
  NewPendingMutation_idempotency_key : str
}.

Record NewSession : Type := mkNewSession {
  NewSession_user_id : Z;
  NewSession_account_id : option Z;
  NewSession_connection_id : str;
  NewSession_remote_addr : option str
}.

(** ** From rows to domain records *)
Definition User_from (row : UserRow) : User :=
  mkUser (UserRow_id row) (UserRow_username_email row) (UserRow_password_hash row)
    (UserRow_created_at row) (UserRow_disabled_at row).

Definition Mailbox_from (row : MailboxRow) : Mailbox :=
  mkMailbox (MailboxRow_id row) (MailboxRow_account_id row) (MailboxRow_name row)
    (MailboxRow_canonical_name row) (MailboxRow_delimiter row) (MailboxRow_attributes
    row) (MailboxRow_subscribed row) (MailboxRow_special_use row)
    (MailboxRow_uidvalidity row) (MailboxRow_uidnext row) (MailboxRow_highestmodseq row)
    (MailboxRow_exists_count row) (MailboxRow_recent_count row) (MailboxRow_unseen_count
    row) (MailboxRow_created_at row) (MailboxRow_updated_at row).

Definition Message_from (row : MessageRow) : Message :=
  mkMessage (MessageRow_id row) (MessageRow_account_id row) (MessageRow_rfc822_blob_key
    row) (MessageRow_rfc822_sha256 row) (MessageRow_message_id_header row)
    (MessageRow_subject row) (MessageRow_from_json row) (MessageRow_to_json row)
    (MessageRow_cc_json row) (MessageRow_bcc_json row) (MessageRow_reply_to_json row)
    (MessageRow_envelope_json row) (MessageRow_bodystructure_json row)
    (MessageRow_internal_date row) (MessageRow_sent_date row) (MessageRow_size_octets
    row) (MessageRow_text_preview row) (MessageRow_created_at row).

Definition MimePart_from (row : MimePartRow) : MimePart :=
  mkMimePart (MimePartRow_id row) (MimePartRow_message_id row) (MimePartRow_part_path
    row) (MimePartRow_content_type row) (MimePartRow_charset row)
    (MimePartRow_disposition row) (MimePartRow_filename row) (MimePartRow_content_id
    row) (MimePartRow_size_octets row) (MimePartRow_blob_key row) (MimePartRow_sha256
    row) (MimePartRow_transfer_encoding row) (MimePartRow_metadata_json row).

Definition SyncState_from (row : SyncStateRow) : SyncState :=
  mkSyncState (SyncStateRow_id row) (SyncStateRow_account_id row)
    (SyncStateRow_mailbox_id row) (SyncStateRow_state_json row)
    (SyncStateRow_last_success_at row) (SyncStateRow_last_attempt_at row)
    (SyncStateRow_last_error row).

Definition MailboxMessage_from (row : MailboxMessageRow) : MailboxMessage :=
  mkMailboxMessage (MailboxMessageRow_id row) (MailboxMessageRow_mailbox_id row)
    (MailboxMessageRow_message_id row) (MailboxMessageRow_local_uid row)
    (MailboxMessageRow_upstream_uid row) (MailboxMessageRow_modseq row)
    (MailboxMessageRow_flags row) (MailboxMessageRow_keywords row)
    (MailboxMessageRow_is_expunged row) (MailboxMessageRow_expunged_at row)
    (MailboxMessageRow_created_at row) (MailboxMessageRow_updated_at row).

Definition MailboxMessageView_from (row : MailboxMessageViewRow) : MailboxMessageView :=
  mkMailboxMessageView (MailboxMessageViewRow_id row) (MailboxMessageViewRow_mailbox_id
    row) (MailboxMessageViewRow_message_id row) (MailboxMessageViewRow_local_uid row)
    (MailboxMessageViewRow_upstream_uid row) (MailboxMessageViewRow_modseq row)
    (MailboxMessageViewRow_flags row) (MailboxMessageViewRow_keywords row)
    (MailboxMessageViewRow_is_expunged row) (MailboxMessageViewRow_expunged_at row)
    (MailboxMessageViewRow_created_at row) (MailboxMessageViewRow_updated_at row)
    (MailboxMessageViewRow_rfc822_blob_key row) (MailboxMessageViewRow_rfc822_sha256
    row) (MailboxMessageViewRow_message_id_header row) (MailboxMessageViewRow_subject
    row) (MailboxMessageViewRow_envelope_json row)
    (MailboxMessageViewRow_bodystructure_json row) (MailboxMessageViewRow_internal_date
    row) (MailboxMessageViewRow_sent_date row) (MailboxMessageViewRow_size_octets row)
    (MailboxMessageViewRow_text_preview row).

Definition CacheObject_from (row : CacheObjectRow) : CacheObject :=
  mkCacheObject (CacheObjectRow_id row) (CacheObjectRow_account_id row)
    (CacheObjectRow_object_type row) (CacheObjectRow_blob_key row)
    (CacheObjectRow_sha256 row) (CacheObjectRow_size_octets row)
    (CacheObjectRow_ref_count row) (CacheObjectRow_last_accessed_at row)
    (CacheObjectRow_created_at row).

Definition CacheObjectReference_from (row : CacheObjectReferenceRow) : CacheObjectReference :=
  mkCacheObjectReference (CacheObjectReferenceRow_object_type row)
    (CacheObjectReferenceRow_blob_key row) (CacheObjectReferenceRow_sha256 row)
    (CacheObjectReferenceRow_size_octets row).

Definition Quota_from (row : QuotaRow) : Quota :=
  mkQuota (QuotaRow_id row) (QuotaRow_user_id row) (QuotaRow_account_id row)
    (QuotaRow_max_bytes row) (QuotaRow_used_bytes row) (QuotaRow_updated_at row).

Definition AuditLogEntry_from (row : AuditLogRow) : AuditLogEntry :=
  mkAuditLogEntry (AuditLogRow_id row) (AuditLogRow_user_id row) (AuditLogRow_account_id
    row) (AuditLogRow_action row) (AuditLogRow_metadata_json row)
    (AuditLogRow_created_at row).

Definition SessionRecord_from (row : SessionRow) : SessionRecord :=
  mkSessionRecord (SessionRow_id row) (SessionRow_user_id row) (SessionRow_account_id
    row) (SessionRow_connection_id row) (SessionRow_remote_addr row)
    (SessionRow_authenticated_at row) (SessionRow_disconnected_at row).

(** [map_err(|e| Error::Storage(e.to_string()))] of a [FromStr]. *)
Definition or_storage {A} (r : A + str) : Result A :=
  match r with inl a => Ok a | inr msg => Err (EStorage msg) end.

Definition MailAccount_try_from (row : MailAccountRow) : Result MailAccount :=
  try! tls <- or_storage (UpstreamTlsMode_from_str (MailAccountRow_upstream_tls_mode row)) ;;
  try! auth <- or_storage
                 (UpstreamAuthMethod_from_str (MailAccountRow_upstream_auth_method row)) ;;
  Ok (mkMailAccount
        (MailAccountRow_id row) (MailAccountRow_user_id row)
        (MailAccountRow_display_name row) (MailAccountRow_email_address row)
        (MailAccountRow_upstream_host row) (MailAccountRow_upstream_port row)
        tls auth
        (MailAccountRow_encrypted_upstream_username row)
        (MailAccountRow_encrypted_upstream_secret row)
        (MailAccountRow_created_at row) (MailAccountRow_disabled_at row)
        (MailAccountRow_last_sync_at row) (MailAccountRow_last_sync_error row)).

Definition PendingMutation_try_from (row : PendingMutationRow) : Result PendingMutation :=
  try! status <- or_storage (MutationStatus_from_str (PendingMutationRow_status row)) ;;
  Ok (mkPendingMutation
        (PendingMutationRow_id row) (PendingMutationRow_account_id row)
        (PendingMutationRow_mailbox_id row) (PendingMutationRow_message_id row)
        (PendingMutationRow_mutation_type row) (PendingMutationRow_payload_json row)
        status (PendingMutationRow_attempts row) (PendingMutationRow_next_attempt_at row)
        (PendingMutationRow_idempotency_key row) (PendingMutationRow_created_at row)
        (PendingMutationRow_updated_at row)).

(** [rows.into_iter().map(TryInto::try_into).collect::<Result<Vec<_>>>()]. *)
Fixpoint collect_results {A B} (f : A -> Result B) (l : list A) : Result (list B) :=
  match l with
  | [] => Ok []
  | x :: l' =>
      try! y <- f x ;;
      try! ys <- collect_results f l' ;;
      Ok (y :: ys)
  end.

(** ** Tables *)
Record Database : Type := mkDatabase {
  users : list UserRow;
  mail_accounts : list MailAccountRow;
  mailboxes : list MailboxRow;
  messages : list MessageRow;
  mailbox_messages : list MailboxMessageRow;
  mime_parts : list MimePartRow;
  uid_mappings : list UidMapping;
  sync_state : list SyncStateRow;
  pending_mutations : list PendingMutationRow;
  sessions : list SessionRow;
  audit_log : list AuditLogRow;
  cache_objects : list CacheObjectRow;
  quotas : list QuotaRow
}.

Definition empty_database : Database :=
  mkDatabase [] [] [] [] [] [] [] [] [] [] [] [] [].

(** Replacing one table. *)
Definition set_users (t : list UserRow) (db : Database) : Database :=
  mkDatabase t (mail_accounts db) (mailboxes db) (messages db) (mailbox_messages db)
    (mime_parts db) (uid_mappings db) (sync_state db) (pending_mutations db) (sessions
    db) (audit_log db) (cache_objects db) (quotas db).
Definition set_mail_accounts (t : list MailAccountRow) (db : Database) : Database :=
  mkDatabase (users db) t (mailboxes db) (messages db) (mailbox_messages db) (mime_parts
    db) (uid_mappings db) (sync_state db) (pending_mutations db) (sessions db)
    (audit_log db) (cache_objects db) (quotas db).
Definition set_mailboxes (t : list MailboxRow) (db : Database) : Database :=
  mkDatabase (users db) (mail_accounts db) t (messages db) (mailbox_messages db)
    (mime_parts db) (uid_mappings db) (sync_state db) (pending_mutations db) (sessions
    db) (audit_log db) (cache_objects db) (quotas db).
Definition set_messages (t : list MessageRow) (db : Database) : Database :=
  mkDatabase (users db) (mail_accounts db) (mailboxes db) t (mailbox_messages db)
    (mime_parts db) (uid_mappings db) (sync_state db) (pending_mutations db) (sessions
    db) (audit_log db) (cache_objects db) (quotas db).
Definition set_mailbox_messages (t : list MailboxMessageRow) (db : Database) : Database :=
  mkDatabase (users db) (mail_accounts db) (mailboxes db) (messages db) t (mime_parts
    db) (uid_mappings db) (sync_state db) (pending_mutations db) (sessions db)
    (audit_log db) (cache_objects db) (quotas db).
Definition set_mime_parts (t : list MimePartRow) (db : Database) : Database :=
  mkDatabase (users db) (mail_accounts db) (mailboxes db) (messages db)
    (mailbox_messages db) t (uid_mappings db) (sync_state db) (pending_mutations db)
    (sessions db) (audit_log db) (cache_objects db) (quotas db).
Definition set_uid_mappings (t : list UidMapping) (db : Database) : Database :=
  mkDatabase (users db) (mail_accounts db) (mailboxes db) (messages db)
    (mailbox_messages db) (mime_parts db) t (sync_state db) (pending_mutations db)
    (sessions db) (audit_log db) (cache_objects db) (quotas db).
Definition set_sync_state (t : list SyncStateRow) (db : Database) : Database :=
  mkDatabase (users db) (mail_accounts db) (mailboxes db) (messages db)
    (mailbox_messages db) (mime_parts db) (uid_mappings db) t (pending_mutations db)
    (sessions db) (audit_log db) (cache_objects db) (quotas db).
Definition set_pending_mutations (t : list PendingMutationRow) (db : Database) : Database :=
  mkDatabase (users db) (mail_accounts db) (mailboxes db) (messages db)
    (mailbox_messages db) (mime_parts db) (uid_mappings db) (sync_state db) t (sessions
    db) (audit_log db) (cache_objects db) (quotas db).
Definition set_sessions (t : list SessionRow) (db : Database) : Database :=
  mkDatabase (users db) (mail_accounts db) (mailboxes db) (messages db)
    (mailbox_messages db) (mime_parts db) (uid_mappings db) (sync_state db)
    (pending_mutations db) t (audit_log db) (cache_objects db) (quotas db).
Definition set_audit_log (t : list AuditLogRow) (db : Database) : Database :=
  mkDatabase (users db) (mail_accounts db) (mailboxes db) (messages db)
    (mailbox_messages db) (mime_parts db) (uid_mappings db) (sync_state db)
    (pending_mutations db) (sessions db) t (cache_objects db) (quotas db).
Definition set_cache_objects (t : list CacheObjectRow) (db : Database) : Database :=
  mkDatabase (users db) (mail_accounts db) (mailboxes db) (messages db)
    (mailbox_messages db) (mime_parts db) (uid_mappings db) (sync_state db)
    (pending_mutations db) (sessions db) (audit_log db) t (quotas db).
Definition set_quotas (t : list QuotaRow) (db : Database) : Database :=
  mkDatabase (users db) (mail_accounts db) (mailboxes db) (messages db)
    (mailbox_messages db) (mime_parts db) (uid_mappings db) (sync_state db)
    (pending_mutations db) (sessions db) (audit_log db) (cache_objects db) t.

(** The BIGSERIAL sequences, one per table. *)
Inductive Table : Type :=
| T_users | T_mail_accounts | T_mailboxes | T_messages | T_mailbox_messages | T_mime_parts
| T_uid_mappings | T_sync_state | T_pending_mutations | T_sessions | T_audit_log
| T_cache_objects | T_quotas.

#[export] Instance Table_eq_dec : EqDecision Table.
Proof. solve_decision. Defined.

(** ** The state a repository call runs on

    [w_seq t] is the last value drawn from the sequence of [t]; [w_now] is the
    clock ([NOW()] and [Utc::now()]); [w_sink] says whether an event sink is
    configured and [w_events] is what was handed to it, oldest first. *)
Record World : Type := mkWorld {
  w_db : Database;
  w_seq : Table -> Z;
  w_now : Z;
  w_sink : bool;
  w_events : list MutationEvent
}.

Definition set_db (db : Database) (w : World) : World :=
  mkWorld db (w_seq w) (w_now w) (w_sink w) (w_events w).

Abbreviation Repo := (M Error World).

(** ** SQL building blocks *)

(** [SELECT .. WHERE p]: the matching rows. *)
Definition select {R} (p : R -> bool) (t : list R) : list R := List.filter p t.
(** [UPDATE .. SET f WHERE p]. *)
Definition update {R} (p : R -> bool) (f : R -> R) (t : list R) : list R :=
  map (fun r => if p r then f r else r) t.
(** [DELETE .. WHERE p]. *)
Definition delete_where {R} (p : R -> bool) (t : list R) : list R :=
  List.filter (fun r => negb (p r)) t.
(** [COUNT( * ) .. WHERE p], and [rows_affected()] of an update or a delete. *)
Definition count {R} (p : R -> bool) (t : list R) : Z := Z.of_nat (length (select p t)).
(** [MAX(f)] over the rows, [None] on no row. *)
Definition sql_max {R} (f : R -> Z) (t : list R) : option Z :=
  fold_right (fun r acc => match acc with
                           | None => Some (f r)
                           | Some m => Some (Z.max (f r) m)
                           end) None t.
(** [ORDER BY key ASC] and [DESC] on an integer column. *)
Definition order_by {R} (key : R -> Z) (t : list R) : list R :=
  sort_by (fun a b => key a <=? key b) t.
Definition order_by_desc {R} (key : R -> Z) (t : list R) : list R :=
  sort_by (fun a b => key b <=? key a) t.

(** [col = $n] on a nullable column, true only on a value. *)
Definition sql_eq (col : option Z) (v : Z) : bool :=
  match col with Some c => c =? v | None => false end.
(** [col IS NOT DISTINCT FROM $n]. *)
Definition not_distinct (a b : option Z) : bool := bool_decide (a = b).

(** A UNIQUE constraint over the rows whose key is not null. *)
Definition unique_by {R K} `{EqDecision K} (key : R -> option K) (t : list R) : bool :=
  bool_decide (NoDup (omap key t)).

Definition require (b : bool) (e : SqlxError) : Repo unit :=
  if b then ret tt else fail (ESqlx e).

Definition query {A} (f : Database -> A) : Repo A := gets (fun w => f (w_db w)).
Definition execute (f : Database -> Database) : Repo unit :=
  modify (fun w => set_db (f (w_db w)) w).
Definition now : Repo Z := gets w_now.

Definition bump_seq (t : Table) (seq : Table -> Z) : Table -> Z :=
  fun t' => if decide (t' = t) then seq t + 1 else seq t'.

(** A value drawn from the sequence of [t]. *)
Definition nextval (t : Table) : Repo Z :=
  fun w => (mkWorld (w_db w) (bump_seq t (w_seq w)) (w_now w) (w_sink w) (w_events w),
            Ok (w_seq w t + 1)).

(** [fetch_one]. *)
Definition fetch_one {R} (rows : list R) : Repo R :=
  match rows with
  | r :: _ => ret r
  | [] => fail (ESqlx RowNotFound)
  end.

(** A [BIGINT] result of an SQL addition. *)
Definition bigint (z : Z) : Repo Z :=
  if in_i64 z then ret z else fail (ESqlx NumericOutOfRange).

(** [pool.begin() .. tx.commit()], with the rollback of a dropped transaction:
    the tables go back, the sequences do not. *)
Definition transaction {A} (m : Repo A) : Repo A :=
  fun w => match m w with
           | (w', Ok a) => (w', Ok a)
           | (w', r) => (set_db (w_db w) w', r)
           end.

(** ** Constraints *)
Definition has_user (db : Database) (id : Z) : bool :=
  existsb (fun r => UserRow_id r =? id) (users db).
Definition has_account (db : Database) (id : Z) : bool :=
  existsb (fun r => MailAccountRow_id r =? id) (mail_accounts db).
Definition has_mailbox (db : Database) (id : Z) : bool :=
  existsb (fun r => MailboxRow_id r =? id) (mailboxes db).
Definition has_message (db : Database) (id : Z) : bool :=
  existsb (fun r => MessageRow_id r =? id) (messages db).
(** A nullable foreign key. *)
Definition fk_opt (has : Z -> bool) (o : option Z) : bool :=
  match o with Some id => has id | None => true end.

Definition key_username (r : UserRow) : option str := Some (UserRow_username_email r).
Definition key_mailbox_name (r : MailboxRow) : option (Z * str) :=
  Some (MailboxRow_account_id r, MailboxRow_canonical_name r).
Definition key_local_uid (r : MailboxMessageRow) : option (Z * Z) :=
  Some (MailboxMessageRow_mailbox_id r, MailboxMessageRow_local_uid r).
Definition key_upstream_uid (r : MailboxMessageRow) : option (Z * Z) :=
  match MailboxMessageRow_upstream_uid r with
  | Some u => Some (MailboxMessageRow_mailbox_id r, u)
  | None => None
  end.
Definition key_map_local (r : UidMapping) : option (Z * Z) :=
  Some (UidMapping_mailbox_id r, UidMapping_local_uid r).
Definition key_map_upstream (r : UidMapping) : option (Z * Z) :=
  Some (UidMapping_mailbox_id r, UidMapping_upstream_uid r).
Definition key_sync_state (r : SyncStateRow) : option (Z * Z) :=
  match SyncStateRow_mailbox_id r with
  | Some m => Some (SyncStateRow_account_id r, m)
  | None => None
  end.
Definition key_idempotency (r : PendingMutationRow) : option str :=
  Some (PendingMutationRow_idempotency_key r).
Definition key_connection (r : SessionRow) : option str := Some (SessionRow_connection_id r).
Definition key_cache_object (r : CacheObjectRow) : option (Z * str * str) :=
  match CacheObjectRow_account_id r with
  | Some a => Some (a, CacheObjectRow_object_type r, CacheObjectRow_blob_key r)
  | None => None
  end.
Definition key_quota_account (r : QuotaRow) : option Z := QuotaRow_account_id r.

(** ** Cascades of [ON DELETE] *)

(** Rows referencing a deleted mailbox go with it. *)
Definition delete_mailboxes (gone : MailboxRow -> bool) (db : Database) : Database :=
  let dead id := existsb (fun r => MailboxRow_id r =? id) (select gone (mailboxes db)) in
  set_pending_mutations
    (delete_where (fun r => dead (PendingMutationRow_mailbox_id r)) (pending_mutations db))
  (set_sync_state
    (delete_where (fun r => match SyncStateRow_mailbox_id r with
                            | Some m => dead m | None => false end) (sync_state db))
  (set_uid_mappings
    (delete_where (fun r => dead (UidMapping_mailbox_id r)) (uid_mappings db))
  (set_mailbox_messages
    (delete_where (fun r => dead (MailboxMessageRow_mailbox_id r)) (mailbox_messages db))
  (set_mailboxes (delete_where gone (mailboxes db)) db)))).

(** Rows referencing a deleted message go with it, a queued mutation forgets
    it. *)
Definition delete_messages (gone : MessageRow -> bool) (db : Database) : Database :=
  let dead id := existsb (fun r => MessageRow_id r =? id) (select gone (messages db)) in
  set_pending_mutations
    (update (fun r => match PendingMutationRow_message_id r with
                      | Some m => dead m | None => false end)
       (fun r => mkPendingMutationRow (PendingMutationRow_id r)
          (PendingMutationRow_account_id r) (PendingMutationRow_mailbox_id r) None
          (PendingMutationRow_mutation_type r) (PendingMutationRow_payload_json r)
          (PendingMutationRow_status r) (PendingMutationRow_attempts r)
          (PendingMutationRow_next_attempt_at r) (PendingMutationRow_idempotency_key r)
          (PendingMutationRow_created_at r) (PendingMutationRow_updated_at r))
       (pending_mutations db))
  (set_mime_parts
    (delete_where (fun r => dead (MimePartRow_message_id r)) (mime_parts db))
  (set_mailbox_messages
    (delete_where (fun r => dead (MailboxMessageRow_message_id r)) (mailbox_messages db))
  (set_messages (delete_where gone (messages db)) db))).

(** Everything of a deleted account. *)
Definition delete_account (account_id : Z) (db : Database) : Database :=
  let mine o := match o with Some a => a =? account_id | None => false end in
  let db := delete_mailboxes (fun r => MailboxRow_account_id r =? account_id) db in
  let db := delete_messages (fun r => MessageRow_account_id r =? account_id) db in
  set_mail_accounts
    (delete_where (fun r => MailAccountRow_id r =? account_id) (mail_accounts db))
  (set_sync_state
    (delete_where (fun r => SyncStateRow_account_id r =? account_id) (sync_state db))
  (set_pending_mutations
    (delete_where (fun r => PendingMutationRow_account_id r =? account_id)
       (pending_mutations db))
  (set_sessions
    (delete_where (fun r => mine (SessionRow_account_id r)) (sessions db))
  (set_audit_log
    (update (fun r => mine (AuditLogRow_account_id r))
       (fun r => mkAuditLogRow (AuditLogRow_id r) (AuditLogRow_user_id r) None
                   (AuditLogRow_action r) (AuditLogRow_metadata_json r)
                   (AuditLogRow_created_at r)) (audit_log db))
  (set_cache_objects
    (delete_where (fun r => mine (CacheObjectRow_account_id r)) (cache_objects db))
  (set_quotas
    (delete_where (fun r => mine (QuotaRow_account_id r)) (quotas db)) db)))))).
