(* ===== verification/RepoCore.v ===== *)
(** * Repository: events, allocation of UIDs and mod-sequences

    Models the private helpers of crates/db/src/repository.rs that every
    message operation goes through: [publish_event], [account_id_for_mailbox],
    [assign_mailbox_modseq], [assign_mailbox_local_uid] and
    [mailbox_sequence_number_in_tx].  It also holds what the
    SQL building blocks do to a table, on which every later proof rests. *)

From stdpp Require Import base strings list.
From Stdlib Require Import ZArith Lia Permutation Sorting.Sorted.
From S2P Require Import Prelude RustStr Domain Notifications Schema.

Local Open Scope Z_scope.

(** ** Helpers of the repository *)

(** The event goes to the sink when there is one; a failing sink is logged and
    otherwise ignored, so only the hand-over is recorded. *)
Definition publish_event (event : MutationEvent) : Repo unit :=
  modify (fun w =>
    if w_sink w
    then mkWorld (w_db w) (w_seq w) (w_now w) (w_sink w) (w_events w ++ [event])
    else w).

(** [mailboxes] rows with a given id. *)
Definition mailbox_by_id (mailbox_id : Z) (r : MailboxRow) : bool :=
  MailboxRow_id r =? mailbox_id.

Definition account_id_for_mailbox (mailbox_id : Z) : Repo (option Z) :=
  query (fun db =>
    match select (mailbox_by_id mailbox_id) (mailboxes db) with
    | r :: _ => Some (MailboxRow_account_id r)
    | [] => None
    end).

Definition set_row_highestmodseq (v : option Z) (t : Z) (r : MailboxRow) : MailboxRow :=
  mkMailboxRow (MailboxRow_id r) (MailboxRow_account_id r) (MailboxRow_name r)
    (MailboxRow_canonical_name r) (MailboxRow_delimiter r) (MailboxRow_attributes r)
    (MailboxRow_subscribed r) (MailboxRow_special_use r) (MailboxRow_uidvalidity r)
    (MailboxRow_uidnext r) v (MailboxRow_exists_count r) (MailboxRow_recent_count r)
    (MailboxRow_unseen_count r) (MailboxRow_created_at r) t.

Definition assign_mailbox_modseq (mailbox_id : Z) (requested : option Z) : Repo Z :=
  do rows <- query (fun db => select (mailbox_by_id mailbox_id) (mailboxes db)) ;;
  do row <- fetch_one rows ;;
  let current := default 0 (MailboxRow_highestmodseq row) in
  let assigned := match requested with
                  | Some r => r
                  | None => saturating_add_i64 current 1
                  end in
  let next := Z.max assigned current in
  (if next =? current then ret tt
   else
     do t <- now ;;
     execute (fun db =>
       set_mailboxes
         (update (mailbox_by_id mailbox_id) (set_row_highestmodseq (Some next) t)
            (mailboxes db)) db)) ;;;
  ret next.

(** [mailbox_id = $1 AND is_expunged = FALSE]. *)
Definition live_in (mailbox_id : Z) (r : MailboxMessageRow) : bool :=
  (MailboxMessageRow_mailbox_id r =? mailbox_id) && negb (MailboxMessageRow_is_expunged r).

(** [SELECT MAX(local_uid) + 1 .. WHERE mailbox_id = $1 AND is_expunged = FALSE]. *)
Definition select_next_uid (mailbox_id : Z) : Repo (option Z) :=
  do m <- query (fun db =>
            sql_max MailboxMessageRow_local_uid
              (select (live_in mailbox_id) (mailbox_messages db))) ;;
  match m with
  | None => ret None
  | Some m => do v <- bigint (m + 1) ;; ret (Some v)
  end.

Definition assign_mailbox_local_uid (mailbox_id : Z) : Repo Z :=
  do rows <- query (fun db => select (mailbox_by_id mailbox_id) (mailboxes db)) ;;
  fetch_one rows ;;;
  do next_uid <- select_next_uid mailbox_id ;;
  ret (default 1 next_uid).

Definition mailbox_sequence_number_in_tx (mailbox_id local_uid : Z) : Repo Z :=
  do preceding <- query (fun db =>
    count (fun r => live_in mailbox_id r && (MailboxMessageRow_local_uid r <? local_uid))
      (mailbox_messages db)) ;;
  ret (preceding + 1).

(** ** Running a computation *)

(** Symbolic execution of the monad. *)
Ltac run_unfold :=
  unfold ret, fail, gets, query, execute, modify, lift, now, require, bigint, set_db in *;
  cbn [fst snd w_db w_seq w_now w_sink w_events] in *.

Lemma transaction_inv_Ok {A} (m : Repo A) w w' a :
  transaction m w = (w', Ok a) -> m w = (w', Ok a).
Proof. unfold transaction. destruct (m w) as [w1 [b|e|]]; [done|intros [=]..]. Qed.

(** ** Facts about the SQL building blocks *)
Section Sql.
Context {R : Type}.
Implicit Types (p q : R -> bool) (t : list R).

Lemma select_In p t r : In r (select p t) <-> In r t /\ p r = true.
Proof. apply filter_In. Qed.

Lemma update_In p f t r :
  In r (update p f t) <-> exists r0, In r0 t /\ r = if p r0 then f r0 else r0.
Proof.
  unfold update. rewrite in_map_iff. split; intros (r0 & H1 & H2); exists r0; auto.
Qed.

Lemma delete_where_In p t r : In r (delete_where p t) <-> In r t /\ p r = false.
Proof. unfold delete_where. rewrite filter_In, negb_true_iff. done. Qed.

(** An update that keeps a projection keeps its list of values. *)
Lemma map_update {B} (g : R -> B) p f t :
  (forall r, p r = true -> g (f r) = g r) -> map g (update p f t) = map g t.
Proof.
  intros H. unfold update. rewrite map_map. apply map_ext. intros r.
  destruct (p r) eqn:E; [by apply H|done].
Qed.

Lemma omap_update {B} (g : R -> option B) p f t :
  (forall r, p r = true -> g (f r) = g r) -> omap g (update p f t) = omap g t.
Proof.
  intros H. induction t as [|r t IH]; [done|].
  change (update p f (r :: t)) with ((if p r then f r else r) :: update p f t). csimpl.
  destruct (p r) eqn:E; [rewrite (H r E)|]; by rewrite IH.
Qed.

Lemma update_length p f t : length (update p f t) = length t.
Proof. apply length_map. Qed.

Lemma update_none p f t : (forall r, In r t -> p r = false) -> update p f t = t.
Proof.
  intros H. unfold update. rewrite <- map_id. apply map_ext_in. intros r Hr. by rewrite H.
Qed.

(** Selecting on a condition the update does not touch. *)
Lemma select_update q p f t :
  (forall r, p r = true -> q (f r) = q r) ->
  select q (update p f t) = update p f (select q t).
Proof.
  intros H. unfold select, update. induction t as [|r t IH]; [done|]. simpl.
  destruct (p r) eqn:E; [rewrite (H r E)|];
    destruct (q r); simpl; rewrite ?E, IH; done.
Qed.

Lemma count_update q p f t :
  (forall r, p r = true -> q (f r) = q r) -> count q (update p f t) = count q t.
Proof. intros H. unfold count. by rewrite select_update, update_length. Qed.

Lemma count_nonneg p t : 0 <= count p t.
Proof. unfold count. lia. Qed.

Lemma count_app p t1 t2 : count p (t1 ++ t2) = count p t1 + count p t2.
Proof. unfold count, select. rewrite List.filter_app, length_app. lia. Qed.

Lemma count_perm p t1 t2 : Permutation t1 t2 -> count p t1 = count p t2.
Proof.
  induction 1 as [|x l l' _ IH|x y l|l l' l'' _ IH1 _ IH2]; unfold count, select in *;
    simpl; [done| | |congruence].
  - destruct (p x); simpl; lia.
  - destruct (p x), (p y); simpl; lia.
Qed.

Lemma count_ext p q t : (forall r, In r t -> p r = q r) -> count p t = count q t.
Proof. intros H. unfold count, select. f_equal. f_equal. by apply List.filter_ext_in. Qed.

Lemma select_select p q t : select p (select q t) = select (fun r => q r && p r) t.
Proof.
  unfold select. induction t as [|r t IH]; [done|]. simpl.
  destruct (q r); simpl; [destruct (p r)|]; by rewrite IH.
Qed.

Lemma sql_max_ge (f : R -> Z) t m r : sql_max f t = Some m -> In r t -> f r <= m.
Proof.
  revert m. induction t as [|x t IH]; intros m; simpl; [done|].
  destruct (sql_max f t) as [m'|] eqn:E.
  - intros [= <-] [->|Hr]; [lia|]. specialize (IH m' eq_refl Hr). lia.
  - intros [= <-] [->|Hr]; [lia|]. destruct t; [done|]. simpl in E.
    by destruct (sql_max f t).
Qed.

Lemma sql_max_None (f : R -> Z) t : sql_max f t = None <-> t = [].
Proof.
  split; [|by intros ->]. destruct t as [|x t]; [done|]. simpl.
  by destruct (sql_max f t).
Qed.

Lemma sql_max_In (f : R -> Z) t m : sql_max f t = Some m -> exists r, In r t /\ f r = m.
Proof.
  revert m. induction t as [|x t IH]; intros m; simpl; [done|].
  destruct (sql_max f t) as [m'|] eqn:E.
  - intros [= <-]. destruct (Z.max_spec (f x) m') as [[_ ->]|[_ ->]]; [|eauto].
    destruct (IH m' eq_refl) as (r & ? & ?). eauto.
  - intros [= <-]. eauto.
Qed.
End Sql.

(** The first row of an ordered selection is a matching row. *)
Lemma head_order_In {R} (leb : R -> R -> bool) (p : R -> bool) t r :
  head (sort_by leb (select p t)) = Some r -> In r t /\ p r = true.
Proof.
  intros Hh. apply select_In, (sort_by_In leb). destruct (sort_by leb (select p t)); [done|].
  injection Hh as ->. by left.
Qed.

Lemma collect_results_In {A B} (f : A -> Result B) l bs b :
  collect_results f l = Ok bs -> In b bs -> exists a, In a l /\ f a = Ok b.
Proof.
  revert bs. induction l as [|a l IH]; intros bs; simpl; [intros [= <-]; done|].
  destruct (f a) as [b'|e|] eqn:E; simpl; [|done|done].
  destruct (collect_results f l) as [bs'|e|]; simpl; [|done|done].
  intros [= <-] [<-|Hb]; [by eauto|]. destruct (IH bs' eq_refl Hb) as (a' & ? & ?). eauto.
Qed.

Lemma MailAccount_try_from_id row account :
  MailAccount_try_from row = Ok account -> MailAccount_id account = MailAccountRow_id row.
Proof.
  unfold MailAccount_try_from, obind.
  destruct (or_storage _) as [tls|e|]; [|done|done].
  destruct (or_storage _) as [auth|e|]; [|done|done]. by intros [= <-].
Qed.

(** ** Ordered selections *)
Section Ordered.
Context {R : Type} (key : R -> Z).
Implicit Types (l : list R) (r : R).

Definition key_lt r1 r2 : Prop := key r1 < key r2.

Lemma order_by_perm l : Permutation l (order_by key l).
Proof. apply sort_by_perm. Qed.

Lemma order_by_In l r : In r (order_by key l) <-> In r l.
Proof. apply sort_by_In. Qed.

(** Distinct keys make the order strict. *)
Lemma order_by_strict l : NoDup (map key l) -> StronglySorted key_lt (order_by key l).
Proof.
  intros Hnd.
  assert (Hnd' : NoDup (map key (order_by key l))).
  { eapply NoDup_Permutation_proper; [|exact Hnd]. symmetry.
    apply Permutation_map, order_by_perm. }
  assert (Hs : StronglySorted (le_rel (fun a b => key a <=? key b)) (order_by key l)).
  { apply sort_by_sorted; intros x y *; rewrite ?Z.leb_le; [lia|].
    intros H1 H2. apply Z.leb_le in H1, H2. apply Z.leb_le. lia. }
  revert Hnd'. induction Hs as [|r l' Hs IH Hall]; intros Hnd'; [constructor|].
  simpl in Hnd'. apply NoDup_cons in Hnd' as [Hr Hnd']. constructor; [by apply IH|].
  apply List.Forall_forall. intros r' Hr'. rewrite List.Forall_forall in Hall.
  apply Hall in Hr' as Hle. unfold le_rel in Hle. apply Z.leb_le in Hle. unfold key_lt.
  assert (key r <> key r'); [|lia]. intros E. apply Hr. rewrite E.
  apply list_elem_of_In, in_map_iff. eauto.
Qed.

(** In a strictly ordered list the position of a row is the number of rows
    with a smaller key. *)
Lemma lookup_rank l r :
  StronglySorted key_lt l -> In r l ->
  l !! length (select (fun x => key x <? key r) l) = Some r.
Proof.
  induction 1 as [|x l Hs IH Hall]; [done|]. rewrite List.Forall_forall in Hall.
  intros [->|Hr].
  - assert (select (fun x => key x <? key r) (r :: l) = []) as ->; [|done].
    unfold select. simpl. rewrite Z.ltb_irrefl.
    destruct (List.filter _ l) as [|y l'] eqn:E; [done|]. exfalso.
    assert (Hy : In y (List.filter (fun x => key x <? key r) l)) by (rewrite E; by left).
    apply filter_In in Hy as [Hy Hlt]. apply Z.ltb_lt in Hlt. apply Hall in Hy.
    unfold key_lt in Hy. lia.
  - specialize (Hall r Hr). unfold key_lt in Hall. unfold select in *. simpl.
    rewrite (proj2 (Z.ltb_lt _ _) Hall). simpl. by apply IH.
Qed.
End Ordered.

(** ** Frames

    [keeps g m]: whatever its outcome, [m] leaves the part [g] of the database
    as it was. *)
Definition keeps {A B} (g : Database -> B) (m : Repo A) : Prop :=
  forall w, g (w_db (fst (m w))) = g (w_db w).

Section Keeps.
Context {B : Type} (g : Database -> B).

Lemma keeps_ret {A} (a : A) : keeps g (ret a).
Proof. done. Qed.
Lemma keeps_fail {A} e : keeps g (fail (A := A) e).
Proof. done. Qed.
Lemma keeps_lift {A} (r : Result A) : keeps g (lift r).
Proof. done. Qed.
Lemma keeps_query {A} (f : Database -> A) : keeps g (query f).
Proof. done. Qed.
Lemma keeps_now : keeps g now.
Proof. done. Qed.
Lemma keeps_nextval t : keeps g (nextval t).
Proof. done. Qed.
Lemma keeps_require b e : keeps g (require b e).
Proof. by destruct b. Qed.
Lemma keeps_fetch_one {R} (rows : list R) : keeps g (fetch_one rows).
Proof. by destruct rows. Qed.
Lemma keeps_bigint z : keeps g (bigint z).
Proof. unfold bigint. by destruct (in_i64 z). Qed.
Lemma keeps_publish_event event : keeps g (publish_event event).
Proof. intros w. unfold publish_event, modify. simpl. by destruct (w_sink w). Qed.
Lemma keeps_execute f : (forall db, g (f db) = g db) -> keeps g (execute f).
Proof. intros Hf w. apply Hf. Qed.
Lemma keeps_bind {A C} (m : Repo A) (k : A -> Repo C) :
  keeps g m -> (forall a, keeps g (k a)) -> keeps g (bind m k).
Proof.
  intros Hm Hk w. specialize (Hm w). unfold bind.
  destruct (m w) as [w' [a|e|]]; simpl in *; [by rewrite Hk|done|done].
Qed.
Lemma keeps_for_each {A} (xs : list A) (m : A -> Repo unit) :
  (forall x, keeps g (m x)) -> keeps g (for_each xs m).
Proof.
  intros Hm. induction xs as [|x xs IH]; simpl; [apply keeps_ret|].
  apply keeps_bind; [apply Hm|]. intros _. apply IH.
Qed.
Lemma keeps_transaction {A} (m : Repo A) : keeps g m -> keeps g (transaction m).
Proof.
  intros Hm w. specialize (Hm w). unfold transaction.
  by destruct (m w) as [w' [a|e|]].
Qed.
End Keeps.

#[export] Hint Resolve keeps_ret keeps_fail keeps_lift keeps_query keeps_now keeps_nextval
  keeps_require keeps_fetch_one keeps_bigint keeps_publish_event : repo.

(** Walk through a computation whose writes are elsewhere. *)
Ltac keep_steps :=
  repeat first
    [ solve [eauto 2 with repo]
    | apply keeps_transaction
    | apply keeps_execute; by intros ?
    | apply keeps_bind; [|intros ?]
    | apply keeps_for_each; intros ?
    | match goal with
      | |- keeps _ (match ?x with _ => _ end) => destruct x
      | |- keeps _ (let _ := ?x in _) => cbv zeta
      end ].

(** Inverting single statements. *)
Lemma require_inv b e w w' x : require b e w = (w', Ok x) -> w' = w /\ b = true.
Proof. unfold require. destruct b; [by intros [= <-]|done]. Qed.

Lemma fetch_one_inv {R} (rows : list R) w w' r :
  fetch_one rows w = (w', Ok r) -> w' = w /\ exists rest, rows = r :: rest.
Proof. destruct rows; [done|]. intros [= <- <-]. eauto. Qed.

Lemma keeps_run {A B} (g : Database -> B) (m : Repo A) w w' r :
  keeps g m -> m w = (w', r) -> g (w_db w') = g (w_db w).
Proof. intros Hk E. specialize (Hk w). by rewrite E in Hk. Qed.
