(* ===== verification/Security.v ===== *)
(** * Passwords and the secret box

    Models crates/core/src/security.rs: password verification over the Argon2
    and PHC parameters, and [SecretBox], which prefixes an XChaCha20-Poly1305
    ciphertext with its 24-byte nonce.  The cipher, the hash functions, the
    random bytes and the texts of foreign errors are parameters. *)

From stdpp Require Import base strings list.
From Stdlib Require Import ZArith Lia.
From S2P Require Import Prelude RustStr Domain Storage.

Local Open Scope Z_scope.

(** The foreign code of this component.  A [+ str] result carries the text the
    foreign error displays. *)
Class Crypto : Type := {
  (** [XChaCha20Poly1305::new(key).encrypt(nonce, plaintext)] and its inverse. *)
  aead_encrypt : bytes -> bytes -> bytes -> bytes + str;
  aead_decrypt : bytes -> bytes -> bytes -> bytes + str;
  (** [PasswordHash::new(hash)]. *)
  phc_parse : str -> unit + str;
  (** [Argon2::default().verify_password(password, &parsed).is_ok()]. *)
  argon2_verify : str -> bytes -> bool;
  (** [Argon2::default().hash_password(password, &salt)]. *)
  argon2_hash : bytes -> str -> str + str;
  (** [Sha256::digest], 32 bytes. *)
  sha256_digest : bytes -> bytes;
  (** The [Display] of [FromUtf8Error]. *)
  utf8_error : bytes -> str
}.

(** What the cipher crate documents: decrypting with the key and nonce used to
    encrypt gives the plaintext back. *)
Class CryptoLaws `{Crypto} : Prop := {
  aead_roundtrip : forall key nonce plain cipher,
    aead_encrypt key nonce plain = inl cipher -> aead_decrypt key nonce cipher = inl plain
}.

Section Security.
Context `{Crypto}.

Definition hash_password (salt password : str) : Result str :=
  match argon2_hash (as_bytes password) salt with
  | inl h => Ok h
  | inr e => Err (EConfig (lit "password hash error: " ++ e))
  end.

Definition verify_password (hash password : str) : Result bool :=
  match phc_parse hash with
  | inl _ => Ok (argon2_verify hash (as_bytes password))
  | inr e => Err (EConfig (lit "invalid stored password hash: " ++ e))
  end.

Definition derive_secret_box_key (passphrase : str) : bytes :=
  sha256_digest (as_bytes passphrase).

Record SecretBox : Type := mkSecretBox { SecretBox_key : bytes }.

Definition SecretBox_from_passphrase (passphrase : str) : SecretBox :=
  mkSecretBox (derive_secret_box_key passphrase).

(** [nonce_bytes] is what the generator filled in. *)
Definition SecretBox_encrypt (self : SecretBox) (nonce_bytes plaintext : bytes)
  : Result bytes :=
  match aead_encrypt (SecretBox_key self) nonce_bytes plaintext with
  | inl payload => Ok (nonce_bytes ++ payload)
  | inr e => Err (EStorage (lit "secret encryption failed: " ++ e))
  end.

Definition SecretBox_decrypt (self : SecretBox) (ciphertext : bytes) : Result bytes :=
  if (length ciphertext <? 24)%nat then Err (EStorage (lit "ciphertext too short"))
  else
    let '(nonce_bytes, payload) := (take 24 ciphertext, drop 24 ciphertext) in
    match aead_decrypt (SecretBox_key self) nonce_bytes payload with
    | inl plain => Ok plain
    | inr e => Err (EStorage (lit "secret decryption failed: " ++ e))
    end.

(** What the box sealed with a full nonce, the same box opens. *)
Lemma SecretBox_roundtrip `{!CryptoLaws} self nonce plain sealed :
  length nonce = 24%nat ->
  SecretBox_encrypt self nonce plain = Ok sealed -> SecretBox_decrypt self sealed = Ok plain.
Proof.
  intros Hn. unfold SecretBox_encrypt, SecretBox_decrypt.
  destruct (aead_encrypt _ _ _) as [payload|e] eqn:E; [|done]. intros [= <-].
  assert ((length (nonce ++ payload) <? 24)%nat = false) as ->.
  { apply Nat.ltb_ge. rewrite length_app. lia. }
  rewrite take_app_length', drop_app_length' by done.
  by rewrite (aead_roundtrip _ _ _ _ E).
Qed.
End Security.

(** ** A concrete cipher and hash, for witnesses

    The "cipher" prefixes a tag derived from the key and the nonce and checks
    it; a password hash is the password. *)
Module ToyCrypto.

Definition tag (key nonce : bytes) : Z := Z.of_nat (length key + length nonce).

#[export] Instance crypto : Crypto := {
aead_encrypt := fun key nonce plain => inl (tag key nonce :: plain);
aead_decrypt := fun key nonce cipher =>
  match cipher with
  | t :: plain => if t =? tag key nonce then inl plain else inr (lit "aead::Error")
  | [] => inr (lit "aead::Error")
  end;
phc_parse := fun _ => inl tt;
argon2_verify := fun hash password => bool_decide (as_bytes hash = password);
argon2_hash := fun password salt => inl password;
sha256_digest := fun b => take 32 (b ++ replicate 32 0);
utf8_error := fun _ => lit "invalid utf-8 sequence"
}.

#[export] Instance crypto_laws : CryptoLaws.
Proof.
split. intros key nonce plain cipher [= <-]. simpl. by rewrite Z.eqb_refl.
Qed.

End ToyCrypto.
