(* ===== verification/RepoAccounts.v ===== *)
(** * Repository: users, accounts, sessions, audit log, quotas

    Models the corresponding methods of [PostgresRepository] in
    crates/db/src/repository.rs, one definition per method, the SQL statement
    spelled out in the building blocks of Schema.  PostgreSQL's [lower] and its
    text collation are parameters, as are UUID parsing and the secret box's
    cipher. *)

From stdpp Require Import base strings list.
From Stdlib Require Import ZArith Lia.
From S2P Require Import Prelude RustStr Domain Notifications Schema RepoCore Security.

Local Open Scope Z_scope.

(** [lower(text)] and [ORDER BY text] depend on the database's locale. *)
Class PgText : Type := {
  pg_lower : str -> str;
  pg_text_leb : str -> str -> bool
}.

(** [Uuid::parse_str(text)], as the canonical text of the UUID. *)
Class UuidText : Type := { uuid_parse : str -> str + str }.

(** crates/upstream/src/lib.rs: what a connection needs to know. *)
Record UpstreamAccountConfig : Type := mkUpstreamAccountConfig {
  UpstreamAccountConfig_host : str;
  UpstreamAccountConfig_port : Z;
  UpstreamAccountConfig_tls_mode : UpstreamTlsMode;
  UpstreamAccountConfig_auth_method : UpstreamAuthMethod;
  UpstreamAccountConfig_username : str;
  UpstreamAccountConfig_secret : str
}.

Section RepoAccounts.
Context `{PgText, UuidText, Crypto}.

(** ** Users *)
Definition same_lower (a b : str) : bool := str_eqb (pg_lower a) (pg_lower b).

Definition create_user (input : NewUser) : Repo User :=
  do id <- nextval T_users ;;
  do t <- now ;;
  let row := mkUserRow id (NewUser_username_email input) (NewUser_password_hash input)
               t None in
  do db <- query (fun db => set_users (users db ++ [row]) db) ;;
  require (unique_by key_username (users db))
    (UniqueViolation (lit "users_username_email_key")) ;;;
  execute (fun _ => db) ;;;
  ret (User_from row).

Definition set_row_password (password_hash : str) (r : UserRow) : UserRow :=
  mkUserRow (UserRow_id r) (UserRow_username_email r) password_hash (UserRow_created_at r)
    (UserRow_disabled_at r).

Definition set_user_password (username_email password_hash : str) : Repo Z :=
  let p r := same_lower (UserRow_username_email r) username_email in
  do n <- query (fun db => count p (users db)) ;;
  execute (fun db => set_users (update p (set_row_password password_hash) (users db)) db) ;;;
  ret n.

Definition disable_user (username_email : str) : Repo Z :=
  let p r := same_lower (UserRow_username_email r) username_email &&
             negb (is_some (UserRow_disabled_at r)) in
  do t <- now ;;
  do n <- query (fun db => count p (users db)) ;;
  execute (fun db =>
    set_users
      (update p (fun r => mkUserRow (UserRow_id r) (UserRow_username_email r)
                   (UserRow_password_hash r) (UserRow_created_at r) (Some t)) (users db))
      db) ;;;
  ret n.

Definition find_user_by_username (username : str) : Repo (option User) :=
  query (fun db =>
    User_from <$> head (order_by_desc UserRow_id
      (select (fun r => same_lower (UserRow_username_email r) username) (users db)))).

(** ** Audit log and sessions *)
Definition record_audit_log (user_id account_id : option Z) (action : str)
  (metadata_json : Value) : Repo AuditLogEntry :=
  do id <- nextval T_audit_log ;;
  do t <- now ;;
  let row := mkAuditLogRow id user_id account_id action metadata_json t in
  do ok_user <- query (fun db => fk_opt (has_user db) user_id) ;;
  require ok_user (ForeignKeyViolation (lit "audit_log_user_id_fkey")) ;;;
  do ok_account <- query (fun db => fk_opt (has_account db) account_id) ;;
  require ok_account (ForeignKeyViolation (lit "audit_log_account_id_fkey")) ;;;
  execute (fun db => set_audit_log (audit_log db ++ [row]) db) ;;;
  ret (AuditLogEntry_from row).

Definition parse_connection_id (connection_id : str) : Result str :=
  match uuid_parse connection_id with
  | inl u => Ok u
  | inr e => Err (EStorage (lit "invalid session connection_id: " ++ e))
  end.

Definition create_session (input : NewSession) : Repo SessionRecord :=
  do connection_id <- lift (parse_connection_id (NewSession_connection_id input)) ;;
  do id <- nextval T_sessions ;;
  do t <- now ;;
  let row := mkSessionRow id (NewSession_user_id input) (NewSession_account_id input)
               connection_id (NewSession_remote_addr input) (Some t) None in
  do db <- query (fun db => set_sessions (sessions db ++ [row]) db) ;;
  require (unique_by key_connection (sessions db))
    (UniqueViolation (lit "sessions_connection_id_key")) ;;;
  require (has_user db (NewSession_user_id input))
    (ForeignKeyViolation (lit "sessions_user_id_fkey")) ;;;
  require (fk_opt (has_account db) (NewSession_account_id input))
    (ForeignKeyViolation (lit "sessions_account_id_fkey")) ;;;
  execute (fun _ => db) ;;;
  ret (SessionRecord_from row).

Definition mark_session_disconnected (connection_id : str)
  : Repo (option SessionRecord) :=
  do connection_id <- lift (parse_connection_id connection_id) ;;
  do t <- now ;;
  let p r := str_eqb (SessionRow_connection_id r) connection_id in
  let f r := mkSessionRow (SessionRow_id r) (SessionRow_user_id r)
               (SessionRow_account_id r) (SessionRow_connection_id r)
               (SessionRow_remote_addr r) (SessionRow_authenticated_at r)
               (match SessionRow_disconnected_at r with
                | Some d => Some d | None => Some t end) in
  do rows <- query (fun db => map f (select p (sessions db))) ;;
  execute (fun db => set_sessions (update p f (sessions db)) db) ;;;
  ret (SessionRecord_from <$> head rows).

(** ** Accounts *)

(** The two nonces are the random bytes of the two encryptions. *)
Definition create_mail_account (secrets : SecretBox) (nonce1 nonce2 : bytes)
  (input : NewMailAccount) : Repo MailAccount :=
  do encrypted_username <- lift (SecretBox_encrypt secrets nonce1
                             (as_bytes (NewMailAccount_upstream_username input))) ;;
  do encrypted_secret <- lift (SecretBox_encrypt secrets nonce2
                           (as_bytes (NewMailAccount_upstream_secret input))) ;;
  do id <- nextval T_mail_accounts ;;
  do t <- now ;;
  let row := mkMailAccountRow id (NewMailAccount_user_id input)
               (NewMailAccount_display_name input) (NewMailAccount_email_address input)
               (NewMailAccount_upstream_host input) (NewMailAccount_upstream_port input)
               (UpstreamTlsMode_to_string (NewMailAccount_upstream_tls_mode input))
               (UpstreamAuthMethod_to_string (NewMailAccount_upstream_auth_method input))
               encrypted_username encrypted_secret t None None None in
  do ok_user <- query (fun db => has_user db (NewMailAccount_user_id input)) ;;
  require ok_user (ForeignKeyViolation (lit "mail_accounts_user_id_fkey")) ;;;
  execute (fun db => set_mail_accounts (mail_accounts db ++ [row]) db) ;;;
  publish_event (account_changed t id (lit "create_mail_account")) ;;;
  lift (MailAccount_try_from row).

Definition set_row_disabled (v : option Z) (r : MailAccountRow) : MailAccountRow :=
  mkMailAccountRow (MailAccountRow_id r) (MailAccountRow_user_id r)
    (MailAccountRow_display_name r) (MailAccountRow_email_address r)
    (MailAccountRow_upstream_host r) (MailAccountRow_upstream_port r)
    (MailAccountRow_upstream_tls_mode r) (MailAccountRow_upstream_auth_method r)
    (MailAccountRow_encrypted_upstream_username r)
    (MailAccountRow_encrypted_upstream_secret r) (MailAccountRow_created_at r) v
    (MailAccountRow_last_sync_at r) (MailAccountRow_last_sync_error r).

Definition disable_mail_account (account_id : Z) : Repo Z :=
  let p r := (MailAccountRow_id r =? account_id) &&
             negb (is_some (MailAccountRow_disabled_at r)) in
  do t <- now ;;
  do n <- query (fun db => count p (mail_accounts db)) ;;
  execute (fun db =>
    set_mail_accounts (update p (set_row_disabled (Some t)) (mail_accounts db)) db) ;;;
  (if 0 <? n
   then publish_event (account_changed t account_id (lit "disable_mail_account"))
   else ret tt) ;;;
  ret n.

Definition enable_mail_account (account_id : Z) : Repo Z :=
  let p r := (MailAccountRow_id r =? account_id) &&
             is_some (MailAccountRow_disabled_at r) in
  do t <- now ;;
  do n <- query (fun db => count p (mail_accounts db)) ;;
  execute (fun db =>
    set_mail_accounts (update p (set_row_disabled None) (mail_accounts db)) db) ;;;
  (if 0 <? n
   then publish_event (account_changed t account_id (lit "enable_mail_account"))
   else ret tt) ;;;
  ret n.

Definition set_mail_account_sync_status (account_id : Z) (last_sync_at : option Z)
  (last_sync_error : option str) : Repo Z :=
  let p r := MailAccountRow_id r =? account_id in
  let f r := mkMailAccountRow (MailAccountRow_id r) (MailAccountRow_user_id r)
    (MailAccountRow_display_name r) (MailAccountRow_email_address r)
    (MailAccountRow_upstream_host r) (MailAccountRow_upstream_port r)
    (MailAccountRow_upstream_tls_mode r) (MailAccountRow_upstream_auth_method r)
    (MailAccountRow_encrypted_upstream_username r)
    (MailAccountRow_encrypted_upstream_secret r) (MailAccountRow_created_at r)
    (MailAccountRow_disabled_at r) last_sync_at last_sync_error in
  do n <- query (fun db => count p (mail_accounts db)) ;;
  execute (fun db => set_mail_accounts (update p f (mail_accounts db)) db) ;;;
  ret n.

Definition delete_mail_account (account_id : Z) : Repo Z :=
  do n <- query (fun db =>
            count (fun r => MailAccountRow_id r =? account_id) (mail_accounts db)) ;;
  execute (delete_account account_id) ;;;
  do t <- now ;;
  (if 0 <? n
   then publish_event (account_changed t account_id (lit "delete_mail_account"))
   else ret tt) ;;;
  ret n.

Definition list_accounts_for_user (user_id : Z) : Repo (list MailAccount) :=
  do rows <- query (fun db => order_by MailAccountRow_id
    (select (fun r => (MailAccountRow_user_id r =? user_id) &&
                      negb (is_some (MailAccountRow_disabled_at r)))
       (mail_accounts db))) ;;
  lift (collect_results MailAccount_try_from rows).

Definition list_enabled_accounts : Repo (list MailAccount) :=
  do rows <- query (fun db => order_by MailAccountRow_id
    (select (fun r => negb (is_some (MailAccountRow_disabled_at r)))
       (mail_accounts db))) ;;
  lift (collect_results MailAccount_try_from rows).

(** [row.map(TryInto::try_into).transpose()]. *)
Definition try_into_opt {R A} (f : R -> Result A) (o : option R) : Result (option A) :=
  match o with
  | None => Ok None
  | Some r => try! a <- f r ;; Ok (Some a)
  end.

Definition find_account_by_email_address (email_address : str)
  : Repo (option MailAccount) :=
  do rows <- query (fun db => order_by_desc MailAccountRow_id
    (select (fun r => same_lower (MailAccountRow_email_address r) email_address &&
                      negb (is_some (MailAccountRow_disabled_at r)))
       (mail_accounts db))) ;;
  lift (try_into_opt MailAccount_try_from (head rows)).

Definition find_account_by_email_address_any_state (email_address : str)
  : Repo (option MailAccount) :=
  do rows <- query (fun db => order_by_desc MailAccountRow_id
    (select (fun r => same_lower (MailAccountRow_email_address r) email_address)
       (mail_accounts db))) ;;
  lift (try_into_opt MailAccount_try_from (head rows)).

Definition find_account_by_id_any_state (account_id : Z) : Repo (option MailAccount) :=
  do rows <- query (fun db =>
    select (fun r => MailAccountRow_id r =? account_id) (mail_accounts db)) ;;
  lift (try_into_opt MailAccount_try_from (head rows)).

(** [Error::Storage(format!("{context}: {e}"))] over a decryption. *)
Definition decrypt_field (secrets : SecretBox) (what : str) (cipher : bytes)
  (display : Error -> str) : Result bytes :=
  match SecretBox_decrypt secrets cipher with
  | Ok b => Ok b
  | Err e => Err (EStorage (lit "failed to decrypt upstream " ++ what ++ lit ": " ++ display e))
  | Panic => Panic
  end.

Definition utf8_field (what : str) (b : bytes) : Result str :=
  match from_utf8 b with
  | Some s => Ok s
  | None => Err (EStorage (lit "upstream " ++ what ++ lit " is not valid UTF-8: " ++ utf8_error b))
  end.

Definition upstream_account_config_from_account (secrets : SecretBox)
  (account : MailAccount) : Result (option UpstreamAccountConfig) :=
  let display := Error_to_string (fun _ => []) in
  try! username <- decrypt_field secrets (lit "username")
                     (MailAccount_encrypted_upstream_username account) display ;;
  try! secret <- decrypt_field secrets (lit "secret")
                   (MailAccount_encrypted_upstream_secret account) display ;;
  try! username <- utf8_field (lit "username") username ;;
  try! secret <- utf8_field (lit "secret") secret ;;
  Ok (Some (mkUpstreamAccountConfig
              (MailAccount_upstream_host account)
              (as_u16 (MailAccount_upstream_port account))
              (MailAccount_upstream_tls_mode account)
              (MailAccount_upstream_auth_method account)
              username secret)).

Definition upstream_account_config (secrets : SecretBox) (email_address : str)
  : Repo (option UpstreamAccountConfig) :=
  do account <- find_account_by_email_address_any_state email_address ;;
  match account with
  | None => ret None
  | Some account => lift (upstream_account_config_from_account secrets account)
  end.

Definition upstream_account_config_by_id (secrets : SecretBox) (account_id : Z)
  : Repo (option UpstreamAccountConfig) :=
  do account <- find_account_by_id_any_state account_id ;;
  match account with
  | None => ret None
  | Some account => lift (upstream_account_config_from_account secrets account)
  end.

(** ** Quotas *)
Definition quota_of (account_id : Z) (r : QuotaRow) : bool :=
  sql_eq (QuotaRow_account_id r) account_id.

Definition get_account_quota (account_id : Z) : Repo (option Quota) :=
  query (fun db =>
    Quota_from <$> head (order_by_desc QuotaRow_id
      (select (quota_of account_id) (quotas db)))).

Definition set_quota_row (max_bytes used_bytes t : Z) (r : QuotaRow) : QuotaRow :=
  mkQuotaRow (QuotaRow_id r) (QuotaRow_user_id r) (QuotaRow_account_id r) max_bytes
    used_bytes t.

Definition upsert_account_quota (account_id max_bytes : Z) : Repo Quota :=
  do id <- nextval T_quotas ;;
  do t <- now ;;
  do existing <- query (fun db => select (quota_of account_id) (quotas db)) ;;
  match existing with
  | [] =>
      let row := mkQuotaRow id None (Some account_id) max_bytes 0 t in
      do ok_account <- query (fun db => has_account db account_id) ;;
      require ok_account (ForeignKeyViolation (lit "quotas_account_id_fkey")) ;;;
      execute (fun db => set_quotas (quotas db ++ [row]) db) ;;;
      ret (Quota_from row)
  | r :: _ =>
      let f r := set_quota_row max_bytes (QuotaRow_used_bytes r) t r in
      execute (fun db => set_quotas (update (quota_of account_id) f (quotas db)) db) ;;;
      ret (Quota_from (f r))
  end.

Definition adjust_account_quota_usage (account_id delta_bytes : Z)
  : Repo (option Quota) :=
  do t <- now ;;
  let f r := set_quota_row (QuotaRow_max_bytes r) (QuotaRow_used_bytes r + delta_bytes) t r in
  do rows <- query (fun db => map f (select (quota_of account_id) (quotas db))) ;;
  require (forallb (fun r => in_i64 (QuotaRow_used_bytes r)) rows) NumericOutOfRange ;;;
  execute (fun db => set_quotas (update (quota_of account_id) f (quotas db)) db) ;;;
  ret (Quota_from <$> head rows).
End RepoAccounts.
