(* ===== verification/RepoMailboxes.v ===== *)
(** * Repository: mailboxes

    Models the mailbox methods of [PostgresRepository] in
    crates/db/src/repository.rs: create, upsert, find, list, rename, subscribe,
    delete and the refresh of the message counters. *)

From stdpp Require Import base strings list.
From Stdlib Require Import ZArith Lia Permutation Sorting.Sorted.
From S2P Require Import Prelude RustStr Domain Notifications Schema RepoCore RepoAccounts.

Local Open Scope Z_scope.

(** ** Statements *)

(** The row an INSERT of [input] makes. *)
Definition mailbox_row (id t : Z) (input : NewMailbox) : MailboxRow :=
  mkMailboxRow id (NewMailbox_account_id input) (NewMailbox_name input)
    (NewMailbox_canonical_name input) (NewMailbox_delimiter input)
    (NewMailbox_attributes input) (NewMailbox_subscribed input)
    (NewMailbox_special_use input) (NewMailbox_uidvalidity input)
    (NewMailbox_uidnext input) (NewMailbox_highestmodseq input)
    (NewMailbox_exists_count input) (NewMailbox_recent_count input)
    (NewMailbox_unseen_count input) t t.

(** The DO UPDATE of the upsert: everything but the key, the id and the
    creation time comes from the input. *)
Definition overwrite_mailbox (t : Z) (input : NewMailbox) (r : MailboxRow) : MailboxRow :=
  mkMailboxRow (MailboxRow_id r) (MailboxRow_account_id r) (NewMailbox_name input)
    (MailboxRow_canonical_name r) (NewMailbox_delimiter input)
    (NewMailbox_attributes input) (NewMailbox_subscribed input)
    (NewMailbox_special_use input) (NewMailbox_uidvalidity input)
    (NewMailbox_uidnext input) (NewMailbox_highestmodseq input)
    (NewMailbox_exists_count input) (NewMailbox_recent_count input)
    (NewMailbox_unseen_count input) (MailboxRow_created_at r) t.

(** [account_id = $1 AND canonical_name = $3], the conflict target. *)
Definition mailbox_conflict (input : NewMailbox) (r : MailboxRow) : bool :=
  (MailboxRow_account_id r =? NewMailbox_account_id input) &&
  str_eqb (MailboxRow_canonical_name r) (NewMailbox_canonical_name input).

(** [account_id = $1 AND (name = $2 OR canonical_name = lower($2))]. *)
Definition mailbox_named (account_id : Z) (mailbox_name : str) (r : MailboxRow) : bool :=
  (MailboxRow_account_id r =? account_id) &&
  (str_eqb (MailboxRow_name r) mailbox_name ||
   str_eqb (MailboxRow_canonical_name r) (to_ascii_lowercase mailbox_name)).

Definition insert_mailbox (row : MailboxRow) : Repo unit :=
  do ok_account <- query (fun db => has_account db (MailboxRow_account_id row)) ;;
  require ok_account (ForeignKeyViolation (lit "mailboxes_account_id_fkey")) ;;;
  execute (fun db => set_mailboxes (mailboxes db ++ [row]) db).

(** ** Methods *)
Definition upsert_mailbox (input : NewMailbox) : Repo Mailbox :=
  do id <- nextval T_mailboxes ;;
  do t <- now ;;
  do existing <- query (fun db => select (mailbox_conflict input) (mailboxes db)) ;;
  do row <- match existing with
            | [] =>
                let row := mailbox_row id t input in
                insert_mailbox row ;;; ret row
            | r :: _ =>
                execute (fun db =>
                  set_mailboxes
                    (update (mailbox_conflict input) (overwrite_mailbox t input)
                       (mailboxes db)) db) ;;;
                ret (overwrite_mailbox t input r)
            end ;;
  publish_event (mailbox_changed t (Some (MailboxRow_account_id row))
                   (Some (MailboxRow_id row)) (lit "upsert_mailbox")) ;;;
  ret (Mailbox_from row).

Definition find_mailbox (account_id : Z) (mailbox_name : str) : Repo (option Mailbox) :=
  query (fun db =>
    Mailbox_from <$> head (order_by_desc MailboxRow_id
      (select (mailbox_named account_id mailbox_name) (mailboxes db)))).

Section Listing.
Context `{PgText}.

(** [ORDER BY canonical_name ASC, id ASC]. *)
Definition by_canonical_name (a b : MailboxRow) : bool :=
  if str_eqb (MailboxRow_canonical_name a) (MailboxRow_canonical_name b)
  then MailboxRow_id a <=? MailboxRow_id b
  else pg_text_leb (MailboxRow_canonical_name a) (MailboxRow_canonical_name b).

Definition list_mailboxes (account_id : Z) (subscribed_only : option bool)
  : Repo (list Mailbox) :=
  let p r :=
    match subscribed_only with
    | Some true => (MailboxRow_account_id r =? account_id) && MailboxRow_subscribed r
    | Some false =>
        (MailboxRow_account_id r =? account_id) && negb (MailboxRow_subscribed r)
    | None => MailboxRow_account_id r =? account_id
    end in
  query (fun db =>
    map Mailbox_from (sort_by by_canonical_name (select p (mailboxes db)))).
End Listing.

Definition create_mailbox (input : NewMailbox) : Repo (option Mailbox) :=
  do id <- nextval T_mailboxes ;;
  do t <- now ;;
  do existing <- query (fun db => select (mailbox_conflict input) (mailboxes db)) ;;
  do row <- match existing with
            | [] =>
                let row := mailbox_row id t input in
                insert_mailbox row ;;; ret (Some row)
            | _ :: _ => ret None
            end ;;
  match row with
  | Some row =>
      publish_event (mailbox_changed t (Some (MailboxRow_account_id row))
                       (Some (MailboxRow_id row)) (lit "create_mailbox"))
  | None => ret tt
  end ;;;
  ret (Mailbox_from <$> row).

Definition delete_mailbox (account_id : Z) (mailbox_name : str) : Repo Z :=
  let p := mailbox_named account_id mailbox_name in
  do n <- query (fun db => count p (mailboxes db)) ;;
  execute (delete_mailboxes p) ;;;
  do t <- now ;;
  (if 0 <? n
   then publish_event (mailbox_changed t (Some account_id) None
                         (lit "delete_mailbox:" ++ mailbox_name))
   else ret tt) ;;;
  ret n.

Definition set_row_name (name canonical_name : str) (t : Z) (r : MailboxRow) : MailboxRow :=
  mkMailboxRow (MailboxRow_id r) (MailboxRow_account_id r) name canonical_name
    (MailboxRow_delimiter r) (MailboxRow_attributes r) (MailboxRow_subscribed r)
    (MailboxRow_special_use r) (MailboxRow_uidvalidity r) (MailboxRow_uidnext r)
    (MailboxRow_highestmodseq r) (MailboxRow_exists_count r) (MailboxRow_recent_count r)
    (MailboxRow_unseen_count r) (MailboxRow_created_at r) t.

Definition rename_mailbox (account_id : Z) (mailbox_name new_name : str)
  : Repo (option Mailbox) :=
  let new_canonical_name := to_ascii_lowercase new_name in
  do taken <- find_mailbox account_id new_name ;;
  if is_some taken then ret None
  else
    let p := mailbox_named account_id mailbox_name in
    do t <- now ;;
    let f := set_row_name new_name new_canonical_name t in
    do rows <- query (fun db => map f (select p (mailboxes db))) ;;
    do db <- query (fun db => set_mailboxes (update p f (mailboxes db)) db) ;;
    require (unique_by key_mailbox_name (mailboxes db))
      (UniqueViolation (lit "mailboxes_account_id_canonical_name_key")) ;;;
    execute (fun _ => db) ;;;
    match head rows with
    | Some row =>
        publish_event (mailbox_changed t (Some (MailboxRow_account_id row))
          (Some (MailboxRow_id row))
          (lit "rename_mailbox:" ++ mailbox_name ++ lit "->" ++ new_name))
    | None => ret tt
    end ;;;
    ret (Mailbox_from <$> head rows).

Definition set_row_subscribed (subscribed : bool) (t : Z) (r : MailboxRow) : MailboxRow :=
  mkMailboxRow (MailboxRow_id r) (MailboxRow_account_id r) (MailboxRow_name r)
    (MailboxRow_canonical_name r) (MailboxRow_delimiter r) (MailboxRow_attributes r)
    subscribed (MailboxRow_special_use r) (MailboxRow_uidvalidity r) (MailboxRow_uidnext r)
    (MailboxRow_highestmodseq r) (MailboxRow_exists_count r) (MailboxRow_recent_count r)
    (MailboxRow_unseen_count r) (MailboxRow_created_at r) t.

Definition set_mailbox_subscribed (account_id : Z) (mailbox_name : str) (subscribed : bool)
  : Repo (option Mailbox) :=
  let p := mailbox_named account_id mailbox_name in
  do t <- now ;;
  let f := set_row_subscribed subscribed t in
  do rows <- query (fun db => map f (select p (mailboxes db))) ;;
  execute (fun db => set_mailboxes (update p f (mailboxes db)) db) ;;;
  match head rows with
  | Some row =>
      publish_event (mailbox_changed t (Some (MailboxRow_account_id row))
        (Some (MailboxRow_id row))
        (lit "set_mailbox_subscribed:" ++ (if subscribed then lit "true" else lit "false")))
  | None => ret tt
  end ;;;
  ret (Mailbox_from <$> head rows).

(** [NOT ('\\Seen' = ANY(flags))].  The statement is a raw string, so the SQL
    literal has both backslashes, and with [standard_conforming_strings] a
    backslash in a literal stands for itself. *)
Definition seen_literal : str := lit "\\Seen".

Definition unseen (r : MailboxMessageRow) : bool :=
  negb (existsb (str_eqb seen_literal) (MailboxMessageRow_flags r)).

Definition set_row_counts (exists_count unseen_count t : Z) (r : MailboxRow) : MailboxRow :=
  mkMailboxRow (MailboxRow_id r) (MailboxRow_account_id r) (MailboxRow_name r)
    (MailboxRow_canonical_name r) (MailboxRow_delimiter r) (MailboxRow_attributes r)
    (MailboxRow_subscribed r) (MailboxRow_special_use r) (MailboxRow_uidvalidity r)
    (MailboxRow_uidnext r) (MailboxRow_highestmodseq r) exists_count
    (MailboxRow_recent_count r) unseen_count (MailboxRow_created_at r) t.

Definition refresh_mailbox_counts (mailbox_id : Z) : Repo unit :=
  do t <- now ;;
  execute (fun db =>
    let exists_count := count (live_in mailbox_id) (mailbox_messages db) in
    let unseen_count :=
      count (fun r => live_in mailbox_id r && unseen r) (mailbox_messages db) in
    set_mailboxes
      (update (mailbox_by_id mailbox_id) (set_row_counts exists_count unseen_count t)
         (mailboxes db)) db) ;;;
  do account_id <- account_id_for_mailbox mailbox_id ;;
  publish_event (mailbox_changed t account_id (Some mailbox_id)
                   (lit "refresh_mailbox_counts")).
