(* ===== verification/RepoMessages.v ===== *)
(** * Repository: messages, MIME parts, mailbox messages, UID mappings, cache
      objects

    Models the message methods of [PostgresRepository] in
    crates/db/src/repository.rs, one definition per method: a transaction where
    the code opens one, the statements in order, then what runs after the
    commit. *)

From stdpp Require Import base strings list.
From Stdlib Require Import ZArith Lia Permutation Sorting.Sorted.
From S2P Require Import Prelude RustStr Domain Notifications Schema RepoCore RepoAccounts.

Local Open Scope Z_scope.

(** ** Messages and MIME parts *)
Definition upsert_message (input : NewMessage) : Repo Message :=
  do id <- nextval T_messages ;;
  do t <- now ;;
  let row := mkMessageRow id (NewMessage_account_id input) (NewMessage_rfc822_blob_key input)
    (NewMessage_rfc822_sha256 input) (NewMessage_message_id_header input)
    (NewMessage_subject input) (NewMessage_from_json input) (NewMessage_to_json input)
    (NewMessage_cc_json input) (NewMessage_bcc_json input) (NewMessage_reply_to_json input)
    (NewMessage_envelope_json input) (NewMessage_bodystructure_json input)
    (NewMessage_internal_date input) (NewMessage_sent_date input)
    (NewMessage_size_octets input) (NewMessage_text_preview input) t in
  do ok_account <- query (fun db => has_account db (NewMessage_account_id input)) ;;
  require ok_account (ForeignKeyViolation (lit "messages_account_id_fkey")) ;;;
  execute (fun db => set_messages (messages db ++ [row]) db) ;;;
  publish_event (message_changed t (Some (MessageRow_account_id row)) None
                   (Some (MessageRow_id row)) (lit "upsert_message")) ;;;
  ret (Message_from row).

Definition insert_mime_part (input : NewMimePart) : Repo MimePart :=
  do id <- nextval T_mime_parts ;;
  let row := mkMimePartRow id (NewMimePart_message_id input) (NewMimePart_part_path input)
    (NewMimePart_content_type input) (NewMimePart_charset input)
    (NewMimePart_disposition input) (NewMimePart_filename input)
    (NewMimePart_content_id input) (NewMimePart_size_octets input)
    (NewMimePart_blob_key input) (NewMimePart_sha256 input)
    (NewMimePart_transfer_encoding input) (NewMimePart_metadata_json input) in
  do ok_message <- query (fun db => has_message db (NewMimePart_message_id input)) ;;
  require ok_message (ForeignKeyViolation (lit "mime_parts_message_id_fkey")) ;;;
  execute (fun db => set_mime_parts (mime_parts db ++ [row]) db) ;;;
  ret (MimePart_from row).

Definition delete_mime_parts_for_message (message_id : Z) : Repo Z :=
  let p r := MimePartRow_message_id r =? message_id in
  do n <- query (fun db => count p (mime_parts db)) ;;
  execute (fun db => set_mime_parts (delete_where p (mime_parts db)) db) ;;;
  ret n.

(** [JOIN messages m ON m.id = message_id .. WHERE m.account_id = $1]. *)
Definition message_owned (db : Database) (account_id message_id : Z) : bool :=
  existsb (fun m => (MessageRow_id m =? message_id) && (MessageRow_account_id m =? account_id))
    (messages db).

Definition part_object_type (mp : MimePartRow) : str :=
  if str_eqb (default [] (MimePartRow_disposition mp)) (lit "attachment") ||
     is_some (MimePartRow_filename mp)
  then lit "Attachment" else lit "MimePart".

Section Collation.
Context `{PgText}.

(** [ORDER BY object_type ASC, blob_key ASC]. *)
Definition by_type_and_key (a b : CacheObjectReferenceRow) : bool :=
  let ta := CacheObjectReferenceRow_object_type a in
  let tb := CacheObjectReferenceRow_object_type b in
  if str_eqb ta tb
  then pg_text_leb (CacheObjectReferenceRow_blob_key a) (CacheObjectReferenceRow_blob_key b)
  else pg_text_leb ta tb.

Definition message_cache_rows (account_id message_id : Z) (db : Database)
  : list CacheObjectReferenceRow :=
  map (fun m => mkCacheObjectReferenceRow (lit "rfc822") (MessageRow_rfc822_blob_key m)
                  (MessageRow_rfc822_sha256 m) (MessageRow_size_octets m))
    (select (fun m => (MessageRow_account_id m =? account_id) &&
                      (MessageRow_id m =? message_id)) (messages db)) ++
  map (fun mp => mkCacheObjectReferenceRow (part_object_type mp) (MimePartRow_blob_key mp)
                   (MimePartRow_sha256 mp) (MimePartRow_size_octets mp))
    (select (fun mp => (MimePartRow_message_id mp =? message_id) &&
                       message_owned db account_id (MimePartRow_message_id mp))
       (mime_parts db)).

Definition list_message_cache_objects (account_id message_id : Z)
  : Repo (list CacheObjectReference) :=
  query (fun db =>
    map CacheObjectReference_from
      (sort_by by_type_and_key (message_cache_rows account_id message_id db))).
End Collation.

Definition find_mime_part_by_message_and_path (account_id message_id : Z) (part_path : str)
  : Repo (option MimePart) :=
  query (fun db =>
    MimePart_from <$> head
      (select (fun mp => message_owned db account_id (MimePartRow_message_id mp) &&
                         (MimePartRow_message_id mp =? message_id) &&
                         str_eqb (MimePartRow_part_path mp) part_path) (mime_parts db))).

(** ** UID mappings *)
Definition mailbox_uidvalidity (mailbox_id : Z) : Repo Z :=
  query (fun db =>
    match select (mailbox_by_id mailbox_id) (mailboxes db) with
    | r :: _ => default 1 (MailboxRow_uidvalidity r)
    | [] => 1
    end).

Definition upsert_uid_mapping (mailbox_id local_uid upstream_uid upstream_uidvalidity : Z)
  : Repo unit :=
  do id <- nextval T_uid_mappings ;;
  do t <- now ;;
  let p r := (UidMapping_mailbox_id r =? mailbox_id) && (UidMapping_local_uid r =? local_uid) in
  do existing <- query (fun db => select p (uid_mappings db)) ;;
  do db <- match existing with
           | [] => query (fun db =>
               set_uid_mappings
                 (uid_mappings db ++
                  [mkUidMapping id mailbox_id local_uid upstream_uid upstream_uidvalidity t]) db)
           | _ :: _ => query (fun db =>
               set_uid_mappings
                 (update p (fun r => mkUidMapping (UidMapping_id r) (UidMapping_mailbox_id r)
                              (UidMapping_local_uid r) upstream_uid upstream_uidvalidity
                              (UidMapping_created_at r)) (uid_mappings db)) db)
           end ;;
  require (unique_by key_map_upstream (uid_mappings db))
    (UniqueViolation (lit "uid_mappings_mailbox_id_upstream_uid_key")) ;;;
  require (has_mailbox db mailbox_id)
    (ForeignKeyViolation (lit "uid_mappings_mailbox_id_fkey")) ;;;
  execute (fun _ => db).

(** ** Mailbox messages *)

(** [mailbox_id = $1 AND local_uid = $2 AND is_expunged = FALSE]. *)
Definition live_uid (mailbox_id local_uid : Z) (r : MailboxMessageRow) : bool :=
  live_in mailbox_id r && (MailboxMessageRow_local_uid r =? local_uid).

(** [mailbox_id = $1 AND local_uid = $3], the conflict target of the upsert. *)
Definition has_uid (mailbox_id local_uid : Z) (r : MailboxMessageRow) : bool :=
  (MailboxMessageRow_mailbox_id r =? mailbox_id) && (MailboxMessageRow_local_uid r =? local_uid).

(** The DO UPDATE of the upsert. *)
Definition overwrite_message (t modseq : Z) (input : NewMailboxMessage)
  (r : MailboxMessageRow) : MailboxMessageRow :=
  mkMailboxMessageRow (MailboxMessageRow_id r) (MailboxMessageRow_mailbox_id r)
    (NewMailboxMessage_message_id input) (MailboxMessageRow_local_uid r)
    (NewMailboxMessage_upstream_uid input) (Some modseq) (NewMailboxMessage_flags input)
    (NewMailboxMessage_keywords input) (NewMailboxMessage_is_expunged input)
    (NewMailboxMessage_expunged_at input) (MailboxMessageRow_created_at r) t.

(** [INSERT INTO mailbox_messages .. ON CONFLICT (mailbox_id, local_uid) DO UPDATE]. *)
Definition upsert_mailbox_message_row (local_uid modseq : Z) (input : NewMailboxMessage)
  : Repo MailboxMessageRow :=
  do id <- nextval T_mailbox_messages ;;
  do t <- now ;;
  let p := has_uid (NewMailboxMessage_mailbox_id input) local_uid in
  do existing <- query (fun db => select p (mailbox_messages db)) ;;
  let '(row, f) :=
    match existing with
    | [] =>
        let row := mkMailboxMessageRow id (NewMailboxMessage_mailbox_id input)
          (NewMailboxMessage_message_id input) local_uid
          (NewMailboxMessage_upstream_uid input) (Some modseq)
          (NewMailboxMessage_flags input) (NewMailboxMessage_keywords input)
          (NewMailboxMessage_is_expunged input) (NewMailboxMessage_expunged_at input) t t in
        (row, fun rows => rows ++ [row])
    | r :: _ => (overwrite_message t modseq input r, update p (overwrite_message t modseq input))
    end in
  do db <- query (fun db => set_mailbox_messages (f (mailbox_messages db)) db) ;;
  require (unique_by key_upstream_uid (mailbox_messages db))
    (UniqueViolation (lit "mailbox_messages_mailbox_upstream_uid_idx")) ;;;
  require (has_mailbox db (NewMailboxMessage_mailbox_id input))
    (ForeignKeyViolation (lit "mailbox_messages_mailbox_id_fkey")) ;;;
  require (has_message db (NewMailboxMessage_message_id input))
    (ForeignKeyViolation (lit "mailbox_messages_message_id_fkey")) ;;;
  execute (fun _ => db) ;;;
  ret row.

(** The transaction of the method below. *)
Definition upsert_tx (input : NewMailboxMessage)
  : Repo (MailboxMessageRow * Z) :=
  do local_uid <- (if NewMailboxMessage_local_uid input =? 0
                   then assign_mailbox_local_uid (NewMailboxMessage_mailbox_id input)
                   else ret (NewMailboxMessage_local_uid input)) ;;
  do modseq <- assign_mailbox_modseq (NewMailboxMessage_mailbox_id input)
                 (NewMailboxMessage_modseq input) ;;
  do row <- upsert_mailbox_message_row local_uid modseq input ;;
  do sequence_number <- mailbox_sequence_number_in_tx (MailboxMessageRow_mailbox_id row)
                          (MailboxMessageRow_local_uid row) ;;
  ret (row, sequence_number).

Definition upsert_mailbox_message (input : NewMailboxMessage) : Repo MailboxMessage :=
  do '(row, sequence_number) <- transaction (upsert_tx input) ;;
  do account_id <- account_id_for_mailbox (MailboxMessageRow_mailbox_id row) ;;
  match MailboxMessageRow_upstream_uid row with
  | Some upstream_uid =>
      do uidvalidity <- mailbox_uidvalidity (MailboxMessageRow_mailbox_id row) ;;
      upsert_uid_mapping (MailboxMessageRow_mailbox_id row) (MailboxMessageRow_local_uid row)
        upstream_uid uidvalidity
  | None => ret tt
  end ;;;
  do t <- now ;;
  publish_event (message_changed_with_context t account_id
    (Some (MailboxMessageRow_mailbox_id row)) (Some (MailboxMessageRow_message_id row))
    (Some (MailboxMessageRow_local_uid row)) (Some sequence_number)
    (MailboxMessageRow_flags row) (lit "upsert_mailbox_message")) ;;;
  ret (MailboxMessage_from row).

Definition set_row_upstream_uid (upstream_uid t : Z) (r : MailboxMessageRow)
  : MailboxMessageRow :=
  mkMailboxMessageRow (MailboxMessageRow_id r) (MailboxMessageRow_mailbox_id r)
    (MailboxMessageRow_message_id r) (MailboxMessageRow_local_uid r) (Some upstream_uid)
    (MailboxMessageRow_modseq r) (MailboxMessageRow_flags r) (MailboxMessageRow_keywords r)
    (MailboxMessageRow_is_expunged r) (MailboxMessageRow_expunged_at r)
    (MailboxMessageRow_created_at r) t.

Definition set_mailbox_message_upstream_uid (mailbox_id local_uid upstream_uid : Z)
  : Repo (option MailboxMessage) :=
  do t <- now ;;
  let p := live_uid mailbox_id local_uid in
  let f := set_row_upstream_uid upstream_uid t in
  do rows <- query (fun db => map f (select p (mailbox_messages db))) ;;
  do db <- query (fun db => set_mailbox_messages (update p f (mailbox_messages db)) db) ;;
  require (unique_by key_upstream_uid (mailbox_messages db))
    (UniqueViolation (lit "mailbox_messages_mailbox_upstream_uid_idx")) ;;;
  execute (fun _ => db) ;;;
  (if is_some (head rows) then
     do uidvalidity <- mailbox_uidvalidity mailbox_id ;;
     upsert_uid_mapping mailbox_id local_uid upstream_uid uidvalidity
   else ret tt) ;;;
  ret (MailboxMessage_from <$> head rows).

(** [query_scalar::<_, i64>] on the nullable column: a row whose [upstream_uid]
    is null is a decoding error, not an absent value. *)
Definition upstream_uid_for_mailbox_message (mailbox_id local_uid : Z) : Repo (option Z) :=
  do mailbox_uidvalidity <- mailbox_uidvalidity mailbox_id ;;
  do rows <- query (fun db => select (live_uid mailbox_id local_uid) (mailbox_messages db)) ;;
  match head rows with
  | Some row =>
      match MailboxMessageRow_upstream_uid row with
      | Some upstream_uid => ret (Some upstream_uid)
      | None => fail (ESqlx UnexpectedNull)
      end
  | None =>
      query (fun db =>
        UidMapping_upstream_uid <$> head (order_by_desc UidMapping_created_at
          (select (fun r => (UidMapping_mailbox_id r =? mailbox_id) &&
                            (UidMapping_local_uid r =? local_uid) &&
                            (UidMapping_upstream_uidvalidity r =? mailbox_uidvalidity))
             (uid_mappings db))))
  end.

(** The live rows of a mailbox in UID order. *)
Definition mailbox_rows (mailbox_id : Z) (db : Database) : list MailboxMessageRow :=
  order_by MailboxMessageRow_local_uid (select (live_in mailbox_id) (mailbox_messages db)).

Definition list_mailbox_messages (mailbox_id : Z) : Repo (list MailboxMessage) :=
  query (fun db => map MailboxMessage_from (mailbox_rows mailbox_id db)).

(** [mailbox_messages mm JOIN messages m ON m.id = mm.message_id]. *)
Definition view_row (mm : MailboxMessageRow) (m : MessageRow) : MailboxMessageViewRow :=
  mkMailboxMessageViewRow (MailboxMessageRow_id mm) (MailboxMessageRow_mailbox_id mm)
    (MailboxMessageRow_message_id mm) (MailboxMessageRow_local_uid mm)
    (MailboxMessageRow_upstream_uid mm) (MailboxMessageRow_modseq mm)
    (MailboxMessageRow_flags mm) (MailboxMessageRow_keywords mm)
    (MailboxMessageRow_is_expunged mm) (MailboxMessageRow_expunged_at mm)
    (MailboxMessageRow_created_at mm) (MailboxMessageRow_updated_at mm)
    (MessageRow_rfc822_blob_key m) (MessageRow_rfc822_sha256 m)
    (MessageRow_message_id_header m) (MessageRow_subject m) (MessageRow_envelope_json m)
    (MessageRow_bodystructure_json m) (MessageRow_internal_date m) (MessageRow_sent_date m)
    (MessageRow_size_octets m) (MessageRow_text_preview m).

Definition join_messages (db : Database) (rows : list MailboxMessageRow)
  : list MailboxMessageViewRow :=
  flat_map (fun mm =>
    map (view_row mm)
      (select (fun m => MessageRow_id m =? MailboxMessageRow_message_id mm) (messages db)))
    rows.

Definition list_mailbox_message_views (mailbox_id : Z) : Repo (list MailboxMessageView) :=
  query (fun db =>
    map MailboxMessageView_from
      (order_by MailboxMessageViewRow_local_uid
         (join_messages db (select (live_in mailbox_id) (mailbox_messages db))))).

Definition find_mailbox_message_view (mailbox_id local_uid : Z)
  : Repo (option MailboxMessageView) :=
  query (fun db =>
    MailboxMessageView_from <$> head
      (join_messages db (select (live_uid mailbox_id local_uid) (mailbox_messages db)))).

Definition set_row_flags (flags : list str) (modseq t : Z) (r : MailboxMessageRow)
  : MailboxMessageRow :=
  mkMailboxMessageRow (MailboxMessageRow_id r) (MailboxMessageRow_mailbox_id r)
    (MailboxMessageRow_message_id r) (MailboxMessageRow_local_uid r)
    (MailboxMessageRow_upstream_uid r) (Some modseq) flags (MailboxMessageRow_keywords r)
    (MailboxMessageRow_is_expunged r) (MailboxMessageRow_expunged_at r)
    (MailboxMessageRow_created_at r) t.

(** The transaction of the method below. *)
Definition flags_tx (mailbox_id local_uid : Z) (flags : list str)
  : Repo (option (MailboxMessageRow * Z)) :=
  do modseq <- assign_mailbox_modseq mailbox_id None ;;
  do t <- now ;;
  let p := live_uid mailbox_id local_uid in
  let f := set_row_flags flags modseq t in
  do rows <- query (fun db => map f (select p (mailbox_messages db))) ;;
  execute (fun db => set_mailbox_messages (update p f (mailbox_messages db)) db) ;;;
  match head rows with
  | Some row =>
      do sequence_number <- mailbox_sequence_number_in_tx (MailboxMessageRow_mailbox_id row)
                              (MailboxMessageRow_local_uid row) ;;
      ret (Some (row, sequence_number))
  | None => ret None
  end.

Definition update_mailbox_message_flags (mailbox_id local_uid : Z) (flags : list str)
  : Repo (option MailboxMessage) :=
  do found <- transaction (flags_tx mailbox_id local_uid flags) ;;
  match found with
  | Some (row, sequence_number) =>
      do account_id <- account_id_for_mailbox (MailboxMessageRow_mailbox_id row) ;;
      do t <- now ;;
      publish_event (message_changed_with_context t account_id
        (Some (MailboxMessageRow_mailbox_id row)) (Some (MailboxMessageRow_message_id row))
        (Some (MailboxMessageRow_local_uid row)) (Some sequence_number)
        (MailboxMessageRow_flags row) (lit "update_mailbox_message_flags")) ;;;
      ret (Some (MailboxMessage_from row))
  | None => ret None
  end.

Definition next_mailbox_local_uid (mailbox_id : Z) : Repo Z :=
  do next_uid <- select_next_uid mailbox_id ;;
  ret (default 1 next_uid).

(** ** Cache objects *)

(** [account_id = $1 AND object_type = $2 AND blob_key = $3]; a null account
    conflicts with nothing. *)
Definition cache_conflict (input : NewCacheObject) (r : CacheObjectRow) : bool :=
  match NewCacheObject_account_id input with
  | Some a => sql_eq (CacheObjectRow_account_id r) a &&
              str_eqb (CacheObjectRow_object_type r) (NewCacheObject_object_type input) &&
              str_eqb (CacheObjectRow_blob_key r) (NewCacheObject_blob_key input)
  | None => false
  end.

(** [GREATEST(COALESCE(a, b), b)], which ignores nulls. *)
Definition later (a b : option Z) : option Z :=
  match a, b with
  | Some x, Some y => Some (Z.max x y)
  | Some x, None => Some x
  | None, _ => b
  end.

Definition bump_cache_object (input : NewCacheObject) (r : CacheObjectRow) : CacheObjectRow :=
  mkCacheObjectRow (CacheObjectRow_id r) (NewCacheObject_account_id input)
    (CacheObjectRow_object_type r) (CacheObjectRow_blob_key r)
    (NewCacheObject_sha256 input) (NewCacheObject_size_octets input)
    (CacheObjectRow_ref_count r + NewCacheObject_ref_count input)
    (later (NewCacheObject_last_accessed_at input) (CacheObjectRow_last_accessed_at r))
    (CacheObjectRow_created_at r).

Definition upsert_cache_object (input : NewCacheObject) : Repo CacheObject :=
  do id <- nextval T_cache_objects ;;
  do t <- now ;;
  do existing <- query (fun db => select (cache_conflict input) (cache_objects db)) ;;
  match existing with
  | [] =>
      let row := mkCacheObjectRow id (NewCacheObject_account_id input)
        (NewCacheObject_object_type input) (NewCacheObject_blob_key input)
        (NewCacheObject_sha256 input) (NewCacheObject_size_octets input)
        (NewCacheObject_ref_count input) (NewCacheObject_last_accessed_at input) t in
      do ok_account <- query (fun db => fk_opt (has_account db) (NewCacheObject_account_id input)) ;;
      require ok_account (ForeignKeyViolation (lit "cache_objects_account_id_fkey")) ;;;
      execute (fun db => set_cache_objects (cache_objects db ++ [row]) db) ;;;
      ret (CacheObject_from row)
  | r :: _ =>
      let f := bump_cache_object input in
      require (in_i64 (CacheObjectRow_ref_count (f r))) NumericOutOfRange ;;;
      execute (fun db =>
        set_cache_objects (update (cache_conflict input) f (cache_objects db)) db) ;;;
      ret (CacheObject_from (f r))
  end.

Definition list_cache_objects_for_account (account_id : Z) : Repo (list CacheObject) :=
  query (fun db =>
    map CacheObject_from (order_by CacheObjectRow_id
      (select (fun r => sql_eq (CacheObjectRow_account_id r) account_id) (cache_objects db)))).

Definition find_cache_object_by_account_type_and_blob_key (account_id : Z)
  (object_type blob_key : str) : Repo (option CacheObject) :=
  query (fun db =>
    CacheObject_from <$> head
      (select (fun r => sql_eq (CacheObjectRow_account_id r) account_id &&
                        str_eqb (CacheObjectRow_object_type r) object_type &&
                        str_eqb (CacheObjectRow_blob_key r) blob_key) (cache_objects db))).

(** [ORDER BY COALESCE(last_accessed_at, created_at) ASC, id ASC]. *)
Definition by_recency (a b : CacheObjectRow) : bool :=
  let k r := default (CacheObjectRow_created_at r) (CacheObjectRow_last_accessed_at r) in
  (k a <? k b) || ((k a =? k b) && (CacheObjectRow_id a <=? CacheObjectRow_id b)).

Definition list_cache_objects_for_account_by_recency (account_id : Z)
  : Repo (list CacheObject) :=
  query (fun db =>
    map CacheObject_from (sort_by by_recency
      (select (fun r => sql_eq (CacheObjectRow_account_id r) account_id) (cache_objects db)))).

(** [account_id = $1 AND blob_key = $2]. *)
Definition cache_key (account_id : Z) (blob_key : str) (r : CacheObjectRow) : bool :=
  sql_eq (CacheObjectRow_account_id r) account_id && str_eqb (CacheObjectRow_blob_key r) blob_key.

Definition set_cache_counts (ref_count : Z) (accessed : option Z) (r : CacheObjectRow)
  : CacheObjectRow :=
  mkCacheObjectRow (CacheObjectRow_id r) (CacheObjectRow_account_id r)
    (CacheObjectRow_object_type r) (CacheObjectRow_blob_key r) (CacheObjectRow_sha256 r)
    (CacheObjectRow_size_octets r) ref_count accessed (CacheObjectRow_created_at r).

Definition touch_cache_object (account_id : Z) (blob_key : str) : Repo Z :=
  do t <- now ;;
  let p := cache_key account_id blob_key in
  do n <- query (fun db => count p (cache_objects db)) ;;
  execute (fun db =>
    set_cache_objects
      (update p (fun r => set_cache_counts (CacheObjectRow_ref_count r) (Some t) r)
         (cache_objects db)) db) ;;;
  ret n.

(** The two COUNT subqueries: uses of the blob by messages and parts of other
    accounts. *)
Definition references_elsewhere (blob_key : str) (account_id : Z) (db : Database) : Z :=
  count (fun m => str_eqb (MessageRow_rfc822_blob_key m) blob_key &&
                  negb (MessageRow_account_id m =? account_id)) (messages db) +
  count (fun mp => str_eqb (MimePartRow_blob_key mp) blob_key &&
                   existsb (fun m => (MessageRow_id m =? MimePartRow_message_id mp) &&
                                     negb (MessageRow_account_id m =? account_id))
                     (messages db)) (mime_parts db).

Definition delete_cache_object_for_account (account_id : Z) (blob_key : str) : Repo bool :=
  transaction (
    do rows <- query (fun db => select (cache_key account_id blob_key) (cache_objects db)) ;;
    match head rows with
    | None => ret false
    | Some row =>
        let by_id r := CacheObjectRow_id r =? CacheObjectRow_id row in
        if 1 <? CacheObjectRow_ref_count row then
          do t <- now ;;
          execute (fun db =>
            set_cache_objects
              (update by_id
                 (fun r => set_cache_counts (CacheObjectRow_ref_count r - 1) (Some t) r)
                 (cache_objects db)) db) ;;;
          ret false
        else
          do elsewhere <- query (references_elsewhere blob_key account_id) ;;
          execute (fun db =>
            set_cache_objects (delete_where by_id (cache_objects db)) db) ;;;
          ret (elsewhere =? 0)
    end).

Definition count_blob_key_references_elsewhere (blob_key : str) (account_id : Z) : Repo Z :=
  query (references_elsewhere blob_key account_id).

Definition delete_cache_objects_for_account (account_id : Z) : Repo Z :=
  let p r := sql_eq (CacheObjectRow_account_id r) account_id in
  do n <- query (fun db => count p (cache_objects db)) ;;
  execute (fun db => set_cache_objects (delete_where p (cache_objects db)) db) ;;;
  ret n.

(** ** Copying and deleting a message *)
Section CopyDelete.
Context `{PgText}.

(** [SELECT DISTINCT blob_key FROM (.. UNION ALL ..) ORDER BY blob_key ASC]. *)
Definition list_object_keys_for_account (account_id : Z) : Repo (list str) :=
  query (fun db =>
    dedup (sort_by pg_text_leb
      (map CacheObjectRow_blob_key
         (select (fun r => sql_eq (CacheObjectRow_account_id r) account_id)
            (cache_objects db)) ++
       map MessageRow_rfc822_blob_key
         (select (fun m => MessageRow_account_id m =? account_id) (messages db)) ++
       map MimePartRow_blob_key
         (select (fun mp => message_owned db account_id (MimePartRow_message_id mp))
            (mime_parts db))))).

Definition no_mailbox_error (mailbox_id : Z) : Error :=
  EStorage (lit "mailbox not found for cache refcount update: " ++ fmt_i mailbox_id).

(** The transaction of the method below. *)
Definition copy_tx (source_mailbox_id destination_mailbox_id source_local_uid : Z)
  : Repo (option (MailboxMessageRow * Z)) :=
  do rows <- query (fun db =>
    select (live_uid source_mailbox_id source_local_uid) (mailbox_messages db)) ;;
  match head rows with
  | None => ret None
  | Some source =>
      do next_uid <- assign_mailbox_local_uid destination_mailbox_id ;;
      do modseq <- assign_mailbox_modseq destination_mailbox_id None ;;
      do id <- nextval T_mailbox_messages ;;
      do t <- now ;;
      let row := mkMailboxMessageRow id destination_mailbox_id
        (MailboxMessageRow_message_id source) next_uid None (Some modseq)
        (MailboxMessageRow_flags source) (MailboxMessageRow_keywords source) false None t t in
      do db <- query (fun db => set_mailbox_messages (mailbox_messages db ++ [row]) db) ;;
      require (unique_by key_local_uid (mailbox_messages db))
        (UniqueViolation (lit "mailbox_messages_mailbox_id_local_uid_key")) ;;;
      require (has_mailbox db destination_mailbox_id)
        (ForeignKeyViolation (lit "mailbox_messages_mailbox_id_fkey")) ;;;
      require (has_message db (MailboxMessageRow_message_id source))
        (ForeignKeyViolation (lit "mailbox_messages_message_id_fkey")) ;;;
      execute (fun _ => db) ;;;
      do sequence_number <- mailbox_sequence_number_in_tx
                              (MailboxMessageRow_mailbox_id row)
                              (MailboxMessageRow_local_uid row) ;;
      ret (Some (row, sequence_number))
  end.

Definition copy_mailbox_message
  (source_mailbox_id destination_mailbox_id source_local_uid : Z)
  : Repo (option MailboxMessage) :=
  do copied <- transaction (copy_tx source_mailbox_id destination_mailbox_id source_local_uid) ;;
  match copied with
  | None => ret None
  | Some (row, sequence_number) =>
      do account_id <- account_id_for_mailbox destination_mailbox_id ;;
      match account_id with
      | None => fail (no_mailbox_error destination_mailbox_id)
      | Some account_id =>
          do objects <- list_message_cache_objects account_id
                          (MailboxMessageRow_message_id row) ;;
          do t <- now ;;
          for_each objects (fun object =>
            upsert_cache_object (mkNewCacheObject (Some account_id)
              (CacheObjectReference_object_type object) (CacheObjectReference_blob_key object)
              (CacheObjectReference_sha256 object) (CacheObjectReference_size_octets object)
              1 (Some t)) ;;;
            ret tt) ;;;
          publish_event (message_changed_with_context t (Some account_id)
            (Some destination_mailbox_id) (Some (MailboxMessageRow_message_id row))
            (Some (MailboxMessageRow_local_uid row)) (Some sequence_number)
            (MailboxMessageRow_flags row) (lit "copy_mailbox_message")) ;;;
          ret (Some (MailboxMessage_from row))
      end
  end.

(** The transaction of the method below. *)
Definition delete_tx (mailbox_id local_uid : Z)
  : Repo (option (Z * Z * Z)) :=
  do rows <- query (fun db =>
    select (live_uid mailbox_id local_uid) (mailbox_messages db)) ;;
  match head rows with
  | None => ret None
  | Some target =>
      do sequence_number <- mailbox_sequence_number_in_tx mailbox_id local_uid ;;
      assign_mailbox_modseq mailbox_id None ;;;
      do n <- query (fun db =>
        count (live_uid mailbox_id local_uid) (mailbox_messages db)) ;;
      execute (fun db =>
        set_mailbox_messages
          (delete_where (live_uid mailbox_id local_uid) (mailbox_messages db)) db) ;;;
      ret (Some (MailboxMessageRow_message_id target, sequence_number, n))
  end.

Definition delete_mailbox_message (mailbox_id local_uid : Z) : Repo Z :=
  do deleted <- transaction (delete_tx mailbox_id local_uid) ;;
  match deleted with
  | None => ret 0
  | Some (message_id, sequence_number, n) =>
      (if 0 <? n then
         do account_id <- account_id_for_mailbox mailbox_id ;;
         match account_id with
         | None => fail (no_mailbox_error mailbox_id)
         | Some account_id =>
             do objects <- list_message_cache_objects account_id message_id ;;
             for_each objects (fun object =>
               delete_cache_object_for_account account_id
                 (CacheObjectReference_blob_key object) ;;;
               ret tt) ;;;
             do t <- now ;;
             publish_event (message_changed_with_context t (Some account_id)
               (Some mailbox_id) None (Some local_uid) (Some sequence_number) []
               (lit "delete_mailbox_message:" ++ fmt_i local_uid))
         end
       else ret tt) ;;;
      ret n
  end.
End CopyDelete.
