(* ===== verification/RepoQueue.v ===== *)
(** * Repository: sync checkpoints and the mutation queue

    Models the [sync_state] and [pending_mutations] methods of
    [PostgresRepository] in crates/db/src/repository.rs. *)

From stdpp Require Import base strings list.
From Stdlib Require Import ZArith Lia Permutation Sorting.Sorted.
From S2P Require Import Prelude RustStr Domain Notifications Schema RepoCore.

Local Open Scope Z_scope.

(** ** Sync checkpoints *)

(** The conflict target [(account_id, mailbox_id)]: a null mailbox conflicts
    with nothing. *)
Definition sync_state_conflict (input : NewSyncState) (r : SyncStateRow) : bool :=
  match NewSyncState_mailbox_id input with
  | Some m => (SyncStateRow_account_id r =? NewSyncState_account_id input) &&
              sql_eq (SyncStateRow_mailbox_id r) m
  | None => false
  end.

Definition overwrite_sync_state (input : NewSyncState) (r : SyncStateRow) : SyncStateRow :=
  mkSyncStateRow (SyncStateRow_id r) (SyncStateRow_account_id r) (SyncStateRow_mailbox_id r)
    (NewSyncState_state_json input) (NewSyncState_last_success_at input)
    (NewSyncState_last_attempt_at input) (NewSyncState_last_error input).

Definition put_sync_state (input : NewSyncState) : Repo SyncState :=
  do id <- nextval T_sync_state ;;
  do existing <- query (fun db => select (sync_state_conflict input) (sync_state db)) ;;
  match existing with
  | [] =>
      let row := mkSyncStateRow id (NewSyncState_account_id input)
        (NewSyncState_mailbox_id input) (NewSyncState_state_json input)
        (NewSyncState_last_success_at input) (NewSyncState_last_attempt_at input)
        (NewSyncState_last_error input) in
      do ok_account <- query (fun db => has_account db (NewSyncState_account_id input)) ;;
      require ok_account (ForeignKeyViolation (lit "sync_state_account_id_fkey")) ;;;
      do ok_mailbox <- query (fun db => fk_opt (has_mailbox db) (NewSyncState_mailbox_id input)) ;;
      require ok_mailbox (ForeignKeyViolation (lit "sync_state_mailbox_id_fkey")) ;;;
      execute (fun db => set_sync_state (sync_state db ++ [row]) db) ;;;
      ret (SyncState_from row)
  | r :: _ =>
      execute (fun db =>
        set_sync_state
          (update (sync_state_conflict input) (overwrite_sync_state input) (sync_state db)) db) ;;;
      ret (SyncState_from (overwrite_sync_state input r))
  end.

(** [account_id = $1 AND mailbox_id IS NOT DISTINCT FROM $2]. *)
Definition sync_state_of (account_id : Z) (mailbox_id : option Z) (r : SyncStateRow) : bool :=
  (SyncStateRow_account_id r =? account_id) && not_distinct (SyncStateRow_mailbox_id r) mailbox_id.

Definition load_sync_state (account_id : Z) (mailbox_id : option Z)
  : Repo (option SyncState) :=
  query (fun db =>
    SyncState_from <$> head (order_by_desc SyncStateRow_id
      (select (sync_state_of account_id mailbox_id) (sync_state db)))).

Definition delete_sync_state (account_id : Z) (mailbox_id : option Z) : Repo Z :=
  let p := sync_state_of account_id mailbox_id in
  do n <- query (fun db => count p (sync_state db)) ;;
  execute (fun db => set_sync_state (delete_where p (sync_state db)) db) ;;;
  ret n.

(** ** Pending mutations *)
Definition pending_mutation_row (id t : Z) (input : NewPendingMutation) : PendingMutationRow :=
  mkPendingMutationRow id (NewPendingMutation_account_id input)
    (NewPendingMutation_mailbox_id input) (NewPendingMutation_message_id input)
    (NewPendingMutation_mutation_type input) (NewPendingMutation_payload_json input)
    (MutationStatus_to_string (NewPendingMutation_status input))
    (NewPendingMutation_attempts input) (NewPendingMutation_next_attempt_at input)
    (NewPendingMutation_idempotency_key input) t t.

(** The INSERT has no ON CONFLICT clause: a second row with the same
    idempotency key is refused. *)
Definition enqueue_mutation (input : NewPendingMutation) : Repo PendingMutation :=
  do id <- nextval T_pending_mutations ;;
  do t <- now ;;
  let row := pending_mutation_row id t input in
  do db <- query (fun db => set_pending_mutations (pending_mutations db ++ [row]) db) ;;
  require (unique_by key_idempotency (pending_mutations db))
    (UniqueViolation (lit "pending_mutations_idempotency_key_key")) ;;;
  require (has_account db (PendingMutationRow_account_id row))
    (ForeignKeyViolation (lit "pending_mutations_account_id_fkey")) ;;;
  require (has_mailbox db (PendingMutationRow_mailbox_id row))
    (ForeignKeyViolation (lit "pending_mutations_mailbox_id_fkey")) ;;;
  require (fk_opt (has_message db) (PendingMutationRow_message_id row))
    (ForeignKeyViolation (lit "pending_mutations_message_id_fkey")) ;;;
  execute (fun _ => db) ;;;
  publish_event (pending_mutation_changed t (Some (PendingMutationRow_account_id row))
    (Some (PendingMutationRow_mailbox_id row)) (Some (PendingMutationRow_id row))
    (lit "enqueue_mutation")) ;;;
  lift (PendingMutation_try_from row).

Definition list_pending_mutations (account_id : Z) (status : MutationStatus)
  : Repo (list PendingMutation) :=
  do rows <- query (fun db =>
    order_by PendingMutationRow_created_at
      (select (fun r => (PendingMutationRow_account_id r =? account_id) &&
                        str_eqb (PendingMutationRow_status r) (MutationStatus_to_string status))
         (pending_mutations db))) ;;
  lift (collect_results PendingMutation_try_from rows).

(** [status IN ('pending', 'failed')] and the attempt time is null or has come. *)
Definition mutation_due (account_id t : Z) (r : PendingMutationRow) : bool :=
  (PendingMutationRow_account_id r =? account_id) &&
  (str_eqb (PendingMutationRow_status r) (lit "pending") ||
   str_eqb (PendingMutationRow_status r) (lit "failed")) &&
  match PendingMutationRow_next_attempt_at r with
  | None => true
  | Some a => a <=? t
  end.

Definition list_due_pending_mutations (account_id : Z) : Repo (list PendingMutation) :=
  do t <- now ;;
  do rows <- query (fun db =>
    order_by PendingMutationRow_created_at
      (select (mutation_due account_id t) (pending_mutations db))) ;;
  lift (collect_results PendingMutation_try_from rows).

Definition count_pending_mutations : Repo Z :=
  query (fun db =>
    count (fun r => str_eqb (PendingMutationRow_status r) (lit "pending"))
      (pending_mutations db)).

Definition mutation_by_id (id : Z) (r : PendingMutationRow) : bool :=
  PendingMutationRow_id r =? id.

Definition set_row_status (status : MutationStatus) (attempts : Z)
  (next_attempt_at : option Z) (t : Z) (r : PendingMutationRow) : PendingMutationRow :=
  mkPendingMutationRow (PendingMutationRow_id r) (PendingMutationRow_account_id r)
    (PendingMutationRow_mailbox_id r) (PendingMutationRow_message_id r)
    (PendingMutationRow_mutation_type r) (PendingMutationRow_payload_json r)
    (MutationStatus_to_string status) attempts next_attempt_at
    (PendingMutationRow_idempotency_key r) (PendingMutationRow_created_at r) t.

Definition update_pending_mutation (id : Z) (status : MutationStatus) (attempts : Z)
  (next_attempt_at : option Z) : Repo PendingMutation :=
  do t <- now ;;
  let f := set_row_status status attempts next_attempt_at t in
  do rows <- query (fun db => map f (select (mutation_by_id id) (pending_mutations db))) ;;
  execute (fun db =>
    set_pending_mutations (update (mutation_by_id id) f (pending_mutations db)) db) ;;;
  do row <- fetch_one rows ;;
  publish_event (pending_mutation_changed t (Some (PendingMutationRow_account_id row))
    (Some (PendingMutationRow_mailbox_id row)) (Some (PendingMutationRow_id row))
    (lit "update_pending_mutation:" ++ MutationStatus_to_string status)) ;;;
  lift (PendingMutation_try_from row).
