(* ===== verification/Invariant.v ===== *)
(** * The integrity of the database

    [db_ok] is what every repository method may rely on: identifiers are unique
    and were drawn from the table's sequence, the UNIQUE constraints hold, and
    the foreign keys of the message tables point somewhere.  [safe m] says that
    the computation [m] keeps it, whatever its outcome, and never moves a
    sequence back.  The methods are put together in [RepoCall], and every state
    a series of calls reaches is sound. *)

From stdpp Require Import base strings list.
From Stdlib Require Import ZArith Lia Permutation Sorting.Sorted.
From S2P Require Import Prelude RustStr Domain Notifications Schema RepoCore Security RepoAccounts RepoMailboxes RepoMessages RepoQueue.

Local Open Scope Z_scope.

(** ** Tables *)
Definition ids_ok {R} (id : R -> Z) (t : list R) (bound : Z) : Prop :=
  NoDup (map id t) /\ forall r, In r t -> id r <= bound.

Definition keys_ok {R K} (key : R -> option K) (t : list R) : Prop := NoDup (omap key t).

Section Tables.
Context {R : Type}.
Implicit Types (t : list R) (p : R -> bool).

Lemma ids_ok_append (id : R -> Z) t bound r :
  ids_ok id t bound -> id r = bound + 1 -> ids_ok id (t ++ [r]) (bound + 1).
Proof.
  intros [Hnd Hle] Hr. split.
  - rewrite map_app. apply NoDup_app. split_and!; [done| |apply NoDup_singleton].
    intros x Hx Hx2. apply list_elem_of_In, in_map_iff in Hx as (r' & <- & Hr').
    apply list_elem_of_In in Hx2 as [Hx2|[]]. apply Hle in Hr'. lia.
  - intros r' Hr'. apply in_app_iff in Hr' as [Hr'|[<-|[]]]; [|lia].
    apply Hle in Hr'. lia.
Qed.

Lemma ids_ok_mono (id : R -> Z) t b b' : ids_ok id t b -> b <= b' -> ids_ok id t b'.
Proof. intros [Hnd Hle] Hb. split; [done|]. intros r Hr. apply Hle in Hr. lia. Qed.

Lemma ids_ok_update (id : R -> Z) p f t bound :
  (forall r, id (f r) = id r) -> ids_ok id t bound -> ids_ok id (update p f t) bound.
Proof.
  intros Hf [Hnd Hle]. split.
  - by rewrite map_update by (intros; apply Hf).
  - intros r Hr. apply update_In in Hr as (r0 & Hr0 & ->).
    destruct (p r0); rewrite ?Hf; by apply Hle.
Qed.

Lemma map_delete_sublist {B} (g : R -> B) p t :
  sublist (map g (delete_where p t)) (map g t).
Proof.
  unfold delete_where. induction t as [|r t IH]; simpl; [done|].
  destruct (p r); simpl; by constructor.
Qed.

Lemma omap_delete_sublist {B} (g : R -> option B) p t :
  sublist (omap g (delete_where p t)) (omap g t).
Proof.
  unfold delete_where. induction t as [|r t IH]; [done|]. csimpl.
  destruct (p r); csimpl; destruct (g r); first [exact IH | by constructor].
Qed.

Lemma ids_ok_delete (id : R -> Z) p t bound :
  ids_ok id t bound -> ids_ok id (delete_where p t) bound.
Proof.
  intros [Hnd Hle]. split.
  - eapply sublist_NoDup; [exact Hnd|]. apply map_delete_sublist.
  - intros r Hr. apply delete_where_In in Hr as [Hr _]. by apply Hle.
Qed.

Lemma keys_ok_delete {K} (key : R -> option K) p t :
  keys_ok key t -> keys_ok key (delete_where p t).
Proof. intros Hnd. eapply sublist_NoDup; [exact Hnd|]. apply omap_delete_sublist. Qed.

Lemma keys_ok_update {K} (key : R -> option K) p f t :
  (forall r, p r = true -> key (f r) = key r) ->
  keys_ok key t -> keys_ok key (update p f t).
Proof. intros Hf. unfold keys_ok. by rewrite omap_update. Qed.

(** What the UNIQUE check of an insert or update lets through. *)
Lemma unique_by_ok {K} `{EqDecision K} (key : R -> option K) t :
  unique_by key t = true -> keys_ok key t.
Proof. unfold unique_by. apply bool_decide_eq_true. Qed.

(** An insert for whose key the table has no row. *)
Lemma keys_ok_append {K} (key : R -> option K) t r :
  (forall r' k, In r' t -> key r = Some k -> key r' <> Some k) ->
  keys_ok key t -> keys_ok key (t ++ [r]).
Proof.
  intros Hfresh Hnd. unfold keys_ok. rewrite omap_app. apply NoDup_app.
  split_and!; [done| |csimpl; destruct (key r); [apply NoDup_singleton|constructor]].
  intros k Hk Hk2. apply list_elem_of_omap in Hk as (r' & Hr' & Hk).
  csimpl in Hk2. destruct (key r) as [k0|] eqn:E; [|by apply elem_of_nil in Hk2].
  apply list_elem_of_singleton in Hk2 as ->.
  apply list_elem_of_In in Hr'. by destruct (Hfresh r' k0 Hr' eq_refl).
Qed.

(** A row is determined by its id, and by its key. *)
Lemma ids_ok_inj (id : R -> Z) t bound r1 r2 :
  ids_ok id t bound -> In r1 t -> In r2 t -> id r1 = id r2 -> r1 = r2.
Proof.
  intros [Hnd _]. induction t as [|x t IH]; simpl; [done|].
  apply NoDup_cons in Hnd as [Hx Hnd]. intros [->|H1] [->|H2] E; [done| | |by apply IH].
  - destruct Hx. rewrite E. apply list_elem_of_In, in_map_iff. eauto.
  - destruct Hx. rewrite <- E. apply list_elem_of_In, in_map_iff. eauto.
Qed.

Lemma keys_ok_inj {K} (key : R -> option K) t r1 r2 k :
  keys_ok key t -> In r1 t -> In r2 t -> key r1 = Some k -> key r2 = Some k -> r1 = r2.
Proof.
  unfold keys_ok. induction t as [|x t IH]; simpl; [done|]. csimpl. intros Hnd H1 H2 E1 E2.
  assert (Hin : forall r, In r t -> key r = Some k -> k ∈ omap key t).
  { intros r Hr Er. apply list_elem_of_omap. exists r. by rewrite list_elem_of_In. }
  destruct H1 as [->|H1], H2 as [->|H2]; [done| | |].
  - rewrite E1 in Hnd. apply NoDup_cons in Hnd as [Hx _]. destruct Hx. by apply (Hin r2).
  - rewrite E2 in Hnd. apply NoDup_cons in Hnd as [Hx _]. destruct Hx. by apply (Hin r1).
  - apply IH; [|done..]. destruct (key x); [by apply NoDup_cons in Hnd as [_ ?]|done].
Qed.
End Tables.

Create HintDb tables.
#[export] Hint Resolve ids_ok_append ids_ok_mono ids_ok_update ids_ok_delete keys_ok_delete
  keys_ok_update unique_by_ok : tables.

(** ** The invariant *)
Record db_ok (db : Database) (seq : Table -> Z) : Prop := mk_db_ok {
  ok_mailboxes : ids_ok MailboxRow_id (mailboxes db) (seq T_mailboxes) /\
                 keys_ok key_mailbox_name (mailboxes db);
  ok_messages : ids_ok MessageRow_id (messages db) (seq T_messages);
  ok_mailbox_messages :
    ids_ok MailboxMessageRow_id (mailbox_messages db) (seq T_mailbox_messages) /\
    keys_ok key_local_uid (mailbox_messages db) /\
    keys_ok key_upstream_uid (mailbox_messages db);
  ok_uid_mappings : keys_ok key_map_local (uid_mappings db) /\
                    keys_ok key_map_upstream (uid_mappings db);
  ok_sync_state : keys_ok key_sync_state (sync_state db);
  ok_pending : ids_ok PendingMutationRow_id (pending_mutations db) (seq T_pending_mutations) /\
               keys_ok key_idempotency (pending_mutations db);
  ok_cache : ids_ok CacheObjectRow_id (cache_objects db) (seq T_cache_objects) /\
             keys_ok key_cache_object (cache_objects db);
  ok_fk_rows : forall r, In r (mailbox_messages db) ->
    has_mailbox db (MailboxMessageRow_mailbox_id r) = true /\
    has_message db (MailboxMessageRow_message_id r) = true;
  ok_fk_parts : forall r, In r (mime_parts db) ->
    has_message db (MimePartRow_message_id r) = true;
  ok_fk_maps : forall r, In r (uid_mappings db) ->
    has_mailbox db (UidMapping_mailbox_id r) = true
}.

Definition repo_inv (s0 : Table -> Z) (w : World) : Prop :=
  db_ok (w_db w) (w_seq w) /\ forall t, s0 t <= w_seq w t.

Definition safe {A} (m : Repo A) : Prop := forall s0, preserves (repo_inv s0) m.

(** ** Foreign keys *)
Lemma has_mailbox_iff db id :
  has_mailbox db id = true <-> exists r, In r (mailboxes db) /\ MailboxRow_id r = id.
Proof.
  unfold has_mailbox. rewrite existsb_exists.
  split; intros (r & Hr & E); exists r; (split; [done|]); by apply Z.eqb_eq.
Qed.

Lemma has_message_iff db id :
  has_message db id = true <-> exists r, In r (messages db) /\ MessageRow_id r = id.
Proof.
  unfold has_message. rewrite existsb_exists.
  split; intros (r & Hr & E); exists r; (split; [done|]); by apply Z.eqb_eq.
Qed.

Lemma has_mailbox_update p f db id :
  (forall r, MailboxRow_id (f r) = MailboxRow_id r) ->
  has_mailbox db id = true ->
  has_mailbox (set_mailboxes (update p f (mailboxes db)) db) id = true.
Proof.
  intros Hf. rewrite !has_mailbox_iff. intros (r & Hr & <-).
  exists (if p r then f r else r). split; [apply update_In; eauto|]. destruct (p r); [apply Hf|done].
Qed.

Lemma has_mailbox_append row db id :
  has_mailbox db id = true -> has_mailbox (set_mailboxes (mailboxes db ++ [row]) db) id = true.
Proof.
  rewrite !has_mailbox_iff. intros (r & Hr & <-). exists r. simpl. rewrite in_app_iff. auto.
Qed.

Lemma has_message_append row db id :
  has_message db id = true -> has_message (set_messages (messages db ++ [row]) db) id = true.
Proof.
  rewrite !has_message_iff. intros (r & Hr & <-). exists r. simpl. rewrite in_app_iff. auto.
Qed.

(** ** One table replaced *)
Lemma db_ok_seq db seq seq' : db_ok db seq -> (forall t, seq t <= seq' t) -> db_ok db seq'.
Proof.
  intros Hok Hle. destruct Hok as [[] ? [? []] ? ? [] [] ? ? ?].
  constructor; eauto using ids_ok_mono.
Qed.

Lemma db_ok_set_mailboxes t db seq seq' :
  db_ok db seq -> (forall t, seq t <= seq' t) ->
  ids_ok MailboxRow_id t (seq' T_mailboxes) -> keys_ok key_mailbox_name t ->
  (forall id, has_mailbox db id = true -> has_mailbox (set_mailboxes t db) id = true) ->
  db_ok (set_mailboxes t db) seq'.
Proof.
  intros Hok Hle Hi Hk Hfk. apply (db_ok_seq _ _ seq') in Hok; [|done].
  destruct Hok as [[] ? [? []] ? ? [] [] Hr ? Hm]. constructor; try done.
  - intros r Hin. destruct (Hr r Hin). split; [by apply Hfk|done].
  - intros r Hin. by apply Hfk, Hm.
Qed.

Lemma db_ok_set_messages_append row db seq seq' :
  db_ok db seq -> (forall t, seq t <= seq' t) ->
  ids_ok MessageRow_id (messages db ++ [row]) (seq' T_messages) ->
  db_ok (set_messages (messages db ++ [row]) db) seq'.
Proof.
  intros Hok Hle Hi. apply (db_ok_seq _ _ seq') in Hok; [|done].
  destruct Hok as [[] ? [? []] ? ? [] [] Hr Hp ?]. constructor; try done.
  - intros r Hin. destruct (Hr r Hin). split; [done|by apply has_message_append].
  - intros r Hin. by apply has_message_append, Hp.
Qed.

Lemma db_ok_set_rows t db seq seq' :
  db_ok db seq -> (forall t, seq t <= seq' t) ->
  ids_ok MailboxMessageRow_id t (seq' T_mailbox_messages) ->
  keys_ok key_local_uid t -> keys_ok key_upstream_uid t ->
  (forall r, In r t -> has_mailbox db (MailboxMessageRow_mailbox_id r) = true /\
                       has_message db (MailboxMessageRow_message_id r) = true) ->
  db_ok (set_mailbox_messages t db) seq'.
Proof.
  intros Hok Hle Hi Hk1 Hk2 Hfk. apply (db_ok_seq _ _ seq') in Hok; [|done].
  destruct Hok as [[] ? [? []] ? ? [] [] ? ? ?]. constructor; done.
Qed.

Lemma db_ok_set_parts t db seq :
  db_ok db seq -> (forall r, In r t -> has_message db (MimePartRow_message_id r) = true) ->
  db_ok (set_mime_parts t db) seq.
Proof. intros Hok Hfk. destruct Hok. constructor; done. Qed.

Lemma db_ok_set_maps t db seq :
  db_ok db seq -> keys_ok key_map_local t -> keys_ok key_map_upstream t ->
  (forall r, In r t -> has_mailbox db (UidMapping_mailbox_id r) = true) ->
  db_ok (set_uid_mappings t db) seq.
Proof. intros Hok ???. destruct Hok. constructor; done. Qed.

Lemma db_ok_set_sync t db seq :
  db_ok db seq -> keys_ok key_sync_state t -> db_ok (set_sync_state t db) seq.
Proof. intros Hok ?. destruct Hok. constructor; done. Qed.

Lemma db_ok_set_pending t db seq seq' :
  db_ok db seq -> (forall t, seq t <= seq' t) ->
  ids_ok PendingMutationRow_id t (seq' T_pending_mutations) -> keys_ok key_idempotency t ->
  db_ok (set_pending_mutations t db) seq'.
Proof.
  intros Hok Hle ??. apply (db_ok_seq _ _ seq') in Hok; [|done]. destruct Hok. constructor; done.
Qed.

Lemma db_ok_set_cache t db seq seq' :
  db_ok db seq -> (forall t, seq t <= seq' t) ->
  ids_ok CacheObjectRow_id t (seq' T_cache_objects) -> keys_ok key_cache_object t ->
  db_ok (set_cache_objects t db) seq'.
Proof.
  intros Hok Hle ??. apply (db_ok_seq _ _ seq') in Hok; [|done]. destruct Hok. constructor; done.
Qed.

(** The tables [db_ok] does not speak of. *)
Lemma db_ok_untouched db db' seq seq' :
  db_ok db seq -> (forall t, seq t <= seq' t) ->
  mailboxes db' = mailboxes db -> messages db' = messages db ->
  mailbox_messages db' = mailbox_messages db -> mime_parts db' = mime_parts db ->
  uid_mappings db' = uid_mappings db -> sync_state db' = sync_state db ->
  pending_mutations db' = pending_mutations db -> cache_objects db' = cache_objects db ->
  db_ok db' seq'.
Proof.
  intros Hok Hle H1 H2 H3 H4 H5 H6 H7 H8. apply (db_ok_seq _ _ seq') in Hok; [|done].
  destruct Hok as [[] ? [? []] ? ? [] [] Hr Hp Hm].
  constructor; rewrite ?H1, ?H2, ?H3, ?H4, ?H5, ?H6, ?H7, ?H8; try done;
    intros r Hin; unfold has_mailbox, has_message; rewrite ?H1, ?H2.
  - by apply Hr.
  - by apply Hp.
  - by apply Hm.
Qed.

Lemma bump_seq_le t seq : forall t', seq t' <= bump_seq t seq t'.
Proof. intros t'. unfold bump_seq. case_decide; subst; lia. Qed.

Lemma bump_seq_eq t seq : bump_seq t seq t = seq t + 1.
Proof. unfold bump_seq. by rewrite decide_True. Qed.

(** ** Safe computations *)
Section Safe.
Context {A B : Type}.

Lemma safe_ret (a : A) : safe (ret a).
Proof. intros s0. apply preserves_ret. Qed.
Lemma safe_fail e : safe (fail (A := A) e).
Proof. intros s0. apply preserves_fail. Qed.
Lemma safe_lift (r : Result A) : safe (lift r).
Proof. intros s0. apply preserves_lift. Qed.
Lemma safe_query (f : Database -> A) : safe (query f).
Proof. intros s0. apply preserves_gets. Qed.
Lemma safe_bind (m : Repo A) (k : A -> Repo B) :
  safe m -> (forall a, safe (k a)) -> safe (bind m k).
Proof. intros Hm Hk s0. apply preserves_bind; [apply Hm|]. intros a. apply Hk. Qed.
Lemma safe_for_each (xs : list A) (m : A -> Repo unit) :
  (forall x, safe (m x)) -> safe (for_each xs m).
Proof. intros Hm s0. apply preserves_for_each. intros x. apply Hm. Qed.
Lemma safe_ignore (m : Repo A) : safe m -> safe (ignore m).
Proof. intros Hm s0. apply preserves_ignore, Hm. Qed.

(** A rollback restores the tables; the sequences have only grown. *)
Lemma safe_transaction (m : Repo A) : safe m -> safe (transaction m).
Proof.
  intros Hm s0 w [Hok Hle]. unfold transaction.
  destruct (Hm (w_seq w) w) as [Hok' Hle']; [by split|].
  destruct (m w) as [w' [a|e|]]; simpl in *; (split; [|intros t; specialize (Hle t);
    specialize (Hle' t); simpl; lia]); [done| |]; by apply db_ok_seq with (w_seq w).
Qed.
End Safe.

Lemma safe_now : safe now.
Proof. intros s0. apply preserves_gets. Qed.
Lemma safe_require b e : safe (require b e).
Proof. unfold require. destruct b; [apply safe_ret|apply safe_fail]. Qed.
Lemma safe_fetch_one {R} (rows : list R) : safe (fetch_one rows).
Proof. destruct rows; [apply safe_fail|apply safe_ret]. Qed.
Lemma safe_bigint z : safe (bigint z).
Proof. unfold bigint. destruct (in_i64 z); [apply safe_ret|apply safe_fail]. Qed.
Lemma safe_nextval t : safe (nextval t).
Proof.
  intros s0 w [Hok Hle]. split; simpl.
  - apply db_ok_seq with (w_seq w); [done|apply bump_seq_le].
  - intros t'. specialize (Hle t'). pose proof (bump_seq_le t (w_seq w) t'). lia.
Qed.
Lemma safe_publish_event event : safe (publish_event event).
Proof. intros s0 w Hw. unfold publish_event, modify. simpl. by destruct (w_sink w). Qed.
Lemma safe_execute f :
  (forall db seq, db_ok db seq -> db_ok (f db) seq) -> safe (execute f).
Proof. intros Hf s0 w [Hok Hle]. split; [by apply Hf|done]. Qed.
Lemma safe_if {A} (b : bool) (m1 m2 : Repo A) : safe m1 -> safe m2 -> safe (if b then m1 else m2).
Proof. by destruct b. Qed.

(** A statement that draws an identifier and uses it at once. *)
Lemma safe_insert {A} t (k : Z -> Repo A) :
  (forall w, db_ok (w_db w) (w_seq w) ->
     let w1 := mkWorld (w_db w) (bump_seq t (w_seq w)) (w_now w) (w_sink w) (w_events w) in
     let w' := fst (k (w_seq w t + 1) w1) in
     db_ok (w_db w') (w_seq w') /\ forall t', w_seq w t' <= w_seq w' t') ->
  safe (bind (nextval t) k).
Proof.
  intros Hk s0 w [Hok Hle]. destruct (Hk w Hok) as [Hok' Hle'].
  unfold bind, nextval. simpl. split; [done|].
  intros t'. specialize (Hle t'). specialize (Hle' t'). simpl in *. lia.
Qed.

#[export] Hint Resolve safe_ret safe_fail safe_lift safe_query safe_for_each safe_ignore
  safe_transaction safe_now safe_require safe_fetch_one safe_bigint safe_nextval
  safe_publish_event safe_if : repo.

(** Walk through a computation whose statements are all known to be safe. *)
Ltac safe_steps :=
  repeat first
    [ solve [eauto 3 with repo]
    | apply safe_transaction
    | apply safe_bind; [|intros ?]
    | apply safe_for_each; intros ?
    | match goal with
      | |- safe (match ?x with _ => _ end) => destruct x
      | |- safe (let _ := ?x in _) => cbv zeta
      end ].

(** Execute a statement that uses the identifier it drew, down to its cases. *)
Ltac run_simpl :=
  cbn -[select update delete_where unique_by has_mailbox has_message has_account fk_opt in_i64
        lit fmt_i].
Ltac run_cases :=
  run_simpl;
  repeat
    (match goal with
     | |- context [match ?x with _ => _ end] =>
         lazymatch x with
         | context [match _ with _ => _ end] => fail
         | _ => destruct x eqn:?
         end
     end; run_simpl).
Ltac run_insert :=
  apply safe_insert; intros w Hok;
  unfold bind, now, query, gets, require, execute, modify, publish_event, ret, fail, lift, set_db;
  run_cases;
  (split; [|apply bump_seq_le]);
  try (by eapply db_ok_seq; [exact Hok|apply bump_seq_le]).

(** ** Lookups on a sound database *)
Lemma select_by_id {R} (id : R -> Z) t bound r :
  ids_ok id t bound -> In r t -> select (fun x => id x =? id r) t = [r].
Proof.
  intros [Hnd _]. unfold select. induction t as [|x t IH]; simpl in *; [done|].
  apply NoDup_cons in Hnd as [Hx Hnd]. intros [->|Hr].
  - rewrite Z.eqb_refl. f_equal. destruct (List.filter _ t) as [|y l] eqn:E; [done|]. exfalso.
    assert (Hy : In y (List.filter (fun x => id x =? id r) t)) by (rewrite E; by left).
    apply filter_In in Hy as [Hy He]. apply Z.eqb_eq in He. apply Hx. rewrite <- He.
    apply list_elem_of_In, in_map_iff. eauto.
  - destruct (Z.eqb_spec (id x) (id r)) as [E|_]; [|by apply IH].
    destruct Hx. rewrite E. apply list_elem_of_In, in_map_iff. eauto.
Qed.

(** A condition that fixes a unique key selects one row. *)
Lemma select_by_key {R K} (key : R -> option K) (p : R -> bool) t r k :
  keys_ok key t -> In r t -> key r = Some k -> p r = true ->
  (forall x, p x = true -> key x = Some k) -> select p t = [r].
Proof.
  intros Hk Hr Ek Hp Hpk. unfold keys_ok, select in *.
  assert (Hnone : forall t', k ∉ omap key t' -> List.filter p t' = []).
  { intros t' Hn. destruct (List.filter p t') as [|y l] eqn:E; [done|]. exfalso.
    assert (Hy : In y (List.filter p t')) by (rewrite E; by left).
    apply filter_In in Hy as [Hy He]. apply Hn, list_elem_of_omap. exists y.
    rewrite list_elem_of_In. split; [done|by apply Hpk]. }
  induction t as [|x t IH]; simpl in *; [done|]. csimpl in Hk. destruct Hr as [->|Hr].
  - rewrite Hp. f_equal. rewrite Ek in Hk. apply NoDup_cons in Hk as [Hn _]. by apply Hnone.
  - destruct (p x) eqn:Ex.
    + rewrite (Hpk x Ex) in Hk. apply NoDup_cons in Hk as [Hn _]. exfalso.
      apply Hn, list_elem_of_omap. exists r. by rewrite list_elem_of_In.
    + apply IH; [|done]. destruct (key x); [by apply NoDup_cons in Hk as [_ ?]|done].
Qed.

Lemma select_mailbox db seq r :
  db_ok db seq -> In r (mailboxes db) ->
  select (mailbox_by_id (MailboxRow_id r)) (mailboxes db) = [r].
Proof. intros Hok. destruct (ok_mailboxes _ _ Hok) as [Hi _]. by eapply select_by_id. Qed.

Lemma live_uid_key mb uid r : live_uid mb uid r = true -> key_local_uid r = Some (mb, uid).
Proof. unfold live_uid, live_in, key_local_uid. intros E. b2p. by subst. Qed.

Lemma select_live_uid db seq mb uid r :
  db_ok db seq -> In r (mailbox_messages db) -> live_uid mb uid r = true ->
  select (live_uid mb uid) (mailbox_messages db) = [r].
Proof.
  intros Hok Hr Hl. destruct (ok_mailbox_messages _ _ Hok) as (_ & Hk & _).
  eapply select_by_key; [exact Hk|done|by apply live_uid_key|done|]. intros x. apply live_uid_key.
Qed.
