(* ===== verification/Integrity.v ===== *)
(** * Every repository method keeps the database sound

    One lemma [safe_<method>] per method of the repository, and [RepoCall],
    the calls a client can make, whose reachable states all satisfy [db_ok]. *)

From stdpp Require Import base strings list relations.
From Stdlib Require Import ZArith Lia Permutation Sorting.Sorted.
From S2P Require Import Prelude RustStr Domain Notifications Schema RepoCore Security RepoAccounts RepoMailboxes RepoMessages RepoQueue Invariant.

Local Open Scope Z_scope.

(** ** Mailboxes *)

(** An update of mailbox rows that keeps ids and names. *)
Lemma safe_update_mailboxes p f :
  (forall r, MailboxRow_id (f r) = MailboxRow_id r) ->
  (forall r, p r = true -> key_mailbox_name (f r) = key_mailbox_name r) ->
  safe (execute (fun db => set_mailboxes (update p f (mailboxes db)) db)).
Proof.
  intros Hid Hkey. apply safe_execute. intros db seq Hok.
  destruct (ok_mailboxes _ _ Hok) as [Hi Hk].
  apply db_ok_set_mailboxes with seq; eauto with tables; [lia|].
  intros id. by apply has_mailbox_update.
Qed.

Lemma safe_account_id_for_mailbox id : safe (account_id_for_mailbox id).
Proof. apply safe_query. Qed.
Lemma safe_assign_mailbox_modseq id requested : safe (assign_mailbox_modseq id requested).
Proof. unfold assign_mailbox_modseq. safe_steps. by apply safe_update_mailboxes. Qed.
Lemma safe_select_next_uid id : safe (select_next_uid id).
Proof. unfold select_next_uid. safe_steps. Qed.
Lemma safe_assign_mailbox_local_uid id : safe (assign_mailbox_local_uid id).
Proof. unfold assign_mailbox_local_uid. safe_steps. Qed.
Lemma safe_sequence_number id uid : safe (mailbox_sequence_number_in_tx id uid).
Proof. unfold mailbox_sequence_number_in_tx. safe_steps. Qed.
Lemma safe_find_mailbox a n : safe (find_mailbox a n).
Proof. apply safe_query. Qed.
#[export] Hint Resolve safe_account_id_for_mailbox safe_assign_mailbox_modseq
  safe_select_next_uid safe_assign_mailbox_local_uid safe_sequence_number safe_find_mailbox : repo.

Lemma conflict_key input r :
  mailbox_conflict input r = true <->
  key_mailbox_name r = Some (NewMailbox_account_id input, NewMailbox_canonical_name input).
Proof.
  unfold mailbox_conflict, key_mailbox_name. rewrite andb_true_iff, Z.eqb_eq, str_eqb_eq.
  split; [by intros [-> ->]|by intros [= -> ->]].
Qed.

(** Inserting a mailbox for which there is no conflict. *)
Lemma db_ok_insert_mailbox input t db seq :
  db_ok db seq -> select (mailbox_conflict input) (mailboxes db) = [] ->
  db_ok (set_mailboxes (mailboxes db ++ [mailbox_row (seq T_mailboxes + 1) t input]) db)
    (bump_seq T_mailboxes seq).
Proof.
  intros Hok Hnone. destruct (ok_mailboxes _ _ Hok) as [Hi Hk].
  apply db_ok_set_mailboxes with seq; [done|apply bump_seq_le| | |].
  - rewrite bump_seq_eq. by apply ids_ok_append.
  - apply keys_ok_append; [|done]. intros r k Hr [= <-] Hc.
    assert (Hin : In r (select (mailbox_conflict input) (mailboxes db)))
      by (apply select_In; split; [done|by apply conflict_key]).
    by rewrite Hnone in Hin.
  - intros id. apply has_mailbox_append.
Qed.

Lemma db_ok_overwrite_mailbox input t db seq :
  db_ok db seq ->
  db_ok (set_mailboxes (update (mailbox_conflict input) (overwrite_mailbox t input)
           (mailboxes db)) db) seq.
Proof.
  intros Hok. destruct (ok_mailboxes _ _ Hok) as [Hi Hk].
  apply db_ok_set_mailboxes with seq; [done|lia| | |].
  - by apply ids_ok_update.
  - apply keys_ok_update; [|done]. intros r Hr. by apply conflict_key in Hr.
  - intros id. by apply has_mailbox_update.
Qed.

Lemma safe_upsert_mailbox input : safe (upsert_mailbox input).
Proof.
  unfold upsert_mailbox, insert_mailbox.
  run_insert; try (by apply db_ok_insert_mailbox).
  all: apply db_ok_overwrite_mailbox; eapply db_ok_seq; [exact Hok|apply bump_seq_le].
Qed.

Lemma safe_create_mailbox input : safe (create_mailbox input).
Proof.
  unfold create_mailbox, insert_mailbox. run_insert; by apply db_ok_insert_mailbox.
Qed.

Lemma safe_rename_mailbox a n n' : safe (rename_mailbox a n n').
Proof.
  unfold rename_mailbox. apply safe_bind; [apply safe_find_mailbox|]. intros taken.
  destruct (is_some taken); [apply safe_ret|]. apply safe_bind; [apply safe_now|]. intros t.
  intros s0 w [Hok Hle].
  unfold bind, query, gets, require, execute, modify, fail, ret, publish_event, set_db.
  run_cases; (split; [|done]); try done.
  all: destruct (ok_mailboxes _ _ Hok) as [Hi Hk]; apply db_ok_set_mailboxes with (w_seq w);
    [done|done|by apply ids_ok_update|by apply unique_by_ok|].
  all: intros id; by apply has_mailbox_update.
Qed.

Lemma safe_set_mailbox_subscribed a n b : safe (set_mailbox_subscribed a n b).
Proof. unfold set_mailbox_subscribed. safe_steps. by apply safe_update_mailboxes. Qed.

Lemma safe_refresh_mailbox_counts id : safe (refresh_mailbox_counts id).
Proof.
  unfold refresh_mailbox_counts. safe_steps. apply safe_execute. intros db seq Hok.
  destruct (ok_mailboxes _ _ Hok) as [Hi Hk]. apply db_ok_set_mailboxes with seq; [done|lia| | |].
  - by apply ids_ok_update.
  - by apply keys_ok_update.
  - intros id'. by apply has_mailbox_update.
Qed.

(** A foreign key survives a delete that also deletes the referring rows. *)
Lemma has_mailbox_delete gone db id :
  has_mailbox db id = true ->
  existsb (fun r => MailboxRow_id r =? id) (select gone (mailboxes db)) = false ->
  has_mailbox (delete_mailboxes gone db) id = true.
Proof.
  rewrite !has_mailbox_iff. intros (r & Hr & <-) Hd. exists r. split; [|done].
  simpl. apply delete_where_In. split; [done|].
  destruct (gone r) eqn:E; [|done]. exfalso. rewrite <- not_true_iff_false in Hd. apply Hd.
  apply existsb_exists. exists r. split; [by apply select_In|apply Z.eqb_refl].
Qed.

Lemma has_message_delete gone db id :
  has_message db id = true ->
  existsb (fun r => MessageRow_id r =? id) (select gone (messages db)) = false ->
  has_message (delete_messages gone db) id = true.
Proof.
  rewrite !has_message_iff. intros (r & Hr & <-) Hd. exists r. split; [|done].
  simpl. apply delete_where_In. split; [done|].
  destruct (gone r) eqn:E; [|done]. exfalso. rewrite <- not_true_iff_false in Hd. apply Hd.
  apply existsb_exists. exists r. split; [by apply select_In|apply Z.eqb_refl].
Qed.

Lemma db_ok_delete_mailboxes gone db seq : db_ok db seq -> db_ok (delete_mailboxes gone db) seq.
Proof.
  intros [[] ? [? []] [] ? [] [] Hr Hp Hm].
  constructor; simpl; eauto 6 with tables.
  - intros r Hin. apply delete_where_In in Hin as [Hin Hd]. destruct (Hr r Hin) as [H1' H2'].
    split; [by apply has_mailbox_delete|exact H2'].
  - intros r Hin. apply delete_where_In in Hin as [Hin Hd].
    apply has_mailbox_delete; [by apply Hm|done].
Qed.

Lemma db_ok_delete_messages gone db seq : db_ok db seq -> db_ok (delete_messages gone db) seq.
Proof.
  intros [[] ? [? []] [] ? [] [] Hr Hp Hm].
  constructor; simpl; eauto 6 with tables.
  - intros r Hin. apply delete_where_In in Hin as [Hin Hd]. destruct (Hr r Hin) as [H1' H2'].
    split; [exact H1'|by apply has_message_delete].
  - intros r Hin. apply delete_where_In in Hin as [Hin Hd].
    apply has_message_delete; [by apply Hp|done].
Qed.

Lemma safe_delete_mailbox a n : safe (delete_mailbox a n).
Proof.
  unfold delete_mailbox. safe_steps. apply safe_execute. intros db seq.
  apply db_ok_delete_mailboxes.
Qed.

Lemma db_ok_delete_account id db seq : db_ok db seq -> db_ok (delete_account id db) seq.
Proof.
  intros Hok.
  apply (db_ok_delete_mailboxes (fun r => MailboxRow_account_id r =? id)) in Hok.
  apply (db_ok_delete_messages (fun r => MessageRow_account_id r =? id)) in Hok.
  unfold delete_account. cbv zeta.
  set (db' := delete_messages _ _) in *. clearbody db'.
  destruct Hok as [[] ? [? []] [] ? [] [] Hr Hp Hm].
  constructor; simpl; eauto 6 with tables.
Qed.

(** ** Messages *)
Lemma safe_upsert_message input : safe (upsert_message input).
Proof.
  unfold upsert_message. run_insert.
  all: apply db_ok_set_messages_append with (w_seq w); [done|apply bump_seq_le|];
    rewrite bump_seq_eq; apply ids_ok_append; [by apply ok_messages|done].
Qed.

Lemma safe_insert_mime_part input : safe (insert_mime_part input).
Proof.
  unfold insert_mime_part. run_insert.
  apply db_ok_set_parts; [by eapply db_ok_seq; [exact Hok|apply bump_seq_le]|].
  intros r Hin. apply in_app_iff in Hin as [Hin|[<-|[]]]; [by apply (ok_fk_parts _ _ Hok)|done].
Qed.

Lemma safe_delete_mime_parts id : safe (delete_mime_parts_for_message id).
Proof.
  unfold delete_mime_parts_for_message. safe_steps. apply safe_execute. intros db seq Hok.
  apply db_ok_set_parts; [done|]. intros r Hin. apply delete_where_In in Hin as [Hin _].
  by apply (ok_fk_parts _ _ Hok).
Qed.

(** ** UID mappings *)
Lemma db_ok_map_update mb uid up uv db seq :
  let p r := (UidMapping_mailbox_id r =? mb) && (UidMapping_local_uid r =? uid) in
  let f r := mkUidMapping (UidMapping_id r) (UidMapping_mailbox_id r) (UidMapping_local_uid r)
               up uv (UidMapping_created_at r) in
  db_ok db seq -> keys_ok key_map_upstream (update p f (uid_mappings db)) ->
  db_ok (set_uid_mappings (update p f (uid_mappings db)) db) seq.
Proof.
  intros p f Hok Hk. destruct (ok_uid_mappings _ _ Hok) as [H1 _].
  apply db_ok_set_maps; [done|by apply keys_ok_update|done|].
  intros r Hin. apply update_In in Hin as (r0 & Hin & ->). apply (ok_fk_maps _ _ Hok) in Hin.
  by destruct (p r0).
Qed.

Lemma db_ok_map_insert row db seq :
  db_ok db seq ->
  select (fun r => (UidMapping_mailbox_id r =? UidMapping_mailbox_id row) &&
                   (UidMapping_local_uid r =? UidMapping_local_uid row)) (uid_mappings db) = [] ->
  keys_ok key_map_upstream (uid_mappings db ++ [row]) ->
  has_mailbox db (UidMapping_mailbox_id row) = true ->
  db_ok (set_uid_mappings (uid_mappings db ++ [row]) db) seq.
Proof.
  intros Hok Hnone Hk Hfk. destruct (ok_uid_mappings _ _ Hok) as [H1 _].
  apply db_ok_set_maps; [done| |done|].
  - apply keys_ok_append; [|done]. intros r k Hr [= <-] [= E1 E2].
    assert (Hin : In r []) by (rewrite <- Hnone; apply select_In; split; [done|];
      by rewrite E1, E2, !Z.eqb_refl). done.
  - intros r Hin. apply in_app_iff in Hin as [Hin|[<-|[]]]; [by apply (ok_fk_maps _ _ Hok)|done].
Qed.

Lemma safe_upsert_uid_mapping mb uid up uv : safe (upsert_uid_mapping mb uid up uv).
Proof.
  unfold upsert_uid_mapping. run_insert.
  all: assert (Hok' : db_ok (w_db w) (bump_seq T_uid_mappings (w_seq w)))
    by (by eapply db_ok_seq; [exact Hok|apply bump_seq_le]).
  - apply db_ok_map_insert; [done|done|by apply unique_by_ok|done].
  - apply db_ok_map_update; [done|by apply unique_by_ok].
Qed.
#[export] Hint Resolve safe_upsert_uid_mapping : repo.

(** ** Mailbox rows *)
Lemma has_uid_key mb uid r :
  has_uid mb uid r = true <-> key_local_uid r = Some (mb, uid).
Proof.
  unfold has_uid, key_local_uid. rewrite andb_true_iff, !Z.eqb_eq.
  split; [by intros [-> ->]|by intros [= -> ->]].
Qed.

Lemma db_ok_row_insert row db seq :
  db_ok db seq -> MailboxMessageRow_id row = seq T_mailbox_messages + 1 ->
  keys_ok key_local_uid (mailbox_messages db ++ [row]) ->
  keys_ok key_upstream_uid (mailbox_messages db ++ [row]) ->
  has_mailbox db (MailboxMessageRow_mailbox_id row) = true ->
  has_message db (MailboxMessageRow_message_id row) = true ->
  db_ok (set_mailbox_messages (mailbox_messages db ++ [row]) db)
    (bump_seq T_mailbox_messages seq).
Proof.
  intros Hok Hid Hk1 Hk2 Hf1 Hf2. destruct (ok_mailbox_messages _ _ Hok) as [Hi _].
  apply db_ok_set_rows with seq; [done|apply bump_seq_le| |done|done|].
  - rewrite bump_seq_eq. by apply ids_ok_append.
  - intros r Hin. apply in_app_iff in Hin as [Hin|[<-|[]]]; [by apply (ok_fk_rows _ _ Hok)|done].
Qed.

Lemma keys_local_append row db seq :
  db_ok db seq ->
  select (has_uid (MailboxMessageRow_mailbox_id row) (MailboxMessageRow_local_uid row))
    (mailbox_messages db) = [] ->
  keys_ok key_local_uid (mailbox_messages db ++ [row]).
Proof.
  intros Hok Hnone. destruct (ok_mailbox_messages _ _ Hok) as (_ & Hk & _).
  apply keys_ok_append; [|done]. intros r k Hr [= <-] Hc.
  assert (Hin : In r []) by (rewrite <- Hnone; apply select_In; split; [done|by apply has_uid_key]).
  done.
Qed.

(** Rows rewritten in place: the id, mailbox and local UID stay. *)
Lemma db_ok_row_update p f db seq :
  (forall r, MailboxMessageRow_id (f r) = MailboxMessageRow_id r) ->
  (forall r, MailboxMessageRow_mailbox_id (f r) = MailboxMessageRow_mailbox_id r) ->
  (forall r, MailboxMessageRow_local_uid (f r) = MailboxMessageRow_local_uid r) ->
  (forall r, In r (mailbox_messages db) -> p r = true ->
             has_message db (MailboxMessageRow_message_id (f r)) = true) ->
  keys_ok key_upstream_uid (update p f (mailbox_messages db)) ->
  db_ok db seq -> db_ok (set_mailbox_messages (update p f (mailbox_messages db)) db) seq.
Proof.
  intros H1 H2 H3 H4 Hk Hok. destruct (ok_mailbox_messages _ _ Hok) as (Hi & Hl & _).
  apply db_ok_set_rows with seq; [done|done|by apply ids_ok_update| |done|].
  - apply keys_ok_update; [|done]. intros r _. unfold key_local_uid. by rewrite H2, H3.
  - intros r Hin. apply update_In in Hin as (r0 & Hin & ->).
    destruct (ok_fk_rows _ _ Hok r0 Hin) as [Hf1 Hf2].
    destruct (p r0) eqn:E; [|done]. rewrite H2. split; [done|by apply H4].
Qed.

Lemma safe_upsert_row uid modseq input : safe (upsert_mailbox_message_row uid modseq input).
Proof.
  unfold upsert_mailbox_message_row. run_insert.
  - apply db_ok_row_insert; [done|done| |by apply unique_by_ok|done|done].
    by eapply keys_local_append.
  - apply db_ok_row_update; [done|done|done|done|by apply unique_by_ok|].
    by eapply db_ok_seq; [exact Hok|apply bump_seq_le].
Qed.
#[export] Hint Resolve safe_upsert_row : repo.

Lemma safe_mailbox_uidvalidity id : safe (mailbox_uidvalidity id).
Proof. apply safe_query. Qed.
#[export] Hint Resolve safe_mailbox_uidvalidity : repo.

Lemma safe_upsert_mailbox_message input : safe (upsert_mailbox_message input).
Proof. unfold upsert_mailbox_message. safe_steps. Qed.

(** [UPDATE] or [INSERT] of mailbox rows checked against a UNIQUE constraint. *)
Lemma safe_checked_write {A K} `{EqDecision K} (g : Database -> Database)
  (key : MailboxMessageRow -> option K) e (rest : Database -> Repo A) :
  (forall db seq, db_ok db seq -> keys_ok key (mailbox_messages (g db)) -> db_ok (g db) seq) ->
  (forall db, safe (rest db)) ->
  safe (do db <- query g ;;
        require (unique_by key (mailbox_messages db)) e ;;;
        execute (fun _ => db) ;;;
        rest db).
Proof.
  intros Hg Hrest s0 w [Hok Hle]. erewrite bind_Ok by reflexivity. unfold require.
  destruct (unique_by key (mailbox_messages (g (w_db w)))) eqn:E; [|done].
  do 2 (erewrite bind_Ok by reflexivity). apply Hrest. split; [|done].
  apply Hg; [done|by apply unique_by_ok].
Qed.

Lemma safe_set_upstream_uid mb uid up : safe (set_mailbox_message_upstream_uid mb uid up).
Proof.
  unfold set_mailbox_message_upstream_uid. apply safe_bind; [apply safe_now|]. intros t.
  cbv zeta. apply safe_bind; [apply safe_query|]. intros rows.
  apply (safe_checked_write (fun db => set_mailbox_messages _ db) key_upstream_uid).
  - intros db seq Hok Hk. apply db_ok_row_update; try done.
    intros r Hin _. by destruct (ok_fk_rows _ _ Hok r Hin).
  - intros _. safe_steps.
Qed.

Lemma safe_update_flags mb uid flags : safe (update_mailbox_message_flags mb uid flags).
Proof.
  unfold update_mailbox_message_flags. safe_steps. apply safe_execute. intros db seq Hok.
  apply db_ok_row_update; try done.
  - intros r Hin _. by destruct (ok_fk_rows _ _ Hok r Hin).
  - destruct (ok_mailbox_messages _ _ Hok) as (_ & _ & Hk). by apply keys_ok_update.
Qed.

(** ** Cache objects *)
Lemma cache_conflict_key input r :
  cache_conflict input r = true <->
  exists a, NewCacheObject_account_id input = Some a /\
    key_cache_object r =
      Some (a, NewCacheObject_object_type input, NewCacheObject_blob_key input).
Proof.
  unfold cache_conflict, key_cache_object, sql_eq. destruct (NewCacheObject_account_id input) as [a|].
  - rewrite !andb_true_iff, !str_eqb_eq. destruct (CacheObjectRow_account_id r) as [b|].
    + rewrite Z.eqb_eq. split; [intros [[-> ->] ->]; eauto|by intros (? & [= ->] & [= -> -> ->])].
    + split; [by intros [[? _] _]|by intros (? & _ & ?)].
  - split; [done|by intros (? & ? & _)].
Qed.

Lemma db_ok_cache_insert row input db seq :
  db_ok db seq -> CacheObjectRow_id row = seq T_cache_objects + 1 ->
  CacheObjectRow_account_id row = NewCacheObject_account_id input ->
  CacheObjectRow_object_type row = NewCacheObject_object_type input ->
  CacheObjectRow_blob_key row = NewCacheObject_blob_key input ->
  select (cache_conflict input) (cache_objects db) = [] ->
  db_ok (set_cache_objects (cache_objects db ++ [row]) db) (bump_seq T_cache_objects seq).
Proof.
  intros Hok Hid E1 E2 E3 Hnone. destruct (ok_cache _ _ Hok) as [Hi Hk].
  apply db_ok_set_cache with seq; [done|apply bump_seq_le| |].
  - rewrite bump_seq_eq. by apply ids_ok_append.
  - apply keys_ok_append; [|done]. intros r k Hr Hrow Hc.
    assert (Hin : In r []); [|done]. rewrite <- Hnone. apply select_In. split; [done|].
    apply cache_conflict_key. unfold key_cache_object in Hrow. rewrite E1, E2, E3 in Hrow.
    destruct (NewCacheObject_account_id input) as [a|]; [|done]. injection Hrow as <-. eauto.
Qed.

Lemma db_ok_cache_update p f db seq :
  (forall r, CacheObjectRow_id (f r) = CacheObjectRow_id r) ->
  (forall r, p r = true -> key_cache_object (f r) = key_cache_object r) ->
  db_ok db seq -> db_ok (set_cache_objects (update p f (cache_objects db)) db) seq.
Proof.
  intros Hf Hp Hok. destruct (ok_cache _ _ Hok) as [Hi Hk].
  apply db_ok_set_cache with seq; eauto with tables; done.
Qed.

Lemma safe_upsert_cache_object input : safe (upsert_cache_object input).
Proof.
  unfold upsert_cache_object. run_insert.
  - by apply db_ok_cache_insert with input.
  - apply db_ok_cache_update; [done| |by eapply db_ok_seq; [exact Hok|apply bump_seq_le]].
    intros r Hr. apply cache_conflict_key in Hr as (a & Ha & Hk).
    rewrite Hk. unfold key_cache_object in *. simpl. rewrite Ha.
    destruct (CacheObjectRow_account_id r); [|done]. by injection Hk as -> -> ->.
Qed.

Lemma safe_touch_cache_object a k : safe (touch_cache_object a k).
Proof.
  unfold touch_cache_object. safe_steps. apply safe_execute. intros db seq.
  by apply db_ok_cache_update.
Qed.

Lemma safe_delete_cache_where p :
  safe (execute (fun db => set_cache_objects (delete_where p (cache_objects db)) db)).
Proof.
  apply safe_execute. intros db seq Hok. destruct (ok_cache _ _ Hok) as [Hi Hk].
  apply db_ok_set_cache with seq; eauto with tables; done.
Qed.

Lemma safe_delete_cache_object a k : safe (delete_cache_object_for_account a k).
Proof.
  unfold delete_cache_object_for_account. safe_steps; [|apply safe_delete_cache_where].
  apply safe_execute. intros db seq. by apply db_ok_cache_update.
Qed.

Lemma safe_delete_cache_objects a : safe (delete_cache_objects_for_account a).
Proof. unfold delete_cache_objects_for_account. safe_steps. apply safe_delete_cache_where. Qed.
#[export] Hint Resolve safe_upsert_cache_object safe_delete_cache_object : repo.

(** ** Copy and delete *)
Section CopyDelete.
Context `{PgText}.

Lemma safe_list_message_cache_objects a m : safe (list_message_cache_objects a m).
Proof. apply safe_query. Qed.
Hint Resolve safe_list_message_cache_objects : repo.

Lemma safe_copy_mailbox_message src dst uid : safe (copy_mailbox_message src dst uid).
Proof.
  unfold copy_mailbox_message. apply safe_bind; [|intros copied; safe_steps].
  apply safe_transaction. apply safe_bind; [apply safe_query|]. intros rows.
  destruct (head rows) as [source|]; [|apply safe_ret].
  apply safe_bind; [eauto with repo|]. intros next_uid.
  apply safe_bind; [eauto with repo|]. intros modseq. run_insert.
  apply db_ok_row_insert; try done; [by apply unique_by_ok|].
  destruct (ok_mailbox_messages _ _ Hok) as (_ & _ & Hk).
  by apply keys_ok_append.
Qed.

Lemma safe_delete_mailbox_message mb uid : safe (delete_mailbox_message mb uid).
Proof.
  unfold delete_mailbox_message. safe_steps. apply safe_execute. intros db seq Hok.
  destruct (ok_mailbox_messages _ _ Hok) as (Hi & Hk1 & Hk2).
  apply db_ok_set_rows with seq; eauto with tables; [done|].
  intros r Hin. apply delete_where_In in Hin as [Hin _]. by apply (ok_fk_rows _ _ Hok).
Qed.
End CopyDelete.

(** ** Checkpoints and the queue *)
Lemma sync_conflict_key input r :
  sync_state_conflict input r = true <->
  exists m, NewSyncState_mailbox_id input = Some m /\
            key_sync_state r = Some (NewSyncState_account_id input, m).
Proof.
  unfold sync_state_conflict, key_sync_state, sql_eq.
  destruct (NewSyncState_mailbox_id input) as [m|]; [|split; [done|by intros (? & ? & _)]].
  rewrite andb_true_iff, Z.eqb_eq. destruct (SyncStateRow_mailbox_id r) as [m'|].
  - rewrite Z.eqb_eq. split; [intros [-> ->]; eauto|by intros (? & [= ->] & [= -> ->])].
  - split; [by intros [_ ?]|by intros (? & _ & ?)].
Qed.

Lemma safe_put_sync_state input : safe (put_sync_state input).
Proof.
  unfold put_sync_state. run_insert.
  all: apply db_ok_set_sync; [by eapply db_ok_seq; [exact Hok|apply bump_seq_le]|].
  - apply keys_ok_append; [|by apply (ok_sync_state _ _ Hok)]. intros r k Hr Hrow Hc.
    assert (Hin : In r []); [|done].
    match goal with E : select _ _ = [] |- _ => rewrite <- E end.
    apply select_In. split; [done|]. apply sync_conflict_key.
    unfold key_sync_state in Hrow. simpl in Hrow.
    destruct (NewSyncState_mailbox_id input); [|done]. injection Hrow as <-. eauto.
  - apply keys_ok_update; [|by apply (ok_sync_state _ _ Hok)]. done.
Qed.

Lemma safe_delete_sync_state a m : safe (delete_sync_state a m).
Proof.
  unfold delete_sync_state. safe_steps. apply safe_execute. intros db seq Hok.
  apply db_ok_set_sync; [done|]. apply keys_ok_delete, (ok_sync_state _ _ Hok).
Qed.

Lemma safe_enqueue_mutation input : safe (enqueue_mutation input).
Proof.
  unfold enqueue_mutation. run_insert.
  all: destruct (ok_pending _ _ Hok) as [Hi Hk].
  all: apply db_ok_set_pending with (w_seq w); [done|apply bump_seq_le| |by apply unique_by_ok].
  all: rewrite bump_seq_eq; by apply ids_ok_append.
Qed.

Lemma safe_update_pending_mutation id st n at_ : safe (update_pending_mutation id st n at_).
Proof.
  unfold update_pending_mutation. safe_steps. apply safe_execute. intros db seq Hok.
  destruct (ok_pending _ _ Hok) as [Hi Hk].
  apply db_ok_set_pending with seq; eauto with tables; done.
Qed.

(** ** Users, accounts, sessions, quotas *)
Section Accounts.
Context `{PgText, UuidText, Crypto}.

Ltac untouched := eapply db_ok_untouched; [eassumption|first [done|apply bump_seq_le]|done..].

Lemma safe_create_user input : safe (create_user input).
Proof. unfold create_user. run_insert; untouched. Qed.
Lemma safe_set_user_password u h : safe (set_user_password u h).
Proof. unfold set_user_password. safe_steps. apply safe_execute. intros db seq Hok. untouched. Qed.
Lemma safe_disable_user u : safe (disable_user u).
Proof. unfold disable_user. safe_steps. apply safe_execute. intros db seq Hok. untouched. Qed.
Lemma safe_record_audit_log u a act v : safe (record_audit_log u a act v).
Proof. unfold record_audit_log. run_insert; untouched. Qed.
Lemma safe_create_mail_account b n1 n2 input : safe (create_mail_account b n1 n2 input).
Proof.
  unfold create_mail_account. apply safe_bind; [apply safe_lift|]. intros u.
  apply safe_bind; [apply safe_lift|]. intros s. run_insert; untouched.
Qed.
Lemma safe_disable_mail_account a : safe (disable_mail_account a).
Proof. unfold disable_mail_account. safe_steps. apply safe_execute. intros db seq Hok. untouched. Qed.
Lemma safe_enable_mail_account a : safe (enable_mail_account a).
Proof. unfold enable_mail_account. safe_steps. apply safe_execute. intros db seq Hok. untouched. Qed.
Lemma safe_set_sync_status a t e : safe (set_mail_account_sync_status a t e).
Proof.
  unfold set_mail_account_sync_status. safe_steps. apply safe_execute. intros db seq Hok. untouched.
Qed.
Lemma safe_delete_mail_account a : safe (delete_mail_account a).
Proof.
  unfold delete_mail_account. safe_steps. apply safe_execute. intros db seq.
  apply db_ok_delete_account.
Qed.
Lemma safe_upsert_account_quota a n : safe (upsert_account_quota a n).
Proof. unfold upsert_account_quota. run_insert; untouched. Qed.
Lemma safe_adjust_quota a n : safe (adjust_account_quota_usage a n).
Proof.
  unfold adjust_account_quota_usage. safe_steps. apply safe_execute. intros db seq Hok. untouched.
Qed.
Lemma safe_create_session input : safe (create_session input).
Proof.
  unfold create_session. apply safe_bind; [apply safe_lift|]. intros c. run_insert; untouched.
Qed.
Lemma safe_mark_session_disconnected c : safe (mark_session_disconnected c).
Proof.
  unfold mark_session_disconnected. safe_steps. apply safe_execute. intros db seq Hok. untouched.
Qed.
End Accounts.

(** ** All calls *)
Section Calls.
Context `{PgText, UuidText, Crypto}.

(** The repository methods that write. *)
Inductive RepoCall : Type :=
| CreateUser (input : NewUser)
| SetUserPassword (username_email password_hash : str)
| DisableUser (username_email : str)
| RecordAuditLog (user_id account_id : option Z) (action : str) (metadata : Value)
| CreateSession (input : NewSession)
| MarkSessionDisconnected (connection_id : str)
| CreateMailAccount (secrets : SecretBox) (nonce1 nonce2 : bytes) (input : NewMailAccount)
| DisableMailAccount (account_id : Z)
| EnableMailAccount (account_id : Z)
| SetMailAccountSyncStatus (account_id : Z) (at_ : option Z) (error : option str)
| DeleteMailAccount (account_id : Z)
| UpsertAccountQuota (account_id max_bytes : Z)
| AdjustAccountQuotaUsage (account_id delta_bytes : Z)
| UpsertMailbox (input : NewMailbox)
| CreateMailbox (input : NewMailbox)
| RenameMailbox (account_id : Z) (mailbox_name new_name : str)
| SetMailboxSubscribed (account_id : Z) (mailbox_name : str) (subscribed : bool)
| RefreshMailboxCounts (mailbox_id : Z)
| DeleteMailbox (account_id : Z) (mailbox_name : str)
| UpsertMessage (input : NewMessage)
| InsertMimePart (input : NewMimePart)
| DeleteMimeParts (message_id : Z)
| UpsertMailboxMessage (input : NewMailboxMessage)
| SetUpstreamUid (mailbox_id local_uid upstream_uid : Z)
| UpdateFlags (mailbox_id local_uid : Z) (flags : list str)
| CopyMessage (source destination local_uid : Z)
| DeleteMessage (mailbox_id local_uid : Z)
| UpsertCacheObject (input : NewCacheObject)
| TouchCacheObject (account_id : Z) (blob_key : str)
| DeleteCacheObject (account_id : Z) (blob_key : str)
| DeleteCacheObjects (account_id : Z)
| PutSyncState (input : NewSyncState)
| DeleteSyncState (account_id : Z) (mailbox_id : option Z)
| EnqueueMutation (input : NewPendingMutation)
| UpdatePendingMutation (id : Z) (status : MutationStatus) (attempts : Z) (at_ : option Z).

Definition run_call (c : RepoCall) : Repo unit :=
  match c with
  | CreateUser input => create_user input ;;; ret tt
  | SetUserPassword u h => set_user_password u h ;;; ret tt
  | DisableUser u => disable_user u ;;; ret tt
  | RecordAuditLog u a act v => record_audit_log u a act v ;;; ret tt
  | CreateSession input => create_session input ;;; ret tt
  | MarkSessionDisconnected c => mark_session_disconnected c ;;; ret tt
  | CreateMailAccount b n1 n2 input => create_mail_account b n1 n2 input ;;; ret tt
  | DisableMailAccount a => disable_mail_account a ;;; ret tt
  | EnableMailAccount a => enable_mail_account a ;;; ret tt
  | SetMailAccountSyncStatus a t e => set_mail_account_sync_status a t e ;;; ret tt
  | DeleteMailAccount a => delete_mail_account a ;;; ret tt
  | UpsertAccountQuota a n => upsert_account_quota a n ;;; ret tt
  | AdjustAccountQuotaUsage a n => adjust_account_quota_usage a n ;;; ret tt
  | UpsertMailbox input => upsert_mailbox input ;;; ret tt
  | CreateMailbox input => create_mailbox input ;;; ret tt
  | RenameMailbox a n n' => rename_mailbox a n n' ;;; ret tt
  | SetMailboxSubscribed a n b => set_mailbox_subscribed a n b ;;; ret tt
  | RefreshMailboxCounts m => refresh_mailbox_counts m
  | DeleteMailbox a n => delete_mailbox a n ;;; ret tt
  | UpsertMessage input => upsert_message input ;;; ret tt
  | InsertMimePart input => insert_mime_part input ;;; ret tt
  | DeleteMimeParts m => delete_mime_parts_for_message m ;;; ret tt
  | UpsertMailboxMessage input => upsert_mailbox_message input ;;; ret tt
  | SetUpstreamUid m u up => set_mailbox_message_upstream_uid m u up ;;; ret tt
  | UpdateFlags m u f => update_mailbox_message_flags m u f ;;; ret tt
  | CopyMessage s d u => copy_mailbox_message s d u ;;; ret tt
  | DeleteMessage m u => delete_mailbox_message m u ;;; ret tt
  | UpsertCacheObject input => upsert_cache_object input ;;; ret tt
  | TouchCacheObject a k => touch_cache_object a k ;;; ret tt
  | DeleteCacheObject a k => delete_cache_object_for_account a k ;;; ret tt
  | DeleteCacheObjects a => delete_cache_objects_for_account a ;;; ret tt
  | PutSyncState input => put_sync_state input ;;; ret tt
  | DeleteSyncState a m => delete_sync_state a m ;;; ret tt
  | EnqueueMutation input => enqueue_mutation input ;;; ret tt
  | UpdatePendingMutation i st n t => update_pending_mutation i st n t ;;; ret tt
  end.

Lemma safe_run_call c : safe (run_call c).
Proof.
  destruct c; simpl; try apply safe_refresh_mailbox_counts;
    (apply safe_bind; [|intros; apply safe_ret]).
  all: auto using safe_create_user, safe_set_user_password, safe_disable_user,
    safe_record_audit_log, safe_create_session, safe_mark_session_disconnected,
    safe_create_mail_account, safe_disable_mail_account, safe_enable_mail_account,
    safe_set_sync_status, safe_delete_mail_account, safe_upsert_account_quota,
    safe_adjust_quota, safe_upsert_mailbox, safe_create_mailbox, safe_rename_mailbox,
    safe_set_mailbox_subscribed, safe_delete_mailbox, safe_upsert_message,
    safe_insert_mime_part, safe_delete_mime_parts, safe_upsert_mailbox_message,
    safe_set_upstream_uid, safe_update_flags, safe_copy_mailbox_message,
    safe_delete_mailbox_message, safe_upsert_cache_object, safe_touch_cache_object,
    safe_delete_cache_object, safe_delete_cache_objects, safe_put_sync_state,
    safe_delete_sync_state, safe_enqueue_mutation, safe_update_pending_mutation.
Qed.

(** A call, successful or not, or the clock moving on. *)
Inductive repo_step : World -> World -> Prop :=
| step_call c w : repo_step w (fst (run_call c w))
| step_tick t w : w_now w <= t ->
    repo_step w (mkWorld (w_db w) (w_seq w) t (w_sink w) (w_events w)).

Lemma db_ok_empty seq : db_ok empty_database seq.
Proof.
  constructor; simpl; unfold ids_ok, keys_ok; simpl; split_and?; try done; try constructor.
Qed.

Lemma db_ok_step w w' : repo_step w w' -> db_ok (w_db w) (w_seq w) -> db_ok (w_db w') (w_seq w').
Proof.
  intros [c w0|t w0 _] Hok; [|done].
  by destruct (safe_run_call c (w_seq w0) w0) as [Hok' _].
Qed.

Lemma db_ok_reachable w w' :
  db_ok (w_db w) (w_seq w) -> rtc repo_step w w' -> db_ok (w_db w') (w_seq w').
Proof.
  intros Hok Hr. revert Hok. induction Hr as [w1|w1 w2 w3 Hs _ IH]; [done|].
  intros Hok. by eapply IH, db_ok_step.
Qed.

(** A series of calls. *)
Definition run_calls (cs : list RepoCall) (w : World) : World :=
  fold_left (fun w c => fst (run_call c w)) cs w.

Lemma run_calls_reachable cs w : rtc repo_step w (run_calls cs w).
Proof.
  revert w. induction cs as [|c cs IH]; intros w; [apply rtc_refl|].
  eapply rtc_l; [apply (step_call c)|apply IH].
Qed.

End Calls.
