(* ===== verification/Redis.v ===== *)
(** * The Redis server the coordination and login code talks to

    Redis is a service, so it is the class [Redis] of the commands the program
    sends, with [RedisLaws] for the documented meaning of those commands on
    [redis_lookup], the value a key has now (an expired key has none).
    [MapRedis] is a concrete server, a map from keys to values with deadlines,
    that satisfies the laws. *)

From stdpp Require Import base strings list gmap.
From Stdlib Require Import ZArith Lia.
From S2P Require Import Prelude RustStr Domain.

Local Open Scope Z_scope.

Class Redis (R : Type) : Type := {
  (** [get_multiplexed_async_connection]; an error carries the client's text. *)
  redis_connect : M str R unit;
  (** [SET key value NX PX ttl_ms], [GET key], [DEL key], [EXISTS key]. *)
  redis_set_nx_px : str -> str -> Z -> M str R (option str);
  redis_get : str -> M str R (option str);
  redis_del : str -> M str R Z;
  redis_exists : str -> M str R Z;
  (** [INCR key], [EXPIRE key seconds], [SET key value EX seconds]. *)
  redis_incr : str -> M str R Z;
  redis_expire : str -> Z -> M str R Z;
  redis_set_ex : str -> str -> Z -> M str R unit;
  (** The value of a key at the server's current time. *)
  redis_lookup : R -> str -> option str
}.

(** Documented behaviour, for a server that is reachable. *)
Class RedisLaws (R : Type) `{Redis R} : Prop := {
  redis_connect_ok : forall r, exists r',
    redis_connect r = (r', Ok tt) /\ forall k, redis_lookup r' k = redis_lookup r k;
  redis_set_nx_free : forall r key v ttl,
    0 < ttl -> redis_lookup r key = None ->
    exists r', redis_set_nx_px key v ttl r = (r', Ok (Some (lit "OK"))) /\
               redis_lookup r' key = Some v /\
               forall k, k <> key -> redis_lookup r' k = redis_lookup r k;
  redis_set_nx_taken : forall r key v ttl w,
    0 < ttl -> redis_lookup r key = Some w ->
    exists r', redis_set_nx_px key v ttl r = (r', Ok None) /\
               forall k, redis_lookup r' k = redis_lookup r k;
  redis_get_ok : forall r key, exists r',
    redis_get key r = (r', Ok (redis_lookup r key)) /\
    forall k, redis_lookup r' k = redis_lookup r k;
  redis_del_ok : forall r key, exists r' n,
    redis_del key r = (r', Ok n) /\ redis_lookup r' key = None /\
    forall k, k <> key -> redis_lookup r' k = redis_lookup r k
}.

(** A failed Redis call becomes [Error::Storage] with a prefix. *)
Definition redis_or {R A} (prefix : str) (m : M str R A) : M Error R A :=
  fun r => match m r with
           | (r', Ok a) => (r', Ok a)
           | (r', Err e) => (r', Err (EStorage (prefix ++ e)))
           | (r', Panic) => (r', Panic)
           end.

Lemma redis_or_Ok {R A} prefix (m : M str R A) r r' a :
  m r = (r', Ok a) -> redis_or prefix m r = (r', Ok a).
Proof. unfold redis_or. by intros ->. Qed.

(** ** A concrete server *)
Module MapRedis.

Record t : Type := mk {
entries : gmap str (str * option Z);
clock : Z
}.

Definition expired (now : Z) (deadline : option Z) : bool :=
match deadline with Some d => d <=? now | None => false end.

Definition lookup (r : t) (k : str) : option str :=
match entries r !! k with
| Some (v, d) => if expired (clock r) d then None else Some v
| None => None
end.

Definition put (k v : str) (d : option Z) (r : t) : t :=
mk (<[k := (v, d)]> (entries r)) (clock r).

Definition set_nx_px (k v : str) (ttl_ms : Z) : M str t (option str) :=
fun r => match lookup r k with
         | Some _ => (r, Ok None)
         | None => (put k v (Some (clock r + ttl_ms)) r, Ok (Some (lit "OK")))
         end.

Definition del (k : str) : M str t Z :=
fun r => (mk (delete k (entries r)) (clock r),
          Ok (if is_some (lookup r k) then 1 else 0)).

Definition incr (k : str) : M str t Z :=
fun r => match lookup r k with
         | None => (put k (fmt_i 1) None r, Ok 1)
         | Some v =>
             match parse_i64 v with
             | Some n => (put k (fmt_i (n + 1))
                              (match entries r !! k with Some (_, d) => d | None => None end) r,
                          Ok (n + 1))
             | None => (r, Err (lit "ERR value is not an integer or out of range"))
             end
         end.

Definition expire (k : str) (seconds : Z) : M str t Z :=
fun r => match lookup r k with
         | Some v => (put k v (Some (clock r + 1000 * seconds)) r, Ok 1)
         | None => (r, Ok 0)
         end.

#[export] Instance redis : Redis t := {
redis_connect := ret tt;
redis_set_nx_px := set_nx_px;
redis_get := fun k => gets (fun r => lookup r k);
redis_del := del;
redis_exists := fun k => gets (fun r => if is_some (lookup r k) then 1 else 0);
redis_incr := incr;
redis_expire := expire;
redis_set_ex := fun k v s => modify (fun r => put k v (Some (clock r + 1000 * s)) r);
redis_lookup := lookup
}.

Lemma lookup_put_ne r k k' v d : k' <> k -> lookup (put k v d r) k' = lookup r k'.
Proof. intros. unfold lookup, put. simpl. by rewrite lookup_insert_ne by congruence. Qed.

#[export] Instance laws : RedisLaws t.
Proof.
split; simpl.
- intros r. by exists r.
- intros r key v ttl Httl Hr. exists (put key v (Some (clock r + ttl)) r).
  unfold set_nx_px. rewrite Hr. split_and!; [done| |].
  + unfold lookup, put. simpl. rewrite lookup_insert_eq. unfold expired.
    destruct (Z.leb_spec (clock r + ttl) (clock r)); [lia|done].
  + intros k Hk. by apply lookup_put_ne.
- intros r key v ttl w _ Hr. exists r. unfold set_nx_px. by rewrite Hr.
- intros r key. by exists r.
- intros r key. eexists _, _. split; [reflexivity|]. unfold lookup. simpl. split.
  + by rewrite lookup_delete_eq.
  + intros k Hk. by rewrite lookup_delete_ne by congruence.
Qed.

End MapRedis.
