(* ===== verification/Coordination.v ===== *)
(** * Sync locks

    Models crates/coordination/src/lib.rs: the [SyncLockManager] trait as a
    class, its three implementations and the guard that releases on drop.
    [Uuid::new_v4] is a parameter: [new_v4 n] is the n-th identifier drawn, and
    a manager's state counts how many were. *)

From stdpp Require Import base strings list gmap.
From Stdlib Require Import ZArith Lia.
From S2P Require Import Prelude RustStr Domain Redis.

Local Open Scope Z_scope.

Class Uuids : Type := { new_v4 : nat -> str }.
(** Version 4 identifiers do not repeat. *)
Class UuidLaws `{Uuids} : Prop := { new_v4_inj : forall i j, new_v4 i = new_v4 j -> i = j }.

Record SyncLockGuard : Type := mkSyncLockGuard {
  SyncLockGuard_key : str;
  SyncLockGuard_token : str
}.

(** The trait; [ttl] in milliseconds. *)
Class SyncLockManager (L : Type) : Type := {
  lock_acquire : str -> Z -> M Error L (option SyncLockGuard);
  lock_release : str -> str -> M Error L unit
}.

(** [Drop for SyncLockGuard]: inside a runtime a task is spawned that releases
    and drops the outcome; outside one nothing happens. *)
Definition SyncLockGuard_drop {L} `{SyncLockManager L} (in_runtime : bool)
  (guard : SyncLockGuard) : M Error L unit :=
  if in_runtime
  then ignore (lock_release (SyncLockGuard_key guard) (SyncLockGuard_token guard))
  else ret tt.

(** ** No coordination *)
Definition noop_acquire (key : str) (ttl : Z) : M Error unit (option SyncLockGuard) := ret None.
Definition noop_release (key token : str) : M Error unit unit := ret tt.

#[export] Instance NoopSyncLockManager : SyncLockManager unit :=
  { lock_acquire := noop_acquire; lock_release := noop_release }.

(** ** Within one process *)
Record MemorySyncLockManager : Type := mkMemorySyncLockManager {
  locks : gset str;
  memory_drawn : nat
}.

Section Memory.
Context `{Uuids}.

Definition memory_acquire (key : str) (ttl : Z)
  : M Error MemorySyncLockManager (option SyncLockGuard) :=
  fun m =>
    if decide (key ∈ locks m) then (m, Ok None)
    else (mkMemorySyncLockManager ({[key]} ∪ locks m) (S (memory_drawn m)),
          Ok (Some (mkSyncLockGuard key (new_v4 (memory_drawn m))))).

(** The token is not looked at. *)
Definition memory_release (key token : str) : M Error MemorySyncLockManager unit :=
  modify (fun m => mkMemorySyncLockManager (locks m ∖ {[key]}) (memory_drawn m)).

#[export] Instance MemoryLocks : SyncLockManager MemorySyncLockManager :=
  { lock_acquire := memory_acquire; lock_release := memory_release }.
End Memory.

(** ** Across processes *)
Record RedisSyncLockManager (R : Type) : Type := mkRedisSyncLockManager {
  redis_client : R;
  redis_drawn : nat
}.
Arguments mkRedisSyncLockManager {R}.
Arguments redis_client {R}.
Arguments redis_drawn {R}.

Section RedisLock.
Context {R : Type} `{Redis R} `{Uuids}.

Definition on_server {A} (m : M Error R A) : M Error (RedisSyncLockManager R) A :=
  zoom redis_client (fun r s => mkRedisSyncLockManager r (redis_drawn s)) m.

Definition draw_token : M Error (RedisSyncLockManager R) str :=
  fun s => (mkRedisSyncLockManager (redis_client s) (S (redis_drawn s)),
            Ok (new_v4 (redis_drawn s))).

Definition redis_acquire (key : str) (ttl : Z)
  : M Error (RedisSyncLockManager R) (option SyncLockGuard) :=
  do token <- draw_token ;;
  let ttl_ms := Z.min ttl i64_max in
  on_server (redis_or (lit "connecting to redis: ") redis_connect) ;;;
  do acquired <- on_server
    (redis_or (lit "acquiring redis lock: ") (redis_set_nx_px key token ttl_ms)) ;;
  if is_some acquired then ret (Some (mkSyncLockGuard key token)) else ret None.

(** The Lua script, which the server runs as one step. *)
Definition release_script (key token : str) : M str R Z :=
  do current <- redis_get key ;;
  match current with
  | Some v => if str_eqb v token then redis_del key else ret 0
  | None => ret 0
  end.

Definition redis_release (key token : str) : M Error (RedisSyncLockManager R) unit :=
  on_server (redis_or (lit "connecting to redis: ") redis_connect) ;;;
  on_server (redis_or (lit "releasing redis lock: ") (release_script key token)) ;;;
  ret tt.

#[export] Instance RedisLocks : SyncLockManager (RedisSyncLockManager R) :=
  { lock_acquire := redis_acquire; lock_release := redis_release }.
End RedisLock.

(** ** The in-process lock as a transition system

    The state is the manager with the guards that are held.  A guard leaves
    when its release runs, once; a guard dropped outside a runtime leaves
    without a release. *)
Section MemoryLockSafety.
Context `{Uuids}.

Inductive lock_step : MemorySyncLockManager * list SyncLockGuard ->
                      MemorySyncLockManager * list SyncLockGuard -> Prop :=
| step_acquire key ttl m m' g gs :
    memory_acquire key ttl m = (m', Ok (Some g)) -> lock_step (m, gs) (m', g :: gs)
| step_busy key ttl m m' gs :
    memory_acquire key ttl m = (m', Ok None) -> lock_step (m, gs) (m', gs)
| step_drop in_runtime g m m' gs1 gs2 :
    SyncLockGuard_drop in_runtime g m = (m', Ok tt) ->
    lock_step (m, gs1 ++ g :: gs2) (m', gs1 ++ gs2).

(** No two guards for one key, and every held key is in the set. *)
Definition locks_ok (st : MemorySyncLockManager * list SyncLockGuard) : Prop :=
  NoDup (map SyncLockGuard_key (snd st)) /\
  forall g, In g (snd st) -> SyncLockGuard_key g ∈ locks (fst st).

Lemma locks_ok_step st st' : locks_ok st -> lock_step st st' -> locks_ok st'.
Proof.
  intros [Hnd Hin] Hstep.
  destruct Hstep as [key ttl m m' g gs E|key ttl m m' gs E|rt g m m' gs1 gs2 E];
    unfold locks_ok in *; simpl in *.
  - unfold memory_acquire in E. case_decide as Hk; [done|]. injection E as <- <-. simpl.
    split.
    + constructor; [|done]. rewrite list_elem_of_In. intros Hx. apply in_map_iff in Hx as (g' & <- & Hg').
      by apply Hk, Hin.
    + intros g [<-|Hg]; [set_solver|]. apply Hin in Hg. set_solver.
  - unfold memory_acquire in E. case_decide; [|done]. by injection E as <-.
  - rewrite map_app in *. simpl in *.
    apply NoDup_app in Hnd as (Hnd1 & Hdis & Hnd2). apply NoDup_cons in Hnd2 as [Hg Hnd2].
    split.
    + apply NoDup_app. split_and!; [done| |done]. intros k Hk Hk2.
      apply (Hdis k Hk). by right.
    + intros g' Hg'.
      assert (Hl : SyncLockGuard_key g' ∈ locks m).
      { apply Hin. rewrite in_app_iff in *. simpl. tauto. }
      assert (Hne : SyncLockGuard_key g' <> SyncLockGuard_key g).
      { intros Heq. apply in_app_iff in Hg' as [Hg'|Hg'].
        - apply (Hdis (SyncLockGuard_key g')); [|rewrite Heq; by left].
          apply list_elem_of_In, in_map_iff. eauto.
        - apply Hg. apply list_elem_of_In, in_map_iff. eauto. }
      unfold SyncLockGuard_drop in E. destruct rt.
      * injection E as <-. simpl. set_solver.
      * by injection E as <-.
Qed.

Lemma locks_ok_reachable st : rtc lock_step (mkMemorySyncLockManager ∅ 0, []) st -> locks_ok st.
Proof.
  intros Hr. assert (Hinit : locks_ok (mkMemorySyncLockManager ∅ 0, []))
    by (split; [constructor|done]).
  revert Hinit. induction Hr as [st|st1 st2 st3 Hstep _ IH]; [done|].
  intros Hok. by eapply IH, locks_ok_step.
Qed.

(** C31 In every reachable state of the in-process lock manager, at most one
    guard is held for a key, and as long as it is held another [acquire] of
    the key answers [None] and changes nothing. *)
Theorem memory_lock_mutual_exclusion m gs1 g gs2 ttl :
  rtc lock_step (mkMemorySyncLockManager ∅ 0, []) (m, gs1 ++ g :: gs2) ->
  (forall g', In g' (gs1 ++ gs2) -> SyncLockGuard_key g' <> SyncLockGuard_key g) /\
  memory_acquire (SyncLockGuard_key g) ttl m = (m, Ok None).
Proof.
  intros Hr. apply locks_ok_reachable in Hr as [Hnd Hin]. simpl in *. split.
  - intros g' Hg' Heq. rewrite map_app in Hnd. simpl in Hnd.
    apply NoDup_app in Hnd as (_ & Hdis & Hnd2). apply NoDup_cons in Hnd2 as [Hg _].
    apply in_app_iff in Hg' as [Hg'|Hg'].
    + apply (Hdis (SyncLockGuard_key g')); [|rewrite Heq; by left].
      apply list_elem_of_In, in_map_iff. eauto.
    + apply Hg. apply list_elem_of_In, in_map_iff. eauto.
  - unfold memory_acquire. rewrite decide_True; [done|]. apply Hin.
    apply in_app_iff. right. by left.
Qed.
End MemoryLockSafety.

(** ** The Redis lock *)
Section RedisLockSafety.
Context {R : Type} `{RedisLaws R} `{UuidLaws}.
Implicit Types s : RedisSyncLockManager R.

Lemma on_server_Ok {A} (m : M Error R A) s r' a :
  m (redis_client s) = (r', Ok a) ->
  on_server m s = (mkRedisSyncLockManager r' (redis_drawn s), Ok a).
Proof. unfold on_server, zoom. by intros ->. Qed.

Lemma connect_Ok s : exists s',
  on_server (redis_or (lit "connecting to redis: ") redis_connect) s = (s', Ok tt) /\
  redis_drawn s' = redis_drawn s /\
  forall k, redis_lookup (redis_client s') k = redis_lookup (redis_client s) k.
Proof.
  destruct (redis_connect_ok (redis_client s)) as (r' & E & Hk).
  eexists. split; [by apply on_server_Ok, redis_or_Ok|]. done.
Qed.

(** What [acquire] does on a free and on a taken key. *)
Lemma redis_acquire_spec s key ttl :
  0 < ttl ->
  exists s', redis_drawn s' = S (redis_drawn s) /\
    match redis_lookup (redis_client s) key with
    | None =>
        redis_acquire key ttl s =
          (s', Ok (Some (mkSyncLockGuard key (new_v4 (redis_drawn s))))) /\
        redis_lookup (redis_client s') key = Some (new_v4 (redis_drawn s)) /\
        forall k, k <> key ->
          redis_lookup (redis_client s') k = redis_lookup (redis_client s) k
    | Some _ =>
        redis_acquire key ttl s = (s', Ok None) /\
        forall k, redis_lookup (redis_client s') k = redis_lookup (redis_client s) k
    end.
Proof.
  intros Httl. unfold redis_acquire.
  set (s0 := mkRedisSyncLockManager (redis_client s) (S (redis_drawn s))).
  destruct (connect_Ok s0) as (s1 & E1 & Hd1 & Hk1).
  assert (Hmin : 0 < Z.min ttl i64_max) by (unfold i64_max; lia).
  erewrite bind_Ok by reflexivity. fold s0.
  destruct (redis_lookup (redis_client s) key) as [w|] eqn:Hl.
  - destruct (redis_set_nx_taken (redis_client s1) key (new_v4 (redis_drawn s))
                (Z.min ttl i64_max) w Hmin) as (r' & E2 & Hk2); [by rewrite Hk1|].
    eexists. split; [|split].
    2: { erewrite bind_Ok by exact E1.
         erewrite bind_Ok by (apply on_server_Ok, redis_or_Ok, E2). reflexivity. }
    + simpl. by rewrite Hd1.
    + intros k. simpl. by rewrite Hk2, Hk1.
  - destruct (redis_set_nx_free (redis_client s1) key (new_v4 (redis_drawn s))
                (Z.min ttl i64_max) Hmin) as (r' & E2 & Hv & Hk2); [by rewrite Hk1|].
    eexists. split; [|split; [|split]].
    2: { erewrite bind_Ok by exact E1.
         erewrite bind_Ok by (apply on_server_Ok, redis_or_Ok, E2). reflexivity. }
    + simpl. by rewrite Hd1.
    + done.
    + intros k Hk. simpl. by rewrite Hk2, Hk1.
Qed.

Lemma redis_acquire_inv s s' key ttl g :
  0 < ttl -> redis_acquire key ttl s = (s', Ok (Some g)) ->
  redis_drawn s' = S (redis_drawn s) /\
  SyncLockGuard_key g = key /\ SyncLockGuard_token g = new_v4 (redis_drawn s) /\
  redis_lookup (redis_client s') key = Some (new_v4 (redis_drawn s)).
Proof.
  intros Httl E. destruct (redis_acquire_spec s key ttl Httl) as (s2 & Hd & Hs).
  destruct (redis_lookup (redis_client s) key) as [w|].
  - destruct Hs as [E2 _]. rewrite E in E2. done.
  - destruct Hs as (E2 & Hv & _). rewrite E in E2. by injection E2 as -> ->.
Qed.

(** Releasing with a token that is not the one stored changes nothing. *)
Lemma redis_release_foreign s key token v :
  redis_lookup (redis_client s) key = Some v -> v <> token ->
  exists s', redis_release key token s = (s', Ok tt) /\
    forall k, redis_lookup (redis_client s') k = redis_lookup (redis_client s) k.
Proof.
  intros Hv Hne. destruct (connect_Ok s) as (s1 & E1 & _ & Hk1).
  destruct (redis_get_ok (redis_client s1) key) as (r2 & E2 & Hk2).
  assert (E3 : release_script key token (redis_client s1) = (r2, Ok 0)).
  { unfold release_script. erewrite bind_Ok by exact E2. rewrite Hk1, Hv.
    by rewrite (proj2 (str_eqb_neq _ _) Hne). }
  eexists. split.
  - unfold redis_release. erewrite bind_Ok by exact E1.
    erewrite bind_Ok by (apply on_server_Ok, redis_or_Ok, E3). reflexivity.
  - intros k. simpl. by rewrite Hk2, Hk1.
Qed.

(** A holder whose lock expired does not release its successor's: when one
    guard was handed out, the lock was later free again and a second guard was
    handed out for the same key, releasing the first guard succeeds and leaves
    the second guard's lock in place, so a third [acquire] still answers
    [None]. *)
Theorem redis_stale_release_is_harmless s1 s2 s3 s4 key ttl1 ttl2 ttl3 g1 g2 :
  0 < ttl1 -> 0 < ttl2 -> 0 < ttl3 ->
  redis_acquire key ttl1 s1 = (s2, Ok (Some g1)) ->
  (redis_drawn s2 <= redis_drawn s3)%nat ->
  redis_acquire key ttl2 s3 = (s4, Ok (Some g2)) ->
  exists s5 s6,
    redis_release (SyncLockGuard_key g1) (SyncLockGuard_token g1) s4 = (s5, Ok tt) /\
    redis_lookup (redis_client s5) key = Some (SyncLockGuard_token g2) /\
    redis_acquire key ttl3 s5 = (s6, Ok None).
Proof.
  intros Ht1 Ht2 Ht3 Ha Hle Hb.
  apply redis_acquire_inv in Ha as (Hd2 & -> & -> & _); [|done].
  apply redis_acquire_inv in Hb as (_ & _ & -> & Hl); [|done].
  destruct (redis_release_foreign s4 key (new_v4 (redis_drawn s1)) (new_v4 (redis_drawn s3)))
    as (s5 & E5 & Hk5); [done| |].
  { intros Heq. apply new_v4_inj in Heq. lia. }
  destruct (redis_acquire_spec s5 key ttl3 Ht3) as (s6 & _ & Hs).
  rewrite Hk5, Hl in Hs. destruct Hs as [E6 _].
  exists s5, s6. rewrite Hk5. done.
Qed.
End RedisLockSafety.

(** ** Witnesses *)
Module CoordinationWitness.

#[local] Existing Instances MapRedis.redis MapRedis.laws.

#[export] Instance uuids : Uuids := { new_v4 := fun n => replicate n 97 }.
#[export] Instance uuid_laws : UuidLaws.
Proof.
split. intros i j E. apply (f_equal length) in E. simpl in E.
by rewrite !length_replicate in E.
Qed.

Definition key : str := lit "imap-cache-rs:sync:account:7".
Definition m0 : MemorySyncLockManager := mkMemorySyncLockManager ∅ 0.
Definition m1 : MemorySyncLockManager := fst (memory_acquire key 600000 m0).
Definition g0 : SyncLockGuard := mkSyncLockGuard key (new_v4 0).

Lemma memory_lock_mutual_exclusion_witness :
rtc lock_step (m0, []) (m1, [] ++ g0 :: []) /\ memory_acquire key 5 m1 = (m1, Ok None).
Proof.
assert (Hr : rtc lock_step (m0, []) (m1, [] ++ g0 :: [])).
{ eapply rtc_l; [|apply rtc_refl]. apply (step_acquire key 600000). by vm_compute. }
split; [exact Hr|].
exact (proj2 (memory_lock_mutual_exclusion m1 [] g0 [] 5 Hr)).
Defined.

(** The first holder's lock of 10 ms expires before the second acquires. *)
Definition s1 : RedisSyncLockManager MapRedis.t :=
mkRedisSyncLockManager (MapRedis.mk ∅ 0) 0.
Definition s2 := fst (redis_acquire key 10 s1).
Definition s3 : RedisSyncLockManager MapRedis.t :=
mkRedisSyncLockManager (MapRedis.mk (MapRedis.entries (redis_client s2)) 20) (redis_drawn s2).
Definition s4 := fst (redis_acquire key 600000 s3).

Lemma redis_stale_release_is_harmless_witness : exists s5 s6,
redis_release key (new_v4 0) s4 = (s5, Ok tt) /\
redis_lookup (redis_client s5) key = Some (new_v4 1) /\
redis_acquire key 600000 s5 = (s6, Ok None).
Proof.
apply (redis_stale_release_is_harmless s1 s2 s3 s4 key 10 600000 600000
         (mkSyncLockGuard key (new_v4 0)) (mkSyncLockGuard key (new_v4 1)));
  try lia; by vm_compute.
Defined.

End CoordinationWitness.
