(* ===== verification/Auth.v ===== *)
(** * Logins and their throttle

    Models crates/auth/src/lib.rs: the [LoginThrottle] trait as a class with the
    in-memory and the Redis implementation, and the authenticators.  The clock
    of a throttle ([Instant::now]) is part of its state and is read once per
    call. *)

From stdpp Require Import base strings list gmap.
From Stdlib Require Import ZArith Lia.
From S2P Require Import Prelude RustStr Domain Storage Security Redis Schema RepoCore RepoAccounts.

Local Open Scope Z_scope.

Record AuthContext : Type := mkAuthContext {
  AuthContext_user_id : Z;
  AuthContext_account_id : option Z;
  AuthContext_username : str
}.

(** ** Throttles *)
Class LoginThrottle (T : Type) : Type := {
  is_blocked : str -> M Error T bool;
  record_failure : str -> M Error T unit;
  record_success : str -> M Error T unit
}.

Record AttemptState : Type := mkAttemptState {
  failures : Z;
  blocked_until : option Z
}.

(** Durations and instants in one unit of time. *)
Record MemoryLoginThrottle : Type := mkMemoryLoginThrottle {
  attempts : gmap str AttemptState;
  max_failures : Z;
  lockout : Z;
  instant_now : Z
}.

Definition with_limits (max_failures lockout t : Z) : MemoryLoginThrottle :=
  mkMemoryLoginThrottle ∅ max_failures lockout t.

Definition set_attempts (a : gmap str AttemptState) (th : MemoryLoginThrottle)
  : MemoryLoginThrottle :=
  mkMemoryLoginThrottle a (max_failures th) (lockout th) (instant_now th).

Definition memory_is_blocked (username : str) : M Error MemoryLoginThrottle bool :=
  fun th =>
    let username := to_ascii_lowercase username in
    match attempts th !! username with
    | None => (th, Ok false)
    | Some state =>
        match blocked_until state with
        | Some until =>
            if instant_now th <? until then (th, Ok true)
            else (set_attempts (<[username := mkAttemptState 0 None]> (attempts th)) th, Ok false)
        | None => (th, Ok false)
        end
    end.

(** [u32::saturating_add(1)]. *)
Definition saturating_succ_u32 (n : Z) : Z := Z.min (n + 1) u32_max.

Definition memory_record_failure (username : str) : M Error MemoryLoginThrottle unit :=
  fun th =>
    let username := to_ascii_lowercase username in
    let now := instant_now th in
    let state := default (mkAttemptState 0 None) (attempts th !! username) in
    let store st := set_attempts (<[username := st]> (attempts th)) th in
    let fail st :=
      let st := mkAttemptState (saturating_succ_u32 (failures st)) (blocked_until st) in
      if max_failures th <=? failures st
      then mkAttemptState 0 (Some (now + lockout th))
      else st in
    match blocked_until state with
    | Some until =>
        if now <? until then (store state, Ok tt)
        else (store (fail (mkAttemptState 0 None)), Ok tt)
    | None => (store (fail state), Ok tt)
    end.

Definition memory_record_success (username : str) : M Error MemoryLoginThrottle unit :=
  modify (fun th => set_attempts (delete (to_ascii_lowercase username) (attempts th)) th).

#[export] Instance MemoryThrottle : LoginThrottle MemoryLoginThrottle :=
  { is_blocked := memory_is_blocked;
    record_failure := memory_record_failure;
    record_success := memory_record_success }.

(** The Redis throttle: [limits] are the fields of the struct next to the
    client. *)
Section RedisThrottle.
Context {R : Type} `{Redis R}.
Variables (redis_max_failures redis_lockout_secs : Z) (namespace : str).

Definition blocked_key (username : str) : str :=
  namespace ++ lit ":blocked:" ++ username.
Definition failures_key (username : str) : str :=
  namespace ++ lit ":failures:" ++ username.
(** [lockout.as_secs().max(1) as i64]. *)
Definition lockout_seconds : Z := as_i64 (Z.max redis_lockout_secs 1).

Definition redis_is_blocked (username : str) : M Error R bool :=
  let username := to_ascii_lowercase username in
  redis_or (lit "connecting to redis: ") redis_connect ;;;
  do blocked <- redis_or (lit "checking login throttle in redis: ")
                  (redis_exists (blocked_key username)) ;;
  ret (0 <? blocked).

(** The Lua script of [record_failure]. *)
Definition failure_script (key1 key2 : str) (arg1 arg2 : Z) : M str R Z :=
  do blocked <- redis_exists key1 ;;
  if blocked =? 1 then ret (-1)
  else
    do failures <- redis_incr key2 ;;
    (if failures =? 1 then redis_expire key2 arg1 ;;; ret tt else ret tt) ;;;
    if arg2 <=? failures then
      redis_set_ex key1 (lit "1") arg1 ;;;
      redis_del key2 ;;;
      ret 1
    else ret failures.

Definition redis_record_failure (username : str) : M Error R unit :=
  let username := to_ascii_lowercase username in
  redis_or (lit "connecting to redis: ") redis_connect ;;;
  redis_or (lit "updating login throttle in redis: ")
    (failure_script (blocked_key username) (failures_key username)
       lockout_seconds redis_max_failures) ;;;
  ret tt.

Definition redis_record_success (username : str) : M Error R unit :=
  let username := to_ascii_lowercase username in
  redis_or (lit "connecting to redis: ") redis_connect ;;;
  redis_or (lit "clearing login throttle in redis: ") (redis_del (blocked_key username)) ;;;
  redis_or (lit "clearing login throttle in redis: ") (redis_del (failures_key username)) ;;;
  ret tt.
End RedisThrottle.

(** ** Authenticators *)
Definition DenyAllAuthenticator_authenticate {S} (username password : str)
  : M Error S (option AuthContext) := ret None.

Section Static.
Context {T : Type} `{LoginThrottle T} `{Crypto}.

Record StaticAuthenticator : Type := mkStaticAuthenticator {
  expected_username : str;
  expected_password_hash : str;
  static_user_id : Z
}.

(** [username == expected && verify_password(..)?]. *)
Definition static_matches (self : StaticAuthenticator) (username password : str) : Result bool :=
  if str_eqb username (expected_username self)
  then verify_password (expected_password_hash self) password
  else Ok false.

Definition static_authenticate (self : StaticAuthenticator) (username password : str)
  : M Error T (option AuthContext) :=
  do blocked <- is_blocked username ;;
  if blocked then ret None
  else
    do good <- lift (static_matches self username password) ;;
    if good then
      record_success username ;;;
      ret (Some (mkAuthContext (static_user_id self) None username))
    else
      record_failure username ;;;
      ret None.
End Static.

Section Postgres.
Context {T : Type} `{LoginThrottle T} `{Crypto} `{PgText}.

(** The repository and the throttle of the struct. *)
Record AuthState : Type := mkAuthState {
  auth_world : World;
  auth_throttle : T
}.

Definition on_repository {A} (m : Repo A) : M Error AuthState A :=
  zoom auth_world (fun w s => mkAuthState w (auth_throttle s)) m.
Definition on_throttle {A} (m : M Error T A) : M Error AuthState A :=
  zoom auth_throttle (fun t s => mkAuthState (auth_world s) t) m.

Definition login_failure (user_id : option Z) (username reason : str)
  : M Error AuthState unit :=
  ignore (on_repository (record_audit_log user_id None (lit "login_failure")
    (Object [(lit "username_email", VString username); (lit "reason", VString reason)]))).

Definition account_for_login (user_id : Z) (username : str) : Repo (option Z) :=
  do account <- find_account_by_email_address username ;;
  match account with
  | Some account => ret (Some (MailAccount_id account))
  | None =>
      do accounts <- list_accounts_for_user user_id ;;
      match accounts with
      | [account] => ret (Some (MailAccount_id account))
      | _ => ret None
      end
  end.

Definition postgres_authenticate (username password : str)
  : M Error AuthState (option AuthContext) :=
  do blocked <- on_throttle (is_blocked username) ;;
  if blocked then ret None
  else
    do user <- on_repository (find_user_by_username username) ;;
    match user with
    | None =>
        on_throttle (record_failure username) ;;;
        login_failure None username (lit "user_not_found") ;;;
        ret None
    | Some user =>
        if is_some (User_disabled_at user) then
          login_failure (Some (User_id user)) username (lit "user_disabled") ;;;
          ret None
        else
          do good <- lift (verify_password (User_password_hash user) password) ;;
          if negb good then
            on_throttle (record_failure username) ;;;
            login_failure (Some (User_id user)) username (lit "invalid_password") ;;;
            ret None
          else
            on_throttle (record_success username) ;;;
            do account_id <- on_repository (account_for_login (User_id user) username) ;;
            let context := mkAuthContext (User_id user) account_id
                             (User_username_email user) in
            ignore (on_repository
              (record_audit_log (Some (AuthContext_user_id context))
                 (AuthContext_account_id context) (lit "login_success")
                 (Object [(lit "username_email", VString (AuthContext_username context))]))) ;;;
            ret (Some context)
    end.
End Postgres.

(** ** The in-memory throttle over a series of attempts *)
Section Lockout.
Context `{Crypto}.
Variable self : StaticAuthenticator.
Variable username : str.

Definition set_instant (t : Z) (th : MemoryLoginThrottle) : MemoryLoginThrottle :=
  mkMemoryLoginThrottle (attempts th) (max_failures th) (lockout th) t.

(** One login attempt at time [t]. *)
Definition attempt_at (t : Z) (password : str) (th : MemoryLoginThrottle)
  : MemoryLoginThrottle * Result (option AuthContext) :=
  static_authenticate self username password (set_instant t th).

Fixpoint attempts_at (tries : list (Z * str)) (th : MemoryLoginThrottle)
  : MemoryLoginThrottle :=
  match tries with
  | [] => th
  | (t, password) :: tries' => attempts_at tries' (fst (attempt_at t password th))
  end.

Definition wrong (try : Z * str) : Prop := static_matches self username (snd try) = Ok false.

(** [k] failures are on record and the account is open. *)
Definition counted (k : Z) (th : MemoryLoginThrottle) : Prop :=
  default (mkAttemptState 0 None) (attempts th !! to_ascii_lowercase username) =
  mkAttemptState k None.

Lemma is_blocked_counted k th : counted k th -> memory_is_blocked username th = (th, Ok false).
Proof.
  unfold counted, memory_is_blocked.
  destruct (attempts th !! to_ascii_lowercase username); simpl; [by intros ->|done].
Qed.

(** A wrong attempt counts one more failure, or locks at the limit. *)
Lemma wrong_attempt k th t password :
  counted k th -> 0 <= k < max_failures th -> max_failures th <= u32_max ->
  wrong (t, password) ->
  exists th', attempt_at t password th = (th', Ok None) /\
    max_failures th' = max_failures th /\ lockout th' = lockout th /\
    if k + 1 =? max_failures th
    then attempts th' !! to_ascii_lowercase username =
         Some (mkAttemptState 0 (Some (t + lockout th)))
    else counted (k + 1) th'.
Proof.
  intros Hk Hlt Hmax Hw. unfold attempt_at, static_authenticate.
  assert (Hk' : counted k (set_instant t th)) by exact Hk.
  erewrite bind_Ok by (simpl; by apply is_blocked_counted with k).
  cbn match. erewrite bind_Ok by (unfold lift; by rewrite Hw). cbn match.
  unfold bind. simpl record_failure. unfold memory_record_failure, counted in *.
  rewrite Hk'. cbn [blocked_until failures max_failures lockout instant_now set_instant].
  unfold saturating_succ_u32. rewrite Z.min_l by lia.
  eexists. split; [reflexivity|].
  split; [done|]. split; [done|]. simpl.
  destruct (Z.eqb_spec (k + 1) (max_failures th)) as [He|Hne].
  - rewrite lookup_insert_eq. destruct (Z.leb_spec (max_failures th) (k + 1)); [done|lia].
  - rewrite lookup_insert_eq. destruct (Z.leb_spec (max_failures th) (k + 1)); [lia|done].
Qed.

Lemma wrong_attempts k th tries :
  counted k th -> 0 <= k -> max_failures th <= u32_max -> Forall wrong tries ->
  k + Z.of_nat (length tries) < max_failures th ->
  counted (k + Z.of_nat (length tries)) (attempts_at tries th) /\
  max_failures (attempts_at tries th) = max_failures th /\
  lockout (attempts_at tries th) = lockout th.
Proof.
  revert k th. induction tries as [|[t password] tries IH]; intros k th Hk H0 Hmax Hw Hlen.
  - simpl. by rewrite Z.add_0_r.
  - inversion_clear Hw as [|?? Hw1 Hw2]. simpl length in *.
    destruct (wrong_attempt k th t password) as (th' & E & Hm & Hl & Hc); [done|lia|done|done|].
    rewrite (proj2 (Z.eqb_neq _ _)) in Hc by lia.
    simpl. rewrite E. simpl. replace (k + Z.of_nat (S (length tries)))
      with (k + 1 + Z.of_nat (length tries)) by lia.
    rewrite <- Hm, <- Hl. apply IH; [done|lia|lia|done|lia].
Qed.

Lemma attempts_at_app tries1 tries2 th :
  attempts_at (tries1 ++ tries2) th = attempts_at tries2 (attempts_at tries1 th).
Proof. revert th. induction tries1 as [|[t p] l IH]; intros th; simpl; [done|apply IH]. Qed.

End Lockout.

(** ** Who may log in *)
Section PostgresLogin.
Context {T : Type} `{LoginThrottle T} `{Crypto} `{PgText}.
Implicit Types s : @AuthState T.

Lemma on_throttle_inv {A} (m : M Error T A) s s' r :
  on_throttle m s = (s', r) -> auth_world s' = auth_world s.
Proof.
  unfold on_throttle, zoom. destruct (m (auth_throttle s)) as [t r0]. by intros [= <- _].
Qed.

Lemma on_repository_query_inv {A} (f : Database -> A) s s' a :
  on_repository (query f) s = (s', Ok a) -> s' = s /\ a = f (w_db (auth_world s)).
Proof. unfold on_repository, zoom, query, gets. destruct s. by intros [= <- <-]. Qed.

(** An account a login may be given: enabled, and either named like the login
    or owned by the user. *)
Definition login_account (db : Database) (user_id : Z) (username : str) (a : Z) : Prop :=
  exists row, In row (mail_accounts db) /\ MailAccountRow_id row = a /\
    MailAccountRow_disabled_at row = None /\
    (same_lower (MailAccountRow_email_address row) username = true \/
     MailAccountRow_user_id row = user_id).

Lemma account_for_login_sound user_id username w w' a :
  account_for_login user_id username w = (w', Ok (Some a)) ->
  login_account (w_db w) user_id username a.
Proof.
  unfold account_for_login, find_account_by_email_address, list_accounts_for_user, login_account.
  unfold bind, query, gets, lift, ret, order_by_desc. simpl.
  destruct (head (sort_by _ _)) as [row|] eqn:Eh; simpl.
  - apply head_order_In in Eh as [Hin Hp]. b2p.
    destruct (MailAccount_try_from row) as [acc|e|] eqn:Et; simpl; [|done|done].
    intros [= <- <-]. exists row. apply MailAccount_try_from_id in Et.
    split_and!; [done|done|by destruct (MailAccountRow_disabled_at row)|by left].
  - destruct (collect_results _ _) as [accs|e|] eqn:Ec; [|done|done].
    destruct accs as [|acc [|]]; [done| |done]. intros [= <- <-].
    apply collect_results_In with (b := acc) in Ec as (row & Hin & Et); [|by left].
    apply sort_by_In, select_In in Hin as [Hin Hp]. b2p.
    exists row. apply MailAccount_try_from_id in Et.
    split_and!; [done|done|by destruct (MailAccountRow_disabled_at row)|by right].
Qed.

(** C30 A PostgreSQL-backed login succeeds only for a stored user that is not
    disabled and whose password hash verifies; the session gets that user's id
    and name, and an account, if it gets one, that is enabled and either has
    the login name as its address or belongs to the user. *)
Theorem postgres_login_sound username password s s' context :
  postgres_authenticate username password s = (s', Ok (Some context)) ->
  let db := w_db (auth_world s) in
  exists row, In row (users db) /\
    same_lower (UserRow_username_email row) username = true /\
    UserRow_disabled_at row = None /\
    verify_password (UserRow_password_hash row) password = Ok true /\
    AuthContext_user_id context = UserRow_id row /\
    AuthContext_username context = UserRow_username_email row /\
    match AuthContext_account_id context with
    | Some a => login_account db (UserRow_id row) username a
    | None => True
    end.
Proof.
  intros E. unfold postgres_authenticate in E.
  inv_bind E. apply on_throttle_inv in Hstep.
  destruct x; [done|]. inv_bind E. unfold find_user_by_username in Hstep0.
  apply on_repository_query_inv in Hstep0 as [-> ->]. rewrite Hstep in E. unfold order_by_desc in E.
  destruct (head (sort_by _ (select _ _))) as [row|] eqn:Eh; simpl in E.
  2: { inv_bind E. by inv_bind E. }
  destruct (UserRow_disabled_at row) eqn:Ed; simpl in E; [by inv_bind E|].
  inv_bind E. unfold lift in Hstep0. injection Hstep0 as <- Hv.
  destruct x; simpl in E; [|inv_bind E; by inv_bind E].
  inv_bind E. apply on_throttle_inv in Hstep0. inv_bind E. inv_bind E. injection E as <- <-.
  apply head_order_In in Eh as [Hin Hl]. exists row. simpl. split_and!; try done.
  unfold on_repository, zoom in Hstep1.
  destruct (account_for_login _ _ _) as [w' r] eqn:Ea in Hstep1.
  injection Hstep1 as <- ->. destruct x0 as [a|]; [|done].
  apply account_for_login_sound in Ea. by rewrite Hstep0, Hstep in Ea.
Qed.
End PostgresLogin.

(** ** Witnesses *)
Module AuthWitness.

#[local] Existing Instances ToyCrypto.crypto ToyCrypto.crypto_laws.
#[local] Instance pg_text : PgText :=
{ pg_lower := to_ascii_lowercase; pg_text_leb := fun _ _ => true }.

Definition alice : StaticAuthenticator :=
mkStaticAuthenticator (lit "Alice@example.com") (lit "secret") 1.


Definition db : Database :=
set_mail_accounts
  [mkMailAccountRow 4 9 (lit "A") (lit "alice@example.com") (lit "imap.example.com") 993
     (lit "tls") (lit "login") [] [] 0 None None None]
(set_users [mkUserRow 9 (lit "alice@example.com") (lit "secret") 0 None] empty_database).
Definition world : World := mkWorld db (fun _ => 0) 100 true [].
Definition st : @AuthState MemoryLoginThrottle := mkAuthState world (with_limits 5 60 0).

Lemma postgres_login_sound_witness :
exists row, In row (users db) /\ UserRow_disabled_at row = None /\ UserRow_id row = 9.
Proof.
destruct (postgres_login_sound (lit "ALICE@example.com") (lit "secret") st
            (fst (postgres_authenticate (lit "ALICE@example.com") (lit "secret") st))
            (mkAuthContext 9 (Some 4) (lit "alice@example.com")))
  as (row & Hin & _ & Hd & _ & Hid & _); [by vm_compute|].
by exists row.
Defined.

End AuthWitness.
