(* ===== verification/Mime.v ===== *)
(** * Parsed messages

    The records of crates/mime/src/lib.rs that the ingestor consumes, and
    [extract_part_bytes].  [parse_message] is the class [MimeParser] here; the
    file MimeTree has the one that stands on the mailparse crate. *)

From stdpp Require Import base strings list.
From Stdlib Require Import ZArith Lia.
From S2P Require Import Prelude RustStr Domain.

Local Open Scope Z_scope.

Record MimePartRecord : Type := mkMimePartRecord {
  MimePartRecord_part_path : str;
  MimePartRecord_content_type : str;
  MimePartRecord_charset : option str;
  MimePartRecord_disposition : option str;
  MimePartRecord_filename : option str;
  MimePartRecord_content_id : option str;
  MimePartRecord_size_octets : Z;
  MimePartRecord_blob_key : str;
  MimePartRecord_sha256 : str;
  MimePartRecord_transfer_encoding : option str;
  MimePartRecord_metadata_json : Value;
  MimePartRecord_raw_bytes : bytes
}.

Record ParsedMessage : Type := mkParsedMessage {
  ParsedMessage_raw_sha256 : str;
  ParsedMessage_size_octets : Z;
  ParsedMessage_message_id_header : option str;
  ParsedMessage_subject : option str;
  ParsedMessage_from_json : Value;
  ParsedMessage_to_json : Value;
  ParsedMessage_cc_json : Value;
  ParsedMessage_bcc_json : Value;
  ParsedMessage_reply_to_json : Value;
  ParsedMessage_envelope_json : Value;
  ParsedMessage_bodystructure_json : Value;
  ParsedMessage_text_preview : option str;
  ParsedMessage_mime_parts : list MimePartRecord
}.

Class MimeParser : Type := { parse_message : bytes -> Result ParsedMessage }.

Definition extract_part_bytes `{MimeParser} (raw : bytes) (part_path : str)
  : Result (option bytes) :=
  try! parsed <- parse_message raw ;;
  Ok (MimePartRecord_raw_bytes <$>
      List.find (fun part => str_eqb (MimePartRecord_part_path part) part_path)
        (ParsedMessage_mime_parts parsed)).
