(* ===== verification/Search.v ===== *)
(** * Search documents

    Models the part of crates/search/src/lib.rs the ingestor goes through: the
    document made of a parsed message and its address lists.  The index behind
    it (Tantivy) is the class [SearchBackend]. *)

From stdpp Require Import base strings list.
From Stdlib Require Import ZArith Lia Sorting.Sorted.
From S2P Require Import Prelude RustStr Domain SearchQuery Mime.

Local Open Scope Z_scope.

Record SearchDocument : Type := mkSearchDocument {
  SearchDocument_uid : Z;
  SearchDocument_subject : option str;
  SearchDocument_from : list str;
  SearchDocument_to : list str;
  SearchDocument_cc : list str;
  SearchDocument_bcc : list str;
  SearchDocument_message_id : option str;
  SearchDocument_reply_to : list str;
  SearchDocument_body : str
}.

(** [v.sort_unstable(); v.dedup();] on strings. *)
Definition sort_dedup (l : list str) : list str := dedup (sort_by str_leb l).

Fixpoint collect_addresses (value : Value) : list str :=
  match value with
  | Array items => flat_map collect_addresses items
  | Object fields =>
      match assoc (lit "address") fields with
      | Some (VString address) => [address]
      | _ => []
      end ++
      (fix members (fields : list (str * Value)) : list str :=
         match fields with
         | [] => []
         | (k, v) :: fields' =>
             if str_eqb (lit "members") k then collect_addresses v else members fields'
         end) fields
  | _ => []
  end.

Definition addresses_from_value (value : Value) : list str :=
  sort_dedup (collect_addresses value).

Definition SearchDocument_from_parsed_message (uid : Z) (parsed : ParsedMessage)
  : SearchDocument :=
  mkSearchDocument uid (ParsedMessage_subject parsed)
    (addresses_from_value (ParsedMessage_from_json parsed))
    (addresses_from_value (ParsedMessage_to_json parsed))
    (addresses_from_value (ParsedMessage_cc_json parsed))
    (addresses_from_value (ParsedMessage_bcc_json parsed))
    (ParsedMessage_message_id_header parsed)
    (addresses_from_value (ParsedMessage_reply_to_json parsed))
    (default [] (ParsedMessage_text_preview parsed)).

Class SearchBackend (X : Type) : Type := {
  index_message : str -> SearchDocument -> M Error X unit;
  backend_search : str -> SearchQuery -> M Error X (list Z)
}.

(** ** The order on strings *)
Lemma str_leb_total a b : str_leb a b = true \/ str_leb b a = true.
Proof.
  revert b. induction a as [|x a IH]; intros [|y b]; simpl; auto.
  destruct (Z.eqb_spec x y) as [->|Hxy].
  - rewrite Z.eqb_refl. apply IH.
  - destruct (Z.eqb_spec y x); [congruence|].
    rewrite !Z.ltb_lt. lia.
Qed.

Lemma str_leb_trans a b c : str_leb a b = true -> str_leb b c = true -> str_leb a c = true.
Proof.
  revert b c. induction a as [|x a IH]; intros [|y b] [|z c]; simpl; try done.
  destruct (Z.eqb_spec x y) as [->|Hxy].
  - destruct (Z.eqb_spec y z) as [->|Hyz]; [apply IH|done].
  - destruct (Z.eqb_spec y z) as [->|Hyz].
    + destruct (Z.eqb_spec x z); [congruence|done].
    + rewrite !Z.ltb_lt. intros H1 H2. destruct (Z.eqb_spec x z); [lia|].
      apply Z.ltb_lt. lia.
Qed.

Lemma str_leb_antisym a b : str_leb a b = true -> str_leb b a = true -> a = b.
Proof.
  revert b. induction a as [|x a IH]; intros [|y b]; simpl; try done.
  destruct (Z.eqb_spec x y) as [->|Hxy].
  - rewrite Z.eqb_refl. intros H1 H2. f_equal. by apply IH.
  - destruct (Z.eqb_spec y x); [congruence|]. rewrite !Z.ltb_lt. lia.
Qed.

(** Two strictly sorted lists with the same members are equal. *)
Lemma sorted_str_ext (l1 l2 : list str) :
  let R a b := le_rel str_leb a b /\ a <> b in
  StronglySorted R l1 -> StronglySorted R l2 ->
  (forall s, In s l1 <-> In s l2) -> l1 = l2.
Proof.
  intros R. revert l2. induction l1 as [|x l1 IH]; intros l2 H1 H2 Hiff.
  - destruct l2 as [|y l2]; [done|]. destruct (proj2 (Hiff y)); by left.
  - destruct l2 as [|y l2]; [destruct (proj1 (Hiff x)); by left|].
    inversion_clear H1 as [|?? H1' Hx]. inversion_clear H2 as [|?? H2' Hy].
    rewrite List.Forall_forall in Hx, Hy.
    assert (x = y) as ->.
    { destruct (proj1 (Hiff x)) as [->|Hxy]; [by left|done|].
      destruct (proj2 (Hiff y)) as [->|Hyx]; [by left|done|].
      apply Hy in Hxy as [Hxy _]. apply Hx in Hyx as [Hyx _]. by apply str_leb_antisym. }
    f_equal. apply IH; [done..|]. intros z. split; intros Hz.
    + destruct (proj1 (Hiff z)) as [->|]; [by right| |done].
      apply Hx in Hz as [_ Hz]. congruence.
    + destruct (proj2 (Hiff z)) as [->|]; [by right| |done].
      apply Hy in Hz as [_ Hz]. congruence.
Qed.

(** Sorting and deduplicating keeps the set of members and depends on nothing
    else. *)
Lemma sort_dedup_eq l1 l2 : sort_dedup l1 = sort_dedup l2 <-> (forall s, In s l1 <-> In s l2).
Proof.
  assert (HI : forall l s, In s (sort_dedup l) <-> In s l).
  { intros l s. unfold sort_dedup. rewrite dedup_In. apply sort_by_In. }
  split.
  - intros E s. rewrite <- (HI l1), <- (HI l2). by rewrite E.
  - intros Hiff. apply sorted_str_ext.
    1, 2: apply dedup_sorted; [apply str_leb_antisym|];
      apply sort_by_sorted; [apply str_leb_total|apply str_leb_trans].
    intros s. rewrite !HI. apply Hiff.
Qed.
