(* ===== verification/Scenario.v ===== *)
(** * A concrete database, for witnesses

    The state after a series of repository calls: a user with one account, an
    INBOX with three messages (one of them appended locally, without an upstream
    UID) and an empty Archive.  [pg_text] and [uuid_text] are concrete choices
    for the locale and the UUID parser. *)

From stdpp Require Import base strings list relations.
From Stdlib Require Import ZArith Lia.
From S2P Require Import Prelude RustStr Domain Notifications Schema RepoCore Security RepoAccounts RepoMailboxes RepoMessages RepoQueue Search Invariant Integrity.

Local Open Scope Z_scope.

#[export] Instance pg_text : PgText :=
  { pg_lower := to_ascii_lowercase; pg_text_leb := str_leb }.
#[export] Instance uuid_text : UuidText := { uuid_parse := inl }.
#[export] Existing Instances ToyCrypto.crypto ToyCrypto.crypto_laws.

Definition secrets : SecretBox := SecretBox_from_passphrase (lit "passphrase").
Definition nonce : bytes := replicate 24 1.
Definition account : NewMailAccount :=
  mkNewMailAccount 1 (lit "Alice") (lit "alice@example.com") (lit "imap.example.com") 993 Tls
    Login (lit "alice") (lit "hunter2").
Definition mailbox (name : str) (uidvalidity : option Z) : NewMailbox :=
  mkNewMailbox 1 name (to_ascii_lowercase name) (Some (lit "/")) [] true None uidvalidity None
    None 0 0 0.
Definition blob (n : Z) : str := lit "Rfc822/" ++ fmt_u n.
Definition message (n : Z) : NewMessage :=
  mkNewMessage 1 (blob n) (fmt_u n) None None Null Null Null Null Null Null Null None None 100
    None.
Definition row (mailbox_id message_id local_uid : Z) (upstream_uid : option Z)
  (flags : list str) : NewMailboxMessage :=
  mkNewMailboxMessage mailbox_id message_id local_uid upstream_uid None flags [] false None.
Definition cached (n : Z) : NewCacheObject :=
  mkNewCacheObject (Some 1) (lit "rfc822") (blob n) (fmt_u n) 100 1 (Some 1000).

Definition seen : str := 92 :: lit "Seen".

Definition calls : list RepoCall :=
  [ CreateUser (mkNewUser (lit "alice@example.com") (lit "secret"));
    CreateMailAccount secrets nonce nonce account;
    CreateMailbox (mailbox (lit "INBOX") (Some 7));
    CreateMailbox (mailbox (lit "Archive") None);
    UpsertMessage (message 1); UpsertMessage (message 2); UpsertMessage (message 3);
    UpsertMailboxMessage (row 1 1 1 (Some 1) [seen]);
    UpsertMailboxMessage (row 1 2 2 (Some 2) []);
    UpsertMailboxMessage (row 1 3 0 None []);
    UpsertCacheObject (cached 1); UpsertCacheObject (cached 2); UpsertCacheObject (cached 3) ].

Definition world0 : World := mkWorld empty_database (fun _ => 0) 1000 true [].
Definition world : World := run_calls calls world0.

Lemma world_reachable : rtc repo_step world0 world.
Proof. apply run_calls_reachable. Qed.

Lemma world_ok : db_ok (w_db world) (w_seq world).
Proof. apply (db_ok_reachable world0 world); [apply db_ok_empty|apply world_reachable]. Qed.

(** Its rows. *)
Definition inbox_row : MailboxRow :=
  mkMailboxRow 1 1 (lit "INBOX") (lit "inbox") (Some (lit "/")) [] true None (Some 7) None
    (Some 3) 0 0 0 1000 1000.
Definition r1 : MailboxMessageRow :=
  mkMailboxMessageRow 1 1 1 1 (Some 1) (Some 1) [seen] [] false None 1000 1000.
Definition r2 : MailboxMessageRow :=
  mkMailboxMessageRow 2 1 2 2 (Some 2) (Some 2) [] [] false None 1000 1000.
Definition r3 : MailboxMessageRow :=
  mkMailboxMessageRow 3 1 3 3 None (Some 3) [] [] false None 1000 1000.

Lemma world_rows : mailbox_messages (w_db world) = [r1; r2; r3].
Proof. by vm_compute. Qed.

Lemma world_inbox : In inbox_row (mailboxes (w_db world)).
Proof. vm_compute. by left. Qed.

