(* ===== verification/MessageSpecs.v ===== *)
(** * What the message operations promise

    Functional specifications of the message methods of the repository on a
    sound database: listing and sequence numbers, UID and mod-sequence
    allocation, flag updates, deletion, and where the allocation falls short of
    what IMAP asks. *)

From stdpp Require Import base strings list.
From Stdlib Require Import ZArith Lia Permutation Sorting.Sorted.
From S2P Require Import Prelude RustStr Domain Notifications Schema RepoCore Security RepoAccounts RepoMailboxes RepoMessages RepoQueue Invariant Integrity Scenario.

Local Open Scope Z_scope.

(** ** Listing *)

(** Live rows of a mailbox have distinct UIDs. *)
Lemma live_uids_NoDup mb rows :
  keys_ok key_local_uid rows -> NoDup (map MailboxMessageRow_local_uid (select (live_in mb) rows)).
Proof.
  unfold keys_ok. induction rows as [|r rows IH]; csimpl; [intros; constructor|].
  intros Hnd. apply NoDup_cons in Hnd as [Hr Hnd]. unfold select. simpl.
  destruct (live_in mb r) eqn:E; [|by apply IH]. simpl. constructor; [|by apply IH].
  rewrite list_elem_of_In. intros Hin. apply in_map_iff in Hin as (r' & Eu & Hr').
  apply select_In in Hr' as [Hr' E']. unfold live_in in E, E'. b2p.
  apply Hr, list_elem_of_omap. exists r'. split; [by apply list_elem_of_In|].
  unfold key_local_uid. congruence.
Qed.

Lemma mailbox_rows_strict mb db seq :
  db_ok db seq -> StronglySorted (key_lt MailboxMessageRow_local_uid) (mailbox_rows mb db).
Proof.
  intros Hok. destruct (ok_mailbox_messages _ _ Hok) as (_ & Hk & _).
  by apply order_by_strict, live_uids_NoDup.
Qed.

Lemma mailbox_rows_In mb db r :
  In r (mailbox_rows mb db) <-> In r (mailbox_messages db) /\ live_in mb r = true.
Proof. unfold mailbox_rows. rewrite order_by_In. apply select_In. Qed.

Lemma sequence_number_rank mb uid db :
  count (fun r => live_in mb r && (MailboxMessageRow_local_uid r <? uid)) (mailbox_messages db) =
  Z.of_nat (length (select (fun r => MailboxMessageRow_local_uid r <? uid) (mailbox_rows mb db))).
Proof.
  change (Z.of_nat (length (select (fun r => MailboxMessageRow_local_uid r <? uid)
    (mailbox_rows mb db)))) with (count (fun r => MailboxMessageRow_local_uid r <? uid)
    (mailbox_rows mb db)).
  unfold mailbox_rows.
  rewrite <- (count_perm _ _ _ (order_by_perm MailboxMessageRow_local_uid _)).
  unfold count. by rewrite select_select.
Qed.

(** The sequence number the repository reports for a live message is its
    1-based position in the mailbox listing, and the listing is the live
    messages of the mailbox in strictly increasing UID order. *)
Theorem sequence_number_is_list_position mb r w :
  db_ok (w_db w) (w_seq w) -> In r (mailbox_messages (w_db w)) -> live_in mb r = true ->
  exists n ms,
    mailbox_sequence_number_in_tx mb (MailboxMessageRow_local_uid r) w =
      (w, Ok (Z.of_nat n + 1)) /\
    list_mailbox_messages mb w = (w, Ok ms) /\
    ms !! n = Some (MailboxMessage_from r) /\
    StronglySorted (key_lt MailboxMessage_local_uid) ms /\
    (forall m, In m ms <-> exists r', In r' (mailbox_messages (w_db w)) /\
                             live_in mb r' = true /\ m = MailboxMessage_from r').
Proof.
  intros Hok Hin Hlive. pose proof (mailbox_rows_strict mb _ _ Hok) as Hs.
  eexists _, _. split_and!.
  - unfold mailbox_sequence_number_in_tx. erewrite bind_Ok by reflexivity.
    rewrite sequence_number_rank. reflexivity.
  - reflexivity.
  - rewrite list_lookup_fmap. rewrite lookup_rank; [done|done|by apply mailbox_rows_In].
  - clear Hin. induction Hs as [|x l Hs IH Hall]; simpl; constructor; [done|].
    apply List.Forall_forall. intros m Hm. apply in_map_iff in Hm as (r' & <- & Hr').
    rewrite List.Forall_forall in Hall. by apply Hall.
  - intros m. rewrite in_map_iff. split.
    + intros (r' & <- & Hr'). apply mailbox_rows_In in Hr' as []. eauto.
    + intros (r' & Hr' & Hl' & ->). exists r'. by rewrite mailbox_rows_In.
Qed.

Lemma sequence_number_is_list_position_witness :
  exists n ms, mailbox_sequence_number_in_tx 1 2 world = (world, Ok (Z.of_nat n + 1)) /\
               list_mailbox_messages 1 world = (world, Ok ms).
Proof.
  destruct (sequence_number_is_list_position 1
    r2 world) as (n & ms & H1 & H2 & _).
  - exact world_ok.
  - rewrite world_rows. right. left. reflexivity.
  - reflexivity.
  - exists n, ms. split; [exact H1|exact H2].
Defined.

(** ** Mod-sequences *)
Definition highestmodseq (r : MailboxRow) : Z := default 0 (MailboxRow_highestmodseq r).

(** The state with the mailbox's [highestmodseq] set. *)
Definition with_modseq (mb v : Z) (w : World) : World :=
  set_db (set_mailboxes (update (mailbox_by_id mb) (set_row_highestmodseq (Some v) (w_now w))
                           (mailboxes (w_db w))) (w_db w)) w.

Lemma assign_modseq_next mrow w :
  db_ok (w_db w) (w_seq w) -> In mrow (mailboxes (w_db w)) ->
  0 <= highestmodseq mrow < i64_max ->
  assign_mailbox_modseq (MailboxRow_id mrow) None w =
  (with_modseq (MailboxRow_id mrow) (highestmodseq mrow + 1) w, Ok (highestmodseq mrow + 1)).
Proof.
  intros Hok Hin Hrange. unfold assign_mailbox_modseq. erewrite bind_Ok by reflexivity.
  erewrite select_mailbox by done. erewrite bind_Ok by reflexivity.
  fold (highestmodseq mrow). cbv zeta.
  assert (saturating_add_i64 (highestmodseq mrow) 1 = highestmodseq mrow + 1) as ->.
  { unfold saturating_add_i64, i64_min, i64_max in *. lia. }
  rewrite Z.max_l by lia.
  destruct (Z.eqb_spec (highestmodseq mrow + 1) (highestmodseq mrow)); [lia|]. reflexivity.
Qed.

Lemma with_modseq_mailbox mb v w mrow :
  In mrow (mailboxes (w_db w)) -> MailboxRow_id mrow = mb ->
  In (set_row_highestmodseq (Some v) (w_now w) mrow) (mailboxes (w_db (with_modseq mb v w))).
Proof.
  intros Hin <-. apply update_In. exists mrow. split; [done|].
  unfold mailbox_by_id. by rewrite Z.eqb_refl.
Qed.

Lemma account_of_mailbox mrow w :
  db_ok (w_db w) (w_seq w) -> In mrow (mailboxes (w_db w)) ->
  account_id_for_mailbox (MailboxRow_id mrow) w = (w, Ok (Some (MailboxRow_account_id mrow))).
Proof.
  intros Hok Hin. unfold account_id_for_mailbox, query, gets. by erewrite select_mailbox.
Qed.

(** ** Updating flags *)

(** What the sink is told about a message. *)
Definition message_event (w : World) (mrow : MailboxRow) (row : MailboxMessageRow)
  (flags : list str) (detail : str) : MutationEvent :=
  message_changed_with_context (w_now w) (Some (MailboxRow_account_id mrow))
    (Some (MailboxRow_id mrow)) (Some (MailboxMessageRow_message_id row))
    (Some (MailboxMessageRow_local_uid row))
    (Some (count (fun r => live_in (MailboxRow_id mrow) r &&
                           (MailboxMessageRow_local_uid r <? MailboxMessageRow_local_uid row))
             (mailbox_messages (w_db w)) + 1))
    flags detail.

Lemma publish_event_spec event w :
  publish_event event w =
  (mkWorld (w_db w) (w_seq w) (w_now w) (w_sink w)
     (if w_sink w then w_events w ++ [event] else w_events w), Ok tt).
Proof. unfold publish_event, modify. destruct w as [db seq t [] evs]; done. Qed.

Section UpdateFlags.
Variables (mrow : MailboxRow) (row : MailboxMessageRow) (flags : list str) (w : World).
Hypothesis Hok : db_ok (w_db w) (w_seq w).
Hypothesis Hmailbox : In mrow (mailboxes (w_db w)).
Hypothesis Hrow : In row (mailbox_messages (w_db w)).
Hypothesis Hlive : live_uid (MailboxRow_id mrow) (MailboxMessageRow_local_uid row) row = true.
Hypothesis Hrange : 0 <= highestmodseq mrow < i64_max.

Local Abbreviation mb := (MailboxRow_id mrow).
Local Abbreviation uid := (MailboxMessageRow_local_uid row).
Local Abbreviation modseq := (highestmodseq mrow + 1).
Local Abbreviation f := (set_row_flags flags modseq (w_now w)).

(** The state after the transaction. *)
Definition flags_written : World :=
  set_db (set_mailbox_messages (update (live_uid mb uid) f (mailbox_messages (w_db w)))
            (w_db (with_modseq mb modseq w))) (with_modseq mb modseq w).

Lemma row_mailbox : MailboxMessageRow_mailbox_id row = mb.
Proof using Hlive. apply live_uid_key in Hlive. by injection Hlive. Qed.

Lemma flags_tx_run :
  transaction (flags_tx mb uid flags) w =
  (flags_written, Ok (Some (f row, count (fun r => live_in mb r &&
    (MailboxMessageRow_local_uid r <? uid)) (mailbox_messages (w_db w)) + 1))).
Proof using All.
  unfold transaction, flags_tx. erewrite bind_Ok by (by apply assign_modseq_next).
  erewrite bind_Ok by reflexivity. cbv zeta. erewrite bind_Ok by reflexivity.
  change (mailbox_messages (w_db (with_modseq mb modseq w))) with (mailbox_messages (w_db w)).
  erewrite select_live_uid by done. erewrite bind_Ok by reflexivity. cbn [map head].
  unfold mailbox_sequence_number_in_tx. rewrite bind_assoc. erewrite bind_Ok by reflexivity.
  cbn [MailboxMessageRow_mailbox_id MailboxMessageRow_local_uid set_row_flags].
  rewrite row_mailbox. erewrite bind_Ok by reflexivity. unfold ret. cbn [w_db set_db].
  cbn [mailbox_messages set_mailbox_messages]. by rewrite count_update.
Qed.

Lemma account_after_flags :
  account_id_for_mailbox mb flags_written =
  (flags_written, Ok (Some (MailboxRow_account_id mrow))).
Proof using All.
  unfold account_id_for_mailbox, query, gets.
  change (mailboxes (w_db flags_written)) with
    (update (mailbox_by_id mb) (set_row_highestmodseq (Some modseq) (w_now w))
       (mailboxes (w_db w))).
  rewrite select_update by done. erewrite select_mailbox by done.
  simpl. unfold mailbox_by_id. by rewrite Z.eqb_refl.
Qed.

Lemma update_flags_run :
  update_mailbox_message_flags mb uid flags w =
  (mkWorld (w_db flags_written) (w_seq w) (w_now w) (w_sink w)
     (if w_sink w
      then w_events w ++ [message_event w mrow row flags (lit "update_mailbox_message_flags")]
      else w_events w),
   Ok (Some (MailboxMessage_from (f row)))).
Proof using All.
  unfold update_mailbox_message_flags. erewrite bind_Ok by exact flags_tx_run. cbv beta iota.
  change (MailboxMessageRow_mailbox_id (f row)) with (MailboxMessageRow_mailbox_id row).
  rewrite row_mailbox. erewrite bind_Ok by exact account_after_flags.
  erewrite bind_Ok by reflexivity. erewrite bind_Ok by (apply publish_event_spec). done.
Qed.
End UpdateFlags.

(** C19 Updating the flags of a live message of a sound database succeeds and
    returns the message with the new flags and a mod-sequence one above the
    mailbox's previous highest, which becomes the mailbox's highest; no other
    message row changes; and the sink is told the message's flags and its
    1-based position in the mailbox. *)
Theorem update_flags_spec mrow row flags w :
  db_ok (w_db w) (w_seq w) -> In mrow (mailboxes (w_db w)) ->
  In row (mailbox_messages (w_db w)) ->
  live_uid (MailboxRow_id mrow) (MailboxMessageRow_local_uid row) row = true ->
  0 <= highestmodseq mrow < i64_max ->
  let modseq := highestmodseq mrow + 1 in
  let row' := mkMailboxMessageRow (MailboxMessageRow_id row) (MailboxMessageRow_mailbox_id row)
    (MailboxMessageRow_message_id row) (MailboxMessageRow_local_uid row)
    (MailboxMessageRow_upstream_uid row) (Some modseq) flags (MailboxMessageRow_keywords row)
    (MailboxMessageRow_is_expunged row) (MailboxMessageRow_expunged_at row)
    (MailboxMessageRow_created_at row) (w_now w) in
  exists w',
    update_mailbox_message_flags (MailboxRow_id mrow) (MailboxMessageRow_local_uid row) flags w =
      (w', Ok (Some (MailboxMessage_from row'))) /\
    (forall r, In r (mailbox_messages (w_db w')) <->
               r = row' \/ In r (mailbox_messages (w_db w)) /\ r <> row) /\
    (exists mrow', In mrow' (mailboxes (w_db w')) /\ MailboxRow_id mrow' = MailboxRow_id mrow /\
       MailboxRow_highestmodseq mrow' = Some modseq) /\
    (w_sink w = true ->
     w_events w' = w_events w ++
       [message_event w mrow row flags (lit "update_mailbox_message_flags")]).
Proof.
  intros Hok Hm Hr Hl Hrange modseq row'. eexists. split; [by apply update_flags_run|].
  split; [|split].
  - intros r. simpl. rewrite update_In. split.
    + intros (r0 & Hr0 & ->). destruct (live_uid _ _ r0) eqn:E.
      * left. unfold row'. do 2 f_equal.
        assert (In r0 [row]) as [<-|[]]; [|done].
        erewrite <- select_live_uid by done. by apply select_In.
      * right. split; [done|]. intros ->. congruence.
    + intros [->|[Hr0 Hne]].
      * exists row. by rewrite Hl.
      * exists r. split; [done|]. destruct (live_uid _ _ r) eqn:E; [|done]. exfalso. apply Hne.
        assert (In r [row]) as [<-|[]]; [|done].
        erewrite <- select_live_uid by done. by apply select_In.
  - exists (set_row_highestmodseq (Some modseq) (w_now w) mrow).
    split; [apply (with_modseq_mailbox _ _ w); done|done].
  - simpl. by intros ->.
Qed.

Lemma update_flags_spec_witness : exists w',
  update_mailbox_message_flags 1 2 [seen] world =
    (w', Ok (Some (mkMailboxMessage 2 1 2 2 (Some 2) (Some 4) [seen] [] false None 1000 1000))).
Proof.
  destruct (update_flags_spec inbox_row r2 [seen] world) as (w' & E & _).
  - exact world_ok.
  - exact world_inbox.
  - rewrite world_rows. right. left. reflexivity.
  - reflexivity.
  - unfold i64_max, highestmodseq. simpl. lia.
  - exists w'. exact E.
Defined.

(** ** Allocating UIDs *)
Lemma select_next_uid_inv mb w w' u :
  select_next_uid mb w = (w', Ok u) ->
  w' = w /\ u = (fun m => m + 1) <$>
    sql_max MailboxMessageRow_local_uid (select (live_in mb) (mailbox_messages (w_db w))).
Proof.
  unfold select_next_uid. intros H. inv_bind H. injection Hstep as <- <-.
  destruct (sql_max _ _) as [m|]; [|by injection H as <- <-].
  unfold bigint in H. destruct (in_i64 (m + 1)); [|done]. by injection H as <- <-.
Qed.

(** The next UID is above every live one. *)
Lemma next_uid_fresh mb w w' u r :
  select_next_uid mb w = (w', Ok u) -> In r (mailbox_messages (w_db w)) -> live_in mb r = true ->
  MailboxMessageRow_local_uid r < default 1 u.
Proof.
  intros H Hr Hl. apply select_next_uid_inv in H as [_ ->].
  assert (Hin : In r (select (live_in mb) (mailbox_messages (w_db w)))) by (by apply select_In).
  destruct (sql_max _ _) as [m|] eqn:E; simpl.
  - apply (sql_max_ge _ _ _ r) in E; [lia|done].
  - apply sql_max_None in E. by rewrite E in Hin.
Qed.

Lemma assign_uid_inv mb w w' u :
  assign_mailbox_local_uid mb w = (w', Ok u) ->
  w' = w /\ (forall r, In r (mailbox_messages (w_db w)) -> live_in mb r = true ->
                      MailboxMessageRow_local_uid r < u).
Proof.
  unfold assign_mailbox_local_uid. intros H. inv_bind H. injection Hstep as <- <-.
  inv_bind H. destruct (select (mailbox_by_id mb) (mailboxes (w_db w))); [done|].
  injection Hstep as <- <-. inv_bind H. injection H as <- <-.
  pose proof (select_next_uid_inv _ _ _ _ Hstep) as [-> _]. split; [done|].
  intros r Hr Hl. by eapply next_uid_fresh.
Qed.

Lemma keeps_assign_modseq mb requested : keeps mailbox_messages (assign_mailbox_modseq mb requested).
Proof. unfold assign_mailbox_modseq. keep_steps. Qed.

(** What the upsert statement leaves in the table. *)
Lemma upsert_row_inv uid modseq input w w' row :
  upsert_mailbox_message_row uid modseq input w = (w', Ok row) ->
  let mb := NewMailboxMessage_mailbox_id input in
  In row (mailbox_messages (w_db w')) /\
  (forall r, In r (mailbox_messages (w_db w)) -> has_uid mb uid r = false ->
             In r (mailbox_messages (w_db w'))) /\
  MailboxMessageRow_mailbox_id row = mb /\ MailboxMessageRow_local_uid row = uid /\
  MailboxMessageRow_flags row = NewMailboxMessage_flags input /\
  MailboxMessageRow_message_id row = NewMailboxMessage_message_id input /\
  MailboxMessageRow_upstream_uid row = NewMailboxMessage_upstream_uid input /\
  MailboxMessageRow_is_expunged row = NewMailboxMessage_is_expunged input.
Proof.
  intros H mb. unfold upsert_mailbox_message_row in H.
  inv_bind H. injection Hstep as <- <-. inv_bind H. injection Hstep as <- <-.
  inv_bind H. injection Hstep as <- <-. simpl w_db in H. fold mb in H.
  set (p := has_uid mb uid) in *.
  destruct (select p (mailbox_messages (w_db w))) as [|r0 l] eqn:E.
  all: inv_bind H; injection Hstep as <- <-; do 3 (inv_bind H;
    apply require_inv in Hstep as [-> _]); inv_bind H; injection Hstep as <- <-;
    injection H as <- <-; simpl.
  - split_and!; try done; [apply in_app_iff; right; by left|].
    intros r Hr _. apply in_app_iff. by left.
  - assert (Hr0 : In r0 (select p (mailbox_messages (w_db w)))) by (rewrite E; by left).
    apply select_In in Hr0 as [Hr0 Hp]. pose proof Hp as Hp'.
    unfold p, has_uid in Hp'. b2p. split_and!; try done.
    + apply update_In. exists r0. by rewrite Hp.
    + intros r Hr Hpr. apply update_In. exists r. by rewrite Hpr.
Qed.

Lemma keeps_upsert_uid_mapping {B} (g : Database -> B) mb uid up uv :
  (forall t db, g (set_uid_mappings t db) = g db) -> keeps g (upsert_uid_mapping mb uid up uv).
Proof.
  intros Hg. unfold upsert_uid_mapping. apply keeps_bind; [apply keeps_nextval|]. intros id.
  apply keeps_bind; [apply keeps_now|]. intros t w. cbv zeta.
  erewrite bind_Ok by reflexivity.
  destruct (select _ _); (erewrite bind_Ok by reflexivity); unfold require;
    (destruct (unique_by _ _); [|done]); (erewrite bind_Ok by reflexivity);
    (destruct (has_mailbox _ _); [|done]); (erewrite bind_Ok by reflexivity);
    simpl; apply Hg.
Qed.

(** The rest of the method after its transaction. *)
Lemma upsert_message_inv input w w' m :
  upsert_mailbox_message input w = (w', Ok m) ->
  exists w1 row n, upsert_tx input w = (w1, Ok (row, n)) /\ m = MailboxMessage_from row /\
    mailbox_messages (w_db w') = mailbox_messages (w_db w1).
Proof.
  unfold upsert_mailbox_message. intros H. inv_bind H. apply transaction_inv_Ok in Hstep.
  destruct x as [row n]. exists w0, row, n. split; [done|]. clear Hstep.
  inv_bind H. injection Hstep as <- <-. inv_bind H. inv_bind H. injection Hstep0 as <- <-.
  inv_bind H. injection H as <- <-. split; [done|].
  rewrite publish_event_spec in Hstep0. injection Hstep0 as <- <-. simpl.
  destruct (MailboxMessageRow_upstream_uid row); [|by injection Hstep as <- <-].
  inv_bind Hstep. injection Hstep0 as <- <-.
  eapply keeps_run; [|exact Hstep]. by apply keeps_upsert_uid_mapping.
Qed.

Lemma upsert_tx_inv input w w1 row n :
  upsert_tx input w = (w1, Ok (row, n)) ->
  exists w0 uid modseq, upsert_mailbox_message_row uid modseq input w0 = (w1, Ok row) /\
    mailbox_messages (w_db w0) = mailbox_messages (w_db w) /\
    if NewMailboxMessage_local_uid input =? 0
    then forall r, In r (mailbox_messages (w_db w)) ->
           live_in (NewMailboxMessage_mailbox_id input) r = true ->
           MailboxMessageRow_local_uid r < uid
    else uid = NewMailboxMessage_local_uid input.
Proof.
  unfold upsert_tx. intros H. inv_bind H. inv_bind H. inv_bind H. inv_bind H. injection H as <- <- _.
  exists w2, x, x0.
  assert (w0 = w /\ if NewMailboxMessage_local_uid input =? 0
    then forall r, In r (mailbox_messages (w_db w)) ->
           live_in (NewMailboxMessage_mailbox_id input) r = true ->
           MailboxMessageRow_local_uid r < x
    else x = NewMailboxMessage_local_uid input) as [-> Huid].
  { destruct (NewMailboxMessage_local_uid input =? 0); [by apply assign_uid_inv|].
    by injection Hstep as <- <-. }
  pose proof (keeps_run _ _ _ _ _ (keeps_assign_modseq _ _) Hstep0) as Hmm.
  unfold mailbox_sequence_number_in_tx in Hstep2. inv_bind Hstep2.
  injection Hstep3 as <- <-. injection Hstep2 as <- _. done.
Qed.

(** A message stored with UID 0 (an APPEND) is given a UID above that of every
    live message of the mailbox, is found in the mailbox afterwards with the
    flags it was given, and leaves every live message of every mailbox as it
    was. *)
Theorem append_uid_is_fresh input w w' m :
  NewMailboxMessage_local_uid input = 0 ->
  upsert_mailbox_message input w = (w', Ok m) ->
  (exists row, In row (mailbox_messages (w_db w')) /\ m = MailboxMessage_from row /\
     MailboxMessageRow_mailbox_id row = NewMailboxMessage_mailbox_id input /\
     MailboxMessageRow_flags row = NewMailboxMessage_flags input) /\
  (forall r, In r (mailbox_messages (w_db w)) ->
     live_in (NewMailboxMessage_mailbox_id input) r = true ->
     MailboxMessageRow_local_uid r < MailboxMessage_local_uid m) /\
  (forall r, In r (mailbox_messages (w_db w)) -> MailboxMessageRow_is_expunged r = false ->
     In r (mailbox_messages (w_db w'))).
Proof.
  intros H0 H. apply upsert_message_inv in H as (w1 & row & n & Htx & -> & ->).
  apply upsert_tx_inv in Htx as (w0 & uid & modseq & Hrow & Hmm & Huid).
  rewrite H0 in Huid. simpl in Huid.
  apply upsert_row_inv in Hrow as (Hin & Hkeep & Hmb & Hu & Hf & _). split_and!.
  - exists row. done.
  - intros r Hr Hl. simpl. rewrite Hu. by apply Huid.
  - intros r Hr He. apply Hkeep; [by rewrite Hmm|].
    destruct (has_uid _ uid r) eqn:E; [|done]. exfalso. unfold has_uid in E. b2p.
    assert (MailboxMessageRow_local_uid r < uid); [|lia]. apply Huid; [done|].
    unfold live_in. by rewrite He, (proj2 (Z.eqb_eq _ _)).
Qed.

Lemma append_uid_is_fresh_witness :
  let w' := fst (upsert_mailbox_message (row 1 3 0 None [seen]) world) in
  MailboxMessageRow_local_uid r3 < 4 /\ In r3 (mailbox_messages (w_db w')).
Proof.
  intros w'.
  destruct (append_uid_is_fresh (row 1 3 0 None [seen]) world w'
    (mkMailboxMessage 4 1 3 4 None (Some 4) [seen] [] false None 1000 1000) eq_refl)
    as (_ & Hlt & Hkept).
  - vm_compute. reflexivity.
  - assert (In r3 (mailbox_messages (w_db world))) as Hin by (rewrite world_rows; simpl; tauto).
    split; [exact (Hlt r3 Hin eq_refl)|exact (Hkept r3 Hin eq_refl)].
Defined.

(** ** Deleting *)
Section Delete.
Context `{PgText}.

(** The cleanup after the transaction only touches cache objects. *)
Lemma delete_message_inv mb uid w w' n :
  delete_mailbox_message mb uid w = (w', Ok n) ->
  exists w1 d, delete_tx mb uid w = (w1, Ok d) /\
    mailbox_messages (w_db w') = mailbox_messages (w_db w1) /\
    quotas (w_db w') = quotas (w_db w1) /\
    n = match d with Some (_, _, n) => n | None => 0 end.
Proof.
  unfold delete_mailbox_message. intros E. inv_bind E. apply transaction_inv_Ok in Hstep.
  exists w0, x. split; [done|]. destruct x as [[[message_id seqno] k]|].
  2: { by injection E as <- <-. }
  inv_bind E. injection E as <- <-.
  destruct (0 <? k); [|by injection Hstep0 as <- <-].
  assert (Hk : forall B (g : Database -> B), (forall t db, g (set_cache_objects t db) = g db) ->
            g (w_db w1) = g (w_db w0)).
  { intros B g Hg. eapply keeps_run; [|exact Hstep0]. unfold list_message_cache_objects.
    keep_steps. }
  split_and!; [by apply Hk|by apply Hk|done].
Qed.

Lemma delete_tx_inv mb uid w w1 d :
  delete_tx mb uid w = (w1, Ok d) ->
  mailbox_messages (w_db w1) = delete_where (live_uid mb uid) (mailbox_messages (w_db w)) /\
  quotas (w_db w1) = quotas (w_db w) /\
  match d with Some (_, _, n) => n | None => 0 end =
    count (live_uid mb uid) (mailbox_messages (w_db w)).
Proof.
  unfold delete_tx. intros E. inv_bind E. injection Hstep as <- <-.
  destruct (select (live_uid mb uid) (mailbox_messages (w_db w))) as [|target l] eqn:Es;
    cbn [head] in E.
  - injection E as <- <-. unfold count. rewrite Es. split_and!; [|done|done].
    unfold delete_where. symmetry.
    assert (Hall : forall r, In r (mailbox_messages (w_db w)) -> live_uid mb uid r = false).
    { intros r Hr. destruct (live_uid mb uid r) eqn:El; [|done].
      assert (Hin : In r []) by (rewrite <- Es; by apply select_In). done. }
    induction (mailbox_messages (w_db w)) as [|r rows IH]; [done|]. simpl.
    rewrite (Hall r (or_introl eq_refl)). simpl. f_equal. apply IH.
    + unfold select in *. simpl in Es. by rewrite (Hall r (or_introl eq_refl)) in Es.
    + intros r' Hr'. apply Hall. by right.
  - inv_bind E. inv_bind E. inv_bind E. injection Hstep1 as <- <-.
    inv_bind E. injection Hstep1 as <- <-. injection E as <- <-.
    unfold mailbox_sequence_number_in_tx in Hstep. inv_bind Hstep.
    injection Hstep1 as <- <-. injection Hstep as <- <-. simpl.
    assert (Hm : mailbox_messages (w_db w2) = mailbox_messages (w_db w))
      by (eapply keeps_run; [apply keeps_assign_modseq|exact Hstep0]).
    rewrite Hm. split_and!; [done| |done].
    eapply keeps_run; [|exact Hstep0]. unfold assign_mailbox_modseq. keep_steps.
Qed.

Lemma delete_message_rows mb uid w w' n :
  delete_mailbox_message mb uid w = (w', Ok n) ->
  mailbox_messages (w_db w') = delete_where (live_uid mb uid) (mailbox_messages (w_db w)) /\
  quotas (w_db w') = quotas (w_db w) /\
  n = count (live_uid mb uid) (mailbox_messages (w_db w)).
Proof.
  intros E. apply delete_message_inv in E as (w1 & d & Htx & -> & -> & ->).
  by apply delete_tx_inv.
Qed.

(** UIDs are reused.  When the message with the highest UID of a mailbox is
    deleted and the message before it is still there, the next UID handed out
    is the deleted one: a client that cached the old message sees another under
    the same UID (RFC 3501 2.3.1.1 forbids this). *)
Theorem deleted_uid_is_reused mb r r' w w' n :
  In r (mailbox_messages (w_db w)) -> live_in mb r = true ->
  In r' (mailbox_messages (w_db w)) -> live_in mb r' = true ->
  MailboxMessageRow_local_uid r' = MailboxMessageRow_local_uid r - 1 ->
  (forall x, In x (mailbox_messages (w_db w)) -> live_in mb x = true ->
             MailboxMessageRow_local_uid x <= MailboxMessageRow_local_uid r) ->
  i64_min <= MailboxMessageRow_local_uid r <= i64_max ->
  delete_mailbox_message mb (MailboxMessageRow_local_uid r) w = (w', Ok n) ->
  next_mailbox_local_uid mb w' = (w', Ok (MailboxMessageRow_local_uid r)).
Proof.
  intros Hr Hl Hr' Hl' Hprev Hmax Hrange Hdel.
  apply delete_message_rows in Hdel as (Hrows & _ & _).
  set (uid := MailboxMessageRow_local_uid r) in *.
  assert (Hsel : sql_max MailboxMessageRow_local_uid
            (select (live_in mb) (mailbox_messages (w_db w'))) = Some (uid - 1)).
  { rewrite Hrows. set (l := select (live_in mb) (delete_where _ _)).
    assert (HI : forall x, In x l <-> In x (mailbox_messages (w_db w)) /\
              live_in mb x = true /\ MailboxMessageRow_local_uid x <> uid).
    { intros x. unfold l. rewrite select_In, delete_where_In. unfold live_uid.
      rewrite andb_false_iff, Z.eqb_neq. split; [intros [[H1 [H2|H2]] H3]; [congruence|done]|].
      intros (? & ? & ?). auto. }
    destruct (sql_max MailboxMessageRow_local_uid l) as [m|] eqn:E.
    - assert (uid - 1 <= m).
      { rewrite <- Hprev. eapply sql_max_ge; [exact E|]. apply HI. split_and!; [done|done|lia]. }
      apply sql_max_In in E as (x & Hx & <-). apply HI in Hx as (Hx & Hlx & Hne).
      specialize (Hmax x Hx Hlx). f_equal. lia.
    - apply sql_max_None in E. assert (Hin : In r' l) by (apply HI; split_and!; [done|done|lia]).
      by rewrite E in Hin. }
  unfold next_mailbox_local_uid, select_next_uid. rewrite bind_assoc.
  erewrite bind_Ok by reflexivity. rewrite Hsel. unfold bigint.
  rewrite Z.sub_add. assert (in_i64 uid = true) as ->; [|done].
  unfold in_i64. apply andb_true_iff. rewrite !Z.leb_le. lia.
Qed.
End Delete.

Definition world_after_delete : World := fst (delete_mailbox_message 1 3 world).

Lemma deleted_uid_is_reused_witness :
  next_mailbox_local_uid 1 world_after_delete = (world_after_delete, Ok 3).
Proof.
  apply (deleted_uid_is_reused 1 r3 r2 world world_after_delete 1);
    [rewrite world_rows; simpl; tauto|reflexivity|rewrite world_rows; simpl; tauto|
     reflexivity|reflexivity| | |vm_compute; reflexivity].
  - intros x Hx _. rewrite world_rows in Hx. destruct Hx as [<-|[<-|[<-|[]]]]; simpl; lia.
  - unfold i64_min, i64_max. simpl. lia.
Defined.
