(* ===== verification/MailboxSpecs.v ===== *)
(** * What the mailbox operations promise

    Creation and lookup by name, the message counters, and how the upsert of a
    sync pass interacts with mod-sequences. *)

From stdpp Require Import base strings list.
From Stdlib Require Import ZArith Lia Permutation Sorting.Sorted.
From S2P Require Import Prelude RustStr Domain Notifications Schema RepoCore Security RepoAccounts RepoMailboxes RepoMessages RepoQueue Invariant Integrity Scenario MessageSpecs.

Local Open Scope Z_scope.

(** The row with the greatest key comes first. *)
Lemma head_order_by_desc {R} (key : R -> Z) l r :
  In r l -> (forall x, In x l -> x = r \/ key x < key r) ->
  head (order_by_desc key l) = Some r.
Proof.
  intros Hr Hmax. unfold order_by_desc. set (leb := fun a b => key b <=? key a).
  assert (Hs : StronglySorted (le_rel leb) (sort_by leb l)).
  { apply sort_by_sorted; unfold leb; intros x y *; rewrite ?Z.leb_le; [lia|].
    intros H1 H2. apply Z.leb_le in H1, H2. apply Z.leb_le. lia. }
  assert (Hin : In r (sort_by leb l)) by (by apply sort_by_In).
  assert (Hall : forall x, In x (sort_by leb l) -> x = r \/ key x < key r)
    by (intros x Hx; by apply Hmax, (sort_by_In leb)).
  destruct Hs as [|x l' Hs Hle]; [done|]. simpl. destruct Hin as [->|Hin]; [done|].
  rewrite List.Forall_forall in Hle. apply Hle in Hin as Hxr. unfold le_rel, leb in Hxr.
  apply Z.leb_le in Hxr. destruct (Hall x (or_introl eq_refl)) as [->|]; [done|lia].
Qed.

(** ** Creation and lookup *)
Lemma create_mailbox_inv input w w1 m :
  create_mailbox input w = (w1, Ok (Some m)) ->
  let row := mailbox_row (w_seq w T_mailboxes + 1) (w_now w) input in
  mailboxes (w_db w1) = mailboxes (w_db w) ++ [row] /\ m = Mailbox_from row /\
  w_seq w1 = bump_seq T_mailboxes (w_seq w).
Proof.
  intros E row. unfold create_mailbox in E. inv_bind E. injection Hstep as <- <-.
  inv_bind E. injection Hstep as <- <-. inv_bind E. injection Hstep as <- <-.
  inv_bind E. destruct (select _ _) as [|r l]; [|injection Hstep as <- <-;
    inv_bind E; injection Hstep as <- <-; by injection E].
  unfold insert_mailbox in Hstep. inv_bind Hstep. inv_bind Hstep0. injection Hstep1 as <- <-.
  inv_bind Hstep0. apply require_inv in Hstep1 as [-> _]. injection Hstep0 as <- <-.
  injection Hstep as <- <-. inv_bind E. rewrite publish_event_spec in Hstep.
  injection Hstep as <- <-. by injection E as <- <-.
Qed.

(** A mailbox that was created is found again under the name it was created
    with, in any letter case, and creating a mailbox of the same canonical name
    once more answers [None] and leaves the database as it is. *)
Theorem create_mailbox_then_find input w w1 m name again :
  db_ok (w_db w) (w_seq w) ->
  NewMailbox_canonical_name input = to_ascii_lowercase (NewMailbox_name input) ->
  create_mailbox input w = (w1, Ok (Some m)) ->
  to_ascii_lowercase name = to_ascii_lowercase (NewMailbox_name input) ->
  NewMailbox_account_id again = NewMailbox_account_id input ->
  NewMailbox_canonical_name again = NewMailbox_canonical_name input ->
  find_mailbox (NewMailbox_account_id input) name w1 = (w1, Ok (Some m)) /\
  exists w2, create_mailbox again w1 = (w2, Ok None) /\ w_db w2 = w_db w1.
Proof.
  intros Hok Hcanon Hc Hname Ha Hn.
  apply create_mailbox_inv in Hc as (Hrows & -> & Hseq).
  set (row := mailbox_row _ _ input) in *.
  assert (Hin : In row (mailboxes (w_db w1))) by (rewrite Hrows; apply in_app_iff; right; by left).
  split.
  - unfold find_mailbox, query, gets. erewrite head_order_by_desc with (r := row); [done| |].
    + apply select_In. split; [done|]. unfold mailbox_named. simpl.
      by rewrite Z.eqb_refl, Hcanon, Hname, str_eqb_refl, orb_true_r.
    + intros x Hx. apply select_In in Hx as [Hx _]. rewrite Hrows in Hx.
      apply in_app_iff in Hx as [Hx|[<-|[]]]; [|by left]. right.
      destruct (ok_mailboxes _ _ Hok) as [[_ Hle] _]. apply Hle in Hx. simpl. lia.
  - unfold create_mailbox. erewrite bind_Ok by reflexivity. erewrite bind_Ok by reflexivity.
    erewrite bind_Ok by reflexivity. cbn [w_db].
    assert (Hex : In row (select (mailbox_conflict again) (mailboxes (w_db w1)))).
    { apply select_In. split; [done|]. apply conflict_key. unfold key_mailbox_name. simpl.
      by rewrite Ha, Hn. }
    destruct (select (mailbox_conflict again) (mailboxes (w_db w1))); [done|].
    eexists. split; reflexivity.
Qed.

Lemma create_mailbox_then_find_witness :
  let w1 := fst (create_mailbox (mailbox (lit "Drafts") None) world) in
  exists m, find_mailbox 1 (lit "dRAFTS") w1 = (w1, Ok (Some m)) /\ Mailbox_id m = 3.
Proof.
  intros w1. eexists. split.
  - apply (create_mailbox_then_find (mailbox (lit "Drafts") None) world w1 _ (lit "dRAFTS")
             (mailbox (lit "Drafts") None) world_ok); vm_compute; reflexivity.
  - reflexivity.
Defined.

(** ** The message counters *)
Lemma refresh_counts_inv mb w w' :
  refresh_mailbox_counts mb w = (w', Ok tt) ->
  mailboxes (w_db w') =
    update (mailbox_by_id mb)
      (set_row_counts (count (live_in mb) (mailbox_messages (w_db w)))
         (count (fun r => live_in mb r && unseen r) (mailbox_messages (w_db w))) (w_now w))
      (mailboxes (w_db w)) /\
  mailbox_messages (w_db w') = mailbox_messages (w_db w).
Proof.
  unfold refresh_mailbox_counts. intros E. inv_bind E. injection Hstep as <- <-.
  inv_bind E. injection Hstep as <- <-. inv_bind E. injection Hstep as <- <-.
  rewrite publish_event_spec in E. by injection E as <-.
Qed.

(** Refreshing the counters of a mailbox sets [exists_count] of its row to the
    number of messages its listing shows and leaves the other mailboxes and all
    messages alone. *)
Theorem refresh_sets_exists_count mrow ms w w' :
  In mrow (mailboxes (w_db w)) ->
  list_mailbox_messages (MailboxRow_id mrow) w = (w, Ok ms) ->
  refresh_mailbox_counts (MailboxRow_id mrow) w = (w', Ok tt) ->
  (exists mrow', In mrow' (mailboxes (w_db w')) /\ MailboxRow_id mrow' = MailboxRow_id mrow /\
     MailboxRow_exists_count mrow' = Z.of_nat (length ms)) /\
  (forall r, In r (mailboxes (w_db w)) -> MailboxRow_id r <> MailboxRow_id mrow ->
     In r (mailboxes (w_db w'))) /\
  mailbox_messages (w_db w') = mailbox_messages (w_db w).
Proof.
  intros Hm Hl Hr. apply refresh_counts_inv in Hr as [Hrows Hmm].
  injection Hl as <-. split_and!; [| |done].
  - eexists. split; [rewrite Hrows; apply update_In; exists mrow; split; [done|reflexivity]|].
    unfold mailbox_by_id. rewrite Z.eqb_refl. split; [done|]. simpl.
    unfold mailbox_rows. rewrite length_map. unfold order_by. by rewrite length_sort_by.
  - intros r Hin Hne. rewrite Hrows. apply update_In. exists r. split; [done|].
    unfold mailbox_by_id. by rewrite (proj2 (Z.eqb_neq _ _)).
Qed.

Lemma refresh_sets_exists_count_witness :
  let w' := fst (refresh_mailbox_counts 1 world) in
  exists mrow', In mrow' (mailboxes (w_db w')) /\ MailboxRow_id mrow' = 1 /\
     MailboxRow_exists_count mrow' = 3.
Proof.
  intros w'.
  refine (proj1 (refresh_sets_exists_count
    inbox_row _ world w' _ eq_refl _)).
  - exact world_inbox.
  - vm_compute. reflexivity.
Defined.

(** Refreshing the counters sets [unseen_count] to the number of all messages,
    not of the unseen ones: the SQL literal has two backslashes, so as long as no
    message carries a flag spelled with two backslashes every message counts as
    unseen, the ones flagged \Seen included. *)
Theorem refresh_counts_seen_as_unseen mrow w w' :
  In mrow (mailboxes (w_db w)) ->
  (forall r, In r (mailbox_messages (w_db w)) ->
             ~ In (92 :: 92 :: lit "Seen") (MailboxMessageRow_flags r)) ->
  refresh_mailbox_counts (MailboxRow_id mrow) w = (w', Ok tt) ->
  exists mrow', In mrow' (mailboxes (w_db w')) /\ MailboxRow_id mrow' = MailboxRow_id mrow /\
    MailboxRow_unseen_count mrow' = MailboxRow_exists_count mrow'.
Proof.
  intros Hm Hflags Hr. apply refresh_counts_inv in Hr as [Hrows _].
  eexists. split; [rewrite Hrows; apply update_In; exists mrow; split; [done|reflexivity]|].
  unfold mailbox_by_id. rewrite Z.eqb_refl. split; [done|]. simpl.
  apply count_ext. intros r Hin. assert (unseen r = true) as ->; [|by rewrite andb_true_r].
  unfold unseen. apply negb_true_iff, not_true_iff_false. rewrite existsb_exists.
  intros (f & Hf & E). apply str_eqb_eq in E. subst f. by apply (Hflags r Hin).
Qed.

Lemma refresh_counts_seen_as_unseen_witness :
  let w' := fst (refresh_mailbox_counts 1 world) in
  exists mrow', In mrow' (mailboxes (w_db w')) /\ MailboxRow_id mrow' = 1 /\
    MailboxRow_unseen_count mrow' = MailboxRow_exists_count mrow'.
Proof.
  intros w'.
  apply (refresh_counts_seen_as_unseen
    inbox_row world w').
  - exact world_inbox.
  - intros r Hr Hf. rewrite world_rows in Hr. destruct Hr as [<-|[<-|[<-|[]]]]; simpl in Hf;
      [destruct Hf as [Hf|[]]; discriminate Hf|done|done].
  - vm_compute. reflexivity.
Defined.

(** ** Mod-sequences across a sync pass *)
Lemma upsert_existing_inv input old w w1 m :
  db_ok (w_db w) (w_seq w) -> In old (mailboxes (w_db w)) -> mailbox_conflict input old = true ->
  upsert_mailbox input w = (w1, Ok m) ->
  In (overwrite_mailbox (w_now w) input old) (mailboxes (w_db w1)) /\
  m = Mailbox_from (overwrite_mailbox (w_now w) input old).
Proof.
  intros Hok Hin Hc E.
  assert (Hs : select (mailbox_conflict input) (mailboxes (w_db w)) = [old]).
  { destruct (ok_mailboxes _ _ Hok) as [_ Hk]. eapply select_by_key; [exact Hk|done| |done|].
    - by apply conflict_key.
    - intros x. apply conflict_key. }
  unfold upsert_mailbox in E. inv_bind E. injection Hstep as <- <-.
  inv_bind E. injection Hstep as <- <-. inv_bind E. injection Hstep as <- <-. cbn [w_db] in E.
  rewrite Hs in E. inv_bind E. inv_bind Hstep. injection Hstep0 as <- <-.
  injection Hstep as <- <-. inv_bind E. rewrite publish_event_spec in Hstep.
  injection Hstep as <- <-. injection E as <- <-. simpl. split; [|done].
  apply update_In. exists old. by rewrite Hc.
Qed.

(** Mod-sequences go back: upserting an existing mailbox the way a sync pass
    does, without a HIGHESTMODSEQ, erases the stored one, and the next change in
    the mailbox is given mod-sequence 1 however high the numbers were before. *)
Theorem sync_upsert_restarts_modseq input old w w1 m :
  db_ok (w_db w) (w_seq w) -> In old (mailboxes (w_db w)) -> mailbox_conflict input old = true ->
  NewMailbox_highestmodseq input = None ->
  upsert_mailbox input w = (w1, Ok m) ->
  Mailbox_id m = MailboxRow_id old /\
  exists w2, assign_mailbox_modseq (Mailbox_id m) None w1 = (w2, Ok 1).
Proof.
  intros Hok Hin Hc Hnone E.
  destruct (safe_upsert_mailbox input (w_seq w) w) as [Hok1 _]; [by split|].
  rewrite E in Hok1. simpl in Hok1.
  apply upsert_existing_inv with (old := old) in E as [Hrow ->]; [|done..].
  split; [done|]. eexists.
  change (Mailbox_id (Mailbox_from ?r)) with (MailboxRow_id r).
  rewrite assign_modseq_next; [|done|done|].
  - unfold highestmodseq. simpl. by rewrite Hnone.
  - unfold highestmodseq, i64_max. simpl. rewrite Hnone. simpl. lia.
Qed.

Lemma sync_upsert_restarts_modseq_witness :
  let w1 := fst (upsert_mailbox (mailbox (lit "Inbox") None) world) in
  exists w2, assign_mailbox_modseq 1 None w1 = (w2, Ok 1).
Proof.
  intros w1.
  refine (proj2 (sync_upsert_restarts_modseq (mailbox (lit "Inbox") None)
    inbox_row world w1
    (mkMailbox 1 1 (lit "Inbox") (lit "inbox") (Some (lit "/")) [] true None None None None
       0 0 0 1000 1000) world_ok _ _ eq_refl _)).
  - exact world_inbox.
  - vm_compute. reflexivity.
  - vm_compute. reflexivity.
Defined.
