(* ===== verification/AccountSpecs.v ===== *)
(** * What accounts, checkpoints and cache objects promise

    Credentials survive the trip through the encrypted columns, a checkpoint is
    loaded as it was put, and reference counts of cache objects balance. *)

From stdpp Require Import base strings list.
From Stdlib Require Import ZArith Lia Permutation Sorting.Sorted.
From S2P Require Import Prelude RustStr Domain Notifications Schema RepoCore Security RepoAccounts RepoMailboxes RepoMessages RepoQueue Invariant Integrity Scenario MessageSpecs MailboxSpecs.

Local Open Scope Z_scope.

(** ** Upstream credentials *)
Section Credentials.
Context `{PgText, UuidText, CryptoLaws}.

Lemma create_account_inv secrets n1 n2 input w w1 acc :
  create_mail_account secrets n1 n2 input w = (w1, Ok acc) ->
  exists u s,
    SecretBox_encrypt secrets n1 (as_bytes (NewMailAccount_upstream_username input)) = Ok u /\
    SecretBox_encrypt secrets n2 (as_bytes (NewMailAccount_upstream_secret input)) = Ok s /\
    let id := w_seq w T_mail_accounts + 1 in
    let row := mkMailAccountRow id (NewMailAccount_user_id input)
               (NewMailAccount_display_name input) (NewMailAccount_email_address input)
               (NewMailAccount_upstream_host input) (NewMailAccount_upstream_port input)
               (UpstreamTlsMode_to_string (NewMailAccount_upstream_tls_mode input))
               (UpstreamAuthMethod_to_string (NewMailAccount_upstream_auth_method input))
               u s (w_now w) None None None in
    mail_accounts (w_db w1) = mail_accounts (w_db w) ++ [row] /\
    MailAccount_try_from row = Ok acc.
Proof.
  unfold create_mail_account. intros E. inv_bind E. injection Hstep as <- Hu.
  inv_bind E. injection Hstep as <- Hs. exists x, x0. split; [done|]. split; [done|].
  inv_bind E. injection Hstep as <- <-. inv_bind E. injection Hstep as <- <-.
  inv_bind E. injection Hstep as <- <-. inv_bind E. apply require_inv in Hstep as [-> _].
  inv_bind E. injection Hstep as <- <-. inv_bind E. rewrite publish_event_spec in Hstep.
  injection Hstep as <- <-. unfold lift in E. by injection E as <- ->.
Qed.

(** An account's upstream credentials survive storage: after
    [create_mail_account] with two fresh 24-byte nonces, the connection settings
    read back by the account's id are the host, port, TLS mode, authentication
    method, user name and secret the account was created with. *)
Theorem upstream_credentials_roundtrip secrets n1 n2 input w w1 acc :
  length n1 = 24%nat -> length n2 = 24%nat ->
  Forall (fun c => is_scalar c = true) (NewMailAccount_upstream_username input) ->
  Forall (fun c => is_scalar c = true) (NewMailAccount_upstream_secret input) ->
  0 <= NewMailAccount_upstream_port input < 2 ^ 16 ->
  (forall r, In r (mail_accounts (w_db w)) -> MailAccountRow_id r <= w_seq w T_mail_accounts) ->
  create_mail_account secrets n1 n2 input w = (w1, Ok acc) ->
  upstream_account_config_by_id secrets (MailAccount_id acc) w1 =
  (w1, Ok (Some (mkUpstreamAccountConfig (NewMailAccount_upstream_host input)
     (NewMailAccount_upstream_port input) (NewMailAccount_upstream_tls_mode input)
     (NewMailAccount_upstream_auth_method input) (NewMailAccount_upstream_username input)
     (NewMailAccount_upstream_secret input)))).
Proof.
  intros Hl1 Hl2 Hu8 Hs8 Hport Hids Hc.
  apply create_account_inv in Hc as (u & s & Hu & Hs & Hrows & Hfrom).
  pose proof (MailAccount_try_from_id _ _ Hfrom) as Hid. simpl in Hid.
  unfold upstream_account_config_by_id, find_account_by_id_any_state.
  rewrite bind_assoc. erewrite bind_Ok by reflexivity.
  assert (Hsel : forall row, MailAccountRow_id row = w_seq w T_mail_accounts + 1 ->
    head (select (fun r => MailAccountRow_id r =? w_seq w T_mail_accounts + 1)
            (mail_accounts (w_db w) ++ [row])) = Some row).
  { intros row Hrow. unfold select. rewrite List.filter_app.
    destruct (List.filter _ (mail_accounts (w_db w))) as [|r l] eqn:E; simpl.
    - by rewrite Hrow, Z.eqb_refl.
    - assert (Hr : In r (List.filter (fun r => MailAccountRow_id r =? w_seq w T_mail_accounts + 1)
               (mail_accounts (w_db w)))) by (rewrite E; by left).
      apply filter_In in Hr as [Hr Heq]. apply Hids in Hr. apply Z.eqb_eq in Heq. lia. }
  rewrite Hrows, Hid, Hsel by done. unfold try_into_opt. rewrite Hfrom.
  erewrite bind_Ok by reflexivity.
  unfold MailAccount_try_from, or_storage in Hfrom. simpl in Hfrom.
  rewrite (UpstreamTlsMode_roundtrip (NewMailAccount_upstream_tls_mode input)) in Hfrom
    by (by destruct (NewMailAccount_upstream_tls_mode input)).
  rewrite (UpstreamAuthMethod_roundtrip (NewMailAccount_upstream_auth_method input)) in Hfrom
    by (by destruct (NewMailAccount_upstream_auth_method input)).
  simpl in Hfrom. injection Hfrom as <-. unfold lift, upstream_account_config_from_account,
    decrypt_field, utf8_field. simpl.
  rewrite (SecretBox_roundtrip _ _ _ _ Hl1 Hu), (SecretBox_roundtrip _ _ _ _ Hl2 Hs). simpl.
  rewrite !from_utf8_as_bytes by done. simpl. unfold as_u16. by rewrite Z.mod_small.
Qed.
End Credentials.

Lemma upstream_credentials_roundtrip_witness :
  let w1 := fst (create_mail_account secrets nonce nonce account world) in
  upstream_account_config_by_id secrets 2 w1 =
  (w1, Ok (Some (mkUpstreamAccountConfig (lit "imap.example.com") 993 Tls Login (lit "alice")
                   (lit "hunter2")))).
Proof.
  intros w1.
  apply (upstream_credentials_roundtrip secrets nonce nonce account world w1
    (mkMailAccount 2 1 (lit "Alice") (lit "alice@example.com") (lit "imap.example.com") 993 Tls
       Login (nonce ++ 56 :: as_bytes (lit "alice")) (nonce ++ 56 :: as_bytes (lit "hunter2"))
       1000 None None None)); try (vm_compute; reflexivity).
  - do 5 (constructor; [reflexivity|]). constructor.
  - do 7 (constructor; [reflexivity|]). constructor.
  - simpl. lia.
  - assert (E : map MailAccountRow_id (mail_accounts (w_db world)) = [1]) by (vm_compute; reflexivity).
    assert (E' : w_seq world T_mail_accounts = 1) by (vm_compute; reflexivity).
    intros r Hr. apply (in_map MailAccountRow_id) in Hr. rewrite E in Hr. rewrite E'.
    destruct Hr as [<-|[]]. lia.
Defined.

(** ** Checkpoints *)
Lemma select_checkpoint db seq account_id mailbox_id r :
  db_ok db seq -> In r (sync_state db) -> SyncStateRow_account_id r = account_id ->
  SyncStateRow_mailbox_id r = Some mailbox_id ->
  select (sync_state_of account_id (Some mailbox_id)) (sync_state db) = [r].
Proof.
  intros Hok Hr Ha Hm.
  eapply (select_by_key key_sync_state _ _ _ (account_id, mailbox_id)); [apply (ok_sync_state _ _ Hok)|done| | |].
  - unfold key_sync_state. by rewrite Hm, Ha.
  - unfold sync_state_of, not_distinct. rewrite Hm, Ha, Z.eqb_refl. by apply bool_decide_eq_true.
  - intros x Hx. unfold sync_state_of, not_distinct in Hx. b2p. unfold key_sync_state.
    by rewrite H0, H.
Qed.

(** The checkpoint of a mailbox that was put is the one that is loaded: with
    the state, times and error it was put with, whether or not there was one
    before. *)
Theorem checkpoint_roundtrip input mailbox_id w w1 st :
  db_ok (w_db w) (w_seq w) -> NewSyncState_mailbox_id input = Some mailbox_id ->
  put_sync_state input w = (w1, Ok st) ->
  load_sync_state (NewSyncState_account_id input) (Some mailbox_id) w1 = (w1, Ok (Some st)) /\
  SyncState_state_json st = NewSyncState_state_json input /\
  SyncState_last_success_at st = NewSyncState_last_success_at input /\
  SyncState_last_error st = NewSyncState_last_error input.
Proof.
  intros Hok Hm E.
  destruct (safe_put_sync_state input (w_seq w) w) as [Hok1 _]; [by split|].
  rewrite E in Hok1. simpl in Hok1. unfold put_sync_state in E.
  inv_bind E. injection Hstep as <- <-. inv_bind E. injection Hstep as <- <-. cbn [w_db] in E.
  assert (Hload : forall r, In r (sync_state (w_db w1)) ->
    SyncStateRow_account_id r = NewSyncState_account_id input ->
    SyncStateRow_mailbox_id r = Some mailbox_id ->
    load_sync_state (NewSyncState_account_id input) (Some mailbox_id) w1 =
    (w1, Ok (Some (SyncState_from r)))).
  { intros r Hr Ha Hmr. unfold load_sync_state, query, gets.
    by rewrite (select_checkpoint _ _ _ _ r Hok1 Hr Ha Hmr). }
  destruct (select (sync_state_conflict input) (sync_state (w_db w))) as [|r l] eqn:Es.
  - inv_bind E. injection Hstep as <- <-. inv_bind E. apply require_inv in Hstep as [-> _].
    inv_bind E. injection Hstep as <- <-. inv_bind E. apply require_inv in Hstep as [-> _].
    inv_bind E. injection Hstep as <- <-. injection E as <- <-. split_and!; try done.
    apply Hload; [|done|done]. simpl. apply in_app_iff. right. by left.
  - inv_bind E. injection Hstep as <- <-. injection E as <- <-. split_and!; try done.
    assert (Hr : In r (select (sync_state_conflict input) (sync_state (w_db w))))
      by (rewrite Es; by left).
    apply select_In in Hr as [Hr Hc]. pose proof (proj1 (sync_conflict_key _ _) Hc) as (m & Hm' & Hk).
    rewrite Hm in Hm'. injection Hm' as <-. unfold key_sync_state in Hk.
    destruct (SyncStateRow_mailbox_id r) as [m'|] eqn:Em; [|done]. injection Hk as Ha ->.
    apply Hload; [|done|done]. simpl. apply update_In. exists r. by rewrite Hc.
Qed.

Lemma checkpoint_roundtrip_witness :
  let input := mkNewSyncState 1 (Some 1) (Object [(lit "last_uid", Number 3)]) (Some 1000)
                 (Some 1000) None in
  let w1 := fst (put_sync_state input world) in
  load_sync_state 1 (Some 1) w1 =
  (w1, Ok (Some (mkSyncState 1 1 (Some 1) (Object [(lit "last_uid", Number 3)]) (Some 1000)
                   (Some 1000) None))).
Proof.
  intros input w1. apply (checkpoint_roundtrip input 1 world w1 _ world_ok eq_refl).
  vm_compute. reflexivity.
Defined.

(** ** Reference counts of cache objects *)
Section CacheRefs.
Variables (account_id : Z) (blob_key : str).

(** [r] is the account's only object under the key. *)
Definition only_object (r : CacheObjectRow) (t : list CacheObjectRow) : Prop :=
  select (cache_key account_id blob_key) t = [r].

Lemma release_shared r w :
  only_object r (cache_objects (w_db w)) -> 1 < CacheObjectRow_ref_count r ->
  exists w', delete_cache_object_for_account account_id blob_key w = (w', Ok false) /\
    cache_objects (w_db w') =
      update (fun x => CacheObjectRow_id x =? CacheObjectRow_id r)
        (fun x => set_cache_counts (CacheObjectRow_ref_count x - 1) (Some (w_now w)) x)
        (cache_objects (w_db w)).
Proof.
  intros Honly Hrc. unfold delete_cache_object_for_account, transaction.
  erewrite bind_Ok by reflexivity. rewrite Honly. cbn [head].
  rewrite (proj2 (Z.ltb_lt _ _) Hrc). erewrite bind_Ok by reflexivity.
  erewrite bind_Ok by reflexivity. eexists. split; reflexivity.
Qed.

Lemma release_last r w :
  only_object r (cache_objects (w_db w)) -> CacheObjectRow_ref_count r <= 1 ->
  exists w', delete_cache_object_for_account account_id blob_key w =
    (w', Ok (references_elsewhere blob_key account_id (w_db w) =? 0)) /\
    cache_objects (w_db w') =
      delete_where (fun x => CacheObjectRow_id x =? CacheObjectRow_id r) (cache_objects (w_db w)).
Proof.
  intros Honly Hrc. unfold delete_cache_object_for_account, transaction.
  erewrite bind_Ok by reflexivity. rewrite Honly. cbn [head].
  rewrite (proj2 (Z.ltb_ge _ _) Hrc). erewrite bind_Ok by reflexivity.
  erewrite bind_Ok by reflexivity. eexists. split; reflexivity.
Qed.

(** Releasing a cache object drops one reference: while others remain the
    answer is [false] and only the count (and access time) of that row changes;
    the last release removes the row and answers [true], which tells the caller
    to delete the blob, exactly when no message or MIME part of another account
    uses the key. *)
Theorem cache_release_spec r w :
  db_ok (w_db w) (w_seq w) -> only_object r (cache_objects (w_db w)) ->
  exists w',
    delete_cache_object_for_account account_id blob_key w =
      (w', Ok ((CacheObjectRow_ref_count r <=? 1) &&
               (references_elsewhere blob_key account_id (w_db w) =? 0))) /\
    forall x, In x (cache_objects (w_db w')) <->
      In x (cache_objects (w_db w)) /\ x <> r \/
      1 < CacheObjectRow_ref_count r /\
      x = set_cache_counts (CacheObjectRow_ref_count r - 1) (Some (w_now w)) r.
Proof.
  intros Hok Honly. destruct (ok_cache _ _ Hok) as [Hids _].
  assert (Hr : In r (cache_objects (w_db w))).
  { assert (Hin : In r [r]) by (by left). rewrite <- Honly in Hin. by apply select_In in Hin as []. }
  assert (Hid : forall x, In x (cache_objects (w_db w)) ->
            (CacheObjectRow_id x =? CacheObjectRow_id r) = true <-> x = r).
  { intros x Hx. rewrite Z.eqb_eq. split; [|by intros ->].
    intros E. by eapply ids_ok_inj. }
  destruct (Z.leb_spec (CacheObjectRow_ref_count r) 1) as [Hle|Hgt].
  - destruct (release_last r w Honly Hle) as (w' & E & Hrows). exists w'. split; [done|].
    intros x. rewrite Hrows, delete_where_In. split.
    + intros [Hx Hne]. left. split; [done|]. intros ->. by rewrite Z.eqb_refl in Hne.
    + intros [[Hx Hne]|[? _]]; [|lia]. split; [done|].
      apply not_true_iff_false. by rewrite Hid.
  - destruct (release_shared r w Honly Hgt) as (w' & E & Hrows). exists w'. split; [done|].
    intros x. rewrite Hrows, update_In. split.
    + intros (y & Hy & ->). destruct (_ =? _) eqn:Ey.
      * apply Hid in Ey as ->; [|done]. by right.
      * left. split; [done|]. intros ->. by rewrite Z.eqb_refl in Ey.
    + intros [[Hx Hne]|[_ ->]].
      * exists x. split; [done|]. destruct (_ =? _) eqn:Ex; [|done]. by apply Hid in Ex.
      * exists r. by rewrite Z.eqb_refl.
Qed.
End CacheRefs.

Definition c1 : CacheObjectRow :=
  mkCacheObjectRow 1 (Some 1) (lit "rfc822") (blob 1) (fmt_u 1) 100 1 (Some 1000) 1000.

Lemma cache_release_spec_witness : exists w',
  delete_cache_object_for_account 1 (blob 1) world = (w', Ok true).
Proof.
  destruct (cache_release_spec 1 (blob 1) c1 world world_ok) as (w' & E & _).
  - vm_compute. reflexivity.
  - exists w'. exact E.
Defined.
