(* ===== verification/Engine.v ===== *)
(** * The shared state of the sync engines

    crates/sync/src/lib.rs runs on the repository, an object store, an upstream
    connection, a search index, a lock manager and a metrics recorder.  [Engine]
    is the product of their states, [on_repo] .. [on_lock] run a computation on
    one of them.  The store, the connection, the index and the lock manager are
    the classes their traits are; the chrono and serde_json texts and the MIME
    parser are parameters. *)

From stdpp Require Import base strings list.
From Stdlib Require Import ZArith Lia.
From S2P Require Import Prelude RustStr Metrics Domain Storage Schema RepoAccounts Coordination Mime Search RepoCore.

Local Open Scope Z_scope.

(** crates/upstream/src/lib.rs: what SELECT told. *)
Record SelectedMailboxInfo : Type := mkSelectedMailboxInfo {
  SelectedMailboxInfo_flags : list str;
  SelectedMailboxInfo_exists : option Z;
  SelectedMailboxInfo_recent : option Z;
  SelectedMailboxInfo_uidvalidity : option Z;
  SelectedMailboxInfo_uidnext : option Z;
  SelectedMailboxInfo_highestmodseq : option Z;
  SelectedMailboxInfo_unseen : option Z;
  SelectedMailboxInfo_read_only : bool
}.

(** The operations of [UpstreamClient] the engines call. *)
Class UpstreamClient (U : Type) : Type := {
  upstream_select : str -> M Error U unit;
  upstream_select_mailbox : str -> M Error U SelectedMailboxInfo;
  upstream_list_mailboxes : M Error U (list str);
  uid_search_all : M Error U (list Z);
  uid_fetch_flags : Z -> M Error U (list str);
  uid_fetch_rfc822 : Z -> M Error U bytes;
  append_with_internal_date : str -> list str -> option Z -> bytes -> M Error U (option Z);
  uid_store_flags : Z -> list str -> M Error U unit;
  uid_copy_message : Z -> str -> M Error U Z;
  expunge_selected : M Error U unit
}.

(** Texts made by foreign code: [value.to_string()] of serde_json,
    [to_rfc3339_opts(Secs, true)] and [parse_from_rfc3339] of chrono,
    [format!("{s:?}")] of a string and the [Display] of the transparent errors. *)
Class Texts : Type := {
  json_to_string : Value -> str;
  to_rfc3339 : Z -> str;
  parse_rfc3339 : str -> Z + str;
  debug_str : str -> str;
  foreign_error : Error -> str
}.

Record Engine {O U X L : Type} : Type := mkEngine {
  e_world : World;
  e_store : O;
  e_upstream : U;
  e_search : X;
  e_lock : L;
  e_metrics : AppMetrics
}.
Arguments Engine : clear implicits.
Arguments mkEngine {O U X L}.

Section Parts.
Context {O U X L : Type}.
Abbreviation Sync := (M Error (Engine O U X L)).

Definition on_repo {A} (m : Repo A) : Sync A :=
  zoom e_world (fun w e => mkEngine w (e_store e) (e_upstream e) (e_search e) (e_lock e)
                             (e_metrics e)) m.
Definition on_store {A} (m : M Error O A) : Sync A :=
  zoom e_store (fun o e => mkEngine (e_world e) o (e_upstream e) (e_search e) (e_lock e)
                             (e_metrics e)) m.
Definition on_upstream {A} (m : M Error U A) : Sync A :=
  zoom e_upstream (fun u e => mkEngine (e_world e) (e_store e) u (e_search e) (e_lock e)
                                (e_metrics e)) m.
Definition on_search {A} (m : M Error X A) : Sync A :=
  zoom e_search (fun x e => mkEngine (e_world e) (e_store e) (e_upstream e) x (e_lock e)
                              (e_metrics e)) m.
Definition on_lock {A} (m : M Error L A) : Sync A :=
  zoom e_lock (fun l e => mkEngine (e_world e) (e_store e) (e_upstream e) (e_search e) l
                            (e_metrics e)) m.
Definition on_metrics (f : AppMetrics -> AppMetrics) : Sync unit :=
  modify (fun e => mkEngine (e_world e) (e_store e) (e_upstream e) (e_search e) (e_lock e)
                     (f (e_metrics e))).

Definition record_object_store_bytes_written (n : Z) : Sync unit :=
  on_metrics (record_bytes_written n).
Definition record_object_store_bytes_read (n : Z) : Sync unit :=
  on_metrics (record_bytes_read n).
Definition record_sync_run (duration_seconds : Z) (succeeded : bool) : Sync unit :=
  on_metrics (record_run duration_seconds succeeded).

(** [Utc::now()], the clock [NOW()] reads too; times are in microseconds. *)
Definition utc_now : Sync Z := gets (fun e => w_now (e_world e)).

(** A value dropped at the end of a scope: [cleanup] runs whatever the outcome
    of the body, which is kept. *)
Definition finally {A} (body : Sync A) (cleanup : Sync unit) : Sync A :=
  fun e => let '(e1, r) := body e in (fst (cleanup e1), r).

(** Running on one part leaves the others alone. *)
Lemma on_repo_spec {A} (m : Repo A) e w' r :
  m (e_world e) = (w', r) ->
  on_repo m e = (mkEngine w' (e_store e) (e_upstream e) (e_search e) (e_lock e)
                   (e_metrics e), r).
Proof. unfold on_repo, zoom. by intros ->. Qed.

Lemma on_repo_inv {A} (m : Repo A) e e' r :
  on_repo m e = (e', r) ->
  m (e_world e) = (e_world e', r) /\ e_store e' = e_store e /\
  e_upstream e' = e_upstream e /\ e_search e' = e_search e /\ e_lock e' = e_lock e.
Proof. unfold on_repo, zoom. destruct (m (e_world e)). by intros [= <- <-]. Qed.

Lemma on_repo_query {A} (f : Database -> A) e :
  on_repo (query f) e = (e, Ok (f (w_db (e_world e)))).
Proof. by destruct e. Qed.

Lemma on_upstream_inv {A} (m : M Error U A) e e' r :
  on_upstream m e = (e', r) ->
  m (e_upstream e) = (e_upstream e', r) /\ e_world e' = e_world e /\ e_store e' = e_store e.
Proof. unfold on_upstream, zoom. destruct (m (e_upstream e)). by intros [= <- <-]. Qed.

Lemma on_store_inv {A} (m : M Error O A) e e' r :
  on_store m e = (e', r) ->
  m (e_store e) = (e_store e', r) /\ e_world e' = e_world e /\ e_upstream e' = e_upstream e.
Proof. unfold on_store, zoom. destruct (m (e_store e)). by intros [= <- <-]. Qed.
End Parts.

(** ** Small functions of crates/sync *)

(** [min(2 ^ min(attempt, 10), 300)] seconds. *)
Definition retry_delay (attempt : Z) : Z :=
  let capped := Z.min attempt 10 in
  Z.min (Z.min (2 ^ capped) u64_max) 300.

(** [i64::to_be_bytes]. *)
Definition to_be_bytes (z : Z) : bytes :=
  map (fun i => Z.land (Z.shiftr (as_u64 z) (8 * i)) 255) [7; 6; 5; 4; 3; 2; 1; 0].

(** The bytes fed to the hasher, in order. *)
Definition idempotency_key `{Sha256, Texts} (account_id mailbox_id : Z) (mutation_type : str)
  (payload_json : Value) : str :=
  sha256_hex (to_be_bytes account_id ++ to_be_bytes mailbox_id ++ as_bytes mutation_type ++
              as_bytes (json_to_string payload_json)).

Record SyncCheckpoint : Type := mkSyncCheckpoint {
  SyncCheckpoint_account_id : Z;
  SyncCheckpoint_mailbox_id : option Z;
  SyncCheckpoint_uidvalidity : option Z;
  SyncCheckpoint_highestmodseq : option Z;
  SyncCheckpoint_last_uid : option Z;
  SyncCheckpoint_updated_at : Z
}.

Definition validate_checkpoint (checkpoint : SyncCheckpoint) : Result unit :=
  if SyncCheckpoint_account_id checkpoint <=? 0
  then Err (EStorage (lit "account_id must be positive"))
  else Ok tt.

Definition normalize_flags (flags : list str) : list str := sort_dedup flags.

(** ** Frames of engine computations

    [ekeeps g m]: [m] leaves the part [g] of the database as it was. *)
Section Keeps.
Context {O U X L B : Type} (g : Database -> B).
Abbreviation Sync := (M Error (Engine O U X L)).

Definition ekeeps {A} (m : Sync A) : Prop :=
  forall e, g (w_db (e_world (fst (m e)))) = g (w_db (e_world e)).

Lemma ekeeps_ret {A} (a : A) : ekeeps (ret a).
Proof. done. Qed.
Lemma ekeeps_fail {A} err : ekeeps (fail (A := A) err).
Proof. done. Qed.
Lemma ekeeps_lift {A} (r : Result A) : ekeeps (lift r).
Proof. done. Qed.
Lemma ekeeps_on_repo {A} (m : Repo A) : keeps g m -> ekeeps (on_repo m).
Proof.
  intros Hm e. specialize (Hm (e_world e)). unfold on_repo, zoom.
  by destruct (m (e_world e)).
Qed.
Lemma ekeeps_on_upstream {A} (m : M Error U A) : ekeeps (on_upstream m).
Proof. intros e. unfold on_upstream, zoom. by destruct (m (e_upstream e)). Qed.
Lemma ekeeps_on_store {A} (m : M Error O A) : ekeeps (on_store m).
Proof. intros e. unfold on_store, zoom. by destruct (m (e_store e)). Qed.
Lemma ekeeps_on_metrics f : ekeeps (on_metrics f).
Proof. done. Qed.
Lemma ekeeps_utc_now : ekeeps utc_now.
Proof. done. Qed.
Lemma ekeeps_bind {A C} (m : Sync A) (k : A -> Sync C) :
  ekeeps m -> (forall a, ekeeps (k a)) -> ekeeps (bind m k).
Proof.
  intros Hm Hk e. specialize (Hm e). unfold bind.
  destruct (m e) as [e' [a|err|]]; simpl in *; [by rewrite Hk|done|done].
Qed.
Lemma ekeeps_run {A} (m : Sync A) e e' r :
  ekeeps m -> m e = (e', r) -> g (w_db (e_world e')) = g (w_db (e_world e)).
Proof. intros Hm E. specialize (Hm e). by rewrite E in Hm. Qed.
End Keeps.

#[export] Hint Resolve ekeeps_ret ekeeps_fail ekeeps_lift ekeeps_on_upstream ekeeps_on_store
  ekeeps_on_metrics ekeeps_utc_now : repo.

Ltac ekeep_steps :=
  repeat first
    [ solve [eauto 2 with repo]
    | apply ekeeps_on_repo
    | apply ekeeps_bind; [|intros ?]
    | match goal with
      | |- ekeeps _ (match ?x with _ => _ end) => destruct x
      | |- ekeeps _ (let _ := ?x in _) => cbv zeta
      end ].

(** ** The retry delay *)
Lemma retry_delay_small n : 0 <= n <= 8 -> retry_delay n = 2 ^ n.
Proof.
  intros Hn. unfold retry_delay, u64_max. rewrite (Z.min_l n 10) by lia.
  assert (2 ^ n <= 2 ^ 8) by (apply Z.pow_le_mono_r; lia).
  change (2 ^ 8) with 256 in *. change (2 ^ 64 - 1) with 18446744073709551615. lia.
Qed.

Lemma retry_delay_large n : 9 <= n -> retry_delay n = 300.
Proof.
  intros Hn. unfold retry_delay, u64_max.
  assert (2 ^ 9 <= 2 ^ Z.min n 10) by (apply Z.pow_le_mono_r; lia).
  change (2 ^ 9) with 512 in *. change (2 ^ 64 - 1) with 18446744073709551615. lia.
Qed.

Lemma retry_delay_cases n : 0 <= n -> 1 <= retry_delay n <= 300.
Proof.
  intros Hn. destruct (Z.le_gt_cases n 8).
  - rewrite retry_delay_small by lia.
    assert (2 ^ 0 <= 2 ^ n <= 2 ^ 8) by (split; apply Z.pow_le_mono_r; lia).
    change (2 ^ 8) with 256 in *. lia.
  - rewrite retry_delay_large by lia. lia.
Qed.

(** The retry delay is exponential backoff with a cap: it doubles with each
    attempt from 1 s up to 256 s, is 300 s from the ninth attempt on, never
    decreases and never leaves 1 .. 300 s. *)
Theorem retry_delay_backoff n m :
  0 <= n <= m ->
  1 <= retry_delay n <= 300 /\ retry_delay n <= retry_delay m /\
  (n <= 8 -> retry_delay n = 2 ^ n) /\ (9 <= n -> retry_delay n = 300).
Proof.
  intros Hnm. split; [apply retry_delay_cases; lia|]. split; [|split].
  - destruct (Z.le_gt_cases m 8).
    + rewrite !retry_delay_small by lia. apply Z.pow_le_mono_r; lia.
    + rewrite (retry_delay_large m) by lia. apply retry_delay_cases. lia.
  - intros. apply retry_delay_small. lia.
  - intros. apply retry_delay_large. lia.
Qed.

Lemma retry_delay_backoff_witness : retry_delay 3 = 8 /\ retry_delay 3 <= retry_delay 40.
Proof.
  destruct (retry_delay_backoff 3 40) as (_ & H1 & H2 & _); [lia|].
  split; [apply H2; lia|exact H1].
Defined.
