(* ===== verification/SearchEval.v ===== *)
(** * SEARCH, SORT and THREAD over the rows of a mailbox

    Models the pure part of crates/imap-server/src/imap.rs behind SEARCH, SORT
    and THREAD: which rows match a [SearchQuery], the order of SORT, the two
    thread algorithms and the text of their answers. *)

From stdpp Require Import base strings list.
From Stdlib Require Import ZArith Lia Btauto Sorting.Sorted Permutation.
From S2P Require Import Prelude RustStr Domain Protocol SearchQuery Schema Search RepoCore Engine.

Local Open Scope Z_scope.

Abbreviation View := MailboxMessageView.

(** ** Matching *)
Definition str_contains (haystack needle : str) : bool := is_some (find_str needle haystack).

Definition contains_case_insensitive (values : list str) (needle : str) : bool :=
  existsb (fun value => eq_ignore_ascii_case value needle) values.

Definition contains_case_insensitive_json `{Texts} (value : Value) (needle : str) : bool :=
  str_contains (to_ascii_lowercase (json_to_string value)) (to_ascii_lowercase needle).

Definition header_filter_value (view : View) (field : str) : option Value :=
  let env key := Value_get (MailboxMessageView_envelope_json view) key in
  match match_str field
          [(lit "subject", VString <$> MailboxMessageView_subject view);
           (lit "from", env (lit "from")); (lit "to", env (lit "to"));
           (lit "cc", env (lit "cc")); (lit "bcc", env (lit "bcc"));
           (lit "reply-to", env (lit "reply_to")); (lit "reply_to", env (lit "reply_to"));
           (lit "message-id", env (lit "message_id")); (lit "message_id", env (lit "message_id"));
           (lit "date", env (lit "date"))] with
  | Some value => value
  | None => env field
  end.

Definition matches_header_filters `{Texts} (view : View) (header_filters : list (str * str))
  : bool :=
  forallb (fun '(field, needle) =>
    match header_filter_value view field with
    | Some value => contains_case_insensitive_json value needle
    | None => false
    end) header_filters.

(** [is_none_or]. *)
Definition none_or {A} (o : option A) (p : A -> bool) : bool :=
  match o with Some a => p a | None => true end.

Definition internal_day `{Chrono} (view : View) : Z :=
  date_naive (default (MailboxMessageView_created_at view) (MailboxMessageView_internal_date view)).
Definition sent_day `{Chrono} (view : View) : Z :=
  date_naive
    (default (default (MailboxMessageView_created_at view) (MailboxMessageView_internal_date view))
       (MailboxMessageView_sent_date view)).

(** The early returns of the function, in order. *)
Definition matches_search_leaf `{Texts, Chrono} (view : View) (query : SearchQuery) : bool :=
  let size := as_u64 (MailboxMessageView_size_octets view) in
  none_or (uid_filter query)
    (fun set => UidSet_contains set (as_u64 (MailboxMessageView_local_uid view)))
  && forallb (contains_case_insensitive (MailboxMessageView_flags view)) (required_flags query)
  && negb (existsb (contains_case_insensitive (MailboxMessageView_flags view))
             (forbidden_flags query))
  && forallb (contains_case_insensitive (MailboxMessageView_keywords view))
       (required_keywords query)
  && negb (existsb (contains_case_insensitive (MailboxMessageView_keywords view))
             (forbidden_keywords query))
  && matches_header_filters view (header_filters query)
  && none_or (larger_than query) (fun larger_than => negb (size <=? larger_than))
  && none_or (smaller_than query) (fun smaller_than => negb (smaller_than <=? size))
  && none_or (internal_date_before query) (fun before => negb (before <=? internal_day view))
  && none_or (internal_date_on query) (fun on => internal_day view =? on)
  && none_or (internal_date_since query) (fun since => negb (internal_day view <? since))
  && none_or (sent_date_before query) (fun before => negb (before <=? sent_day view))
  && none_or (sent_date_on query) (fun on => sent_day view =? on)
  && none_or (sent_date_since query) (fun since => negb (sent_day view <? since)).

Fixpoint matches_search_expr `{Texts, Chrono} (view : View) (e : SearchExpr) : bool :=
  match e with
  | Leaf query => matches_search_leaf view query
  | And children => forallb (matches_search_expr view) children
  | Or l r => matches_search_expr view l || matches_search_expr view r
  | Not inner => negb (matches_search_expr view inner)
  end.

Definition matches_search_view `{Texts, Chrono} (view : View) (query : SearchQuery) : bool :=
  matches_search_leaf view query && none_or (expr query) (matches_search_expr view).

(** ** The text fallback without an index *)

(** [&s[i..j]] of the string with the bytes [b]: a panic off a character
    boundary. *)
Definition byte_slice (b : bytes) (i j : nat) : Result str :=
  match from_utf8 (take (j - i) (drop i b)) with Some s => Ok s | None => Panic end.

Definition is_ascii_whitespace (c : Z) : bool := existsb (Z.eqb c) [32; 9; 10; 12; 13].

Definition trim_matches (c : Z) (s : str) : str :=
  trim_end_by (Z.eqb c) (trim_start_by (Z.eqb c) s).

(** The [while] loop from [index] on, over the [fuel] positions left. *)
Fixpoint split_bool_loop (fuel : nat) (b : bytes) (operator : str) (index : nat) (depth : Z)
  : Result (option (str * str)) :=
  let n := length (as_bytes operator) in
  match fuel with
  | O => Ok None
  | S fuel' =>
      if negb (Nat.leb (index + n) (length b)) then Ok None
      else
        let c := nth index b 0 in
        let depth :=
          if c =? 40 then depth + 1 else if c =? 41 then Z.max 0 (depth - 1) else depth in
        if (depth =? 0) && Nat.leb n (length (drop index b)) then
          try! candidate <- byte_slice b index (index + n) ;;
          let left_ok := Nat.eqb index 0 || is_ascii_whitespace (nth (index - 1) b 0) in
          let right_index := (index + n)%nat in
          let right_ok :=
            Nat.leb (length b) right_index || is_ascii_whitespace (nth right_index b 0) in
          if eq_ignore_ascii_case candidate operator && left_ok && right_ok then
            try! left <- byte_slice b 0 index ;;
            try! right <- byte_slice b right_index (length b) ;;
            Ok (Some (trim (trim_matches 40 (trim left)), trim (trim_matches 41 (trim right))))
          else split_bool_loop fuel' b operator (S index) depth
        else split_bool_loop fuel' b operator (S index) depth
  end.

Definition split_top_level_bool (e operator : str) : Result (option (str * str)) :=
  split_bool_loop (S (length (as_bytes e))) (as_bytes e) operator 0 0.

Definition is_ascii_alphanumeric (c : Z) : bool :=
  is_ascii_digit c || ((65 <=? c) && (c <=? 90)) || ((97 <=? c) && (c <=? 122)).

(** [s.split(p)] for a predicate on characters. *)
Fixpoint split_by (p : Z -> bool) (s : str) : list str :=
  match s with
  | [] => [[]]
  | c :: s' =>
      if p c then [] :: split_by p s'
      else match split_by p s' with
           | w :: ws => (c :: w) :: ws
           | [] => [[c]]
           end
  end.

Definition field_words : list str :=
  map lit ["subject"; "body"; "from"; "to"; "cc"; "text"; "all"]%string.

Definition extract_search_terms (e : str) : list str :=
  List.filter (fun term => non_empty term && negb (existsb (str_eqb term) field_words))
    (map (fun term => to_ascii_lowercase (trim term))
       (split_by (fun c => negb (is_ascii_alphanumeric c)) e)).

Definition fallback_haystack `{Texts} (view : View) : str :=
  to_ascii_lowercase (join (lit " ")
    [default [] (MailboxMessageView_subject view); default [] (MailboxMessageView_text_preview view);
     json_to_string (MailboxMessageView_envelope_json view);
     json_to_string (MailboxMessageView_bodystructure_json view)]).

(** Each recursive call is on a shorter text; running out of [fuel] is a
    [Panic]. *)
Fixpoint text_fallback_loop `{Texts} (fuel : nat) (view : View) (query_string : str)
  : Result bool :=
  let normalized := trim query_string in
  match fuel, normalized with
  | _, [] => Ok true
  | O, _ => Panic
  | S fuel', _ =>
      let haystack := fallback_haystack view in
      try! split <- split_top_level_bool normalized (lit "OR") ;;
      match split with
      | Some (l, r) =>
          try! left <- text_fallback_loop fuel' view l ;;
          if left : bool then Ok true else text_fallback_loop fuel' view r
      | None =>
          match strip_prefix (lit "NOT ") normalized with
          | Some inner =>
              try! r <- text_fallback_loop fuel' view (trim inner) ;;
              Ok (negb r)
          | None => Ok (forallb (str_contains haystack) (extract_search_terms normalized))
          end
      end
  end.

Definition matches_search_text_fallback `{Texts} (view : View) (query_string : option str)
  : Result bool :=
  match query_string with
  | None => Ok true
  | Some query_string => text_fallback_loop (length query_string) view query_string
  end.

(** ** Rows and sequence numbers *)
Fixpoint position {A} (p : A -> bool) (l : list A) : option nat :=
  match l with
  | [] => None
  | x :: l' => if p x then Some O else S <$> position p l'
  end.

Definition view_uid (view : View) : Z := as_u64 (MailboxMessageView_local_uid view).

Definition sequence_number_for_view (views : list View) (uid : Z) : option Z :=
  (fun index => Z.of_nat index + 1) <$> position (fun view => view_uid view =? uid) views.

(** The [BTreeMap] of the rows by UID: a later row replaces an earlier one. *)
Definition view_map_get (views : list View) (uid : Z) : option View :=
  last (List.filter (fun view => view_uid view =? uid) views).
Definition view_map_keys (views : list View) : list Z :=
  dedup (sort_by Z.leb (map view_uid views)).

(** The set as a list; its members are what matters. *)
Definition recent_mailbox_uids (views : list View) (recent_count : Z) : list Z :=
  if recent_count <=? 0 then []
  else take (Z.to_nat recent_count) (rev (sort_by Z.leb (map view_uid views))).

Definition memZ (z : Z) (l : list Z) : bool := existsb (Z.eqb z) l.

(** ** SORT *)
Inductive SortKey : Type :=
| KDate | KSubject | KFrom | KTo | KCc | KSize | KArrival | KUid.

(** [dt.timestamp()] of a time in microseconds. *)
Definition timestamp (t : Z) : Z := t / 1000000.

Definition sort_date_key (view : View) : Z :=
  timestamp
    (default (MailboxMessageView_created_at view)
       (option_or (MailboxMessageView_sent_date view) (MailboxMessageView_internal_date view))).

Definition sort_text_key (value : option str) : str := default [] (to_ascii_lowercase <$> value).

Fixpoint find_map {A B} (f : A -> option B) (l : list A) : option B :=
  match l with
  | [] => None
  | x :: l' => match f x with Some b => Some b | None => find_map f l' end
  end.

Definition sort_address_key (value : Value) (field : str) : str :=
  default []
    (items ← Value_get value field ≫= Value_as_array;
     find_map (fun item =>
       address ← Value_get item (lit "address") ≫= Value_as_str;
       Some (to_ascii_lowercase address)) items).

Fixpoint str_cmp (a b : str) : comparison :=
  match a, b with
  | [], [] => Eq
  | [], _ => Lt
  | _, [] => Gt
  | x :: a', y :: b' => match x ?= y with Eq => str_cmp a' b' | o => o end
  end.

Definition compare_key (key : SortKey) (left right : View) : comparison :=
  let addr f := str_cmp (sort_address_key (MailboxMessageView_envelope_json left) f)
                        (sort_address_key (MailboxMessageView_envelope_json right) f) in
  match key with
  | KDate => sort_date_key left ?= sort_date_key right
  | KSubject => str_cmp (sort_text_key (MailboxMessageView_subject left))
                        (sort_text_key (MailboxMessageView_subject right))
  | KFrom => addr (lit "from")
  | KTo => addr (lit "to")
  | KCc => addr (lit "cc")
  | KSize => MailboxMessageView_size_octets left ?= MailboxMessageView_size_octets right
  | KArrival => MailboxMessageView_created_at left ?= MailboxMessageView_created_at right
  | KUid => MailboxMessageView_local_uid left ?= MailboxMessageView_local_uid right
  end.

Fixpoint compare_sort_rows (left right : View) (sort_keys : list SortKey) : comparison :=
  match sort_keys with
  | [] => MailboxMessageView_local_uid left ?= MailboxMessageView_local_uid right
  | key :: sort_keys' =>
      match compare_key key left right with
      | Eq => compare_sort_rows left right sort_keys'
      | ordering => ordering
      end
  end.

(** [sort_by] with a comparison: a stable sort, [left] first unless greater. *)
Definition not_gt {A} (cmp : A -> A -> comparison) (left right : A) : bool :=
  match cmp left right with Gt => false | _ => true end.

Definition sort_rows (sort_keys : list SortKey) (reverse : bool) (rows : list View) : list View :=
  sort_by (not_gt (fun left right =>
    let ordering := compare_sort_rows left right sort_keys in
    if reverse : bool then CompOpp ordering else ordering)) rows.

Fixpoint parse_sort_keys (tokens : list str) (sort_keys : list SortKey) (reverse : bool)
  : Result (list SortKey * bool) :=
  match tokens with
  | [] => Ok (sort_keys, reverse)
  | token :: tokens' =>
      let upper := to_ascii_uppercase token in
      match match_str upper
              [(lit "DATE", KDate); (lit "SUBJECT", KSubject); (lit "FROM", KFrom);
               (lit "TO", KTo); (lit "CC", KCc); (lit "SIZE", KSize);
               (lit "ARRIVAL", KArrival); (lit "UID", KUid)] with
      | Some key => parse_sort_keys tokens' (sort_keys ++ [key]) reverse
      | None =>
          if str_eqb upper (lit "REVERSE") then parse_sort_keys tokens' sort_keys true
          else Err (EParse (lit "unsupported SORT key: " ++ upper))
      end
  end.

Definition parse_sort_request `{Chrono} (args : list str)
  : Result (option (list SortKey * bool * SearchQuery)) :=
  match args with
  | keys :: _charset :: _ :: _ =>
      match split_whitespace (trim_end_by (Z.eqb 41) (trim_start_by (Z.eqb 40) (trim keys))) with
      | [] => Err (EParse (lit "SORT requires at least one sort key"))
      | sort_tokens =>
          try! r <- parse_sort_keys sort_tokens [] false ;;
          try! query <- from_imap_args (drop 2 args) ;;
          Ok (Some (fst r, snd r, query))
      end
  | _ => Ok None
  end.

(** ** A flat query is the conjunction of its criteria *)

Lemma none_or_merge (tighter : Z -> Z -> Z) (p : Z -> bool) a b :
  (forall x y, p (tighter x y) = p x && p y) ->
  none_or (merge_bound tighter a b) p = none_or a p && none_or b p.
Proof. intros Hp. destruct a, b; simpl; rewrite ?Hp, ?andb_true_r; done. Qed.

Lemma none_or_or {A} (p : A -> bool) a b :
  is_some a && is_some b = false ->
  none_or (option_or a b) p = none_or a p && none_or b p.
Proof. destruct a, b; simpl; intros; rewrite ?andb_true_r; done. Qed.

(** Two fragments that do not both bound the UIDs or pin the same date. *)
Definition uid_key (q : SearchQuery) : bool := is_some (uid_filter q).
Definition on_key (q : SearchQuery) : bool := is_some (internal_date_on q).
Definition sent_on_key (q : SearchQuery) : bool := is_some (sent_date_on q).

Definition exclusive (keys : list (SearchQuery -> bool)) (a b : SearchQuery) : Prop :=
  List.Forall (fun key => key a && key b = false) keys.

Definition single_keys : list (SearchQuery -> bool) := [uid_key; on_key; sent_on_key].

#[local] Arguments matches_search_leaf : simpl never.

Section Conjunction.
Context `{Texts, Chrono}.

Lemma merge_query_fields_matches view a b :
  exclusive single_keys a b ->
  matches_search_leaf view (merge_query_fields a b) =
  matches_search_leaf view a && matches_search_leaf view b.
Proof.
  intros Hx. inversion_clear Hx as [|? ? Hu Hx']. inversion_clear Hx' as [|? ? Ho Hx''].
  inversion_clear Hx'' as [|? ? Hs _]. unfold uid_key, on_key, sent_on_key in *.
  unfold matches_search_leaf, matches_header_filters, merge_query_fields; cbn
    [uid_filter required_flags forbidden_flags required_keywords forbidden_keywords
     header_filters larger_than smaller_than internal_date_before internal_date_on
     internal_date_since sent_date_before sent_date_on sent_date_since].
  rewrite !forallb_app, !existsb_app, !negb_orb, !none_or_or by done.
  rewrite !none_or_merge by (intros x y; rewrite <- ?negb_orb; f_equal; lia).
  assert (Hset : forall p : UidSet -> bool,
    none_or (match uid_filter a, uid_filter b with
             | Some existing, Some next => union_uid_sets (Some existing) next
             | None, Some next => Some next
             | existing, None => existing
             end) p = none_or (uid_filter a) p && none_or (uid_filter b) p).
  { intros p. destruct (uid_filter a), (uid_filter b); simpl in *; try done;
      by rewrite ?andb_true_r. }
  rewrite Hset. btauto.
Qed.

Lemma identity_matches view q : is_identity_query q = true -> matches_search_leaf view q = true.
Proof.
  unfold is_identity_query. intros Hq. repeat (apply andb_true_iff in Hq; destruct Hq as [Hq ?]).
  repeat match goal with
  | Hn : is_none ?o = true |- _ => destruct o eqn:?; [done|]; clear Hn
  | He : is_empty ?l = true |- _ => destruct l eqn:?; [|done]; clear He
  end.
  unfold matches_search_leaf, matches_header_filters.
  by repeat match goal with He : _ q = _ |- _ => rewrite He; clear He end.
Qed.

(** The criteria of a request, one after another. *)
Fixpoint search_criteria (fuel : nat) (tokens : list str) : Result (list SearchExpr) :=
  match tokens with
  | [] => Ok []
  | _ =>
      match fuel with
      | O => Panic
      | S fuel' =>
          try! r <- parse_term (S (length tokens)) tokens ;;
          try! rest <- search_criteria fuel' (snd r) ;;
          Ok (fst r :: rest)
      end
  end.

Definition leaf_key (key : SearchQuery -> bool) (e : SearchExpr) : bool :=
  match e with Leaf q => key q | _ => false end.

(** [key] is used by at most one of [flat] and the criteria. *)
Definition at_most_once (flat : SearchQuery) (criteria : list SearchExpr)
  (key : SearchQuery -> bool) : Prop :=
  (Nat.b2n (key flat) + length (List.filter (leaf_key key) criteria) <= 1)%nat.

Lemma single_key_merge key a b :
  In key single_keys -> key (merge_query_fields a b) = key a || key b.
Proof.
  intros Hin. simpl in Hin.
  destruct Hin as [<-|[<-|[<-|[]]]]; unfold uid_key, on_key, sent_on_key; simpl.
  - by destruct (uid_filter a), (uid_filter b).
  - by destruct (internal_date_on a), (internal_date_on b).
  - by destruct (sent_date_on a), (sent_date_on b).
Qed.

Lemma at_most_once_merge flat fragment criteria :
  List.Forall (at_most_once flat (Leaf fragment :: criteria)) single_keys ->
  exclusive single_keys flat fragment /\
  List.Forall (at_most_once flat criteria) single_keys /\
  List.Forall (at_most_once (merge_query_fields flat fragment) criteria) single_keys.
Proof.
  intros Hall. rewrite List.Forall_forall in Hall. unfold exclusive.
  rewrite !List.Forall_forall. unfold at_most_once in *.
  repeat split; intros key Hin; specialize (Hall key Hin); simpl in Hall;
    rewrite ?single_key_merge by done;
    destruct (key flat), (key fragment); simpl in *; try lia; done.
Qed.

Lemma parse_loop_conjunction view fuel tokens flat terms criteria flat' terms' :
  search_criteria fuel tokens = Ok criteria ->
  List.Forall (at_most_once flat criteria) single_keys ->
  parse_loop fuel tokens flat terms = Ok (flat', terms') ->
  matches_search_leaf view flat' && forallb (matches_search_expr view) terms' =
  matches_search_leaf view flat && forallb (matches_search_expr view) terms &&
  forallb (matches_search_expr view) criteria.
Proof.
  revert tokens flat terms criteria.
  induction fuel as [|fuel IH]; intros tokens flat terms criteria Hc Hx Hp;
    (destruct tokens as [|token tokens];
      [simpl in *; injection Hc as <-; injection Hp as <- <-; simpl; by rewrite andb_true_r|]);
    [done|].
  unfold search_criteria in Hc; fold search_criteria in Hc.
  unfold parse_loop in Hp; fold @parse_loop in Hp.
  destruct (parse_term _ _) as [[e rest]|err|]; simpl obind in *; [|done|done].
  cbn [fst snd] in *.
  destruct (search_criteria fuel rest) as [criteria'|err|] eqn:Ec; simpl in Hc; [|done|done].
  injection Hc as <-. simpl.
  destruct e as [fragment|cs|l r|i].
  2-4: rewrite (IH _ _ _ _ Ec ltac:(exact Hx) Hp), forallb_app; simpl; btauto.
  apply at_most_once_merge in Hx as (Hex & Hk & Hm). simpl.
  destruct (is_identity_query fragment) eqn:Ei.
  - rewrite (IH _ _ _ _ Ec Hk Hp), (identity_matches view fragment) by done. btauto.
  - rewrite (IH _ _ _ _ Ec Hm Hp), merge_query_fields_matches by done. btauto.
Qed.
(** The loop never touches the expression of the flat query. *)
Lemma parse_loop_expr fuel tokens flat terms flat' terms' :
  parse_loop fuel tokens flat terms = Ok (flat', terms') -> expr flat' = expr flat.
Proof.
  revert tokens flat terms. induction fuel as [|fuel IH]; intros tokens flat terms Hp;
    (destruct tokens as [|token tokens]; [simpl in *; by injection Hp as <- <-|]); [done|].
  unfold parse_loop in Hp; fold @parse_loop in Hp.
  destruct (parse_term _ _) as [[e rest]|err|]; simpl obind in *; [|done|done].
  cbn [fst snd] in *. destruct e; rewrite (IH _ _ _ Hp); [|done..].
  by destruct (is_identity_query _).
Qed.

(** SEARCH criteria are a conjunction: a row matches the query parsed from a
    token list exactly when it matches every criterion of the list on its own
    (as far as criteria are decided on the row), provided at most one criterion
    gives UIDs, at most one ON and at most one SENTON. *)
Theorem search_criteria_conjunction view args criteria query :
  search_criteria (length args) args = Ok criteria ->
  List.Forall (fun key => length (List.filter (leaf_key key) criteria) <= 1)%nat single_keys ->
  from_imap_args args = Ok query ->
  matches_search_view view query = forallb (matches_search_expr view) criteria.
Proof.
  intros Hc Hx Hq. unfold from_imap_args, search_parser_parse in Hq.
  assert (Hx' : List.Forall (at_most_once (set_match_all false SearchQuery_all) criteria)
                  single_keys).
  { rewrite List.Forall_forall in *. intros key Hin. specialize (Hx key Hin).
    unfold at_most_once. simpl in Hin. by destruct Hin as [<-|[<-|[<-|[]]]]. }
  destruct args as [|a args];
    [injection Hc as <-; injection Hq as <-; done|].
  destruct (parse_loop _ _ _ _) as [[flat terms]|err|] eqn:Ep; simpl in Hq; [|done|done].
  pose proof (parse_loop_conjunction view _ _ (set_match_all false SearchQuery_all) _ _ _ _ Hc Hx' Ep) as Hm.
  rewrite (identity_matches view (set_match_all false SearchQuery_all)) in Hm by done.
  simpl in Hm. rewrite <- Hm. unfold matches_search_view.
  pose proof (parse_loop_expr _ _ _ _ _ _ Ep) as He. cbn in He.
  destruct terms as [|e [|e' terms]]; injection Hq as <-.
  - cbn [forallb]. rewrite !andb_true_r. destruct (is_identity_query flat) eqn:Ei.
    + by rewrite (identity_matches view flat).
    + rewrite He. cbn [none_or]. by rewrite andb_true_r.
  - cbn [forallb expr set_expr set_match_all none_or]. by rewrite andb_true_r.
  - done.
Qed.
End Conjunction.

Lemma parse_term_uid `{Chrono} fuel v set rest :
  parse_uid_set v = Ok set ->
  parse_term (S fuel) (lit "UID" :: v :: rest) =
  Ok (Leaf (set_match_all false (set_uid_filter (Some set) SearchQuery_all)), rest).
Proof.
  intros E. unfold parse_term. cbn [next_token].
  change (eq_ignore_ascii_case (lit "UID") (lit "NOT")) with false.
  change (eq_ignore_ascii_case (lit "UID") (lit "OR")) with false.
  change (eq_ignore_ascii_case (lit "UID") (lit "UID")) with true.
  cbv iota. by rewrite E.
Qed.

(** Two UID criteria are united, not intersected: the row matches when either
    of the two sets has its UID. *)
Theorem uid_criteria_union `{Texts, Chrono} view v1 v2 s1 s2 :
  parse_uid_set v1 = Ok s1 -> parse_uid_set v2 = Ok s2 ->
  exists query,
    from_imap_args [lit "UID"; v1; lit "UID"; v2] = Ok query /\
    matches_search_view view query =
    UidSet_contains s1 (view_uid view) || UidSet_contains s2 (view_uid view).
Proof.
  intros E1 E2. eexists. split.
  - unfold from_imap_args, search_parser_parse. cbn [length parse_loop].
    rewrite (parse_term_uid _ v1 s1) by done. cbn [obind fst snd length].
    rewrite (parse_term_uid _ v2 s2) by done. reflexivity.
  - unfold matches_search_view, matches_search_leaf, UidSet_contains. cbn -[existsb].
    rewrite existsb_app, !andb_true_r. done.
Qed.

(** A row and its witnesses: chrono and serde_json texts as constants. *)
Module SearchExample.
#[local] Instance texts : Texts :=
  { json_to_string := fun _ => []; to_rfc3339 := fun _ => []; parse_rfc3339 := fun _ => inl 0;
    debug_str := fun s => s; foreign_error := fun _ => [] }.
#[local] Instance chrono : Chrono :=
  { parse_naive_date := parse_u64; date_naive := fun t => t / 86400000000;
    format_date_time := fun _ => []; parse_date_time := fun _ => inl 0 }.

Definition view : View :=
  mkMailboxMessageView 1 1 1 5 None None [lit "\Seen"] [] false None 0 0 [] [] None None Null Null
    None None 100 None.
Definition args : list str :=
  [lit "SEEN"; lit "UID"; lit "1:7"; lit "LARGER"; lit "50"; lit "NOT"; lit "FLAGGED"].
Definition criteria : list SearchExpr :=
  match search_criteria (length args) args with Ok c => c | _ => [] end.
Definition query : SearchQuery :=
  match from_imap_args args with Ok q => q | _ => SearchQuery_all end.

Lemma criteria_eq : search_criteria (length args) args = Ok criteria.
Proof. by vm_compute. Qed.
Lemma query_eq : from_imap_args args = Ok query.
Proof. by vm_compute. Qed.
Lemma criteria_once :
  List.Forall (fun key => length (List.filter (leaf_key key) criteria) <= 1)%nat single_keys.
Proof. vm_compute. repeat constructor. Qed.
Lemma criteria_match : forallb (matches_search_expr view) criteria = true.
Proof. by vm_compute. Qed.

Lemma search_criteria_conjunction_witness : matches_search_view view query = true.
Proof.
  rewrite (search_criteria_conjunction view args criteria query criteria_eq criteria_once query_eq).
  exact criteria_match.
Defined.

Lemma uid_criteria_union_witness :
  exists q, from_imap_args [lit "UID"; lit "5"; lit "UID"; lit "9"] = Ok q /\
    matches_search_view view q =
    UidSet_contains [(5, 5)] (view_uid view) || UidSet_contains [(9, 9)] (view_uid view).
Proof. apply uid_criteria_union; reflexivity. Defined.
End SearchExample.
