(* ===== verification/Threads.v ===== *)
(** * THREAD

    Models the THREAD algorithms of crates/imap-server/src/imap.rs: grouping by
    normalized subject, the tree of References and In-Reply-To, and the text of
    a forest.  The header lookup of mailparse is a parameter. *)

From stdpp Require Import base strings list.
From Stdlib Require Import ZArith Lia Sorting.Sorted Permutation.
From S2P Require Import Prelude RustStr Domain Protocol SearchQuery Schema Search RepoCore Engine SearchEval.

Local Open Scope Z_scope.
Local Set Warnings "-register-all".

Inductive ThreadAlgorithm : Type := OrderedSubject | References.

Record ThreadMessage : Type := mkThreadMessage {
  ThreadMessage_uid : Z;
  ThreadMessage_subject_key : str;
  ThreadMessage_sort_date : Z;
  ThreadMessage_sort_uid : Z;
  ThreadMessage_message_id : option str;
  ThreadMessage_references : list str;
  ThreadMessage_in_reply_to : list str
}.

Inductive ThreadNode : Type :=
| mkThreadNode (uid : Z) (sort_subject : str) (sort_date sort_uid : Z)
    (children : list ThreadNode).

Definition node_uid (n : ThreadNode) : Z := let '(mkThreadNode u _ _ _ _) := n in u.
Definition node_children (n : ThreadNode) : list ThreadNode :=
  let '(mkThreadNode _ _ _ _ c) := n in c.

Definition parse_thread_request `{Chrono} (args : list str)
  : Result (option (ThreadAlgorithm * SearchQuery)) :=
  match args with
  | name :: _charset :: _ :: _ =>
      let upper := to_ascii_uppercase name in
      try! algorithm <-
        ok_or (match_str upper [(lit "ORDEREDSUBJECT", OrderedSubject);
                                (lit "REFERENCES", References)])
          (EParse (lit "unsupported THREAD algorithm: " ++ upper)) ;;
      try! query <- from_imap_args (drop 2 args) ;;
      Ok (Some (algorithm, query))
  | _ => Ok None
  end.

(** ** Subjects and message ids *)
Definition trim_start (s : str) : str := trim_start_by is_whitespace s.

(** The prefix test is on the lower-case text, of the same length. *)
Definition strip_thread_subject_prefix (value : str) : option str :=
  find_map (fun prefix =>
    match strip_prefix prefix (to_ascii_lowercase value) with
    | Some stripped => Some (trim_start (drop (length value - length stripped) value))
    | None => None
    end) [lit "re:"; lit "fwd:"; lit "fw:"].

(** Every turn removes a prefix, so the length of the text is enough fuel. *)
Fixpoint strip_subject_loop (fuel : nat) (value : str) : str :=
  match fuel with
  | O => value
  | S fuel' =>
      match strip_thread_subject_prefix value with
      | None => value
      | Some candidate =>
          if str_eqb candidate value then value
          else strip_subject_loop fuel' (trim_start candidate)
      end
  end.

Definition normalize_thread_subject (subject : option str) : str :=
  let value := trim (default [] subject) in
  to_ascii_lowercase (strip_subject_loop (length value) value).

Definition normalize_message_id (value : option str) : option str :=
  value ← value;
  let trimmed := trim (trim_matches 62 (trim_matches 60 (trim value))) in
  if non_empty trimmed then Some (to_ascii_lowercase trimmed) else None.

Definition normalize_message_id_list (value : option str) : list str :=
  match value with
  | Some value => omap (fun token => normalize_message_id (Some token)) (split_whitespace value)
  | None => []
  end.

(** [parse_mail(raw)] and [headers.get_first_value(name)] of mailparse: the
    first value of a header, or the text of the parse error. *)
Class MailHeaders : Type := {
  first_header_value : bytes -> (str -> option str) + str
}.

Record ThreadHeaders : Type := mkThreadHeaders {
  ThreadHeaders_message_id : option str;
  ThreadHeaders_references : list str;
  ThreadHeaders_in_reply_to : list str
}.

Definition extract_thread_headers `{MailHeaders} (raw : bytes) : Result ThreadHeaders :=
  match first_header_value raw with
  | inr e => Err (EParse (lit "failed to parse RFC822 message for threading: " ++ e))
  | inl get =>
      Ok (mkThreadHeaders (normalize_message_id (get (lit "Message-ID")))
            (normalize_message_id_list (get (lit "References")))
            (normalize_message_id_list (get (lit "In-Reply-To"))))
  end.

(** ** ORDEREDSUBJECT *)
Definition view_subject (view : View) : str :=
  normalize_thread_subject (MailboxMessageView_subject view).

Definition then_cmp (a b : comparison) : comparison := match a with Eq => b | _ => a end.

Definition compare_by_date (left right : View) : comparison :=
  then_cmp (sort_date_key left ?= sort_date_key right)
    (MailboxMessageView_local_uid left ?= MailboxMessageView_local_uid right).
Definition compare_by_subject (left right : View) : comparison :=
  then_cmp (str_cmp (view_subject left) (view_subject right)) (compare_by_date left right).

(** The loop over the sorted rows: [groups] is kept with the last group first
    and each group in order. *)
Definition add_to_groups (groups : list (list View)) (view : View) : list (list View) :=
  match groups with
  | ((first :: _) as last_group) :: rest =>
      if str_eqb (view_subject first) (view_subject view)
      then (last_group ++ [view]) :: rest
      else [view] :: groups
  | _ => [view] :: groups
  end.

(** [group[0]] of the comparison; no group is empty. *)
Definition compare_groups (left right : list View) : comparison :=
  match left, right with
  | l :: _, r :: _ => compare_by_subject l r
  | _, _ => Eq
  end.

Definition leaf_node (view : View) (children : list ThreadNode) : ThreadNode :=
  mkThreadNode (view_uid view) (view_subject view) (sort_date_key view) (view_uid view) children.

Definition group_node (group : list View) : list ThreadNode :=
  match sort_by (not_gt compare_by_date) group with
  | root :: rest => [leaf_node root (map (fun view => leaf_node view []) rest)]
  | [] => []
  end.

Definition thread_ordered_subject (messages : list View) : list ThreadNode :=
  let messages := sort_by (not_gt compare_by_subject) messages in
  let groups := rev (fold_left add_to_groups messages []) in
  flat_map group_node (sort_by (not_gt compare_groups) groups).

(** ** REFERENCES *)

(** A [BTreeMap<String, _>] by its entries in order of insertion. *)
Section StrMap.
Context {A : Type}.
Fixpoint map_get (k : str) (m : list (str * A)) : option A :=
  match m with
  | [] => None
  | (k', v) :: m' => if str_eqb k k' then Some v else map_get k m'
  end.
Fixpoint map_insert (k : str) (v : A) (m : list (str * A)) : list (str * A) :=
  match m with
  | [] => [(k, v)]
  | (k', v') :: m' => if str_eqb k k' then (k, v) :: m' else (k', v') :: map_insert k v m'
  end.
End StrMap.

Definition message_node (m : ThreadMessage) : ThreadNode :=
  mkThreadNode (ThreadMessage_uid m) (ThreadMessage_subject_key m) (ThreadMessage_sort_date m)
    (ThreadMessage_sort_uid m) [].

Definition node_by_id (messages : list ThreadMessage) : list (str * ThreadNode) :=
  fold_left (fun acc m =>
    match ThreadMessage_message_id m with
    | Some message_id => map_insert message_id (message_node m) acc
    | None => acc
    end) messages [].

(** The parent the second loop records for a message, if any. *)
Definition thread_parent (nodes : list (str * ThreadNode)) (m : ThreadMessage)
  : option (str * str) :=
  message_id ← ThreadMessage_message_id m;
  parent ← option_or (last (ThreadMessage_references m)) (last (ThreadMessage_in_reply_to m));
  if negb (str_eqb parent message_id) && is_some (map_get parent nodes)
  then Some (message_id, parent) else None.

Definition parent_by_id (nodes : list (str * ThreadNode)) (messages : list ThreadMessage)
  : list (str * str) :=
  fold_left (fun acc m =>
    match thread_parent nodes m with
    | Some (message_id, parent) => map_insert message_id parent acc
    | None => acc
    end) messages [].

Definition child_ids_by_parent (nodes : list (str * ThreadNode)) (messages : list ThreadMessage)
  : list (str * list str) :=
  fold_left (fun acc m =>
    match thread_parent nodes m with
    | Some (message_id, parent) =>
        map_insert parent (default [] (map_get parent acc) ++ [message_id]) acc
    | None => acc
    end) messages [].

(** [iter().map(f).collect()] of a function that may panic. *)
Fixpoint map_outcome {E A B} (f : A -> outcome E B) (l : list A) : outcome E (list B) :=
  match l with
  | [] => Ok []
  | x :: l' => try! y <- f x ;; try! ys <- map_outcome f l' ;; Ok (y :: ys)
  end.

(** [visited] is the path from the root: the insertion at the start and the
    removal at the end of each call.  A path repeats no id, so one more than
    the number of nodes is enough fuel. *)
Fixpoint build_thread_node (fuel : nat) (message_id : str) (nodes : list (str * ThreadNode))
  (child_ids : list (str * list str)) (visited : list str) : Result ThreadNode :=
  match fuel, map_get message_id nodes with
  | O, _ | _, None => Panic
  | S fuel', Some node =>
      if existsb (str_eqb message_id) visited then Ok node
      else
        match map_get message_id child_ids with
        | None => Ok node
        | Some ids =>
            try! children <- map_outcome (fun child_id =>
              build_thread_node fuel' child_id nodes child_ids (message_id :: visited)) ids ;;
            let '(mkThreadNode u s d su _) := node in
            Ok (mkThreadNode u s d su children)
        end
  end.

Definition compare_nodes (left right : ThreadNode) : comparison :=
  let '(mkThreadNode _ ls ld lu _) := left in
  let '(mkThreadNode _ rs rd ru _) := right in
  then_cmp (ld ?= rd) (then_cmp (str_cmp ls rs) (lu ?= ru)).

(** The nodes are sorted and then the children of each, which the sorting by
    fields outside the children allows to do first. *)
Fixpoint sort_thread_node (n : ThreadNode) : ThreadNode :=
  let '(mkThreadNode u s d su children) := n in
  mkThreadNode u s d su (sort_by (not_gt compare_nodes) (map sort_thread_node children)).
Definition sort_thread_nodes (nodes : list ThreadNode) : list ThreadNode :=
  sort_by (not_gt compare_nodes) (map sort_thread_node nodes).

Definition thread_references (messages : list ThreadMessage) : Result (list ThreadNode) :=
  let nodes := node_by_id messages in
  let parents := parent_by_id nodes messages in
  let child_ids := child_ids_by_parent nodes messages in
  let build id := build_thread_node (S (length nodes)) id nodes child_ids [] in
  let is_root m :=
    match ThreadMessage_message_id m with
    | None => true
    | Some message_id => negb (is_some (map_get message_id parents))
    end in
  try! roots <- map_outcome (fun m =>
    match ThreadMessage_message_id m with
    | None => Ok (message_node m)
    | Some message_id => build message_id
    end) (List.filter is_root messages) ;;
  try! roots <-
    match roots with
    | [] => map_outcome build (sort_by str_leb (map fst nodes))
    | _ => Ok roots
    end ;;
  Ok (sort_thread_nodes roots).

(** ** Text *)
Definition thread_label (uid : Z) (uid_results : bool) (views : list View) : str :=
  if uid_results then fmt_u uid
  else fmt_u (default uid (sequence_number_for_view views uid)).

Fixpoint render_thread_node (node : ThreadNode) (uid_results : bool) (views : list View) : str :=
  let '(mkThreadNode uid _ _ _ children) := node in
  let label := thread_label uid uid_results views in
  match children with
  | [] => label
  | _ =>
      lit "(" ++ label ++ lit " " ++
      join (lit " ") (map (fun child => render_thread_node child uid_results views) children) ++
      lit ")"
  end.

Definition render_thread_forest (forest : list ThreadNode) (uid_results : bool)
  (views : list View) : list str :=
  map (fun node => render_thread_node node uid_results views) forest.

(** ** Every message is in exactly one thread *)
Fixpoint node_uids (n : ThreadNode) : list Z :=
  let '(mkThreadNode u _ _ _ children) := n in u :: flat_map node_uids children.
Definition forest_uids (forest : list ThreadNode) : list Z := flat_map node_uids forest.

Lemma add_to_groups_concat groups view :
  concat (rev (add_to_groups groups view)) = concat (rev groups) ++ [view].
Proof.
  unfold add_to_groups. destruct groups as [|[|first g] rest]; try case_match; simpl;
    rewrite ?concat_app; simpl; rewrite ?app_nil_r; try done.
  by rewrite <- app_assoc.
Qed.

Lemma groups_concat messages groups :
  concat (rev (fold_left add_to_groups messages groups)) = concat (rev groups) ++ messages.
Proof.
  revert groups. induction messages as [|m messages IH]; intros groups; simpl.
  - by rewrite app_nil_r.
  - rewrite IH, add_to_groups_concat, <- app_assoc. done.
Qed.

Lemma leaves_uids rest : forest_uids (map (fun view => leaf_node view []) rest) = map view_uid rest.
Proof.
  unfold forest_uids. rewrite flat_map_concat_map, map_map.
  induction rest as [|v rest IH]; simpl in *; [done|]. by rewrite IH.
Qed.

Lemma group_node_uids group : Permutation (forest_uids (group_node group)) (map view_uid group).
Proof.
  unfold group_node. rewrite (sort_by_perm (not_gt compare_by_date) group) at 2.
  destruct (sort_by _ group) as [|root rest]; [done|].
  unfold forest_uids. simpl. rewrite app_nil_r. constructor. by rewrite <- leaves_uids.
Qed.

Lemma groups_uids groups :
  Permutation (forest_uids (flat_map group_node groups)) (flat_map (map view_uid) groups).
Proof.
  induction groups as [|g groups IH]; simpl; [done|].
  unfold forest_uids in *. rewrite flat_map_app, IH. by rewrite group_node_uids.
Qed.

(** One subject per group, and the group of a subject is whole. *)
Definition one_subject (group : list View) : Prop :=
  exists s, List.Forall (fun view => view_subject view = s) group.

Lemma one_subject_single view : one_subject [view].
Proof. exists (view_subject view). by constructor. Qed.

Lemma add_to_groups_subject groups view :
  List.Forall one_subject groups -> List.Forall one_subject (add_to_groups groups view).
Proof.
  intros Hg. unfold add_to_groups.
  destruct groups as [|[|first g] rest]; try (constructor; [apply one_subject_single|done]).
  case_match eqn:E; [|constructor; [apply one_subject_single|done]].
  inversion_clear Hg as [|?? [s Hs] Hrest].
  apply str_eqb_eq in E. constructor; [|done]. exists s.
  apply List.Forall_app. split; [done|]. constructor; [|done].
  inversion_clear Hs. congruence.
Qed.

Lemma groups_subject messages groups :
  List.Forall one_subject groups ->
  List.Forall one_subject (fold_left add_to_groups messages groups).
Proof.
  revert groups. induction messages as [|m messages IH]; intros groups Hg; simpl; [done|].
  apply IH. by apply add_to_groups_subject.
Qed.

(** The subjects of a node and of its children. *)
Fixpoint node_subjects (n : ThreadNode) : list str :=
  let '(mkThreadNode _ s _ _ children) := n in s :: flat_map node_subjects children.

Lemma group_node_subject group node :
  one_subject group -> In node (group_node group) ->
  exists s, List.Forall (fun s' => s' = s) (node_subjects node).
Proof.
  intros [s Hs]. unfold group_node.
  pose proof (sort_by_perm (not_gt compare_by_date) group) as Hp.
  destruct (sort_by _ group) as [|root rest]; [done|]. intros [<-|[]]. exists s.
  rewrite Hp in Hs. inversion_clear Hs as [|?? Hr Hrest]. simpl. constructor; [done|].
  clear Hp. induction Hrest as [|v rest Hv _ IH]; simpl; constructor; done.
Qed.

(** THREAD ORDEREDSUBJECT puts every selected message into exactly one
    thread, and all messages of a thread have the same normalized subject. *)
Theorem thread_ordered_subject_partition messages :
  Permutation (forest_uids (thread_ordered_subject messages)) (map view_uid messages) /\
  (forall node, In node (thread_ordered_subject messages) ->
     exists s, List.Forall (fun s' => s' = s) (node_subjects node)).
Proof.
  unfold thread_ordered_subject.
  set (sorted := sort_by (not_gt compare_by_subject) messages).
  set (groups := rev (fold_left add_to_groups sorted [])).
  assert (Hc : concat groups = sorted) by apply (groups_concat sorted []).
  split.
  - transitivity (flat_map (map view_uid) groups).
    + rewrite groups_uids. apply Permutation_flat_map. symmetry. apply sort_by_perm.
    + rewrite flat_map_concat_map, <- concat_map, Hc.
      apply Permutation_map. symmetry. apply sort_by_perm.
  - intros node Hin. apply in_flat_map in Hin as (group & Hg & Hnode).
    apply group_node_subject with group; [|done].
    apply sort_by_In, in_rev in Hg.
    pose proof (groups_subject sorted [] (List.Forall_nil _)) as Hs.
    rewrite List.Forall_forall in Hs. by apply Hs.
Qed.

(** ** REFERENCES: the tree is always built *)
Section StrMapFacts.
Context {A : Type}.
Implicit Types m : list (str * A).

Lemma map_get_insert k k' v m :
  map_get k (map_insert k' v m) = if str_eqb k k' then Some v else map_get k m.
Proof.
  induction m as [|[k1 v1] m IH]; simpl; [done|].
  destruct (str_eqb k' k1) eqn:E1; simpl.
  - apply str_eqb_eq in E1 as ->. by destruct (str_eqb k k1).
  - rewrite IH. destruct (str_eqb k k1) eqn:E2; [|done].
    apply str_eqb_eq in E2 as ->. destruct (str_eqb k1 k') eqn:E3; [|done].
    apply str_eqb_eq in E3 as ->. by rewrite str_eqb_refl in E1.
Qed.

Lemma map_get_In k m : is_some (map_get k m) = true <-> In k (map fst m).
Proof.
  induction m as [|[k' v] m IH]; simpl; [done|].
  destruct (str_eqb k k') eqn:E.
  - apply str_eqb_eq in E as ->. simpl. split; auto.
  - apply str_eqb_neq in E. rewrite IH. intuition congruence.
Qed.
End StrMapFacts.

Lemma map_outcome_total {E A B} (f : A -> outcome E B) l :
  (forall x, In x l -> exists y, f x = Ok y) -> exists ys, map_outcome f l = Ok ys.
Proof.
  induction l as [|x l IH]; intros Hf; simpl; [eauto|].
  destruct (Hf x) as [y ->]; [by left|]. simpl.
  destruct IH as [ys ->]; [intros z Hz; apply Hf; by right|]. simpl. eauto.
Qed.

(** Every message with an id has a node. *)
Lemma node_by_id_has messages acc m message_id :
  In m messages \/ is_some (map_get message_id acc) = true ->
  (In m messages -> ThreadMessage_message_id m = Some message_id) ->
  is_some (map_get message_id (fold_left (fun acc m =>
    match ThreadMessage_message_id m with
    | Some message_id => map_insert message_id (message_node m) acc
    | None => acc
    end) messages acc)) = true.
Proof.
  revert acc. induction messages as [|m' messages IH]; intros acc Hin Hm; simpl.
  - destruct Hin as [[]|]; done.
  - apply IH; [|intros; apply Hm; by right].
    destruct Hin as [[->|Hin]|Hin]; [right|by left|right].
    + rewrite (Hm (or_introl eq_refl)), map_get_insert, str_eqb_refl. done.
    + destruct (ThreadMessage_message_id m'); [|done]. rewrite map_get_insert. by case_match.
Qed.

Lemma node_by_id_of messages m message_id :
  In m messages -> ThreadMessage_message_id m = Some message_id ->
  is_some (map_get message_id (node_by_id messages)) = true.
Proof. intros Hin Hm. apply (node_by_id_has messages [] m); auto. Qed.

(** The children recorded for a parent are ids of messages. *)
Lemma child_ids_known nodes messages acc parent ids :
  (forall m id, In m messages -> ThreadMessage_message_id m = Some id ->
     is_some (map_get id nodes) = true) ->
  (forall p l, map_get p acc = Some l ->
     List.Forall (fun id => is_some (map_get id nodes) = true) l) ->
  map_get parent (fold_left (fun acc m =>
    match thread_parent nodes m with
    | Some (message_id, parent) =>
        map_insert parent (default [] (map_get parent acc) ++ [message_id]) acc
    | None => acc
    end) messages acc) = Some ids ->
  List.Forall (fun id => is_some (map_get id nodes) = true) ids.
Proof.
  revert acc. induction messages as [|m messages IH]; intros acc Hm Hacc Hg; simpl in *;
    [by apply (Hacc parent)|].
  eapply IH; [intros; eapply Hm; [by right|done]| |exact Hg].
  intros p l Hl. destruct (thread_parent nodes m) as [[mid par]|] eqn:Ep;
    [|by apply (Hacc p)].
  rewrite map_get_insert in Hl. destruct (str_eqb p par) eqn:E; [|by apply (Hacc p)].
  injection Hl as <-. apply List.Forall_app. split.
  - destruct (map_get par acc) eqn:Ea; [by apply (Hacc par)|constructor].
  - constructor; [|done]. apply (Hm m); [by left|].
    unfold thread_parent in Ep. destruct (ThreadMessage_message_id m); simpl in Ep; [|done].
    destruct (option_or _ _); simpl in Ep; [|done]. case_match; [|done]. congruence.
Qed.

Lemma build_thread_node_total fuel id nodes child_ids visited :
  (forall p ids, map_get p child_ids = Some ids ->
     List.Forall (fun id => is_some (map_get id nodes) = true) ids) ->
  NoDup visited -> incl visited (map fst nodes) ->
  (length nodes < fuel + length visited)%nat ->
  is_some (map_get id nodes) = true ->
  exists node, build_thread_node fuel id nodes child_ids visited = Ok node.
Proof.
  intros Hc. revert id visited. induction fuel as [|fuel IH]; intros id visited Hnd Hin Hf Hid.
  - apply (List.NoDup_incl_length (proj1 (NoDup_ListNoDup _) Hnd)) in Hin.
    rewrite length_map in Hin. lia.
  - pose proof Hid as Hid'. simpl. destruct (map_get id nodes) as [node|] eqn:En; [|done].
    destruct (existsb (str_eqb id) visited) eqn:Ev; [eauto|].
    destruct (map_get id child_ids) as [ids|] eqn:Ei; [|eauto].
    destruct (map_outcome_total (fun child_id =>
      build_thread_node fuel child_id nodes child_ids (id :: visited)) ids) as [children ->].
    + intros child Hchild. apply IH.
      * constructor; [|done]. intros Hv. apply list_elem_of_In in Hv.
        assert (existsb (str_eqb id) visited = true); [|congruence].
        apply existsb_exists. exists id. split; [done|apply str_eqb_refl].
      * intros z [<-|Hz]; [apply map_get_In; by rewrite En|by apply Hin].
      * simpl. lia.
      * specialize (Hc id ids Ei). rewrite List.Forall_forall in Hc. by apply Hc.
    + simpl. destruct node. eauto.
Qed.

(** THREAD REFERENCES always builds its forest: every id it looks up has a
    node and the recursion over replies ends, also on cyclic references. *)
Theorem thread_references_total messages :
  exists forest, thread_references messages = Ok forest.
Proof.
  unfold thread_references.
  set (nodes := node_by_id messages). set (child_ids := child_ids_by_parent nodes messages).
  assert (Hn : forall m id, In m messages -> ThreadMessage_message_id m = Some id ->
                 is_some (map_get id nodes) = true) by apply node_by_id_of.
  assert (Hc : forall p ids, map_get p child_ids = Some ids ->
     List.Forall (fun id => is_some (map_get id nodes) = true) ids).
  { intros p ids. apply child_ids_known; [done|]. by intros. }
  assert (Hb : forall id, is_some (map_get id nodes) = true ->
     exists node, build_thread_node (S (length nodes)) id nodes child_ids [] = Ok node).
  { intros id. apply build_thread_node_total; [done|apply NoDup_nil_2|intros z []|simpl; lia]. }
  match goal with |- context [map_outcome ?f ?l] =>
    destruct (map_outcome_total f l) as [roots Hroots] end.
  { intros m Hm. apply filter_In in Hm as [Hm _].
    destruct (ThreadMessage_message_id m) as [id|] eqn:Em; [|eauto]. by apply Hb, (Hn m). }
  rewrite Hroots. simpl. destruct roots as [|r roots]; simpl; [|eauto].
  destruct (map_outcome_total (fun id =>
    build_thread_node (S (length nodes)) id nodes child_ids []) (sort_by str_leb (map fst nodes)))
    as [roots Hroots'].
  { intros id Hid. apply sort_by_In in Hid. by apply Hb, map_get_In. }
  cbn in Hroots'. rewrite Hroots'. simpl. eauto.
Qed.

(** Two messages with the same Message-ID and no references: the first is lost
    and the second is listed twice. *)
Theorem thread_references_duplicate_id a b id :
  ThreadMessage_message_id a = Some id -> ThreadMessage_message_id b = Some id ->
  ThreadMessage_references a = [] -> ThreadMessage_in_reply_to a = [] ->
  ThreadMessage_references b = [] -> ThreadMessage_in_reply_to b = [] ->
  exists forest, thread_references [a; b] = Ok forest /\
    forest_uids forest = [ThreadMessage_uid b; ThreadMessage_uid b].
Proof.
  destruct a as [ua sa da usa ia ra pa], b as [ub sb db usb ib rb pb]. simpl.
  intros -> -> -> -> -> ->. unfold thread_references, node_by_id. simpl.
  rewrite str_eqb_refl. simpl. rewrite str_eqb_refl. simpl. eexists. split; [done|].
  unfold sort_thread_nodes. simpl. unfold not_gt, compare_nodes, then_cmp.
  by rewrite !Z.compare_refl; case_match.
Qed.

(** Replies that refer to each other are in no thread as soon as another
    message starts one. *)
Example thread_references_cycle :
  let a := mkThreadMessage 1 [] 0 1 (Some (lit "a")) [lit "b"] [] in
  let b := mkThreadMessage 2 [] 0 2 (Some (lit "b")) [lit "a"] [] in
  let c := mkThreadMessage 3 [] 0 3 None [] [] in
  forest_uids <$> (match thread_references [a; b; c] with Ok f => Some f | _ => None end)
  = Some [3].
Proof. by vm_compute. Qed.
