(* ===== verification/ImapText.v ===== *)
(** * Texts and bytes of the IMAP server

    Models the pure helpers of crates/imap-server/src/imap.rs: flag arithmetic
    of STORE, header and body sections of FETCH, partial ranges, ENVELOPE and
    BODYSTRUCTURE, LIST patterns and lines, ESEARCH summaries, APPEND metadata
    and SASL responses. *)

From stdpp Require Import base strings list.
From Stdlib Require Import ZArith Lia.
From S2P Require Import Prelude RustStr Domain Protocol SearchQuery Schema RepoCore Engine SearchEval.

Local Open Scope Z_scope.

(** ** Flags *)
Definition dedupe_flags (flags : list str) : list str :=
  fold_left (fun out flag =>
    if existsb (fun existing => eq_ignore_ascii_case existing flag) out then out
    else out ++ [flag]) flags [].

Definition apply_store_flags (current : list str) (mode : StoreMode) (requested : list str)
  : list str :=
  match mode with
  | Replace => dedupe_flags requested
  | Add =>
      fold_left (fun out flag =>
        if existsb (fun existing => eq_ignore_ascii_case existing flag) out then out
        else out ++ [flag]) requested current
  | Remove =>
      List.filter (fun existing =>
        negb (existsb (fun flag => eq_ignore_ascii_case existing flag) requested)) current
  end.

Definition flags_contain_deleted (flags : list str) : bool :=
  existsb (fun flag => eq_ignore_ascii_case flag (lit "\Deleted")) flags.

(** ** Headers and bodies *)
Definition crlf : bytes := [13; 10].

(** The first blank line: its first line break ends the headers. *)
Definition split_rfc822 (raw : bytes) : bytes * bytes :=
  match find_str [13; 10; 13; 10] raw with
  | Some (before, from) => (before ++ crlf, drop 4 from)
  | None => (raw, [])
  end.

(** The [while] loop and the push after it: [cur] is the block from [start] to
    [index], reversed, and [rest] the bytes from [index] on.  At a final line
    break the open block is pushed, and once more, with the line break, after
    the loop. *)
Fixpoint header_blocks_loop (cur : bytes) (rest : bytes) : list bytes :=
  match rest with
  | [] => match cur with [] => [] | _ => [rev cur] end
  | b :: tl =>
      match tl with
      | b1 :: rest' =>
          if (b =? 13) && (b1 =? 10) then
            match rest' with
            | [] => (match cur with [] => [] | _ => [rev cur] end) ++ [rev cur ++ crlf]
            | next :: _ =>
                if (next =? 32) || (next =? 9)
                then header_blocks_loop (10 :: 13 :: cur) rest'
                else rev cur :: header_blocks_loop [] rest'
            end
          else header_blocks_loop (b :: cur) tl
      | [] => header_blocks_loop (b :: cur) tl
      end
  end.

Definition header_blocks (headers : bytes) : list bytes :=
  List.filter non_empty (header_blocks_loop [] headers).

Definition header_name (block : bytes) : option str :=
  let first_line := match find_str crlf block with Some (l, _) => l | None => block end in
  match split_once 58 first_line with
  | Some (name, _) => Some (to_ascii_uppercase (trim (from_utf8_lossy name)))
  | None => None
  end.

Definition select_header_blocks (headers : bytes) (names : list str) (not : bool) : bytes :=
  flat_map (fun block =>
    let name := default [] (header_name block) in
    let contains := existsb (fun candidate => eq_ignore_ascii_case candidate name) names in
    if xorb contains not then block ++ crlf else []) (header_blocks headers) ++ crlf.

Definition raw_fetch_bytes (raw : bytes) (section : FetchBodySection) : bytes :=
  let '(headers, body) := split_rfc822 raw in
  match section with
  | SecFull => raw
  | SecHeader | SecMime => headers ++ crlf
  | SecText => body
  | SecHeaderFields names not => select_header_blocks headers names not
  end.

Definition synthesize_mime_part_headers (part : MimePart) : bytes :=
  let line s := as_bytes s ++ crlf in
  let opt {A} (o : option A) f := match o with Some a => f a | None => [] end in
  line (lit "Content-Type: " ++ MimePart_content_type part ++
        opt (MimePart_charset part) (fun charset => lit "; charset=" ++ [34] ++ charset ++ [34])) ++
  opt (MimePart_transfer_encoding part)
    (fun encoding => line (lit "Content-Transfer-Encoding: " ++ encoding)) ++
  opt (MimePart_content_id part)
    (fun content_id => line (lit "Content-ID: <" ++ content_id ++ lit ">")) ++
  opt (Value_get (MimePart_metadata_json part) (lit "description") ≫= Value_as_str)
    (fun description => line (lit "Content-Description: " ++ description)) ++
  (match MimePart_disposition part, MimePart_filename part with
   | Some disposition, Some filename =>
       line (lit "Content-Disposition: " ++ disposition ++ lit ";" ++ crlf ++ [9] ++
             lit "filename=" ++ [34] ++ filename ++ [34])
   | Some disposition, None => line (lit "Content-Disposition: " ++ disposition)
   | None, Some filename =>
       line (lit "Content-Disposition: attachment;" ++ crlf ++ [9] ++ lit "filename=" ++ [34] ++
             filename ++ [34])
   | None, None => []
   end) ++ crlf.

Definition mime_part_fetch_bytes (raw : bytes) (part : MimePart) (section : FetchBodySection)
  : bytes :=
  if eq_ignore_ascii_case (MimePart_content_type part) (lit "message/rfc822")
  then raw_fetch_bytes raw section
  else
    match section with
    | SecFull | SecText => raw
    | SecHeader | SecMime => synthesize_mime_part_headers part
    | SecHeaderFields names not =>
        select_header_blocks (synthesize_mime_part_headers part) names not
    end.

Definition object_type_for_mime_part (part : MimePart) : str :=
  if match MimePart_disposition part with
     | Some disposition => str_eqb disposition (lit "attachment")
     | None => false
     end || is_some (MimePart_filename part)
  then lit "Attachment" else lit "MimePart".

(** [usize::saturating_add] on a 64-bit target. *)
Definition saturating_add_usize (a b : Z) : Z := Z.min (a + b) u64_max.

Definition apply_partial (b : bytes) (partial : option (Z * option Z)) : bytes :=
  match partial with
  | None => b
  | Some (offset, count) =>
      let len := Z.of_nat (length b) in
      if len <=? offset then []
      else
        let end_ := match count with
                    | Some count => Z.min (saturating_add_usize offset count) len
                    | None => len
                    end in
        take (Z.to_nat (end_ - offset)) (drop (Z.to_nat offset) b)
  end.

(** ** FETCH data items *)
Definition nil_str : str := lit "NIL".

Definition nstring (value : option str) : str :=
  match value with Some value => quote_imap_string value | None => nil_str end.

Definition value_str (value : Value) (key : str) : option str :=
  Value_get value key ≫= Value_as_str.
Definition value_i64 (value : Value) (key : str) : option Z :=
  Value_get value key ≫= Value_as_i64.

Definition encode_imap_address (item : Value) : list str :=
  if negb (str_eqb (default (lit "mailbox") (value_str item (lit "kind"))) (lit "mailbox"))
  then []
  else
    let display_name := value_str item (lit "display_name") in
    let address := default [] (value_str item (lit "address")) in
    let '(local_part, domain_part) :=
      match split_once 64 address with
      | Some (local, domain) => (Some local, Some domain)
      | None => (Some address, None)
      end in
    [lit "(" ++ nstring display_name ++ lit " NIL " ++ nstring local_part ++ lit " " ++
     nstring domain_part ++ lit ")"].

Definition encode_imap_address_list (value : option Value) : str :=
  match value ≫= Value_as_array with
  | None | Some [] => nil_str
  | Some items =>
      match flat_map encode_imap_address items with
      | [] => nil_str
      | encoded => lit "(" ++ join (lit " ") encoded ++ lit ")"
      end
  end.

(** [DateTime::from_timestamp(ts, 0)] has a value on chrono's range of years,
    [timestamp_range]; [format_imap_date] is [format_date_time]. *)
Class ChronoRange `{Chrono} : Type := { timestamp_range : Z -> bool }.

Definition format_imap_date `{Chrono} (value : Z) : str := format_date_time value.

Definition encode_envelope `{ChronoRange} (value : Value) : str :=
  let date :=
    ts ← value_i64 value (lit "date");
    if timestamp_range ts then Some (format_imap_date (ts * 1000000)) else None in
  let addr key := encode_imap_address_list (Value_get value key) in
  lit "(" ++ nstring date ++ lit " " ++ nstring (value_str value (lit "subject")) ++ lit " " ++
  addr (lit "from") ++ lit " " ++ addr (lit "from") ++ lit " " ++ addr (lit "reply_to") ++
  lit " " ++ addr (lit "to") ++ lit " " ++ addr (lit "cc") ++ lit " " ++ addr (lit "bcc") ++
  lit " NIL " ++ nstring (value_str value (lit "message_id")) ++ lit ")".

(** The entries of a serde_json map in its order, that of the keys. *)
Definition map_entries (fields : list (str * Value)) : list (str * Value) :=
  sort_by (fun a b => str_leb (fst a) (fst b)) fields.

Definition encode_param_list (params : option Value) : str :=
  match params with
  | Some (Object fields) =>
      match flat_map (fun '(key, value) =>
              match Value_as_str value with
              | Some text => [quote_imap_string key; quote_imap_string text]
              | None => []
              end) (map_entries fields) with
      | [] => nil_str
      | parts => lit "(" ++ join (lit " ") parts ++ lit ")"
      end
  | _ => nil_str
  end.

(** The branches of [encode_bodystructure] that do not recurse. *)
Definition encode_message_part `{ChronoRange} (value : Value) (bodystructure : str) : str :=
  lit "(" ++ quote_imap_string (lit "message") ++ lit " " ++ quote_imap_string (lit "rfc822") ++
  lit " " ++ encode_param_list (Value_get value (lit "params")) ++ lit " NIL NIL " ++
  quote_imap_string (default (lit "7BIT") (value_str value (lit "transfer_encoding"))) ++
  lit " " ++ fmt_i (default 0 (value_i64 value (lit "size"))) ++ lit " " ++
  (match Value_get value (lit "envelope") with
   | Some envelope => encode_envelope envelope
   | None => nil_str
   end) ++ lit " " ++ bodystructure ++ lit " " ++
  fmt_i (default 0 (value_i64 value (lit "lines"))) ++ lit ")".

Definition encode_single_part (value : Value) : str :=
  let type_name := default (lit "application") (value_str value (lit "type")) in
  let subtype := default (lit "octet-stream") (value_str value (lit "subtype")) in
  let params :=
    match value_str value (lit "charset") with
    | Some charset =>
        lit "(" ++ quote_imap_string (lit "CHARSET") ++ lit " " ++ quote_imap_string charset ++
        lit ")"
    | None => encode_param_list (Value_get value (lit "params"))
    end in
  lit "(" ++ quote_imap_string type_name ++ lit " " ++ quote_imap_string subtype ++ lit " " ++
  params ++ lit " NIL NIL " ++
  quote_imap_string (default (lit "7BIT") (value_str value (lit "transfer_encoding"))) ++
  lit " " ++ fmt_i (default 0 (value_i64 value (lit "size"))) ++
  (if eq_ignore_ascii_case type_name (lit "text") then lit " 0 NIL NIL NIL)"
   else lit " NIL NIL NIL)").

(** [value.get(key)] inside a recursion on the value. *)
Definition get_with {A} (f : Value -> A) (key : str) : list (str * Value) -> option A :=
  fix go fields :=
    match fields with
    | [] => None
    | (k, v) :: fields' => if str_eqb key k then Some (f v) else go fields'
    end.

Fixpoint encode_bodystructure `{ChronoRange} (value : Value) : str :=
  let type_name := value_str value (lit "type") in
  match value with
  | Object fields =>
      if bool_decide (type_name = Some (lit "multipart")) then
        let parts :=
          default [] (get_with (fun v =>
            match v with Array parts => map encode_bodystructure parts | _ => [] end)
            (lit "parts") fields) in
        lit "(" ++ join (lit " ") parts ++ lit " " ++
        quote_imap_string (default (lit "mixed") (value_str value (lit "subtype"))) ++ lit " " ++
        encode_param_list (Value_get value (lit "params")) ++ lit ")"
      else if bool_decide (type_name = Some (lit "message")) &&
              bool_decide (value_str value (lit "subtype") = Some (lit "rfc822")) then
        encode_message_part value
          (default nil_str (get_with encode_bodystructure (lit "bodystructure") fields))
      else encode_single_part value
  | _ => encode_single_part value
  end.

Definition flags_item (view : View) : str :=
  lit "FLAGS (" ++ join (lit " ") (MailboxMessageView_flags view) ++ lit ")".
Definition uid_item (view : View) : str := lit "UID " ++ fmt_i (MailboxMessageView_local_uid view).
Definition size_item (view : View) : str :=
  lit "RFC822.SIZE " ++ fmt_i (MailboxMessageView_size_octets view).
Definition date_item `{Chrono} (view : View) : str :=
  lit "INTERNALDATE " ++
  quote_imap_string (format_date_time
    (default (MailboxMessageView_created_at view) (MailboxMessageView_internal_date view))).
Definition envelope_item `{ChronoRange} (view : View) : str :=
  lit "ENVELOPE " ++ encode_envelope (MailboxMessageView_envelope_json view).
Definition bodystructure_item `{ChronoRange} (view : View) : str :=
  lit "BODYSTRUCTURE " ++ encode_bodystructure (MailboxMessageView_bodystructure_json view).

Definition fetch_metadata_part `{ChronoRange} (view : View) (item : str) : option str :=
  match_str item
    [(lit "FLAGS", flags_item view); (lit "UID", uid_item view);
     (lit "RFC822.SIZE", size_item view); (lit "INTERNALDATE", date_item view);
     (lit "ENVELOPE", envelope_item view); (lit "BODYSTRUCTURE", bodystructure_item view)].

Definition format_fetch_response `{ChronoRange} (sequence_number : Z) (view : View)
  (items : list str) : str :=
  let wants name := existsb (fun item => str_eqb item name) items in
  let part (b : bool) s := if b then [s] else [] in
  let parts :=
    part (wants (lit "FLAGS")) (flags_item view) ++
    part (wants (lit "UID")) (uid_item view) ++
    part (wants (lit "RFC822.SIZE") || wants (lit "RFC822")) (size_item view) ++
    part (wants (lit "INTERNALDATE")) (date_item view) ++
    part (wants (lit "ENVELOPE")) (envelope_item view) ++
    part (wants (lit "BODYSTRUCTURE")) (bodystructure_item view) ++
    part (wants (lit "MODSEQ"))
      (lit "MODSEQ (" ++ fmt_i (default 0 (MailboxMessageView_modseq view)) ++ lit ")") in
  lit "* " ++ fmt_i sequence_number ++ lit " FETCH (" ++ join (lit " ") parts ++ lit ")".

(** ** APPEND *)
Definition parse_imap_date_time `{Texts, Chrono} (value : str) : Result Z :=
  match parse_date_time value with
  | inl t => Ok t
  | inr err => Err (EParse (lit "invalid IMAP date-time " ++ debug_str value ++ lit ": " ++ err))
  end.

Definition append_extras_error : Error :=
  EParse (lit "APPEND accepts at most one flag list and one date-time").

(** [args.get(1..body_index).unwrap_or(&[])]: no extras when the range is not
    one of the slice. *)
Definition slice_or_empty {A} (l : list A) (from to : nat) : list A :=
  if Nat.leb from to && Nat.leb to (length l) then take (to - from) (drop from l) else [].

Definition parse_append_metadata `{Texts, Chrono} (args : list str) (body_index : nat)
  : Result (list str * option Z) :=
  match slice_or_empty args 1 body_index with
  | [] => Ok ([], None)
  | [token] =>
      if starts_with (lit "(") token then Ok (parse_flag_list token, None)
      else try! date <- parse_imap_date_time token ;; Ok ([], Some date)
  | [first; second] =>
      match starts_with (lit "(") first, starts_with (lit "(") second with
      | true, false =>
          try! date <- parse_imap_date_time second ;; Ok (parse_flag_list first, Some date)
      | false, true =>
          try! date <- parse_imap_date_time first ;; Ok (parse_flag_list second, Some date)
      | _, _ => Err append_extras_error
      end
  | _ => Err append_extras_error
  end.

(** ** SEARCH requests and ESEARCH *)
Record SearchReturnOptions : Type := mkSearchReturnOptions {
  opt_count : bool; opt_min : bool; opt_max : bool; opt_all : bool
}.

Fixpoint search_return_loop (tokens : list str) (o : SearchReturnOptions)
  : Result SearchReturnOptions :=
  match tokens with
  | [] => Ok o
  | token :: tokens' =>
      let upper := to_ascii_uppercase token in
      match match_str upper
              [(lit "COUNT", mkSearchReturnOptions true (opt_min o) (opt_max o) (opt_all o));
               (lit "MIN", mkSearchReturnOptions (opt_count o) true (opt_max o) (opt_all o));
               (lit "MAX", mkSearchReturnOptions (opt_count o) (opt_min o) true (opt_all o));
               (lit "ALL", mkSearchReturnOptions (opt_count o) (opt_min o) (opt_max o) true)] with
      | Some o' => search_return_loop tokens' o'
      | None => Err (EParse (lit "unsupported ESEARCH return option: " ++ upper))
      end
  end.

Definition parse_search_return_options (value : str) : Result SearchReturnOptions :=
  search_return_loop (split_whitespace (unparen (trim value)))
    (mkSearchReturnOptions false false false false).

(** The [while] loop: RETURN and CHARSET with their values, then the criteria. *)
Fixpoint search_request_loop (args : list str) (return_options : option SearchReturnOptions)
  : Result (list str * option SearchReturnOptions) :=
  match args with
  | [] => Ok ([], return_options)
  | arg :: rest =>
      if eq_ignore_ascii_case arg (lit "RETURN") then
        match rest with
        | [] => Err (EParse (lit "RETURN requires options"))
        | options :: rest' =>
            try! o <- parse_search_return_options options ;;
            search_request_loop rest' (Some o)
        end
      else if eq_ignore_ascii_case arg (lit "CHARSET") then
        match rest with
        | [] => Err (EParse (lit "CHARSET requires a value"))
        | charset :: rest' =>
            let upper := to_ascii_uppercase charset in
            if str_eqb upper (lit "UTF-8") || str_eqb upper (lit "US-ASCII")
            then search_request_loop rest' return_options
            else Err (EImapCommand (lit "BADCHARSET unsupported SEARCH charset: " ++ charset))
        end
      else Ok (args, return_options)
  end.

Definition parse_search_request `{Chrono} (args : list str)
  : Result (SearchQuery * option SearchReturnOptions) :=
  try! r <- search_request_loop args None ;;
  try! query <- from_imap_args (fst r) ;;
  Ok (query, snd r).

(** [iter().min()] and [iter().max()]. *)
Definition list_min (l : list Z) : option Z :=
  match l with [] => None | x :: l' => Some (fold_left Z.min l' x) end.
Definition list_max (l : list Z) : option Z :=
  match l with [] => None | x :: l' => Some (fold_left Z.max l' x) end.

Definition format_esearch_summary (results : list Z) (o : SearchReturnOptions) : str :=
  (if opt_count o then lit " COUNT " ++ fmt_u (Z.of_nat (length results)) else []) ++
  (if opt_min o then match list_min results with
                     | Some min => lit " MIN " ++ fmt_u min | None => [] end else []) ++
  (if opt_max o then match list_max results with
                     | Some max => lit " MAX " ++ fmt_u max | None => [] end else []) ++
  (if opt_all o then lit " ALL " ++ format_number_set results else []).

(** ** LIST *)
Definition canonical_mailbox_name (name : str) : str :=
  if eq_ignore_ascii_case name (lit "INBOX") then lit "inbox" else to_ascii_lowercase name.

Definition mailbox_list_line (prefix : str) (mailbox : Mailbox) : str :=
  let attributes := Mailbox_attributes mailbox in
  let attributes :=
    if existsb (fun value => eq_ignore_ascii_case value (lit "\haschildren")
                             || eq_ignore_ascii_case value (lit "\hasnochildren")) attributes
    then attributes else attributes ++ [lit "\HasNoChildren"] in
  let attributes :=
    match Mailbox_special_use mailbox with
    | Some special_use =>
        if existsb (fun value => eq_ignore_ascii_case value special_use) attributes
        then attributes else attributes ++ [special_use]
    | None => attributes
    end in
  lit "* " ++ prefix ++ lit " (" ++ join (lit " ") attributes ++ lit ") " ++
  quote_imap_string (default (lit "/") (Mailbox_delimiter mailbox)) ++ lit " " ++
  quote_imap_string (Mailbox_name mailbox).

(** The inner [fn matches] on the rest of the pattern and of the name. *)
Fixpoint pattern_matches (delimiter : Z) (pattern : str) : str -> bool :=
  match pattern with
  | [] => fun name => is_empty name
  | p :: pattern' =>
      if p =? 42 then
        fix any (name : str) : bool :=
          pattern_matches delimiter pattern' name ||
          match name with [] => false | _ :: name' => any name' end
      else if p =? 37 then
        fix level (name : str) : bool :=
          if pattern_matches delimiter pattern' name then true
          else match name with
               | [] => false
               | c :: name' => if c =? delimiter then false else level name'
               end
      else fun name =>
        match name with
        | [] => false
        | c :: name' => if p =? c then pattern_matches delimiter pattern' name' else false
        end
  end.

Definition imap_list_pattern_matches (pattern name delimiter : str) : bool :=
  pattern_matches (default 47 (head delimiter)) (to_ascii_lowercase pattern)
    (to_ascii_lowercase name).

(** The text up to the parenthesis that closes the first one. *)
Fixpoint take_parens (depth : Z) (taken : str) (chars : str) : option str :=
  match chars with
  | [] => None
  | c :: chars' =>
      if c =? 40 then take_parens (depth + 1) (c :: taken) chars'
      else if c =? 41 then
        let depth := Z.max 0 (depth - 1) in
        if depth =? 0 then Some (rev (c :: taken)) else take_parens depth (c :: taken) chars'
      else take_parens depth (c :: taken) chars'
  end.

Fixpoint take_while {A} (p : A -> bool) (l : list A) : list A :=
  match l with [] => [] | x :: l' => if p x then x :: take_while p l' else [] end.

Definition status_return_error : Error := EParse (lit "STATUS return option requires items").

Definition parse_list_request (args : list str) : Result (str * option (list str)) :=
  let is_return arg := eq_ignore_ascii_case arg (lit "RETURN") in
  let pattern :=
    default (lit "*")
      (option_or (take_while (fun arg => negb (is_return arg)) args !! 1%nat) (head args)) in
  match position is_return args with
  | None => Ok (pattern, None)
  | Some return_index =>
      let return_clause := join (lit " ") (drop (S return_index) args) in
      match find_str (lit "STATUS") (to_ascii_uppercase return_clause) with
      | None => Ok (pattern, None)
      | Some (before, _) =>
          let status_clause := drop (length before + 6) return_clause in
          match split_once 40 status_clause with
          | None => Err status_return_error
          | Some (_, after) =>
              match take_parens 0 [] (40 :: after) with
              | None => Err status_return_error
              | Some status_items =>
                  try! items <- parse_status_items [status_items] ;;
                  Ok (pattern, Some items)
              end
          end
      end
  end.

(** ** SASL

    [STANDARD.decode] of the base64 crate, with the text of its error, and the
    text of [Utf8Error]. *)
Class Base64 : Type := {
  base64_decode : bytes -> bytes + str;
  sasl_utf8_error : bytes -> str
}.

Definition decode_sasl_response `{Base64} (value : str) : Result bytes :=
  match base64_decode (as_bytes value) with
  | inl b => Ok b
  | inr err => Err (EParse (lit "invalid base64 SASL response: " ++ err))
  end.

Definition str_from_utf8 `{Base64} (b : bytes) : Result str :=
  ok_or (from_utf8 b) (EUtf8Slice (sasl_utf8_error b)).

Definition parse_sasl_plain_auth `{Base64} (auth_blob : bytes) : Result (str * str) :=
  match split_char 0 auth_blob with
  | _authzid :: authcid :: password :: _ =>
      try! authcid <- str_from_utf8 authcid ;;
      try! password <- str_from_utf8 password ;;
      Ok (authcid, password)
  | [_; _] => Err (EParse (lit "AUTHENTICATE PLAIN response missing password"))
  | _ => Err (EParse (lit "AUTHENTICATE PLAIN response missing authcid"))
  end.

Fixpoint xoauth2_loop (segments : list str) (username bearer : option str)
  : option str * option str :=
  match segments with
  | [] => (username, bearer)
  | segment :: segments' =>
      match strip_prefix (lit "user=") segment with
      | Some value => xoauth2_loop segments' (Some value) bearer
      | None =>
          match strip_prefix (lit "auth=Bearer ") segment with
          | Some value => xoauth2_loop segments' username (Some value)
          | None => xoauth2_loop segments' username bearer
          end
      end
  end.

Definition parse_sasl_xoauth2_auth `{Base64} (auth_blob : bytes) : Result (str * str) :=
  try! decoded <- str_from_utf8 auth_blob ;;
  match xoauth2_loop (split_char 1 decoded) None None with
  | (None, _) => Err (EParse (lit "AUTHENTICATE XOAUTH2 response missing user"))
  | (Some _, None) => Err (EParse (lit "AUTHENTICATE XOAUTH2 response missing bearer token"))
  | (Some username, Some bearer) => Ok (username, bearer)
  end.
