(* ===== verification/Ingest.v ===== *)
(** * Ingesting a message

    Models [MessageIngestor] of crates/sync/src/lib.rs: the quota check, the
    blobs, the message with its MIME parts, the mailbox row, the reference
    counts, the search document and the quota update, in that order. *)

From stdpp Require Import base strings list.
From Stdlib Require Import ZArith Lia.
From S2P Require Import Prelude RustStr Domain Storage Schema RepoCore RepoAccounts RepoMailboxes RepoMessages Mime Search Engine.

Local Open Scope Z_scope.

Record IngestedMessage : Type := mkIngestedMessage {
  IngestedMessage_message_id : Z;
  IngestedMessage_mailbox_message_id : Z;
  IngestedMessage_local_uid : Z;
  IngestedMessage_blob_key : str
}.

(** The [Display] of [TryFromIntError]. *)
Definition try_from_int_error : str := lit "out of range integral type conversion attempted".

(** [i64::try_from(len)]. *)
Definition i64_of_len (what : str) (b : bytes) : Result Z :=
  let len := Z.of_nat (length b) in
  if len <=? i64_max then Ok len
  else Err (EStorage (what ++ lit " size does not fit in i64: " ++ try_from_int_error)).

Fixpoint estimate_loop (total : Z) (parts : list MimePartRecord) : Result Z :=
  match parts with
  | [] => Ok total
  | part :: parts' =>
      try! n <- i64_of_len (lit "mime part") (MimePartRecord_raw_bytes part) ;;
      try! total <- ok_or (checked_add_i64 total n)
                      (EStorage (lit "message size calculation overflowed")) ;;
      estimate_loop total parts'
  end.

Definition estimate_message_bytes (raw : bytes) (parsed : ParsedMessage) : Result Z :=
  try! total <- i64_of_len (lit "message") raw ;;
  estimate_loop total (ParsedMessage_mime_parts parsed).

Definition cache_object_type_for_mime_part (part : MimePartRecord) : str :=
  if match MimePartRecord_disposition part with
     | Some d => str_eqb d (lit "attachment")
     | None => false
     end || is_some (MimePartRecord_filename part)
  then lit "Attachment" else lit "MimePart".

Section Ingest.
Context {O U X L : Type} `{ObjectStore O} `{SearchBackend X}.
Context `{Sha256, MimeParser}.
(** [self.search]: is an index configured. *)
Variable has_search : bool.
Abbreviation Sync := (M Error (Engine O U X L)).

Definition quota_exceeded (used incoming limit : Z) : Error :=
  EStorage (lit "account quota exceeded: used=" ++ fmt_i used ++ lit " incoming=" ++
            fmt_i incoming ++ lit " limit=" ++ fmt_i limit).

(** The quota gate at the head of [ingest_parsed_message]. *)
Definition check_quota (account_id incoming_bytes : Z) : Sync unit :=
  do quota <- on_repo (get_account_quota account_id) ;;
  match quota with
  | None => ret tt
  | Some quota =>
      do projected <- lift (ok_or (checked_add_i64 (Quota_used_bytes quota) incoming_bytes)
                        (EStorage (lit "account quota calculation overflowed"))) ;;
      if Quota_max_bytes quota <? projected
      then fail (quota_exceeded (Quota_used_bytes quota) incoming_bytes (Quota_max_bytes quota))
      else ret tt
  end.

(** One turn of the loop over the MIME parts; the result is the new count of
    accounted bytes. *)
Definition ingest_part (account_id message_id accounted_bytes : Z) (part : MimePartRecord)
  : Sync Z :=
  do metadata <- on_store (store_put (MimePartRecord_blob_key part)
                             (MimePartRecord_raw_bytes part)) ;;
  record_object_store_bytes_written (ObjectMetadata_size_octets metadata) ;;;
  let accounted_bytes :=
    as_i64 (accounted_bytes + as_i64 (ObjectMetadata_size_octets metadata)) in
  let object_type := cache_object_type_for_mime_part part in
  on_repo (insert_mime_part (mkNewMimePart message_id (MimePartRecord_part_path part)
    (MimePartRecord_content_type part) (MimePartRecord_charset part)
    (MimePartRecord_disposition part) (MimePartRecord_filename part)
    (MimePartRecord_content_id part) (as_i64 (MimePartRecord_size_octets part))
    (ObjectMetadata_key metadata) (ObjectMetadata_sha256 metadata)
    (MimePartRecord_transfer_encoding part) (MimePartRecord_metadata_json part))) ;;;
  do t <- utc_now ;;
  on_repo (upsert_cache_object (mkNewCacheObject (Some account_id) object_type
    (ObjectMetadata_key metadata) (ObjectMetadata_sha256 metadata)
    (as_i64 (ObjectMetadata_size_octets metadata)) 1 (Some t))) ;;;
  ret accounted_bytes.

Definition ingest_parsed_message (account_id mailbox_id : Z) (mailbox_name : str)
  (local_uid : Z) (upstream_uid internal_date : option Z) (raw : bytes)
  (parsed : ParsedMessage) (flags : list str) : Sync IngestedMessage :=
  do incoming_bytes <- lift (estimate_message_bytes raw parsed) ;;
  check_quota account_id incoming_bytes ;;;
  let blob_key := content_addressed_key Rfc822 raw in
  do metadata <- on_store (store_put blob_key raw) ;;
  record_object_store_bytes_written (ObjectMetadata_size_octets metadata) ;;;
  let accounted_bytes := as_i64 (ObjectMetadata_size_octets metadata) in
  do message <- on_repo (upsert_message (mkNewMessage account_id
    (ObjectMetadata_key metadata) (ParsedMessage_raw_sha256 parsed)
    (ParsedMessage_message_id_header parsed) (ParsedMessage_subject parsed)
    (ParsedMessage_from_json parsed) (ParsedMessage_to_json parsed)
    (ParsedMessage_cc_json parsed) (ParsedMessage_bcc_json parsed)
    (ParsedMessage_reply_to_json parsed) (ParsedMessage_envelope_json parsed)
    (ParsedMessage_bodystructure_json parsed) internal_date None
    (as_i64 (ParsedMessage_size_octets parsed)) (ParsedMessage_text_preview parsed))) ;;
  let mime_parts := ParsedMessage_mime_parts parsed in
  (if negb (bool_decide (length mime_parts = 0%nat))
   then on_repo (delete_mime_parts_for_message (Message_id message)) ;;; ret tt
   else ret tt) ;;;
  do accounted_bytes <- fold_each mime_parts accounted_bytes
                          (ingest_part account_id (Message_id message)) ;;
  do mailbox_message <- on_repo (upsert_mailbox_message (mkNewMailboxMessage mailbox_id
    (Message_id message) local_uid upstream_uid None flags [] false None)) ;;
  do t <- utc_now ;;
  on_repo (upsert_cache_object (mkNewCacheObject (Some account_id) (lit "rfc822")
    (ObjectMetadata_key metadata) (ObjectMetadata_sha256 metadata)
    (as_i64 (ObjectMetadata_size_octets metadata)) 1 (Some t))) ;;;
  (if has_search
   then on_search (index_message mailbox_name
          (SearchDocument_from_parsed_message (as_u64 local_uid) parsed))
   else ret tt) ;;;
  on_repo (adjust_account_quota_usage account_id accounted_bytes) ;;;
  ret (mkIngestedMessage (Message_id message) (MailboxMessage_id mailbox_message)
         (MailboxMessage_local_uid mailbox_message) (ObjectMetadata_key metadata)).

Definition ingest_raw_message (account_id mailbox_id : Z) (mailbox_name : str)
  (local_uid : Z) (upstream_uid internal_date : option Z) (raw : bytes)
  (flags : list str) : Sync IngestedMessage :=
  do parsed <- lift (parse_message raw) ;;
  ingest_parsed_message account_id mailbox_id mailbox_name local_uid upstream_uid
    internal_date raw parsed flags.
End Ingest.
