(* ===== verification/Mutations.v ===== *)
(** * The mutation queue at work

    Models [MutationEngine] of crates/sync/src/lib.rs: local changes are queued
    as rows of [pending_mutations] and replayed on the upstream connection by
    [flush_pending_mutations]. *)

From stdpp Require Import base strings list.
From Stdlib Require Import ZArith Lia.
From S2P Require Import Prelude RustStr Domain Storage Notifications Schema RepoCore RepoAccounts RepoMailboxes RepoMessages RepoQueue Mime Search Engine Ingest.

Local Open Scope Z_scope.

(** ** Reading a payload *)
Definition get_str (payload : Value) (key : str) : option str :=
  match Value_get payload key with Some v => Value_as_str v | None => None end.
Definition get_i64 (payload : Value) (key : str) : option Z :=
  match Value_get payload key with Some v => Value_as_i64 v | None => None end.
Definition get_u64 (payload : Value) (key : str) : option Z :=
  match Value_get payload key with Some v => Value_as_u64 v | None => None end.

(** The string items of the ["flags"] array, none when it is absent. *)
Definition get_flags (payload : Value) : list str :=
  match Value_get payload (lit "flags") with
  | Some v => match Value_as_array v with
              | Some items => omap Value_as_str items
              | None => []
              end
  | None => []
  end.

(** [ok_or_else(|| Error::Parse("<kind> mutation missing <key>"))]. *)
Definition field {A} (kind key : str) (o : option A) : Result A :=
  ok_or o (EParse (kind ++ lit " mutation missing " ++ key)).

Section MutationEngine.
Context {O U X L : Type} `{ObjectStore O} `{UpstreamClient U}.
Context `{Sha256, Texts}.
Abbreviation Sync := (M Error (Engine O U X L)).

(** ** Queueing *)
Definition new_mutation (account_id mailbox_id : Z) (message_id : option Z)
  (mutation_type : str) (payload : Value) : NewPendingMutation :=
  mkNewPendingMutation account_id mailbox_id message_id mutation_type payload Pending 0 None
    (idempotency_key account_id mailbox_id mutation_type payload).

Definition append_payload (mailbox_id : Z) (mailbox_name : str) (local_uid : option Z)
  (blob_key : str) (flags : list str) (internal_date : option Z) : Value :=
  Object [(lit "mailbox", VString mailbox_name);
          (lit "mailbox_id", Number mailbox_id);
          (lit "local_uid", json_opt Number local_uid);
          (lit "blob_key", VString blob_key);
          (lit "flags", json_strings flags);
          (lit "internal_date",
           json_opt (fun d => VString (to_rfc3339 d)) internal_date)].

Definition queue_append (account_id mailbox_id : Z) (mailbox_name : str)
  (local_uid : option Z) (raw : bytes) (flags : list str) (internal_date : option Z)
  : Sync PendingMutation :=
  let blob_key := content_addressed_key Rfc822 raw in
  do metadata <- on_store (store_put blob_key raw) ;;
  record_object_store_bytes_written (ObjectMetadata_size_octets metadata) ;;;
  let payload := append_payload mailbox_id mailbox_name local_uid
                   (ObjectMetadata_key metadata) flags internal_date in
  on_repo (enqueue_mutation (new_mutation account_id mailbox_id None (lit "append") payload)).

Definition flags_payload (local_uid : Z) (flags : list str) : Value :=
  Object [(lit "local_uid", Number local_uid); (lit "flags", json_strings flags)].

Definition queue_flag_update (account_id mailbox_id : Z) (message_id : option Z)
  (local_uid : Z) (flags : list str) : Sync PendingMutation :=
  on_repo (enqueue_mutation (new_mutation account_id mailbox_id message_id
    (lit "store_flags") (flags_payload local_uid flags))).

Definition copy_payload (source_mailbox_id destination_mailbox_id : Z)
  (source_mailbox_name destination_mailbox_name : str)
  (local_uid destination_local_uid : Z) (flags : list str) : Value :=
  Object [(lit "source_mailbox_id", Number source_mailbox_id);
          (lit "source_mailbox", VString source_mailbox_name);
          (lit "destination_mailbox_id", Number destination_mailbox_id);
          (lit "destination_mailbox", VString destination_mailbox_name);
          (lit "local_uid", Number local_uid);
          (lit "destination_local_uid", Number destination_local_uid);
          (lit "flags", json_strings flags)].

Definition queue_copy_message (account_id source_mailbox_id destination_mailbox_id : Z)
  (source_mailbox_name destination_mailbox_name : str)
  (local_uid destination_local_uid : Z) (flags : list str) : Sync PendingMutation :=
  on_repo (enqueue_mutation (new_mutation account_id source_mailbox_id None
    (lit "copy_message") (copy_payload source_mailbox_id destination_mailbox_id
      source_mailbox_name destination_mailbox_name local_uid destination_local_uid flags))).

Definition queue_move_message (account_id source_mailbox_id destination_mailbox_id : Z)
  (source_mailbox_name destination_mailbox_name : str)
  (local_uid destination_local_uid : Z) (flags : list str) : Sync PendingMutation :=
  on_repo (enqueue_mutation (new_mutation account_id source_mailbox_id None
    (lit "move_message") (copy_payload source_mailbox_id destination_mailbox_id
      source_mailbox_name destination_mailbox_name local_uid destination_local_uid flags))).

(** ** Replaying *)
Definition append_date (payload : Value) : Result (option Z) :=
  match get_str payload (lit "internal_date") with
  | None => Ok None
  | Some value =>
      match parse_rfc3339 value with
      | inl d => Ok (Some d)
      | inr err => Err (EParse (lit "invalid append internal_date " ++ debug_str value ++
                                lit ": " ++ err))
      end
  end.

Definition apply_append (payload : Value) : Sync unit :=
  do mailbox <- lift (field (lit "append") (lit "mailbox") (get_str payload (lit "mailbox"))) ;;
  do mailbox_id <- lift (field (lit "append") (lit "mailbox_id")
                           (get_i64 payload (lit "mailbox_id"))) ;;
  let local_uid := get_i64 payload (lit "local_uid") in
  do blob_key <- lift (field (lit "append") (lit "blob_key")
                         (get_str payload (lit "blob_key"))) ;;
  let flags := get_flags payload in
  do internal_date <- lift (append_date payload) ;;
  do found <- on_store (store_get blob_key) ;;
  do raw <- lift (ok_or found (EStorage (lit "missing blob for append: " ++ blob_key))) ;;
  record_object_store_bytes_read (Z.of_nat (length raw)) ;;;
  do append_uid <- on_upstream (append_with_internal_date mailbox flags internal_date raw) ;;
  match append_uid, local_uid with
  | Some append_uid, Some local_uid =>
      on_repo (set_mailbox_message_upstream_uid mailbox_id local_uid (as_i64 append_uid)) ;;;
      ret tt
  | _, _ => ret tt
  end.

(** The payload's local UID goes to the server as it is, on whatever mailbox
    the connection has selected. *)
Definition apply_flag_update (payload : Value) : Sync unit :=
  do local_uid <- lift (field (lit "flag") (lit "local_uid")
                          (get_u64 payload (lit "local_uid"))) ;;
  let flags := get_flags payload in
  on_upstream (uid_store_flags local_uid flags).

Record CopyFields : Type := mkCopyFields {
  cf_source_mailbox_id : Z;
  cf_source_mailbox : str;
  cf_destination_mailbox : str;
  cf_destination_mailbox_id : Z;
  cf_local_uid : Z;
  cf_destination_local_uid : Z
}.

(** The six fields copy and move read, in the order they read them. *)
Definition copy_fields (kind : str) (payload : Value) : Result CopyFields :=
  try! source_mailbox_id <- field kind (lit "source_mailbox_id")
                              (get_i64 payload (lit "source_mailbox_id")) ;;
  try! source_mailbox <- field kind (lit "source_mailbox")
                           (get_str payload (lit "source_mailbox")) ;;
  try! destination_mailbox <- field kind (lit "destination_mailbox")
                                (get_str payload (lit "destination_mailbox")) ;;
  try! destination_mailbox_id <- field kind (lit "destination_mailbox_id")
                                   (get_i64 payload (lit "destination_mailbox_id")) ;;
  try! local_uid <- field kind (lit "local_uid") (get_i64 payload (lit "local_uid")) ;;
  try! destination_local_uid <- field kind (lit "destination_local_uid")
                                  (get_i64 payload (lit "destination_local_uid")) ;;
  Ok (mkCopyFields source_mailbox_id source_mailbox destination_mailbox
        destination_mailbox_id local_uid destination_local_uid).

Definition missing_upstream_uid (kind : str) (mailbox_id local_uid : Z) : Error :=
  EStorage (kind ++ lit " mutation missing upstream uid for mailbox " ++ fmt_i mailbox_id ++
            lit " uid " ++ fmt_i local_uid).

(** The part copy and move share: find the upstream UID, select the source,
    copy, remember the destination's UID.  The result is the source's. *)
Definition copy_upstream (kind : str) (f : CopyFields) : Sync Z :=
  do found <- on_repo (upstream_uid_for_mailbox_message (cf_source_mailbox_id f)
                         (cf_local_uid f)) ;;
  do source_upstream_uid <- lift (ok_or found
    (missing_upstream_uid kind (cf_source_mailbox_id f) (cf_local_uid f))) ;;
  on_upstream (upstream_select (cf_source_mailbox f)) ;;;
  do destination_upstream_uid <- on_upstream
    (uid_copy_message (as_u64 source_upstream_uid) (cf_destination_mailbox f)) ;;
  on_repo (set_mailbox_message_upstream_uid (cf_destination_mailbox_id f)
             (cf_destination_local_uid f) (as_i64 destination_upstream_uid)) ;;;
  ret source_upstream_uid.

Definition apply_copy_message (payload : Value) : Sync unit :=
  do f <- lift (copy_fields (lit "copy") payload) ;;
  copy_upstream (lit "copy") f ;;;
  ret tt.

Definition deleted_flag : str := 92 :: lit "Deleted".

Definition apply_move_message (payload : Value) : Sync unit :=
  do f <- lift (copy_fields (lit "move") payload) ;;
  let flags := get_flags payload in
  let flags := if existsb (fun flag => eq_ignore_ascii_case flag deleted_flag) flags
               then flags else flags ++ [deleted_flag] in
  do source_upstream_uid <- copy_upstream (lit "move") f ;;
  on_upstream (uid_store_flags (as_u64 source_upstream_uid) flags) ;;;
  on_upstream expunge_selected.

Definition apply_mutation (mutation : PendingMutation) : Sync unit :=
  let payload := PendingMutation_payload_json mutation in
  let other := PendingMutation_mutation_type mutation in
  match match_str other
          [(lit "append", apply_append payload);
           (lit "store_flags", apply_flag_update payload);
           (lit "copy_message", apply_copy_message payload);
           (lit "move_message", apply_move_message payload)] with
  | Some run => run
  | None => fail (EStorage (lit "unsupported mutation type: " ++ other))
  end.

(** [Utc::now() + from_std(retry_delay(attempts as u32))]; the delay is at
    most 300 s, so the conversion does not fail. *)
Definition next_attempt_time (t attempts : Z) : Z :=
  t + 1000000 * retry_delay (as_u32 attempts).

(** One turn of the loop over the due mutations. *)
Definition flush_one (applied : Z) (mutation : PendingMutation) : Sync Z :=
  do in_flight <- on_repo (update_pending_mutation (PendingMutation_id mutation) InFlight
                             (wrapping_i32 (PendingMutation_attempts mutation + 1)) None) ;;
  do result <- try (apply_mutation mutation) ;;
  match result with
  | inl _ =>
      on_repo (update_pending_mutation (PendingMutation_id in_flight) Succeeded
                 (PendingMutation_attempts in_flight) None) ;;;
      ret (applied + 1)
  | inr err =>
      do t <- utc_now ;;
      let next_attempt := next_attempt_time t (PendingMutation_attempts in_flight) in
      on_repo (update_pending_mutation (PendingMutation_id in_flight) Failed
                 (PendingMutation_attempts in_flight) (Some next_attempt)) ;;;
      fail err
  end.

Definition flush_pending_mutations (account_id : Z) : Sync Z :=
  do pending <- on_repo (list_due_pending_mutations account_id) ;;
  fold_each pending 0 flush_one.
End MutationEngine.
