(* ===== verification/ImapSession.v ===== *)
(** * IMAP sessions

    Models [ImapSession] and [AppServices] of crates/imap-server: the state of
    one connection, the services every command runs on, and the commands that
    touch the session or the mailbox list: CAPABILITY, LOGIN, LOGOUT, STARTTLS,
    SELECT, EXAMINE, LIST, LSUB, STATUS, CREATE, DELETE, RENAME, SUBSCRIBE,
    UNSUBSCRIBE, UNSELECT, CHECK, ENABLE and the constant answers.  A command
    returns its response lines; the last one carries the tag. *)

From stdpp Require Import base strings list.
From Stdlib Require Import ZArith Lia.
From S2P Require Import Prelude RustStr Metrics Domain Protocol SearchQuery Storage Schema RepoCore Security RepoAccounts RepoMailboxes Auth Engine SearchEval ImapText.

Local Open Scope Z_scope.

(** ** State *)
Record SelectedMailboxSnapshot : Type := mkSelectedMailboxSnapshot {
  snapshot_account_id : Z;
  snapshot_mailbox_id : Z;
  snapshot_exists_count : Z
}.

Record ImapSession : Type := mkImapSession {
  state : State;
  authenticated : option AuthContext;
  auth_counted : bool;
  connection_id : str;
  remote_addr : option str;
  session_record_created : bool;
  selected_mailbox_snapshot : option SelectedMailboxSnapshot;
  starttls_available : bool;
  tls_active : bool;
  session_metrics : AppMetrics
}.

(** [ImapSession::new]; the connection id is a fresh UUID. *)
Definition ImapSession_new (uuid : str) : ImapSession :=
  mkImapSession NotAuthenticated None false uuid None false None true false AppMetrics_new.

Definition set_state (x : State) (s : ImapSession) : ImapSession :=
  mkImapSession x (authenticated s) (auth_counted s) (connection_id s) (remote_addr s)
    (session_record_created s) (selected_mailbox_snapshot s) (starttls_available s)
    (tls_active s) (session_metrics s).
Definition set_authenticated (x : option AuthContext) (s : ImapSession) : ImapSession :=
  mkImapSession (state s) x (auth_counted s) (connection_id s) (remote_addr s)
    (session_record_created s) (selected_mailbox_snapshot s) (starttls_available s)
    (tls_active s) (session_metrics s).
Definition set_auth_counted (x : bool) (s : ImapSession) : ImapSession :=
  mkImapSession (state s) (authenticated s) x (connection_id s) (remote_addr s)
    (session_record_created s) (selected_mailbox_snapshot s) (starttls_available s)
    (tls_active s) (session_metrics s).
Definition set_session_record_created (x : bool) (s : ImapSession) : ImapSession :=
  mkImapSession (state s) (authenticated s) (auth_counted s) (connection_id s) (remote_addr
    s) x (selected_mailbox_snapshot s) (starttls_available s) (tls_active s)
    (session_metrics s).
Definition set_selected_mailbox_snapshot (x : option SelectedMailboxSnapshot) (s : ImapSession) : ImapSession :=
  mkImapSession (state s) (authenticated s) (auth_counted s) (connection_id s) (remote_addr
    s) (session_record_created s) x (starttls_available s) (tls_active s) (session_metrics
    s).
Definition set_starttls_available (x : bool) (s : ImapSession) : ImapSession :=
  mkImapSession (state s) (authenticated s) (auth_counted s) (connection_id s) (remote_addr
    s) (session_record_created s) (selected_mailbox_snapshot s) x (tls_active s)
    (session_metrics s).
Definition set_tls_active (x : bool) (s : ImapSession) : ImapSession :=
  mkImapSession (state s) (authenticated s) (auth_counted s) (connection_id s) (remote_addr
    s) (session_record_created s) (selected_mailbox_snapshot s) (starttls_available s) x
    (session_metrics s).
Definition set_session_metrics (x : AppMetrics) (s : ImapSession) : ImapSession :=
  mkImapSession (state s) (authenticated s) (auth_counted s) (connection_id s) (remote_addr
    s) (session_record_created s) (selected_mailbox_snapshot s) (starttls_available s)
    (tls_active s) x.
Definition set_connection_context (connection : str) (remote : option str) (s : ImapSession)
  : ImapSession :=
  mkImapSession (state s) (authenticated s) (auth_counted s) connection remote
    (session_record_created s) (selected_mailbox_snapshot s) (starttls_available s)
    (tls_active s) (session_metrics s).

(** [AppServices]: which of its optional services are there, and the key of the
    repository's secrets.  The services themselves are the parts of the state. *)
Record AppServices : Type := mkAppServices {
  has_repository : bool;
  has_search_backend : bool;
  has_mutation_engine : bool
}.

(** The [Authenticator] trait: it runs on the repository and on a state of its
    own (the throttle). *)
Class Authenticator (T : Type) : Type := {
  authenticate : str -> str -> M Error (@AuthState T) (option AuthContext)
}.

#[export] Instance PostgresAuthenticator {T} `{LoginThrottle T, Crypto, PgText}
  : Authenticator T := { authenticate := postgres_authenticate }.

(** The three authenticators as instances would clash; the other two are
    plain definitions. *)
Definition DenyAllAuthenticator {T} : Authenticator T :=
  {| authenticate := DenyAllAuthenticator_authenticate |}.
Definition StaticAuthenticatorInstance {T} `{LoginThrottle T, Crypto}
  (self : StaticAuthenticator) : Authenticator T :=
  {| authenticate := fun username password => on_throttle (static_authenticate self username password) |}.

(** One connection and what it shares with the others: [sv_input] are the bytes
    the client sends before it closes its side, [sv_wire] the bytes written to it. *)
Record Server {O U X L T : Type} : Type := mkServer {
  sv_session : ImapSession;
  sv_engine : Engine O U X L;
  sv_auth : T;
  sv_input : bytes;
  sv_wire : bytes
}.
Arguments Server : clear implicits.
Arguments mkServer {O U X L T}.

(** ** Sessions *)
Definition capabilities (s : ImapSession) : list str :=
  match state s with
  | NotAuthenticated =>
      if starttls_available s && negb (tls_active s)
      then map lit ["IMAP4rev1"; "STARTTLS"; "AUTH=PLAIN"; "AUTH=XOAUTH2"]%string
      else map lit ["IMAP4rev1"; "AUTH=PLAIN"; "AUTH=XOAUTH2"]%string
  | Authenticated | SelectedMailbox _ _ =>
      map lit ["IMAP4rev1"; "UIDPLUS"; "NAMESPACE"; "SPECIAL-USE"; "LIST-STATUS"; "IDLE";
               "CONDSTORE"; "ENABLE"; "ID"; "ESEARCH"; "MOVE"; "SORT"; "THREAD=REFERENCES";
               "THREAD=ORDEREDSUBJECT"; "UNSELECT"; "AUTH=PLAIN"; "AUTH=XOAUTH2"]%string
  | Logout => map lit ["IMAP4rev1"]%string
  end.

Definition selected_mailbox_name_ref (s : ImapSession) : option str :=
  match state s with SelectedMailbox _ mailbox => Some mailbox | _ => None end.

Definition selected_mailbox_is_read_only (s : ImapSession) : option bool :=
  match state s with SelectedMailbox read_only _ => Some read_only | _ => None end.

Definition is_read_only (s : ImapSession) : bool :=
  default false (selected_mailbox_is_read_only s).

(** [self.authenticated.as_ref().and_then(|ctx| ctx.account_id)]. *)
Definition session_account (s : ImapSession) : option Z :=
  authenticated s ≫= AuthContext_account_id.

(** [let Some(x) = o else { return d };]. *)
Notation "'unwrap' x <- o 'or' d ;; k" :=
  (match o with Some x => k | None => d end)
  (at level 100, x name, o at next level, d at next level, right associativity) : rust_scope.

Section Commands.
Context {O U X L T : Type} `{Authenticator T} `{PgText} `{UuidText}.
Variable services : AppServices.
Abbreviation Imap := (M Error (Server O U X L T)).

Definition on_engine {A} (m : M Error (Engine O U X L) A) : Imap A :=
  zoom sv_engine (fun e sv => mkServer (sv_session sv) e (sv_auth sv) (sv_input sv) (sv_wire sv)) m.
Definition on_db {A} (m : Repo A) : Imap A := on_engine (on_repo m).
Definition on_auth {A} (m : M Error (@AuthState T) A) : Imap A :=
  fun sv =>
    let e := sv_engine sv in
    let '(st, r) := m (mkAuthState (e_world e) (sv_auth sv)) in
    (mkServer (sv_session sv)
       (mkEngine (auth_world st) (e_store e) (e_upstream e) (e_search e) (e_lock e) (e_metrics e))
       (auth_throttle st) (sv_input sv) (sv_wire sv), r).
Definition get_session : Imap ImapSession := gets sv_session.
Definition update_session (f : ImapSession -> ImapSession) : Imap unit :=
  modify (fun sv => mkServer (f (sv_session sv)) (sv_engine sv) (sv_auth sv) (sv_input sv) (sv_wire sv)).
(** [stream.write_all(b).await?]; writing to the client never fails. *)
Definition write_all (b : bytes) : Imap unit :=
  modify (fun sv => mkServer (sv_session sv) (sv_engine sv) (sv_auth sv) (sv_input sv) (sv_wire sv ++ b)).
(** A method on the metrics of the session and on those of the services. *)
Definition on_both_metrics (f : AppMetrics -> AppMetrics) : Imap unit :=
  update_session (fun s => set_session_metrics (f (session_metrics s)) s) ;;;
  on_engine (on_metrics f).

Definition activate_authenticated_session (ctx : AuthContext) : Imap unit :=
  do s <- get_session ;;
  (if negb (auth_counted s)
   then on_both_metrics inc_authenticated_sessions ;;; update_session (set_auth_counted true)
   else ret tt) ;;;
  (if negb (session_record_created s) && has_repository services then
     do created <- try (on_db (create_session (mkNewSession (AuthContext_user_id ctx)
                     (AuthContext_account_id ctx) (connection_id s) (remote_addr s)))) ;;
     match created with
     | inl _ => update_session (set_session_record_created true)
     | inr _ => ret tt
     end
   else ret tt) ;;;
  update_session (fun s =>
    set_selected_mailbox_snapshot None (set_state Authenticated (set_authenticated (Some ctx) s))).

Definition record_disconnected : Imap unit :=
  do s <- get_session ;;
  if session_record_created s && has_repository services
  then ignore (on_db (mark_session_disconnected (connection_id s)))
  else ret tt.

(** ** Commands *)
Definition badstate (tag text : str) : list str := [no tag (lit "BADSTATE") text].

Definition cmd_capability (tag : str) : Imap (list str) :=
  do s <- get_session ;;
  ret [lit "* CAPABILITY " ++ join (lit " ") (capabilities s);
       ok tag (lit "CAPABILITY completed")].

Definition cmd_logout (tag : str) : Imap (list str) :=
  do s <- get_session ;;
  (if auth_counted s
   then on_both_metrics dec_authenticated_sessions ;;; update_session (set_auth_counted false)
   else ret tt) ;;;
  update_session (fun s => set_selected_mailbox_snapshot None (set_state Logout s)) ;;;
  ret [lit "* BYE IMAP cache proxy logging out"; ok tag (lit "LOGOUT completed")].

Definition cmd_login (tag : str) (args : list str) : Imap (list str) :=
  match args with
  | username :: password :: _ =>
      do ctx <- on_auth (authenticate username password) ;;
      match ctx with
      | Some ctx =>
          activate_authenticated_session ctx ;;;
          ret [ok tag (lit "LOGIN completed")]
      | None => ret [no tag (lit "AUTHENTICATIONFAILED") (lit "invalid credentials")]
      end
  | _ => ret [bad tag (lit "LOGIN requires username and password")]
  end.

Definition cmd_starttls (tag : str) : Imap (list str) :=
  do s <- get_session ;;
  ret (if tls_active s then badstate tag (lit "STARTTLS is already active")
       else if negb (starttls_available s) then badstate tag (lit "STARTTLS is not available")
       else match state s with
            | NotAuthenticated => [ok tag (lit "Begin TLS negotiation now")]
            | _ => badstate tag (lit "STARTTLS requires a not-authenticated session")
            end).

Definition inbox : str := lit "INBOX".

(** The mailbox SELECT shows when there is no repository or no account. *)
Definition placeholder_mailbox (s : ImapSession) (mailbox_name : str) (t : Z) : Mailbox :=
  mkMailbox 0 (default 0 (session_account s)) mailbox_name (canonical_mailbox_name mailbox_name)
    (Some (lit "/")) [lit "\HasNoChildren"] true
    (if eq_ignore_ascii_case mailbox_name inbox then Some (lit "\Inbox") else None)
    (Some 1) (Some 1) (Some 0) 0 0 0 t t.

Definition select_responses (mailbox : Mailbox) : list str :=
  [lit "* FLAGS (\Answered \Flagged \Deleted \Seen \Draft)";
   lit "* " ++ fmt_i (Mailbox_exists_count mailbox) ++ lit " EXISTS";
   lit "* " ++ fmt_i (Mailbox_recent_count mailbox) ++ lit " RECENT";
   lit "* OK [UIDVALIDITY " ++ fmt_i (default 1 (Mailbox_uidvalidity mailbox)) ++
   lit "] UIDs valid";
   lit "* OK [UIDNEXT " ++ fmt_i (default 1 (Mailbox_uidnext mailbox)) ++
   lit "] Predicted next UID"] ++
  (match Mailbox_highestmodseq mailbox with
   | Some highestmodseq =>
       [lit "* OK [HIGHESTMODSEQ " ++ fmt_i highestmodseq ++ lit "] Highest mod-sequence value"]
   | None => []
   end) ++
  [lit "* OK [UNSEEN " ++ fmt_i (Mailbox_unseen_count mailbox) ++ lit "] First unseen message"].

Definition cmd_select (examine : bool) (tag : str) (args : list str) : Imap (list str) :=
  let mailbox_name := default inbox (head args) in
  do s <- get_session ;;
  do t <- on_engine utc_now ;;
  do found <-
    match has_repository services, session_account s with
    | true, Some account_id =>
        do mailbox <- on_db (find_mailbox account_id mailbox_name) ;;
        ret (Some mailbox)
    | _, _ => ret None
    end ;;
  let select mailbox :=
    update_session (fun s =>
      set_selected_mailbox_snapshot
        (Some (mkSelectedMailboxSnapshot (Mailbox_account_id mailbox) (Mailbox_id mailbox)
                 (Mailbox_exists_count mailbox)))
        (set_state (SelectedMailbox examine (Mailbox_name mailbox)) s)) ;;;
    ret (select_responses mailbox ++
         [ok tag (if examine then lit "[READ-ONLY] EXAMINE completed"
                  else lit "[READ-WRITE] SELECT completed")]) in
  match found with
  | Some (Some mailbox) => select mailbox
  | Some None => ret [no tag (lit "NONEXISTENT") (lit "mailbox not found")]
  | None => select (placeholder_mailbox s mailbox_name t)
  end.

Definition cmd_list (name tag : str) (args : list str) : Imap (list str) :=
  if has_repository services then
    do s <- get_session ;;
    unwrap account_id <- session_account s
      or ret (badstate tag (name ++ lit " requires an authenticated account")) ;;
    let subscribed_only := if str_eqb name (lit "LSUB") then Some true else None in
    do mailboxes <- on_db (list_mailboxes account_id subscribed_only) ;;
    do request <- lift (parse_list_request args) ;;
    let '(pattern, status_items) := request in
    let line mailbox :=
      mailbox_list_line name mailbox ::
      match status_items with
      | Some items => [format_status_response mailbox items]
      | None => []
      end in
    ret (flat_map line
           (List.filter (fun mailbox =>
              imap_list_pattern_matches pattern (Mailbox_name mailbox)
                (default (lit "/") (Mailbox_delimiter mailbox))) mailboxes) ++
         [ok tag (name ++ lit " completed")])
  else
    ret [lit "* LIST (\HasNoChildren) " ++ quote_imap_string (lit "/") ++ lit " " ++
         quote_imap_string inbox;
         ok tag (name ++ lit " completed")].

(** [&command.args[1..]] panics on an empty argument list. *)
Definition slice_from {A} (l : list A) (from : nat) : Result (list A) :=
  if Nat.leb from (length l) then Ok (drop from l) else Panic.

Definition cmd_status (tag : str) (args : list str) : Imap (list str) :=
  let mailbox_name := default inbox (head args) in
  if has_repository services then
    do s <- get_session ;;
    unwrap account_id <- session_account s
      or ret (badstate tag (lit "STATUS requires an authenticated account")) ;;
    do found <- on_db (find_mailbox account_id mailbox_name) ;;
    unwrap mailbox <- found
      or ret [no tag (lit "NONEXISTENT") (lit "mailbox not found")] ;;
    do rest <- lift (slice_from args 1) ;;
    do requested_items <- lift (parse_status_items rest) ;;
    ret [format_status_response mailbox requested_items; ok tag (lit "STATUS completed")]
  else
    do rest <- lift (slice_from args 1) ;;
    do requested_items <- lift (parse_status_items rest) ;;
    do t <- on_engine utc_now ;;
    ret [format_status_response_with_defaults t mailbox_name requested_items;
         ok tag (lit "STATUS completed")].

Definition need_account (name tag : str) : list str :=
  badstate tag (name ++ lit " requires an authenticated account").

Definition cmd_create (tag : str) (args : list str) : Imap (list str) :=
  if has_repository services then
    do s <- get_session ;;
    unwrap account_id <- session_account s or ret (need_account (lit "CREATE") tag) ;;
    unwrap mailbox_name <- head args or ret [bad tag (lit "CREATE requires a mailbox name")] ;;
    do created <- on_db (create_mailbox (mkNewMailbox account_id mailbox_name
      (canonical_mailbox_name mailbox_name) (Some (lit "/")) [lit "\HasNoChildren"] false None
      (Some 1) (Some 1) (Some 0) 0 0 0)) ;;
    ret (match created with
         | Some _ => [ok tag (lit "CREATE completed")]
         | None => [no tag (lit "ALREADYEXISTS") (lit "mailbox already exists")]
         end)
  else ret [ok tag (lit "CREATE completed")].

Definition cmd_delete (tag : str) (args : list str) : Imap (list str) :=
  if has_repository services then
    do s <- get_session ;;
    unwrap account_id <- session_account s or ret (need_account (lit "DELETE") tag) ;;
    unwrap mailbox_name <- head args or ret [bad tag (lit "DELETE requires a mailbox name")] ;;
    do rows <- on_db (delete_mailbox account_id mailbox_name) ;;
    ret (if rows =? 0 then [no tag (lit "NONEXISTENT") (lit "mailbox not found")]
         else [ok tag (lit "DELETE completed")])
  else ret [ok tag (lit "DELETE completed")].

Definition rename_selected (source_name dest_name : str) (s : ImapSession) : ImapSession :=
  match state s with
  | SelectedMailbox read_only mailbox =>
      if eq_ignore_ascii_case mailbox source_name
      then set_state (SelectedMailbox read_only dest_name) s else s
  | _ => s
  end.

Definition cmd_rename (tag : str) (args : list str) : Imap (list str) :=
  if has_repository services then
    do s <- get_session ;;
    unwrap account_id <- session_account s or ret (need_account (lit "RENAME") tag) ;;
    unwrap source_name <- head args or ret [bad tag (lit "RENAME requires a source mailbox")] ;;
    unwrap dest_name <- args !! 1%nat
      or ret [bad tag (lit "RENAME requires a destination mailbox")] ;;
    do renamed <- on_db (rename_mailbox account_id source_name dest_name) ;;
    match renamed with
    | Some _ =>
        update_session (rename_selected source_name dest_name) ;;;
        ret [ok tag (lit "RENAME completed")]
    | None =>
        ret [no tag (lit "NONEXISTENT") (lit "mailbox not found or destination already exists")]
    end
  else ret [ok tag (lit "RENAME completed")].

Definition cmd_subscribe (subscribed : bool) (name tag : str) (args : list str)
  : Imap (list str) :=
  if has_repository services then
    do s <- get_session ;;
    unwrap account_id <- session_account s or ret (need_account name tag) ;;
    unwrap mailbox_name <- head args or ret [bad tag (name ++ lit " requires a mailbox name")] ;;
    do updated <- on_db (set_mailbox_subscribed account_id mailbox_name subscribed) ;;
    ret (match updated with
         | Some _ => [ok tag (name ++ lit " completed")]
         | None => [no tag (lit "NONEXISTENT") (lit "mailbox not found")]
         end)
  else ret [ok tag (name ++ lit " completed")].

Definition cmd_idle (tag : str) : Imap (list str) :=
  do s <- get_session ;;
  unwrap _mailbox <- selected_mailbox_name_ref s
    or ret (badstate tag (lit "IDLE requires a selected mailbox")) ;;
  ret [lit "+ idling"; ok tag (lit "IDLE terminated")].

Definition cmd_check (tag : str) : Imap (list str) :=
  do s <- get_session ;;
  unwrap _mailbox <- selected_mailbox_name_ref s
    or ret (badstate tag (lit "CHECK requires a selected mailbox")) ;;
  ret [ok tag (lit "CHECK completed")].

Definition deselect : Imap unit :=
  update_session (fun s => set_state Authenticated (set_selected_mailbox_snapshot None s)).

Definition cmd_unselect (tag : str) : Imap (list str) :=
  do s <- get_session ;;
  unwrap _mailbox <- selected_mailbox_name_ref s
    or ret (badstate tag (lit "UNSELECT requires a selected mailbox")) ;;
  deselect ;;;
  ret [ok tag (lit "UNSELECT completed")].

Definition cmd_namespace (tag : str) : Imap (list str) :=
  ret [lit "* NAMESPACE ((" ++ [34; 34] ++ lit " " ++ quote_imap_string (lit "/") ++
       lit ")) NIL NIL"; ok tag (lit "NAMESPACE completed")].

Definition cmd_id (tag : str) : Imap (list str) :=
  ret [lit "* ID (" ++ join (lit " ") (map (fun w => quote_imap_string (lit w))
         ["name"; "imap-cache-rs"; "vendor"; "openai"; "support-url";
          "https://openai.com"]%string) ++ lit ")"; ok tag (lit "ID completed")].

Definition in_authenticated_state (s : ImapSession) : bool :=
  match state s with Authenticated | SelectedMailbox _ _ => true | _ => false end.

Definition cmd_enable (tag : str) (args : list str) : Imap (list str) :=
  do s <- get_session ;;
  if negb (in_authenticated_state s)
  then ret (badstate tag (lit "ENABLE requires an authenticated session"))
  else
    let enabled := map to_ascii_uppercase
      (List.filter (fun arg => eq_ignore_ascii_case arg (lit "CONDSTORE")) args) in
    ret ((match enabled with
          | [] => []
          | _ => [lit "* ENABLED " ++ join (lit " ") enabled]
          end) ++ [ok tag (lit "ENABLE completed")]).

Definition cmd_condstore (tag : str) : Imap (list str) :=
  do s <- get_session ;;
  ret (if negb (in_authenticated_state s)
       then badstate tag (lit "CONDSTORE requires an authenticated session")
       else [ok tag (lit "CONDSTORE completed")]).
End Commands.
