(* ===== verification/ImapFetch.v ===== *)
(** * Reading messages

    Models the message lookups of crates/imap-server/src/imap.rs behind FETCH,
    STORE, COPY and EXPUNGE, the loading of raw bytes from the object store with
    the re-fetch of a missing blob from upstream, the literal responses of FETCH
    and the SEARCH, SORT and THREAD requests. *)

From stdpp Require Import base strings list.
From Stdlib Require Import ZArith Lia.
From S2P Require Import Prelude RustStr Metrics Domain Protocol SearchQuery Storage Schema RepoCore Security RepoAccounts RepoMailboxes RepoMessages Mime Search Engine SearchEval Threads ImapText Mutations ImapSession.

Local Open Scope Z_scope.

(** [UpstreamClient::connect], the per-account connection limit and
    [authenticate_with_method] on the stored credentials, for an account. *)
Class UpstreamConnector (U : Type) : Type := {
  upstream_open : UpstreamAccountConfig -> Z -> M Error U unit
}.

(** [iter().map(uid).max().unwrap_or(0)]. *)
Definition max_uid (uids : list Z) : Z := default 0 (list_max uids).

(** The rows a set of sequence numbers names, with their numbers. *)
Definition pick_sequences {A} (set : str) (messages : list A) : list (Z * A) :=
  omap (fun sequence => pair sequence <$> messages !! Z.to_nat (sequence - 1))
    (parse_number_set set (Z.of_nat (length messages))).

(** The rows a set of UIDs names. *)
Definition pick_uids {A} (uid : A -> Z) (set : str) (messages : list A) : list A :=
  let uids := parse_number_set set (max_uid (map uid messages)) in
  List.filter (fun message => memZ (uid message) uids) messages.

Section Lookups.
Context {O U X L : Type}.
Abbreviation Sync := (M Error (Engine O U X L)).

Definition resolve_sequence_views (mailbox_id : Z) (set : str) : Sync (list (Z * View)) :=
  do messages <- on_repo (list_mailbox_message_views mailbox_id) ;;
  ret (pick_sequences set messages).

Definition resolve_uid_views (mailbox_id : Z) (set : str) : Sync (list View) :=
  do messages <- on_repo (list_mailbox_message_views mailbox_id) ;;
  ret (pick_uids MailboxMessageView_local_uid set messages).

Definition resolve_sequence_targets (mailbox_id : Z) (set : str)
  : Sync (list (Z * MailboxMessage)) :=
  do messages <- on_repo (list_mailbox_messages mailbox_id) ;;
  ret (pick_sequences set messages).

Definition resolve_uid_targets (mailbox_id : Z) (set : str) : Sync (list MailboxMessage) :=
  do messages <- on_repo (list_mailbox_messages mailbox_id) ;;
  ret (pick_uids MailboxMessage_local_uid set messages).

Definition sequence_number_for_local_uid (mailbox_id local_uid : Z) : Sync (option Z) :=
  do messages <- on_repo (list_mailbox_messages mailbox_id) ;;
  ret ((fun index => Z.of_nat index + 1) <$>
       position (fun message => MailboxMessage_local_uid message =? local_uid) messages).
End Lookups.

(** ** Raw bytes *)
Section Raw.
Context {O U X L : Type} `{ObjectStore O} `{UpstreamClient U} `{UpstreamConnector U}.
Context `{Sha256} `{MimeParser} `{PgText} `{Crypto}.
Variable services : AppServices.
Variable secrets : SecretBox.
Abbreviation Sync := (M Error (Engine O U X L)).

(** [let _ = repo.touch_cache_object(..).await;] when there is a repository. *)
Definition touch_ignored (account_id : Z) (key : str) : Sync unit :=
  if has_repository services then ignore (on_repo (touch_cache_object account_id key))
  else ret tt.

(** The cache row of a blob just written: touched when there is one. *)
Definition remember_blob (account_id : Z) (object_type key : str) (metadata : ObjectMetadata)
  : Sync unit :=
  do found <- on_repo (find_cache_object_by_account_type_and_blob_key account_id object_type key) ;;
  match found with
  | None =>
      do t <- utc_now ;;
      on_repo (upsert_cache_object (mkNewCacheObject (Some account_id) object_type key
        (ObjectMetadata_sha256 metadata) (as_i64 (ObjectMetadata_size_octets metadata)) 1
        (Some t))) ;;;
      ret tt
  | Some _ => on_repo (touch_cache_object account_id key) ;;; ret tt
  end.

Definition rehydrate_missing_raw_blob (account_id : Z) (mailbox_name : str) (view : View)
  : Sync (option bytes) :=
  unwrap upstream_uid <- MailboxMessageView_upstream_uid view or ret None ;;
  if negb (has_repository services) then ret None
  else
    do account <- on_repo (find_account_by_id_any_state account_id) ;;
    unwrap account <- account or ret None ;;
    do config <- on_repo (upstream_account_config secrets (MailAccount_email_address account)) ;;
    unwrap config <- config or ret None ;;
    on_upstream (upstream_open config account_id) ;;;
    on_upstream (upstream_select mailbox_name) ;;;
    do raw <- on_upstream (uid_fetch_rfc822 (as_u64 upstream_uid)) ;;
    do metadata <- on_store (store_put (MailboxMessageView_rfc822_blob_key view) raw) ;;
    remember_blob account_id (lit "rfc822") (ObjectMetadata_key metadata) metadata ;;;
    record_object_store_bytes_written (Z.of_nat (length raw)) ;;;
    ret (Some raw).

Definition len (b : bytes) : Z := Z.of_nat (length b).

(** [count.map(|count| offset.saturating_add(count))]. *)
Definition range_end (offset : Z) (count : option Z) : option Z :=
  saturating_add_usize offset <$> count.

(** The message bytes of a row, from the store or re-fetched, with the metrics
    of both; [None] when neither has them. *)
Definition load_whole (account_id : Z) (mailbox_name : str) (view : View)
  : Sync (option bytes) :=
  let key := MailboxMessageView_rfc822_blob_key view in
  do stored <- on_store (store_get key) ;;
  match stored with
  | Some raw =>
      on_metrics record_cache_hit ;;;
      record_object_store_bytes_read (len raw) ;;;
      touch_ignored account_id key ;;;
      ret (Some raw)
  | None =>
      do raw <- rehydrate_missing_raw_blob account_id mailbox_name view ;;
      match raw with
      | None => on_metrics record_cache_miss ;;; ret None
      | Some raw =>
          on_metrics record_cache_miss ;;;
          record_object_store_bytes_read (len raw) ;;;
          ret (Some raw)
      end
  end.

(** [Whole(Full)] with a partial range. *)
Definition load_full_range (account_id : Z) (mailbox_name : str) (view : View)
  (offset : Z) (count : option Z) : Sync (option bytes) :=
  let key := MailboxMessageView_rfc822_blob_key view in
  do stored <- on_store (store_get_range key offset (range_end offset count)) ;;
  match stored with
  | Some b =>
      on_metrics record_cache_hit ;;;
      record_object_store_bytes_read (len b) ;;;
      touch_ignored account_id key ;;;
      ret (Some b)
  | None =>
      do raw <- rehydrate_missing_raw_blob account_id mailbox_name view ;;
      match raw with
      | Some raw =>
          on_metrics record_cache_miss ;;;
          record_object_store_bytes_written (len raw) ;;;
          record_object_store_bytes_read (len raw) ;;;
          ret (Some (apply_partial (raw_fetch_bytes raw SecFull) (Some (offset, count))))
      | None => on_metrics record_cache_miss ;;; ret None
      end
  end.

(** The raw bytes of a MIME part whose blob is missing: cut from the message
    and stored again. *)
Definition load_part_from_message (account_id : Z) (mailbox_name : str) (view : View)
  (part : MimePart) (stored_path : str) : Sync (option bytes) :=
  let key := MimePart_blob_key part in
  on_metrics record_cache_miss ;;;
  do stored <- on_store (store_get (MailboxMessageView_rfc822_blob_key view)) ;;
  do raw_rfc822 <-
    match stored with
    | Some raw =>
        on_metrics record_cache_hit ;;;
        record_object_store_bytes_read (len raw) ;;;
        ret (Some raw)
    | None => rehydrate_missing_raw_blob account_id mailbox_name view
    end ;;
  unwrap raw_rfc822 <- raw_rfc822 or ret None ;;
  do extracted <- lift (extract_part_bytes raw_rfc822 stored_path) ;;
  unwrap b <- extracted or ret None ;;
  do metadata <- on_store (store_put key b) ;;
  record_object_store_bytes_written (ObjectMetadata_size_octets metadata) ;;;
  remember_blob account_id (object_type_for_mime_part part) key metadata ;;;
  ret (Some b).

Definition load_part (account_id : Z) (mailbox_name : str) (view : View) (path : str)
  (section : FetchBodySection) (partial : option (Z * option Z)) : Sync (option bytes) :=
  if negb (has_repository services) then on_metrics record_cache_miss ;;; ret None
  else
    let stored_path := lit "1." ++ path in
    do found <- on_repo (find_mime_part_by_message_and_path account_id
                           (MailboxMessageView_message_id view) stored_path) ;;
    match found with
    | None => on_metrics record_cache_miss ;;; ret None
    | Some part =>
        let key := MimePart_blob_key part in
        match partial, section with
        | Some (offset, count), SecFull =>
            do stored <- on_store (store_get_range key offset (range_end offset count)) ;;
            (match stored with
             | Some b =>
                 on_metrics record_cache_hit ;;;
                 record_object_store_bytes_read (len b) ;;;
                 touch_ignored account_id key
             | None => on_metrics record_cache_miss
             end) ;;;
            ret stored
        | _, _ =>
            do stored <- on_store (store_get key) ;;
            do raw <-
              match stored with
              | Some raw =>
                  on_metrics record_cache_hit ;;;
                  record_object_store_bytes_read (len raw) ;;;
                  ret (Some raw)
              | None => load_part_from_message account_id mailbox_name view part stored_path
              end ;;
            unwrap raw <- raw or ret None ;;
            touch_ignored account_id key ;;;
            ret (Some (apply_partial (mime_part_fetch_bytes raw part section) partial))
        end
    end.

Definition load_raw_fetch_bytes (account_id : Z) (mailbox_name : str) (view : View)
  (section : RawFetchSection) (partial : option (Z * option Z)) : Sync (option bytes) :=
  match section, partial with
  | Whole SecFull, Some (offset, count) =>
      load_full_range account_id mailbox_name view offset count
  | Whole SecFull, None =>
      do raw <- load_whole account_id mailbox_name view ;;
      ret ((fun raw => raw_fetch_bytes raw SecFull) <$> raw)
  | Whole section, _ =>
      do raw <- load_whole account_id mailbox_name view ;;
      ret ((fun raw => apply_partial (raw_fetch_bytes raw section) partial) <$> raw)
  | Part path section, _ => load_part account_id mailbox_name view path section partial
  end.
End Raw.

(** ** FETCH with a raw section *)
Section RawFetch.
Context {O U X L T : Type} `{ObjectStore O} `{UpstreamClient U} `{UpstreamConnector U}.
Context `{Sha256} `{MimeParser} `{PgText} `{Crypto} `{Texts} `{ChronoRange}.
Variable services : AppServices.
Variable secrets : SecretBox.
Abbreviation Imap := (M Error (Server O U X L T)).

(** One row: its bytes, the \Seen flag and the response. *)
Definition write_raw_row (account_id mailbox_id : Z) (selected_mailbox : str)
  (raw_item : RawFetchRequest) (metadata_before metadata_after : list str)
  (sequence_number : Z) (view : View) : Imap unit :=
  do loaded <- on_engine (load_raw_fetch_bytes services secrets account_id selected_mailbox view
                 (RawFetchRequest_section raw_item) (RawFetchRequest_partial raw_item)) ;;
  do selected <- lift (ok_or loaded (EStorage (lit "missing raw RFC822 blob: " ++
                         MailboxMessageView_rfc822_blob_key view))) ;;
  (if negb (RawFetchRequest_peek raw_item) &&
      negb (existsb (fun flag => eq_ignore_ascii_case flag (lit "\Seen"))
              (MailboxMessageView_flags view)) then
     let seen_flags := dedupe_flags (MailboxMessageView_flags view ++ [lit "\Seen"]) in
     let local_uid := MailboxMessageView_local_uid view in
     on_db (update_mailbox_message_flags mailbox_id local_uid seen_flags) ;;;
     (if has_mutation_engine services
      then on_engine (queue_flag_update account_id mailbox_id None local_uid seen_flags) ;;; ret tt
      else ret tt)
   else ret tt) ;;;
  let before_parts := omap (fetch_metadata_part view) metadata_before in
  let after_parts := omap (fetch_metadata_part view) metadata_after in
  let prefix :=
    lit "* " ++ fmt_i sequence_number ++ lit " FETCH (" ++
    (match before_parts with [] => [] | _ => join (lit " ") before_parts ++ lit " " end) ++
    RawFetchRequest_label raw_item ++ lit " {" ++ fmt_u (len selected) ++ lit "}" ++ crlf in
  write_all (as_bytes prefix) ;;;
  write_all selected ;;;
  on_engine (on_metrics (record_downstream_bytes (len selected))) ;;;
  match after_parts with
  | [] => write_all (lit ")" ++ crlf)
  | _ => write_all (as_bytes (lit " " ++ join (lit " ") after_parts ++ lit " )" ++ crlf))
  end.

(** Did the command ask for raw bytes; the subcommand of UID is not looked at. *)
Definition write_raw_fetch_response (command : ParsedCommand) : Imap bool :=
  do s <- get_session ;;
  unwrap account_id <- session_account s or ret false ;;
  unwrap selected_mailbox <- selected_mailbox_name_ref s or ret false ;;
  if negb (has_repository services) then ret false
  else
    do found <- on_db (find_mailbox account_id selected_mailbox) ;;
    unwrap mailbox <- found or ret false ;;
    let is_uid := eq_ignore_ascii_case (ParsedCommand_name command) (lit "UID") in
    let args := ParsedCommand_args command in
    let set_index := if is_uid then 1%nat else 0%nat in
    unwrap set <- args !! set_index or ret false ;;
    let items := parse_fetch_items (drop (S set_index) args) in
    unwrap raw_index <- position (fun item => is_some (parse_raw_fetch_request item)) items
      or ret false ;;
    do views <-
      (if is_uid then
         do views <- on_engine (resolve_uid_views (Mailbox_id mailbox) set) ;;
         ret (map (fun view => (MailboxMessageView_local_uid view, view)) views)
       else on_engine (resolve_sequence_views (Mailbox_id mailbox) set)) ;;
    unwrap raw_item <- items !! raw_index ≫= parse_raw_fetch_request or panic ;;
    for_each views (fun '(sequence_number, view) =>
      write_raw_row account_id (Mailbox_id mailbox) selected_mailbox raw_item
        (take raw_index items) (drop (S raw_index) items) sequence_number view) ;;;
    ret true.
End RawFetch.

(** ** SEARCH, SORT, THREAD *)
Section Search.
Context {O U X L : Type} `{ObjectStore O} `{UpstreamClient U} `{UpstreamConnector U}.
Context `{SearchBackend X} `{Sha256} `{MimeParser} `{PgText} `{Crypto} `{Texts} `{Chrono}.
Context `{MailHeaders}.
Variable services : AppServices.
Variable secrets : SecretBox.
Abbreviation Sync := (M Error (Engine O U X L)).

(** The closure over the candidates; [None] is a row that is filtered out. *)
Definition search_candidate (views : list View) (recent_uids : list Z) (query : SearchQuery)
  (uid_results : bool) (uid : Z) : Result (option Z) :=
  match view_map_get views uid with
  | None => Ok None
  | Some view =>
      if recent_only query && negb (memZ uid recent_uids) then Ok None
      else if old_only query && memZ uid recent_uids then Ok None
      else if matches_search_view view query then
        try! text <- (if has_search_backend services then Ok true
                      else matches_search_text_fallback view (query_string query)) ;;
        if text : bool
        then Ok (Some (if uid_results : bool then uid
                       else default uid (sequence_number_for_view views uid)))
        else Ok None
      else Ok None
  end.

Definition execute_search (account_id : option Z) (mailbox_name : str) (query : SearchQuery)
  (uid_results : bool) : Sync (list Z) :=
  if negb (has_repository services) then
    if has_search_backend services then on_search (backend_search mailbox_name query)
    else ret []
  else
    unwrap account_id <- account_id or ret [] ;;
    do found <- on_repo (find_mailbox account_id mailbox_name) ;;
    unwrap mailbox <- found or ret [] ;;
    do views <- on_repo (list_mailbox_message_views (Mailbox_id mailbox)) ;;
    let recent_uids :=
      if recent_only query || old_only query
      then recent_mailbox_uids views (Mailbox_recent_count mailbox) else [] in
    do candidate_uids <-
      (if has_search_backend services && is_none (expr query) &&
          (is_some (query_string query) || is_some (uid_filter query))
       then on_search (backend_search mailbox_name query)
       else ret (view_map_keys views)) ;;
    do filtered <-
      lift (map_outcome (search_candidate views recent_uids query uid_results) candidate_uids) ;;
    ret (dedup (sort_by Z.leb (omap id filtered))).

(** The rows found, in the order of their UIDs. *)
Definition search_rows (account_id : Z) (mailbox_name : str) (query : SearchQuery)
  (views : list View) : Sync (list View) :=
  do candidate_uids <- execute_search (Some account_id) mailbox_name query true ;;
  ret (omap (view_map_get views) candidate_uids).

Definition execute_sort (account_id : option Z) (mailbox_name : str) (query : SearchQuery)
  (sort_keys : list SortKey) (reverse uid_results : bool) : Sync (list Z) :=
  if negb (has_repository services) then
    if has_search_backend services then
      do uids <- on_search (backend_search mailbox_name query) ;;
      ret (sort_by Z.leb uids)
    else ret []
  else
    unwrap account_id <- account_id or ret [] ;;
    do found <- on_repo (find_mailbox account_id mailbox_name) ;;
    unwrap mailbox <- found or ret [] ;;
    do views <- on_repo (list_mailbox_message_views (Mailbox_id mailbox)) ;;
    do rows <- search_rows account_id mailbox_name query views ;;
    ret (map (fun view =>
           if uid_results : bool then view_uid view
           else default (view_uid view) (sequence_number_for_view views (view_uid view)))
         (sort_rows sort_keys reverse rows)).

Definition thread_message (account_id : Z) (mailbox_name : str) (acc : list ThreadMessage)
  (view : View) : Sync (list ThreadMessage) :=
  do loaded <- load_raw_fetch_bytes services secrets account_id mailbox_name view
                 (Whole SecFull) None ;;
  do raw <- lift (ok_or loaded (EStorage (lit "missing raw message for threading"))) ;;
  do headers <- lift (extract_thread_headers raw) ;;
  ret (acc ++ [mkThreadMessage (view_uid view) (view_subject view) (sort_date_key view)
                 (view_uid view) (ThreadHeaders_message_id headers)
                 (ThreadHeaders_references headers) (ThreadHeaders_in_reply_to headers)]).

Definition execute_thread (account_id : option Z) (mailbox_name : str) (query : SearchQuery)
  (algorithm : ThreadAlgorithm) (uid_results : bool) : Sync (list str) :=
  if negb (has_repository services) then ret []
  else
    unwrap account_id <- account_id or ret [] ;;
    do found <- on_repo (find_mailbox account_id mailbox_name) ;;
    unwrap mailbox <- found or ret [] ;;
    do views <- on_repo (list_mailbox_message_views (Mailbox_id mailbox)) ;;
    do selected_views <- search_rows account_id mailbox_name query views ;;
    match selected_views, algorithm with
    | [], _ => ret []
    | _, OrderedSubject =>
        ret (render_thread_forest (thread_ordered_subject selected_views) uid_results views)
    | _, References =>
        do threaded <- fold_each selected_views [] (thread_message account_id mailbox_name) ;;
        do forest <- lift (thread_references threaded) ;;
        ret (render_thread_forest forest uid_results views)
    end.
End Search.
