(* ===== verification/ImapCommands.v ===== *)
(** * The message commands and the dispatcher

    Models the arms of [handle_parsed_command] in
    crates/imap-server/src/imap.rs that work on the selected mailbox: SEARCH,
    SORT, THREAD, FETCH, STORE, COPY, MOVE, EXPUNGE, CLOSE, APPEND and the UID
    forms, and the match over the command name itself. *)

From stdpp Require Import base strings list.
From Stdlib Require Import ZArith Lia.
From S2P Require Import Prelude RustStr Metrics Domain Protocol SearchQuery Storage Schema RepoCore Security RepoAccounts RepoMailboxes RepoMessages Auth Mime Search Engine SearchEval Threads ImapText Ingest Mutations ImapSession ImapFetch.

Local Open Scope Z_scope.

(** [iter().map(to_string).join(sep)]. *)
Definition join_u (sep : str) (values : list Z) : str := join sep (map fmt_u values).
Definition join_i (sep : str) (values : list Z) : str := join sep (map fmt_i values).

Definition flags_fetch (sequence_number : Z) (flags : list str) : str :=
  lit "* " ++ fmt_u sequence_number ++ lit " FETCH (FLAGS (" ++ join (lit " ") flags ++ lit "))".

Definition expunge_line (sequence : Z) : str := lit "* " ++ fmt_u sequence ++ lit " EXPUNGE".

(** [enumerate()] from one, kept where [p] holds. *)
Fixpoint number_from {A} (n : Z) (l : list A) : list (Z * A) :=
  match l with [] => [] | x :: l' => (n, x) :: number_from (n + 1) l' end.
Definition numbered {A} (p : A -> bool) (l : list A) : list (Z * A) :=
  List.filter (fun '(_, x) => p x) (number_from 1 l).

(** [args.iter().rposition(p)]. *)
Definition rposition {A} (p : A -> bool) (l : list A) : option nat :=
  (fun i => (length l - 1 - i)%nat) <$> position p (rev l).

Section Commands.
Context {O U X L T : Type} `{ObjectStore O} `{UpstreamClient U} `{UpstreamConnector U}.
Context `{SearchBackend X} `{Authenticator T}.
Context `{Sha256} `{MimeParser} `{PgText} `{UuidText} `{Crypto} `{Texts} `{ChronoRange}.
Context `{MailHeaders}.
Variable services : AppServices.
Variable secrets : SecretBox.
Abbreviation Imap := (M Error (Server O U X L T)).

(** ** The guards of a command on the selected mailbox

    An account, a selected mailbox, a repository and the row of the mailbox, in
    this order, each with its own refusal. *)
Definition with_selected (name tag : str) (k : Z -> str -> Mailbox -> Imap (list str))
  : Imap (list str) :=
  do s <- get_session ;;
  unwrap account_id <- session_account s or ret (need_account name tag) ;;
  unwrap selected_mailbox <- selected_mailbox_name_ref s
    or ret (badstate tag (name ++ lit " requires a selected mailbox")) ;;
  if negb (has_repository services)
  then ret (badstate tag (name ++ lit " requires a database-backed repository"))
  else
    do found <- on_db (find_mailbox account_id selected_mailbox) ;;
    unwrap mailbox <- found
      or ret [no tag (lit "NONEXISTENT") (lit "selected mailbox not found")] ;;
    k account_id selected_mailbox mailbox.

Definition read_only_refusal (name tag : str) : list str :=
  [no tag (lit "READ-ONLY") (name ++ lit " is not permitted in a read-only mailbox")].

(** [if read_only { refuse } else { k }]. *)
Definition unless_read_only (name tag : str) (k : Imap (list str)) : Imap (list str) :=
  do s <- get_session ;;
  if is_read_only s then ret (read_only_refusal name tag) else k.

(** ** SEARCH, SORT, THREAD *)
Definition search_answer (tag : str) (results : list Z) (return_options : option SearchReturnOptions)
  : str :=
  match return_options with
  | Some options =>
      lit "* ESEARCH (TAG " ++ [34] ++ tag ++ [34] ++ lit ")" ++
      format_esearch_summary results options
  | None =>
      match results with
      | [] => lit "* SEARCH"
      | _ => lit "* SEARCH " ++ join_u (lit " ") results
      end
  end.

Definition run_search (account_id : option Z) (mailbox tag : str) (args : list str)
  (uid_results : bool) (completed : str) : Imap (list str) :=
  do request <- lift (parse_search_request args) ;;
  do results <- on_engine (execute_search services account_id mailbox (fst request) uid_results) ;;
  ret [search_answer tag results (snd request); ok tag completed].

Definition run_sort (account_id : option Z) (mailbox tag : str) (args : list str)
  (uid_results : bool) (usage completed : str) : Imap (list str) :=
  do request <- lift (parse_sort_request args) ;;
  unwrap r <- request or ret [bad tag usage] ;;
  let '(sort_keys, reverse, query) := r in
  do results <- on_engine (execute_sort services account_id mailbox query sort_keys reverse
                             uid_results) ;;
  ret [match results with
       | [] => lit "* SORT"
       | _ => lit "* SORT " ++ join_u (lit " ") results
       end; ok tag completed].

Definition run_thread (account_id : option Z) (mailbox tag : str) (args : list str)
  (uid_results : bool) (usage completed : str) : Imap (list str) :=
  do request <- lift (parse_thread_request args) ;;
  unwrap r <- request or ret [bad tag usage] ;;
  let '(algorithm, query) := r in
  do results <- on_engine (execute_thread services secrets account_id mailbox query algorithm
                             uid_results) ;;
  ret [match results with
       | [] => lit "* THREAD"
       | _ => lit "* THREAD " ++ join (lit " ") results
       end; ok tag completed].

(** [if let State::SelectedMailbox { mailbox, .. } = &self.state]. *)
Definition when_selected (name tag : str) (k : option Z -> str -> Imap (list str))
  : Imap (list str) :=
  do s <- get_session ;;
  unwrap mailbox <- selected_mailbox_name_ref s
    or ret (badstate tag (name ++ lit " requires a selected mailbox")) ;;
  k (session_account s) mailbox.

Definition cmd_search (tag : str) (args : list str) : Imap (list str) :=
  when_selected (lit "SEARCH") tag (fun account_id mailbox =>
    run_search account_id mailbox tag args false (lit "SEARCH completed")).

Definition cmd_sort (tag : str) (args : list str) : Imap (list str) :=
  when_selected (lit "SORT") tag (fun account_id mailbox =>
    run_sort account_id mailbox tag args false
      (lit "SORT requires sort criteria, charset, and search criteria") (lit "SORT completed")).

Definition cmd_thread (tag : str) (args : list str) : Imap (list str) :=
  when_selected (lit "THREAD") tag (fun account_id mailbox =>
    run_thread account_id mailbox tag args false
      (lit "THREAD requires a threading algorithm, charset, and search criteria")
      (lit "THREAD completed")).

(** ** FETCH *)
Definition cmd_fetch (tag : str) (args : list str) : Imap (list str) :=
  with_selected (lit "FETCH") tag (fun _ _ mailbox =>
    unwrap set <- head args or ret [bad tag (lit "FETCH requires a message set")] ;;
    let items := parse_fetch_items (drop 1 args) in
    do views <- on_engine (resolve_sequence_views (Mailbox_id mailbox) set) ;;
    ret (map (fun '(sequence, view) => format_fetch_response sequence view items) views ++
         [ok tag (lit "FETCH completed")])).

(** ** STORE *)
Definition queue_flags (account_id mailbox_id local_uid : Z) (flags : list str) : Imap unit :=
  if has_mutation_engine services
  then on_engine (queue_flag_update account_id mailbox_id None local_uid flags) ;;; ret tt
  else ret tt.

Definition store_row (account_id mailbox_id : Z) (mode : StoreMode) (silent : bool)
  (requested : list str) (out : list str) (target : Z * MailboxMessage) : Imap (list str) :=
  let '(sequence_number, message) := target in
  let updated_flags := apply_store_flags (MailboxMessage_flags message) mode requested in
  on_db (update_mailbox_message_flags mailbox_id (MailboxMessage_local_uid message)
           updated_flags) ;;;
  let out := if silent then out else out ++ [flags_fetch sequence_number updated_flags] in
  queue_flags account_id mailbox_id (MailboxMessage_local_uid message) updated_flags ;;;
  ret out.

Definition queued_or_completed (name : str) : str :=
  if has_mutation_engine services then name ++ lit " queued" else name ++ lit " completed".

Definition cmd_store (tag : str) (args : list str) : Imap (list str) :=
  with_selected (lit "STORE") tag (fun account_id _ mailbox =>
    unless_read_only (lit "STORE") tag (
      do request <- lift (parse_store_request args) ;;
      let '(sequence_set, mode, silent, requested) := request in
      do targets <- on_engine (resolve_sequence_targets (Mailbox_id mailbox) sequence_set) ;;
      do out <- fold_each targets []
                  (store_row account_id (Mailbox_id mailbox) mode silent requested) ;;
      on_db (refresh_mailbox_counts (Mailbox_id mailbox)) ;;;
      ret (out ++ [ok tag (queued_or_completed (lit "STORE"))]))).

(** ** EXPUNGE and CLOSE *)
Definition expunge_target (mailbox_id : Z) (out : list str) (target : Z * MailboxMessage)
  : Imap (list str) :=
  let '(sequence, message) := target in
  on_db (delete_mailbox_message mailbox_id (MailboxMessage_local_uid message)) ;;;
  ret (out ++ [expunge_line sequence]).

(** The targets from the last to the first, so that the numbers of the lines
    are those of the mailbox at that point. *)
Definition expunge_targets (mailbox_id : Z) (targets : list (Z * MailboxMessage))
  : Imap (list str) :=
  fold_each (rev (sort_by (fun a b => fst a <=? fst b) targets)) [] (expunge_target mailbox_id).

Definition is_deleted (message : MailboxMessage) : bool :=
  flags_contain_deleted (MailboxMessage_flags message).

Definition cmd_expunge (tag : str) (args : list str) : Imap (list str) :=
  with_selected (lit "EXPUNGE") tag (fun _ _ mailbox =>
    unless_read_only (lit "EXPUNGE") tag (
      do targets <-
        match head args with
        | Some set => on_engine (resolve_sequence_targets (Mailbox_id mailbox) set)
        | None =>
            do messages <- on_db (list_mailbox_messages (Mailbox_id mailbox)) ;;
            ret (numbered is_deleted messages)
        end ;;
      do out <- expunge_targets (Mailbox_id mailbox) targets ;;
      on_db (refresh_mailbox_counts (Mailbox_id mailbox)) ;;;
      ret (out ++ [ok tag (lit "EXPUNGE completed")]))).

Definition close_expunge (mailbox_id : Z) : Imap unit :=
  do messages <- on_db (list_mailbox_messages mailbox_id) ;;
  for_each (List.filter is_deleted messages) (fun message =>
    on_db (delete_mailbox_message mailbox_id (MailboxMessage_local_uid message)) ;;; ret tt) ;;;
  on_db (refresh_mailbox_counts mailbox_id).

Definition cmd_close (tag : str) : Imap (list str) :=
  do s <- get_session ;;
  unwrap _mailbox <- selected_mailbox_name_ref s
    or ret (badstate tag (lit "CLOSE requires a selected mailbox")) ;;
  (if negb (is_read_only s) && has_repository services then
     match selected_mailbox_snapshot s with
     | Some snapshot =>
         if 0 <? snapshot_mailbox_id snapshot
         then close_expunge (snapshot_mailbox_id snapshot) else ret tt
     | None => ret tt
     end
   else ret tt) ;;;
  deselect ;;;
  ret [ok tag (lit "CLOSE completed")].

(** ** COPY and MOVE *)

(** One message: the copy and its queued mutation; the pair of UIDs is added to
    [copied]. *)
Definition copy_one (move : bool) (account_id : Z) (source destination : Mailbox)
  (copied : list (Z * Z)) (message : MailboxMessage) : Imap (list (Z * Z)) :=
  let local_uid := MailboxMessage_local_uid message in
  do copied_message <- on_db (copy_mailbox_message (Mailbox_id source) (Mailbox_id destination)
                                local_uid) ;;
  match copied_message with
  | None => ret copied
  | Some copied_message =>
      let dest_uid := MailboxMessage_local_uid copied_message in
      (if has_mutation_engine services then
         on_engine ((if move : bool then queue_move_message else queue_copy_message) account_id
           (Mailbox_id source) (Mailbox_id destination) (Mailbox_name source)
           (Mailbox_name destination) local_uid dest_uid (MailboxMessage_flags message)) ;;;
         ret tt
       else ret tt) ;;;
      ret (copied ++ [(local_uid, dest_uid)])
  end.

Definition copyuid_line (tag name : str) (destination : Mailbox) (copied : list (Z * Z)) : str :=
  match copied with
  | [] => ok tag (name ++ lit " completed")
  | _ =>
      tag ++ lit " OK [COPYUID " ++ fmt_i (default 1 (Mailbox_uidvalidity destination)) ++
      lit " " ++ join_i (lit ",") (map fst copied) ++ lit " " ++
      join_i (lit ",") (map snd copied) ++ lit "] " ++ name ++ lit " completed"
  end.

Definition move_source (move : bool) (mailbox_id : Z) (message : MailboxMessage) : Imap unit :=
  if move then
    on_db (delete_mailbox_message mailbox_id (MailboxMessage_local_uid message)) ;;; ret tt
  else ret tt.

(** The loop of COPY and MOVE; MOVE tells each message expunged as it goes. *)
Definition copy_row (move : bool) (account_id : Z) (source destination : Mailbox)
  (acc : list str * list (Z * Z)) (target : Z * MailboxMessage) : Imap (list str * list (Z * Z)) :=
  let '(out, copied) := acc in
  let '(sequence, message) := target in
  do copied <- copy_one move account_id source destination copied message ;;
  move_source move (Mailbox_id source) message ;;;
  ret (if move then out ++ [expunge_line sequence] else out, copied).

Definition cmd_copy (move : bool) (name tag : str) (args : list str) : Imap (list str) :=
  with_selected name tag (fun account_id _ source =>
    unwrap set <- head args or ret [bad tag (name ++ lit " requires a message set")] ;;
    unwrap destination_name <- args !! 1%nat
      or ret [bad tag (name ++ lit " requires a destination mailbox")] ;;
    do found <- on_db (find_mailbox account_id destination_name) ;;
    unwrap destination <- found
      or ret [no tag (lit "NONEXISTENT") (lit "destination mailbox not found")] ;;
    do s <- get_session ;;
    if move && is_read_only s then ret (read_only_refusal (lit "MOVE") tag)
    else
      do targets <- on_engine (resolve_sequence_targets (Mailbox_id source) set) ;;
      do acc <- fold_each targets ([], []) (copy_row move account_id source destination) ;;
      on_db (refresh_mailbox_counts (Mailbox_id source)) ;;;
      on_db (refresh_mailbox_counts (Mailbox_id destination)) ;;;
      ret (fst acc ++ [copyuid_line tag name destination (snd acc)])).

(** ** APPEND *)
Definition append_error_text (err : Error) : str := Error_to_string foreign_error err.

Definition cmd_append (tag : str) (args : list str) (literal : option bytes)
  : Imap (list str) :=
  do s <- get_session ;;
  unwrap account_id <- session_account s or ret (need_account (lit "APPEND") tag) ;;
  if negb (has_repository services)
  then ret (badstate tag (lit "APPEND requires a database-backed repository"))
  else
    unwrap mailbox_name <- head args or ret [bad tag (lit "APPEND requires a mailbox")] ;;
    do found <- on_db (find_mailbox account_id mailbox_name) ;;
    unwrap mailbox <- found
      or ret [no tag (lit "NONEXISTENT") (lit "selected mailbox not found")] ;;
    let body_index :=
      default (length args - 1)%nat (rposition (fun value => starts_with (lit "{") value) args) in
    match parse_append_metadata args body_index with
    | Err err => ret [bad tag (append_error_text err)]
    | Panic => panic
    | Ok (flags, internal_date) =>
        let run raw :=
          do ingested <- on_engine (ingest_raw_message (has_search_backend services) account_id
                           (Mailbox_id mailbox) mailbox_name 0 None internal_date raw flags) ;;
          on_db (refresh_mailbox_counts (Mailbox_id mailbox)) ;;;
          (if has_mutation_engine services then
             on_engine (queue_append account_id (Mailbox_id mailbox) mailbox_name
               (Some (IngestedMessage_local_uid ingested)) raw flags internal_date) ;;;
             ret tt
           else ret tt) ;;;
          ret [tag ++ lit " OK [APPENDUID " ++ fmt_i (default 1 (Mailbox_uidvalidity mailbox)) ++
               lit " " ++ fmt_i (IngestedMessage_local_uid ingested) ++ lit "] " ++
               queued_or_completed (lit "APPEND")] in
        match literal with
        | Some raw => run raw
        | None =>
            if Nat.ltb 0 body_index then run (default [] (as_bytes <$> args !! body_index))
            else ret [bad tag (lit "APPEND requires a literal")]
        end
    end.

(** ** UID *)
Definition uid_fetch (tag : str) (args : list str) (mailbox : Mailbox) : Imap (list str) :=
  unwrap set <- args !! 1%nat or ret [bad tag (lit "UID FETCH requires a UID set")] ;;
  let items := parse_fetch_items (drop 2 args) in
  do views <- on_engine (resolve_uid_views (Mailbox_id mailbox) set) ;;
  ret (map (fun view => format_fetch_response (MailboxMessageView_local_uid view) view items)
         views ++ [ok tag (lit "UID FETCH completed")]).

Definition uid_copy_row (move : bool) (account_id : Z) (source destination : Mailbox)
  (copied : list (Z * Z)) (message : MailboxMessage) : Imap (list (Z * Z)) :=
  do copied <- copy_one move account_id source destination copied message ;;
  move_source move (Mailbox_id source) message ;;;
  ret copied.

Definition uid_copy (move : bool) (subcommand tag : str) (args : list str) (account_id : Z)
  (source : Mailbox) : Imap (list str) :=
  let name := lit "UID " ++ subcommand in
  do s <- get_session ;;
  if move && is_read_only s then ret (read_only_refusal (lit "MOVE") tag)
  else
    unwrap set <- args !! 1%nat or ret [bad tag (name ++ lit " requires a UID set")] ;;
    unwrap destination_name <- args !! 2%nat
      or ret [bad tag (name ++ lit " requires a destination mailbox")] ;;
    do found <- on_db (find_mailbox account_id destination_name) ;;
    unwrap destination <- found
      or ret [no tag (lit "NONEXISTENT") (lit "destination mailbox not found")] ;;
    do targets <- on_engine (resolve_uid_targets (Mailbox_id source) set) ;;
    do copied <- fold_each targets [] (uid_copy_row move account_id source destination) ;;
    on_db (refresh_mailbox_counts (Mailbox_id source)) ;;;
    on_db (refresh_mailbox_counts (Mailbox_id destination)) ;;;
    ret [copyuid_line tag name destination copied].

Definition uid_expunge (tag : str) (args : list str) (mailbox : Mailbox) : Imap (list str) :=
  unless_read_only (lit "UID EXPUNGE") tag (
    unwrap uid_set <- args !! 1%nat or ret [bad tag (lit "UID EXPUNGE requires a UID set")] ;;
    do messages <- on_db (list_mailbox_messages (Mailbox_id mailbox)) ;;
    let uids := parse_number_set uid_set (max_uid (map MailboxMessage_local_uid messages)) in
    let targets := numbered (fun message =>
      memZ (MailboxMessage_local_uid message) uids && is_deleted message) messages in
    do out <- expunge_targets (Mailbox_id mailbox) targets ;;
    on_db (refresh_mailbox_counts (Mailbox_id mailbox)) ;;;
    ret (out ++ [ok tag (lit "UID EXPUNGE completed")])).

Definition uid_store_row (mailbox_id : Z) (mode : StoreMode) (silent : bool)
  (requested : list str) (out : list str) (message : MailboxMessage) : Imap (list str) :=
  let local_uid := MailboxMessage_local_uid message in
  let updated_flags := apply_store_flags (MailboxMessage_flags message) mode requested in
  on_db (update_mailbox_message_flags mailbox_id local_uid updated_flags) ;;;
  if silent then ret out
  else
    do sequence_number <- on_engine (sequence_number_for_local_uid mailbox_id local_uid) ;;
    ret (match sequence_number with
         | Some sequence_number => out ++ [flags_fetch sequence_number updated_flags]
         | None => out
         end).

Definition uid_store (tag : str) (args : list str) (account_id : Z) (mailbox : Mailbox)
  : Imap (list str) :=
  unless_read_only (lit "UID STORE") tag (
    do request <- lift (parse_store_request (drop 1 args)) ;;
    let '(uid_set, mode, silent, requested) := request in
    do targets <- on_engine (resolve_uid_targets (Mailbox_id mailbox) uid_set) ;;
    do out <- fold_each targets [] (uid_store_row (Mailbox_id mailbox) mode silent requested) ;;
    on_db (refresh_mailbox_counts (Mailbox_id mailbox)) ;;;
    for_each targets (fun message =>
      queue_flags account_id (Mailbox_id mailbox) (MailboxMessage_local_uid message)
        (apply_store_flags (MailboxMessage_flags message) mode requested)) ;;;
    ret (out ++ [ok tag (queued_or_completed (lit "UID STORE"))])).

Definition cmd_uid (tag : str) (args : list str) : Imap (list str) :=
  match args with
  | [] => ret [bad tag (lit "UID requires a subcommand")]
  | sub :: rest =>
      let subcommand := to_ascii_uppercase sub in
      with_selected (lit "UID") tag (fun account_id selected_mailbox mailbox =>
        match match_str subcommand
          [(lit "FETCH", uid_fetch tag args mailbox);
           (lit "SEARCH",
             run_search (Some account_id) selected_mailbox tag rest true
               (lit "UID SEARCH completed"));
           (lit "SORT",
             run_sort (Some account_id) selected_mailbox tag rest true
               (lit "UID SORT requires sort criteria, charset, and search criteria")
               (lit "UID SORT completed"));
           (lit "THREAD",
             run_thread (Some account_id) selected_mailbox tag rest true
               (lit "UID THREAD requires a threading algorithm, charset, and search criteria")
               (lit "UID THREAD completed"));
           (lit "COPY", uid_copy false subcommand tag args account_id mailbox);
           (lit "MOVE", uid_copy true subcommand tag args account_id mailbox);
           (lit "EXPUNGE", uid_expunge tag args mailbox);
           (lit "STORE", uid_store tag args account_id mailbox)] with
        | Some run => run
        | None =>
            ret [no tag (lit "UNIMPLEMENTED")
                   (lit "UID " ++ subcommand ++ lit " is not yet implemented")]
        end)
  end.

(** ** The dispatcher *)
Definition command_arms (tag : str) (name : str) (args : list str) (literal : option bytes)
  : list (str * Imap (list str)) :=
  [(lit "CAPABILITY", cmd_capability tag);
   (lit "NOOP", ret [ok tag (lit "NOOP completed")]);
   (lit "LOGOUT", cmd_logout tag);
   (lit "LOGIN", cmd_login services tag args);
   (lit "STARTTLS", cmd_starttls tag);
   (lit "SELECT", cmd_select services false tag args);
   (lit "EXAMINE", cmd_select services true tag args);
   (lit "LIST", cmd_list services name tag args);
   (lit "LSUB", cmd_list services name tag args);
   (lit "STATUS", cmd_status services tag args);
   (lit "SEARCH", cmd_search tag args);
   (lit "SORT", cmd_sort tag args);
   (lit "THREAD", cmd_thread tag args);
   (lit "FETCH", cmd_fetch tag args);
   (lit "STORE", cmd_store tag args);
   (lit "UID", cmd_uid tag args);
   (lit "APPEND", cmd_append tag args literal);
   (lit "IDLE", cmd_idle tag);
   (lit "CHECK", cmd_check tag);
   (lit "UNSELECT", cmd_unselect tag);
   (lit "CLOSE", cmd_close tag);
   (lit "EXPUNGE", cmd_expunge tag args);
   (lit "CREATE", cmd_create services tag args);
   (lit "DELETE", cmd_delete services tag args);
   (lit "RENAME", cmd_rename services tag args);
   (lit "SUBSCRIBE", cmd_subscribe services true name tag args);
   (lit "UNSUBSCRIBE", cmd_subscribe services false name tag args);
   (lit "COPY", cmd_copy false name tag args);
   (lit "MOVE", cmd_copy true name tag args);
   (lit "NAMESPACE", cmd_namespace tag);
   (lit "ID", cmd_id tag);
   (lit "ENABLE", cmd_enable tag args);
   (lit "CONDSTORE", cmd_condstore tag)].

Definition handle_parsed_command (command : ParsedCommand) (literal : option bytes)
  : Imap (list str) :=
  let tag := ParsedCommand_tag command in
  let name := to_ascii_uppercase (ParsedCommand_name command) in
  on_both_metrics (record_command name) ;;;
  match match_str name (command_arms tag name (ParsedCommand_args command) literal) with
  | Some run => run
  | None => ret [no tag (lit "UNIMPLEMENTED") (name ++ lit " is not yet implemented")]
  end.

Definition handle (line : str) : Imap (list str) :=
  do command <- lift (parse_command line) ;;
  match command with
  | None => ret []
  | Some command => handle_parsed_command command None
  end.
End Commands.
