(* ===== verification/ImapServer.v ===== *)
(** * Connections

    Models [handle_connection] of crates/imap-server/src/imap.rs: reading
    command lines and literals, STARTTLS, AUTHENTICATE, IDLE and the mapping of
    errors to responses.  A connection is a transition system: one turn of the
    main loop ([serve_command]) or one wake-up of IDLE per step, with the events
    of the hub, the idle timeout and the other users of the database as steps of
    the environment.  The bytes TLS makes of the rest of the input, and how long
    a command takes, are parameters. *)

From stdpp Require Import base strings list relations.
From Stdlib Require Import ZArith Lia.
From S2P Require Import Prelude RustStr Metrics Domain Protocol SearchQuery Storage Notifications Schema RepoCore Security RepoAccounts RepoMailboxes RepoMessages Auth Mime Search Engine SearchEval Threads ImapText Ingest Mutations ImapSession ImapFetch ImapCommands.

Local Open Scope Z_scope.

(** What the TLS acceptor makes of the bytes after STARTTLS: the decrypted
    stream, or the text of the handshake's error. *)
Class TlsAcceptor : Type := { tls_accept : bytes -> bytes + str }.

(** How a turn of the main loop ends. *)
Inductive Turn : Type :=
| Continue
| StartIdle (tag : str)
| Break.

Section Connection.
Context {O U X L T : Type} `{ObjectStore O} `{UpstreamClient U} `{UpstreamConnector U}.
Context `{SearchBackend X} `{Authenticator T}.
Context `{Sha256} `{MimeParser} `{PgText} `{UuidText} `{Crypto} `{Texts} `{ChronoRange}.
Context `{MailHeaders} `{Base64} `{TlsAcceptor}.
Variable services : AppServices.
Variable secrets : SecretBox.
(** [starttls_acceptor.is_some()], and the nanoseconds a command takes. *)
Variable has_acceptor : bool.
Variable elapsed : Z.
Abbreviation Imap := (M Error (Server O U X L T)).

(** ** Reading *)
Definition set_input (input : bytes) : Imap unit :=
  modify (fun sv => mkServer (sv_session sv) (sv_engine sv) (sv_auth sv) input (sv_wire sv)).

(** A line up to and including its line feed; [None] at the end of the input. *)
Definition read_line : Imap (option str) :=
  do input <- gets sv_input ;;
  match input with
  | [] => ret None
  | _ =>
      let '(line, rest) :=
        match split_once 10 input with
        | Some (line, rest) => (line ++ [10], rest)
        | None => (input, [])
        end in
      set_input rest ;;;
      match from_utf8 line with
      | Some line => ret (Some line)
      | None => fail (EIo (lit "stream did not contain valid UTF-8"))
      end
  end.

(** [vec![0u8; n]] and [read_exact]: the allocation panics above [isize::MAX]. *)
Definition read_exact (n : Z) : Imap bytes :=
  if i64_max <? n then panic
  else
    do input <- gets sv_input ;;
    if len input <? n then set_input [] ;;; fail (EIo (lit "early eof"))
    else
      set_input (drop (Z.to_nat n) input) ;;;
      ret (take (Z.to_nat n) input).

Definition write_line (line : str) : Imap unit := write_all (as_bytes line ++ crlf).

Definition read_command_with_literal (line : str)
  : Imap (option (ParsedCommand * option bytes)) :=
  do command <- lift (parse_command line) ;;
  unwrap command <- command or ret None ;;
  do literal <-
    match last (ParsedCommand_args command) ≫= parse_literal_marker with
    | Some (length, non_sync) =>
        (if non_sync : bool then ret tt else write_line (lit "+ Ready for literal data")) ;;;
        do b <- read_exact length ;;
        ret (Some b)
    | None => ret None
    end ;;
  ret (Some (command, literal)).

(** ** Metrics of a command *)
Definition record_command_observation (command_name : str) (errored : bool) : Imap unit :=
  on_both_metrics (record_command_duration command_name elapsed) ;;;
  if errored then on_both_metrics (record_command_error command_name) else ret tt.

(** ** STARTTLS *)
Definition serve_starttls (command_name tag : str) : Imap Turn :=
  do s <- get_session ;;
  (if has_acceptor then
     if negb (tls_active s) && starttls_available s &&
        match state s with NotAuthenticated => true | _ => false end then
       write_line (tag ++ lit " OK Begin TLS negotiation now") ;;;
       do rest <- gets sv_input ;;
       match tls_accept rest with
       | inr err => fail (EStorage (lit "STARTTLS handshake failed: " ++ err))
       | inl decrypted =>
           set_input decrypted ;;;
           update_session (fun s => set_starttls_available false (set_tls_active true s)) ;;;
           record_command_observation command_name false
       end
     else
       write_line (tag ++ lit " NO [BADSTATE] STARTTLS is not available") ;;;
       record_command_observation command_name true
   else
     write_line (tag ++ lit " NO [UNIMPLEMENTED] STARTTLS is not enabled") ;;;
     record_command_observation command_name true) ;;;
  ret Continue.

(** ** AUTHENTICATE *)
Definition trim_line_end (line : str) : str := trim_end_by (fun c => (c =? 13) || (c =? 10)) line.

(** The SASL response: the initial one, or a line read after a prompt; [None]
    when the client cancels. *)
Definition read_auth_blob (args : list str) : Imap (option bytes) :=
  match args !! 1%nat with
  | Some initial_response =>
      if str_eqb initial_response (lit "=") then ret (Some [])
      else do b <- lift (decode_sasl_response initial_response) ;; ret (Some b)
  | None =>
      write_line (lit "+ ") ;;;
      do line <- read_line ;;
      unwrap line <- line or ret None ;;
      let response := trim_line_end line in
      if str_eqb response (lit "*") then ret None
      else do b <- lift (decode_sasl_response response) ;; ret (Some b)
  end.

Definition authenticate_with_blob (tag mechanism_upper : str) (auth_blob : bytes) : Imap unit :=
  do credentials <- lift (if str_eqb mechanism_upper (lit "XOAUTH2")
                          then parse_sasl_xoauth2_auth auth_blob
                          else parse_sasl_plain_auth auth_blob) ;;
  do ctx <- on_auth (authenticate (fst credentials) (snd credentials)) ;;
  match ctx with
  | Some ctx =>
      activate_authenticated_session services ctx ;;;
      write_line (tag ++ lit " OK AUTHENTICATE completed")
  | None => write_line (tag ++ lit " NO [AUTHENTICATIONFAILED] invalid credentials")
  end.

Definition handle_authenticate_command (command : ParsedCommand) : Imap unit :=
  let tag := ParsedCommand_tag command in
  let args := ParsedCommand_args command in
  on_both_metrics (record_command (to_ascii_uppercase (ParsedCommand_name command))) ;;;
  do s <- get_session ;;
  match state s with
  | NotAuthenticated =>
      match args with
      | [] => write_line (tag ++ lit " BAD AUTHENTICATE requires a mechanism")
      | mechanism :: _ =>
          let mechanism_upper := to_ascii_uppercase mechanism in
          if negb (str_eqb mechanism_upper (lit "PLAIN")) &&
             negb (str_eqb mechanism_upper (lit "XOAUTH2"))
          then write_line (tag ++ lit " NO [UNIMPLEMENTED] AUTHENTICATE " ++ mechanism ++
                           lit " is not yet implemented")
          else if Nat.ltb 2 (length args)
          then write_line (tag ++ lit " BAD AUTHENTICATE accepts at most one initial response")
          else
            do auth_blob <- read_auth_blob args ;;
            match auth_blob with
            | None => write_line (tag ++ lit " BAD AUTHENTICATE canceled")
            | Some auth_blob => authenticate_with_blob tag mechanism_upper auth_blob
            end
      end
  | _ => write_line (tag ++ lit " NO [BADSTATE] AUTHENTICATE requires a not-authenticated session")
  end.

Definition serve_authenticate (command_name : str) (command : ParsedCommand) : Imap Turn :=
  handle_authenticate_command command ;;;
  do s <- get_session ;;
  record_command_observation command_name (negb (in_authenticated_state s)) ;;;
  ret (match state s with Logout => Break | _ => Continue end).

(** ** All other commands *)

(** The [match] on the outcome of the handler: parse and command errors are
    answered, any other error ends the connection. *)
Definition answer_errors (tag : str) (result : list str + Error) : Imap (list str) :=
  match result with
  | inl responses => ret responses
  | inr (EParse message) => ret [tag ++ lit " BAD " ++ message]
  | inr (EImapCommand message) =>
      ret (match strip_prefix (lit "BADCHARSET ") message with
           | Some rest => [tag ++ lit " NO [BADCHARSET] " ++ rest]
           | None => [tag ++ lit " BAD " ++ message]
           end)
  | inr err => fail err
  end.

Definition is_errored (tag : str) (responses : list str) : bool :=
  existsb (fun response => starts_with (tag ++ lit " ") response &&
             (str_contains response (lit " NO ") || str_contains response (lit " BAD ")))
    responses.

Definition serve_plain (command_name : str) (command : ParsedCommand) (literal : option bytes)
  : Imap Turn :=
  let tag := ParsedCommand_tag command in
  do result <- try (handle_parsed_command services secrets command literal) ;;
  do responses <- answer_errors tag result ;;
  for_each responses write_line ;;;
  record_command_observation command_name (is_errored tag responses) ;;;
  do s <- get_session ;;
  ret (match state s with Logout => Break | _ => Continue end).

(** FETCH and UID first try the literal form. *)
Definition serve_fetch (command_name : str) (command : ParsedCommand) (literal : option bytes)
  : Imap Turn :=
  do raw <- write_raw_fetch_response services secrets command ;;
  if raw then
    on_both_metrics (record_command command_name) ;;;
    write_line (ParsedCommand_tag command ++ lit " OK FETCH completed") ;;;
    record_command_observation command_name false ;;;
    ret Continue
  else serve_plain command_name command literal.

(** One turn of the main loop. *)
Definition serve_command : Imap Turn :=
  do line <- read_line ;;
  unwrap line <- line or ret Break ;;
  do parsed <- read_command_with_literal line ;;
  unwrap parsed <- parsed or ret Continue ;;
  let '(command, literal) := parsed in
  let command_name := to_ascii_uppercase (ParsedCommand_name command) in
  let tag := ParsedCommand_tag command in
  if str_eqb command_name (lit "STARTTLS") then serve_starttls command_name tag
  else if str_eqb command_name (lit "AUTHENTICATE") then serve_authenticate command_name command
  else if str_eqb command_name (lit "IDLE") then
    on_both_metrics (record_command command_name) ;;;
    write_line (lit "+ idling") ;;;
    ret (StartIdle tag)
  else if str_eqb command_name (lit "FETCH") || str_eqb command_name (lit "UID")
  then serve_fetch command_name command literal
  else serve_plain command_name command literal.

(** ** IDLE *)
Definition refresh_snapshot (snapshot : SelectedMailboxSnapshot) (exists_count : Z) : Imap unit :=
  update_session (set_selected_mailbox_snapshot
    (Some (mkSelectedMailboxSnapshot (snapshot_account_id snapshot)
             (snapshot_mailbox_id snapshot) exists_count))).

Definition count_messages (mailbox_id : Z) : Imap Z :=
  do messages <- on_db (list_mailbox_messages mailbox_id) ;;
  ret (Z.of_nat (length messages)).

(** The two tests on the kind of event, tried in order before the counts are
    compared. *)
Definition expunge_notice (snapshot : SelectedMailboxSnapshot) (event : MutationEvent)
  : Imap (option str) :=
  if str_contains (MutationEvent_detail event) (lit "delete_mailbox_message") then
    match MutationEvent_sequence_number event with
    | Some sequence_number =>
        do exists_count <- count_messages (snapshot_mailbox_id snapshot) ;;
        refresh_snapshot snapshot exists_count ;;;
        ret (Some (lit "* " ++ fmt_i sequence_number ++ lit " EXPUNGE"))
    | None => ret None
    end
  else ret None.

Definition flags_notice (snapshot : SelectedMailboxSnapshot) (event : MutationEvent)
  : Imap (option str) :=
  let detail := MutationEvent_detail event in
  if str_contains detail (lit "update_mailbox_message_flags")
     || str_contains detail (lit "store_flags") then
    match MutationEvent_local_uid event with
    | Some local_uid =>
        do sequence_number <-
          on_engine (sequence_number_for_local_uid (snapshot_mailbox_id snapshot) local_uid) ;;
        match sequence_number with
        | Some sequence_number =>
            do exists_count <- count_messages (snapshot_mailbox_id snapshot) ;;
            refresh_snapshot snapshot exists_count ;;;
            ret (Some (lit "* " ++ fmt_i sequence_number ++ lit " FETCH (FLAGS (" ++
                       join (lit " ") (MutationEvent_flags event) ++ lit "))"))
        | None => ret None
        end
    | None => ret None
    end
  else ret None.

Definition count_notice (snapshot : SelectedMailboxSnapshot) : Imap (option str) :=
  do exists_count <- count_messages (snapshot_mailbox_id snapshot) ;;
  let previous_exists := snapshot_exists_count snapshot in
  if previous_exists <? exists_count then
    refresh_snapshot snapshot exists_count ;;;
    ret (Some (lit "* " ++ fmt_i exists_count ++ lit " EXISTS"))
  else if exists_count <? previous_exists then
    refresh_snapshot snapshot exists_count ;;;
    ret (Some (lit "* " ++ fmt_i (previous_exists - exists_count) ++ lit " EXPUNGE"))
  else ret None.

Definition concerns (snapshot : SelectedMailboxSnapshot) (event : MutationEvent) : bool :=
  bool_decide (MutationEvent_account_id event = Some (snapshot_account_id snapshot)) &&
  bool_decide (MutationEvent_mailbox_id event = Some (snapshot_mailbox_id snapshot)).

Definition idle_notification_for_event (event : MutationEvent) : Imap (option str) :=
  do s <- get_session ;;
  match selected_mailbox_snapshot s with
  | None => ret None
  | Some snapshot =>
      if negb (concerns snapshot event) || negb (has_repository services) then ret None
      else
        do notice <- expunge_notice snapshot event ;;
        match notice with
        | Some line => ret (Some line)
        | None =>
            do notice <- flags_notice snapshot event ;;
            match notice with
            | Some line => ret (Some line)
            | None => count_notice snapshot
            end
        end
  end.

(** The three arms of the [select!]: whether the loop goes on. *)
Definition idle_on_line (tag : str) : Imap bool :=
  do line <- read_line ;;
  match line with
  | None => ret false
  | Some line =>
      if eq_ignore_ascii_case (trim_line_end line) (lit "DONE")
      then write_line (tag ++ lit " OK IDLE terminated") ;;; ret false
      else ret true
  end.

Definition idle_on_timeout : Imap bool :=
  write_line (lit "* BYE IDLE timeout") ;;; ret false.

Definition idle_on_event (event : MutationEvent) : Imap bool :=
  do response <- idle_notification_for_event event ;;
  match response with
  | Some response => write_line response ;;; ret true
  | None => ret true
  end.

(** What the [select!] of IDLE wakes up with; a lagging receiver goes on and a
    closed hub ends the loop. *)
Inductive Wake : Type :=
| WakeLine
| WakeTimeout
| WakeEvent (event : MutationEvent)
| WakeLagged
| WakeClosed.

Definition idle_on_wake (tag : str) (wake : Wake) : Imap bool :=
  match wake with
  | WakeLine => idle_on_line tag
  | WakeTimeout => idle_on_timeout
  | WakeEvent event => idle_on_event event
  | WakeLagged => ret true
  | WakeClosed => ret false
  end.

(** After the loop the observation is recorded and the connection goes on. *)
Definition idle_turn (tag : str) (wake : Wake) : Imap Turn :=
  do more <- idle_on_wake tag wake ;;
  if more then ret (StartIdle tag)
  else record_command_observation (lit "IDLE") false ;;; ret Continue.

(** ** The life of a connection *)
Inductive Phase : Type :=
| Running
| Idling (tag : str)
| Finished (result : Result unit).

Definition greeting : str := lit "* OK IMAP cache proxy ready".

(** [ConnectionGuard], the session and the greeting. *)
Definition open_connection (uuid : str) (peer_addr : option str) (tls : bool) (e : Engine O U X L)
  (auth : T) (input : bytes) : Server O U X L T :=
  let session :=
    set_tls_active tls (set_starttls_available has_acceptor
      (set_connection_context uuid peer_addr (ImapSession_new uuid))) in
  let e := mkEngine (e_world e) (e_store e) (e_upstream e) (e_search e) (e_lock e)
             (inc_active_connections (e_metrics e)) in
  mkServer session e auth input (as_bytes greeting ++ crlf).

(** What follows the loop, whatever its result; a panic only drops the guard. *)
Definition close_session : Imap unit :=
  record_disconnected services ;;;
  do s <- get_session ;;
  if auth_counted s then on_both_metrics dec_authenticated_sessions else ret tt.

Definition drop_guard : Imap unit := on_engine (on_metrics dec_active_connections).

(** The next phase after a turn that ended with [r] in the state [sv]. *)
Definition after_turn (sv : Server O U X L T) (r : Result Turn) : Phase * Server O U X L T :=
  match r with
  | Ok Continue => (Running, sv)
  | Ok (StartIdle tag) => (Idling tag, sv)
  | Ok Break => (Finished (Ok tt), fst (drop_guard (fst (close_session sv))))
  | Err err => (Finished (Err err), fst (drop_guard (fst (close_session sv))))
  | Panic => (Finished Panic, fst (drop_guard sv))
  end.

Definition turn (m : Imap Turn) (sv : Server O U X L T) : Phase * Server O U X L T :=
  let '(sv', r) := m sv in after_turn sv' r.

Inductive conn_step : Phase * Server O U X L T -> Phase * Server O U X L T -> Prop :=
| step_serve sv : conn_step (Running, sv) (turn serve_command sv)
| step_idle tag wake sv : conn_step (Idling tag, sv) (turn (idle_turn tag wake) sv).

(** Running the main loop on a script of wake-ups for IDLE; [None] is running
    out of [fuel] or of wake-ups. *)
Fixpoint run_connection (fuel : nat) (wakes : list Wake) (c : Phase * Server O U X L T)
  : option (Result unit * Server O U X L T) :=
  match fuel with
  | 0%nat => None
  | S fuel' =>
      match c with
      | (Finished r, sv) => Some (r, sv)
      | (Running, sv) => run_connection fuel' wakes (turn serve_command sv)
      | (Idling tag, sv) =>
          match wakes with
          | [] => None
          | wake :: wakes' => run_connection fuel' wakes' (turn (idle_turn tag wake) sv)
          end
      end
  end.
End Connection.
