(* ===== verification/ImapScenario.v ===== *)
(** * A concrete server, for witnesses and examples

    The services of [Scenario]'s database: the PostgreSQL authenticator with
    the in-memory throttle, an in-memory object store that holds the three
    messages, an upstream without mail and an empty index.  [talk] is the
    transcript of a connection. *)

From stdpp Require Import base strings list gmap.
From Stdlib Require Import ZArith Lia.
From S2P Require Import Prelude RustStr Metrics Domain Protocol SearchQuery Storage Notifications Schema RepoCore Security RepoAccounts RepoMailboxes RepoMessages Auth Mime Search Scenario Engine SearchEval Threads ImapText Ingest Mutations ImapSession ImapFetch ImapCommands ImapServer.

Local Open Scope Z_scope.

(** A message with two header fields and a body. *)
Definition raw_head : bytes :=
  lit "From: a" ++ crlf ++ lit "Subject: s" ++ crlf ++ crlf ++ lit "body ".
Definition raw (n : Z) : bytes := raw_head ++ fmt_u n.

(** An injective "hash" that maps [raw n] to the text of [n]. *)
#[export] Instance sha : Sha256 := { sha256_hex := fun b => default b (strip_prefix raw_head b) }.
#[export] Instance mime : MimeParser := {
  parse_message := fun raw => Ok (mkParsedMessage raw (Z.of_nat (length raw)) None None Null Null
    Null Null Null Null Null None [])
}.
#[export] Instance index : SearchBackend unit :=
  { index_message := fun _ _ => ret tt; backend_search := fun _ _ => ret [] }.
#[export] Instance upstream : UpstreamClient unit := {
  upstream_select := fun _ => ret tt;
  upstream_select_mailbox :=
    fun _ => ret (mkSelectedMailboxInfo [] None None None None None None false);
  upstream_list_mailboxes := ret [];
  uid_search_all := ret [];
  uid_fetch_flags := fun _ => ret [];
  uid_fetch_rfc822 := fun uid => ret (fmt_i uid);
  append_with_internal_date := fun _ _ _ _ => ret None;
  uid_store_flags := fun _ _ => ret tt;
  uid_copy_message := fun _ _ => ret 1;
  expunge_selected := ret tt
}.
#[export] Instance connector : UpstreamConnector unit := { upstream_open := fun _ _ => ret tt }.
(** Compact JSON, without the escapes. *)
Fixpoint json_text (v : Value) : str :=
  match v with
  | Null => lit "null"
  | Bool b => if b then lit "true" else lit "false"
  | Number n => fmt_i n
  | VString s => [34] ++ s ++ [34]
  | Array vs => lit "[" ++ join (lit ",") (map json_text vs) ++ lit "]"
  | Object fields =>
      lit "{" ++ join (lit ",")
        (map (fun '(k, v) => [34] ++ k ++ [34] ++ lit ":" ++ json_text v) fields) ++ lit "}"
  end.
#[export] Instance texts : Texts := {
  json_to_string := json_text; to_rfc3339 := fmt_i; parse_rfc3339 := fun _ => inl 0;
  debug_str := fun s => s; foreign_error := fun _ => []
}.
#[export] Instance chrono : Chrono := {
  parse_naive_date := parse_u64; date_naive := fun t => t / 86400000000;
  format_date_time := fmt_i; parse_date_time := fun _ => inl 0
}.
#[export] Instance chrono_range : ChronoRange := { timestamp_range := fun _ => true }.
#[export] Instance headers : MailHeaders := { first_header_value := fun _ => inl (fun _ => None) }.
#[export] Instance base64 : Base64 := { base64_decode := inl; sasl_utf8_error := fun _ => [] }.
#[export] Instance tls : TlsAcceptor := { tls_accept := inl }.

Definition services : AppServices := mkAppServices true true true.

Definition crlf_lines (lines : list string) : bytes :=
  flat_map (fun line => lit line ++ crlf) lines.

Definition store : MemoryObjectStore :=
  mkMemoryObjectStore (<[blob 1 := raw 1]> (<[blob 2 := raw 2]> (<[blob 3 := raw 3]> ∅))).

Definition engine : Engine MemoryObjectStore unit unit unit :=
  mkEngine world store tt tt tt AppMetrics_new.

Abbreviation Srv := (Server MemoryObjectStore unit unit unit MemoryLoginThrottle).

Definition connect (lines : list string) : Srv :=
  open_connection false (lit "conn-1") None false engine (with_limits 5 900 0) (crlf_lines lines).

Definition run (lines : list string) : option (Result unit * Srv) :=
  run_connection services secrets false 0 (S (S (length (crlf_lines lines)))) []
    (Running, connect lines).

(** The lines written to the client. *)
Definition transcript (b : bytes) : list str :=
  map (fun l => default l (strip_suffix [13] l)) (split_char 10 b).
Definition talk (lines : list string) : option (list str) :=
  (fun c => transcript (sv_wire (snd c))) <$> run lines.

Definition login : string := "a1 LOGIN alice@example.com secret".
