(* ===== verification/ImapFrames.v ===== *)
(** * Reasoning about commands

    What a command leaves alone ([sframe]) and what it returns ([yields]), as
    rules for the constructs commands are made of, with the tactics that apply
    them. *)

From stdpp Require Import base strings list.
From Stdlib Require Import ZArith Lia.
From S2P Require Import Prelude RustStr Metrics Domain Protocol Schema RepoCore Auth Engine ImapSession ImapFetch ImapCommands ImapServer.

Local Open Scope Z_scope.

Create HintDb imap.

(** ** Looking a string up in a list of arms *)
Lemma match_str_In {A} s (arms : list (str * A)) a :
  match_str s arms = Some a -> In (s, a) arms.
Proof.
  induction arms as [|[p b] arms IH]; simpl; [done|].
  destruct (str_eqb s p) eqn:E; [|by intros ?; right; apply IH].
  apply str_eqb_eq in E as ->. intros [= ->]. by left.
Qed.

Lemma match_str_Forall {A} (P : A -> Prop) s arms a :
  List.Forall (fun arm => P (snd arm)) arms -> match_str s arms = Some a -> P a.
Proof.
  intros Hall Hm. apply match_str_In in Hm. rewrite List.Forall_forall in Hall.
  by apply (Hall (s, a)).
Qed.

(** One goal per arm. *)
Ltac each_arm := repeat apply List.Forall_cons; try apply List.Forall_nil; cbn [snd].

(** ** Frames *)
Section Frame.
Context {E S B : Type} (g : S -> B).

Definition sframe {A} (m : M E S A) : Prop := forall s, g (fst (m s)) = g s.

Lemma sframe_ret {A} (a : A) : sframe (ret a).
Proof. done. Qed.
Lemma sframe_fail {A} e : sframe (fail (A := A) e).
Proof. done. Qed.
Lemma sframe_panic {A} : sframe (panic (A := A)).
Proof. done. Qed.
Lemma sframe_lift {A} (r : outcome E A) : sframe (lift r).
Proof. done. Qed.
Lemma sframe_gets {A} (f : S -> A) : sframe (gets f).
Proof. done. Qed.
Lemma sframe_bind {A C} (m : M E S A) (k : A -> M E S C) :
  sframe m -> (forall a, sframe (k a)) -> sframe (bind m k).
Proof.
  intros Hm Hk s. specialize (Hm s). unfold bind.
  destruct (m s) as [s' [a|e|]]; simpl in *; [by rewrite Hk|done|done].
Qed.
Lemma sframe_fold_each {A C} (xs : list A) (acc : C) (m : C -> A -> M E S C) :
  (forall acc x, sframe (m acc x)) -> sframe (fold_each xs acc m).
Proof.
  intros Hm. revert acc. induction xs as [|x xs IH]; intros acc; simpl; [apply sframe_ret|].
  apply sframe_bind; [apply Hm|]. intros. apply IH.
Qed.
Lemma sframe_for_each {A} (xs : list A) (m : A -> M E S unit) :
  (forall x, sframe (m x)) -> sframe (for_each xs m).
Proof.
  intros Hm. induction xs as [|x xs IH]; simpl; [apply sframe_ret|].
  apply sframe_bind; [apply Hm|]. intros. apply IH.
Qed.
Lemma sframe_try {A} (m : M E S A) : sframe m -> sframe (try m).
Proof.
  intros Hm s. specialize (Hm s). unfold try. by destruct (m s) as [s' [a|e|]].
Qed.
Lemma sframe_ignore {A} (m : M E S A) : sframe m -> sframe (ignore m).
Proof.
  intros Hm s. specialize (Hm s). unfold ignore. by destruct (m s) as [s' [a|e|]].
Qed.
(** A computation that leaves [g] alone keeps every property of [g]. *)
Lemma sframe_preserves {A} (P : B -> Prop) (m : M E S A) :
  sframe m -> preserves (fun s => P (g s)) m.
Proof. intros Hm s Hs. by rewrite Hm. Qed.
End Frame.

#[export] Hint Resolve sframe_ret sframe_fail sframe_panic sframe_lift sframe_gets : imap.

Section ServerFrames.
Context {O U X L T : Type}.
Abbreviation Imap := (M Error (Server O U X L T)).
Abbreviation Sync := (M Error (Engine O U X L)).

Definition sv_world (sv : Server O U X L T) : World := e_world (sv_engine sv).

Lemma session_on_engine {A} (m : Sync A) : sframe sv_session (on_engine (T := T) m).
Proof. intros sv. unfold on_engine, zoom. by destruct (m (sv_engine sv)). Qed.
Lemma session_on_db {A} (m : Repo A) :
  sframe sv_session (on_db (O := O) (U := U) (X := X) (L := L) (T := T) m).
Proof. apply session_on_engine. Qed.
Lemma session_on_auth {A} (m : M Error (@AuthState T) A) :
  sframe sv_session (on_auth (O := O) (U := U) (X := X) (L := L) m).
Proof. intros sv. unfold on_auth. by destruct (m _). Qed.
Lemma session_write_all b : sframe sv_session (write_all (O := O) (U := U) (X := X) (L := L) (T := T) b).
Proof. done. Qed.

Lemma input_on_engine {A} (m : Sync A) : sframe sv_input (on_engine (T := T) m).
Proof. intros sv. unfold on_engine, zoom. by destruct (m (sv_engine sv)). Qed.
Lemma input_on_db {A} (m : Repo A) :
  sframe sv_input (on_db (O := O) (U := U) (X := X) (L := L) (T := T) m).
Proof. apply input_on_engine. Qed.
Lemma input_on_auth {A} (m : M Error (@AuthState T) A) :
  sframe sv_input (on_auth (O := O) (U := U) (X := X) (L := L) m).
Proof. intros sv. unfold on_auth. by destruct (m _). Qed.
Lemma input_write_all b : sframe sv_input (write_all (O := O) (U := U) (X := X) (L := L) (T := T) b).
Proof. done. Qed.
Lemma input_update_session f :
  sframe sv_input (update_session (O := O) (U := U) (X := X) (L := L) (T := T) f).
Proof. done. Qed.

Lemma world_write_all b : sframe sv_world (write_all (O := O) (U := U) (X := X) (L := L) (T := T) b).
Proof. done. Qed.
Lemma world_update_session f :
  sframe sv_world (update_session (O := O) (U := U) (X := X) (L := L) (T := T) f).
Proof. done. Qed.
Lemma world_on_metrics f :
  sframe sv_world (on_engine (O := O) (U := U) (X := X) (L := L) (T := T) (on_metrics f)).
Proof. done. Qed.
Lemma world_on_search {A} (m : M Error X A) :
  sframe sv_world (on_engine (O := O) (U := U) (X := X) (L := L) (T := T) (on_search m)).
Proof.
  intros sv. unfold on_engine, on_search, zoom, sv_world. destruct sv as [s e a i w]. simpl.
  by destruct (m (e_search e)).
Qed.
Lemma world_utc_now :
  sframe sv_world (on_engine (O := O) (U := U) (X := X) (L := L) (T := T) utc_now).
Proof. by intros [s e a i w]. Qed.
Lemma world_query {A} (f : Database -> A) :
  sframe sv_world (on_db (O := O) (U := U) (X := X) (L := L) (T := T) (query f)).
Proof. intros [s [w st up x l m] a i o]. done. Qed.
End ServerFrames.

#[export] Hint Resolve session_on_engine session_on_db session_on_auth session_write_all
  input_on_engine input_on_db input_on_auth input_write_all input_update_session
  world_write_all world_update_session world_on_metrics world_on_search world_utc_now
  world_query : imap.

Ltac frame_steps :=
  repeat first
    [ solve [eauto 2 with imap]
    | apply sframe_fold_each; intros ? ?
    | apply sframe_for_each; intros ?
    | apply sframe_try
    | apply sframe_ignore
    | match goal with
      | |- sframe _ (match ?x with _ => _ end) => destruct x
      | |- sframe _ (let _ := ?x in _) => cbv zeta
      end
    | apply sframe_bind; [|intros ?] ].

(** ** Results *)
Section Yields.
Context {E S : Type}.

(** Whatever the state, a value returned by [m] satisfies [P]. *)
Definition yields {A} (P : A -> Prop) (m : M E S A) : Prop :=
  forall s, match snd (m s) with Ok a => P a | _ => True end.

Lemma yields_ret {A} (P : A -> Prop) a : P a -> yields P (ret a).
Proof. by intros Ha s. Qed.
Lemma yields_fail {A} (P : A -> Prop) e : yields P (fail e).
Proof. by intros s. Qed.
Lemma yields_panic {A} (P : A -> Prop) : yields P panic.
Proof. by intros s. Qed.
Lemma yields_bind {A B} (Q : A -> Prop) (P : B -> Prop) (m : M E S A) (k : A -> M E S B) :
  yields Q m -> (forall a, Q a -> yields P (k a)) -> yields P (bind m k).
Proof.
  intros Hm Hk s. specialize (Hm s). unfold bind.
  destruct (m s) as [s' [a|e|]]; simpl in *; [by apply Hk|done|done].
Qed.
Lemma yields_any {A} (m : M E S A) : yields (fun _ => True) m.
Proof. intros s. by destruct (snd (m s)). Qed.
Lemma yields_then {A B} (P : B -> Prop) (m : M E S A) (k : A -> M E S B) :
  (forall a, yields P (k a)) -> yields P (bind m k).
Proof. intros Hk. eapply yields_bind; [apply yields_any|]. intros a _. apply Hk. Qed.
Lemma yields_fold_each {A B} (P : B -> Prop) (xs : list A) (acc : B) (m : B -> A -> M E S B) :
  P acc -> (forall acc x, P acc -> yields P (m acc x)) -> yields P (fold_each xs acc m).
Proof.
  intros Ha Hm. revert acc Ha. induction xs as [|x xs IH]; intros acc Ha; simpl;
    [by apply yields_ret|].
  eapply yields_bind; [by apply Hm|]. intros acc' Ha'. by apply IH.
Qed.
Lemma yields_run {A} (P : A -> Prop) (m : M E S A) s s' a :
  yields P m -> m s = (s', Ok a) -> P a.
Proof. intros Hm Hrun. specialize (Hm s). by rewrite Hrun in Hm. Qed.
End Yields.
