(* ===== verification/QueueSpecs.v ===== *)
(** * What the mutation queue promises

    Which mutations are due, what a flush does to the row of a mutation it
    applied or failed to apply, and what the idempotency key costs. *)

From stdpp Require Import base strings list gmap.
From Stdlib Require Import ZArith Lia Permutation Sorting.Sorted.
From S2P Require Import Prelude RustStr Metrics Domain Storage Notifications Schema RepoCore Security RepoAccounts RepoMailboxes RepoMessages RepoQueue Invariant Integrity Scenario MessageSpecs Coordination Mime Search Engine Ingest Mutations.

Local Open Scope Z_scope.

(** ** Rows and records *)
Lemma try_from_inv row m :
  PendingMutation_try_from row = Ok m ->
  PendingMutation_id m = PendingMutationRow_id row /\
  PendingMutation_account_id m = PendingMutationRow_account_id row /\
  PendingMutation_attempts m = PendingMutationRow_attempts row /\
  PendingMutation_next_attempt_at m = PendingMutationRow_next_attempt_at row /\
  MutationStatus_from_str (PendingMutationRow_status row) = inl (PendingMutation_status m).
Proof.
  unfold PendingMutation_try_from, obind, or_storage.
  destruct (MutationStatus_from_str (PendingMutationRow_status row)) as [s|msg]; [|done].
  by intros [= <-].
Qed.

Lemma try_from_set_status st n at_ t row : exists m,
  PendingMutation_try_from (set_row_status st n at_ t row) = Ok m /\
  PendingMutation_id m = PendingMutationRow_id row /\ PendingMutation_attempts m = n.
Proof.
  unfold PendingMutation_try_from, obind, or_storage. simpl.
  rewrite (MutationStatus_roundtrip st) by (by destruct st). eexists. split; [reflexivity|]. done.
Qed.

Lemma select_mutation db seq row :
  db_ok db seq -> In row (pending_mutations db) ->
  select (mutation_by_id (PendingMutationRow_id row)) (pending_mutations db) = [row].
Proof. intros Hok. destruct (ok_pending _ _ Hok) as [Hi _]. by eapply select_by_id. Qed.

(** ** Updating one mutation *)

(** The table with the row of mutation [id] given a new status. *)
Definition with_status (id : Z) (st : MutationStatus) (n : Z) (at_ : option Z) (t : Z)
  (rows : list PendingMutationRow) : list PendingMutationRow :=
  update (mutation_by_id id) (set_row_status st n at_ t) rows.

Lemma update_mutation_run row st n at_ w :
  db_ok (w_db w) (w_seq w) -> In row (pending_mutations (w_db w)) ->
  exists w' m,
    update_pending_mutation (PendingMutationRow_id row) st n at_ w = (w', Ok m) /\
    PendingMutation_id m = PendingMutationRow_id row /\ PendingMutation_attempts m = n /\
    pending_mutations (w_db w') =
      with_status (PendingMutationRow_id row) st n at_ (w_now w) (pending_mutations (w_db w)) /\
    w_now w' = w_now w.
Proof.
  intros Hok Hin. unfold update_pending_mutation. erewrite bind_Ok by reflexivity. cbv zeta.
  erewrite bind_Ok by reflexivity. erewrite select_mutation by done.
  erewrite bind_Ok by reflexivity. cbn [map fetch_one]. erewrite bind_Ok by reflexivity.
  erewrite bind_Ok by (apply publish_event_spec).
  destruct (try_from_set_status st n at_ (w_now w) row) as (m & E & Hid & Hn).
  unfold lift. rewrite E. eexists _, m. split; [reflexivity|]. done.
Qed.

Lemma update_mutation_safe id st n at_ w w' r :
  db_ok (w_db w) (w_seq w) -> update_pending_mutation id st n at_ w = (w', r) ->
  db_ok (w_db w') (w_seq w').
Proof.
  intros Hok E. destruct (safe_update_pending_mutation id st n at_ (w_seq w) w) as [H _];
    [by split|]. by rewrite E in H.
Qed.

Lemma with_status_In id st n at_ t rows row :
  In row rows -> PendingMutationRow_id row = id ->
  In (set_row_status st n at_ t row) (with_status id st n at_ t rows).
Proof.
  intros Hin <-. apply update_In. exists row. split; [done|].
  unfold mutation_by_id. by rewrite Z.eqb_refl.
Qed.

Lemma with_status_other id st n at_ t rows row :
  In row rows -> PendingMutationRow_id row <> id -> In row (with_status id st n at_ t rows).
Proof.
  intros Hin Hne. apply update_In. exists row. split; [done|].
  unfold mutation_by_id. by rewrite (proj2 (Z.eqb_neq _ _)).
Qed.

(** ** What is due *)

(** The mutations a flush works on are exactly the pending and failed ones of
    the account whose attempt time has come, oldest first; one that is in flight,
    succeeded or a dead letter is not among them at any time, so a mutation whose
    flush was interrupted while in flight is never tried again. *)
Theorem due_mutations_spec account_id w ms :
  list_due_pending_mutations account_id w = (w, Ok ms) ->
  (forall m, In m ms -> PendingMutation_account_id m = account_id /\
     (PendingMutation_status m = Pending \/ PendingMutation_status m = Failed) /\
     match PendingMutation_next_attempt_at m with Some t => t <= w_now w | None => True end) /\
  (forall row st, In row (pending_mutations (w_db w)) ->
     PendingMutationRow_status row = MutationStatus_to_string st ->
     st = InFlight \/ st = Succeeded \/ st = DeadLetter ->
     forall t, mutation_due account_id t row = false) /\
  (forall row, In row (pending_mutations (w_db w)) ->
     mutation_due account_id (w_now w) row = true ->
     exists m, In m ms /\ PendingMutation_id m = PendingMutationRow_id row).
Proof.
  intros E. unfold list_due_pending_mutations in E. inv_bind E. injection Hstep as <- <-.
  inv_bind E. injection Hstep as <- <-. unfold lift in E. injection E as E.
  split_and!.
  - intros m Hm. eapply collect_results_In in E as (row & Hrow & Hfrom); [|exact Hm].
    apply sort_by_In, select_In in Hrow as [_ Hdue].
    apply try_from_inv in Hfrom as (_ & -> & _ & -> & Hst).
    unfold mutation_due in Hdue. apply andb_true_iff in Hdue as [Hdue Hat].
    apply andb_true_iff in Hdue as [Ha Hs]. apply Z.eqb_eq in Ha. split; [done|]. split.
    + apply orb_true_iff in Hs as [Hs|Hs]; apply str_eqb_eq in Hs; rewrite Hs in Hst;
        injection Hst as <-; auto.
    + destruct (PendingMutationRow_next_attempt_at row); [by apply Z.leb_le|done].
  - intros row st _ Hst Hcase t. unfold mutation_due. rewrite Hst.
    destruct Hcase as [-> | [-> | ->]]; simpl; by rewrite andb_false_r.
  - intros row Hin Hdue.
    assert (Hrow : In row (order_by PendingMutationRow_created_at
      (select (mutation_due account_id (w_now w)) (pending_mutations (w_db w))))).
    { apply sort_by_In, select_In. done. }
    revert ms E. clear Hdue. induction (order_by _ _) as [|r l IH]; [done|]. intros ms E.
    simpl in E. destruct (PendingMutation_try_from r) as [m|e|] eqn:Ef; [|done|done]. simpl in E.
    destruct (collect_results PendingMutation_try_from l) as [ms'|e|]; [|done|done].
    injection E as <-. destruct Hrow as [->|Hrow].
    + exists m. split; [by left|]. by apply try_from_inv in Ef as (? & _).
    + destruct (IH Hrow ms' eq_refl) as (m' & Hm' & Hid). exists m'. split; [by right|done].
Qed.

(** ** Engine computations keep the database sound *)
Section EngineSafe.
Context {O U X L : Type}.
Abbreviation Sync := (M Error (Engine O U X L)).

Definition engine_ok (e : Engine O U X L) : Prop :=
  db_ok (w_db (e_world e)) (w_seq (e_world e)).

Lemma preserves_on_repo {A} (m : Repo A) : safe m -> preserves engine_ok (on_repo m).
Proof.
  intros Hm e He. destruct (Hm (w_seq (e_world e)) (e_world e)) as [H _]; [by split|].
  unfold on_repo, zoom. by destruct (m (e_world e)).
Qed.
Lemma preserves_on_upstream {A} (m : M Error U A) : preserves engine_ok (on_upstream m).
Proof. intros e He. unfold on_upstream, zoom. by destruct (m (e_upstream e)). Qed.
Lemma preserves_on_store {A} (m : M Error O A) : preserves engine_ok (on_store m).
Proof. intros e He. unfold on_store, zoom. by destruct (m (e_store e)). Qed.
Lemma preserves_on_metrics f : preserves engine_ok (on_metrics f).
Proof. by intros e He. Qed.
End EngineSafe.

#[export] Hint Resolve preserves_on_upstream preserves_on_store preserves_on_metrics : repo.

Ltac esafe_steps :=
  repeat first
    [ solve [eauto 2 with repo]
    | apply preserves_on_repo
    | apply preserves_bind; [|intros ?]
    | match goal with
      | |- preserves _ (match ?x with _ => _ end) => destruct x
      | |- preserves _ (let _ := ?x in _) => cbv zeta
      end ].

Lemma keeps_set_upstream_uid {B} (g : Database -> B) mb uid up :
  (forall t db, g (set_mailbox_messages t db) = g db) ->
  (forall t db, g (set_uid_mappings t db) = g db) ->
  keeps g (set_mailbox_message_upstream_uid mb uid up).
Proof.
  intros H1 H2. unfold set_mailbox_message_upstream_uid.
  apply keeps_bind; [apply keeps_now|]. intros t. cbv zeta.
  apply keeps_bind; [apply keeps_query|]. intros rows.
  assert (Hrest : keeps g ((if is_some (head rows)
    then do uidvalidity <- mailbox_uidvalidity mb ;; upsert_uid_mapping mb uid up uidvalidity
    else ret tt) ;;; ret (MailboxMessage_from <$> head rows))).
  { apply keeps_bind; [|intros; apply keeps_ret]. destruct (is_some _); [|apply keeps_ret].
    apply keeps_bind; [apply keeps_query|]. intros. by apply keeps_upsert_uid_mapping. }
  intros w. erewrite bind_Ok by reflexivity. unfold require. destruct (unique_by _ _); [|done].
  do 2 (erewrite bind_Ok by reflexivity). rewrite Hrest. apply H1.
Qed.

Section Flush.
Context {O U X L : Type} `{ObjectStore O} `{UpstreamClient U}.
Context `{Sha256, Texts}.
Implicit Types e : Engine O U X L.

Local Abbreviation pending e := (pending_mutations (w_db (e_world e))).

Lemma keeps_upstream_uid_for {B} (g : Database -> B) mb uid :
  keeps g (upstream_uid_for_mailbox_message mb uid).
Proof. unfold upstream_uid_for_mailbox_message, mailbox_uidvalidity. keep_steps. Qed.

(** Replaying a mutation does not touch the queue ... *)
Lemma apply_mutation_keeps_queue mutation :
  ekeeps pending_mutations (apply_mutation (O := O) (U := U) (X := X) (L := L) mutation).
Proof.
  assert (Hcopy : forall kind f, ekeeps pending_mutations
    (copy_upstream (O := O) (U := U) (X := X) (L := L) kind f)).
  { intros kind f. unfold copy_upstream. ekeep_steps; [apply keeps_upstream_uid_for|].
    by apply keeps_set_upstream_uid. }
  unfold apply_mutation, match_str.
  repeat (destruct (str_eqb _ _); [|]); [| | | |apply ekeeps_fail].
  - unfold apply_append, record_object_store_bytes_read. ekeep_steps.
    by apply keeps_set_upstream_uid.
  - unfold apply_flag_update. ekeep_steps.
  - unfold apply_copy_message. ekeep_steps.
  - unfold apply_move_message. ekeep_steps.
Qed.

(** ... and keeps the database sound. *)
Lemma apply_mutation_safe mutation :
  preserves engine_ok (apply_mutation (O := O) (U := U) (X := X) (L := L) mutation).
Proof.
  assert (Hcopy : forall kind f, preserves engine_ok
    (copy_upstream (O := O) (U := U) (X := X) (L := L) kind f)).
  { intros kind f. unfold copy_upstream. esafe_steps; [|apply safe_set_upstream_uid].
    unfold upstream_uid_for_mailbox_message, mailbox_uidvalidity. safe_steps. }
  unfold apply_mutation, match_str.
  repeat (destruct (str_eqb _ _); [|]); [| | | |apply preserves_fail].
  - unfold apply_append, record_object_store_bytes_read. esafe_steps.
    apply safe_set_upstream_uid.
  - unfold apply_flag_update. esafe_steps.
  - unfold apply_copy_message. esafe_steps.
  - unfold apply_move_message. esafe_steps.
Qed.
(** Updating the mutation's row from the engine. *)
Lemma on_repo_update row st n at_ e :
  engine_ok e -> In row (pending e) ->
  exists e' m,
    on_repo (update_pending_mutation (PendingMutationRow_id row) st n at_) e = (e', Ok m) /\
    PendingMutation_id m = PendingMutationRow_id row /\ PendingMutation_attempts m = n /\
    pending e' = with_status (PendingMutationRow_id row) st n at_ (w_now (e_world e)) (pending e) /\
    w_now (e_world e') = w_now (e_world e) /\ engine_ok e'.
Proof.
  intros Hok Hin. destruct (update_mutation_run row st n at_ (e_world e) Hok Hin)
    as (w' & m & E & Hid & Hn & Hp & Ht).
  eexists _, m. split; [by apply on_repo_spec|]. split_and!; try done.
  unfold engine_ok. simpl. by eapply update_mutation_safe.
Qed.

(** The state in which a mutation is applied: its row is marked in flight. *)
Definition in_flight (mutation : PendingMutation) (e : Engine O U X L) : Engine O U X L :=
  fst (on_repo (update_pending_mutation (PendingMutation_id mutation) InFlight
                  (wrapping_i32 (PendingMutation_attempts mutation + 1)) None) e).

(** One turn of the flush loop: the row is marked in flight, the mutation is
    applied, and the row gets the outcome. *)
Lemma flush_one_run applied mutation row e e2 r :
  engine_ok e -> In row (pending e) -> PendingMutation_id mutation = PendingMutationRow_id row ->
  apply_mutation mutation (in_flight mutation e) = (e2, r) ->
  let id := PendingMutationRow_id row in
  let n := wrapping_i32 (PendingMutation_attempts mutation + 1) in
  let t1 := w_now (e_world e) in
  let t2 := w_now (e_world e2) in
  let queue1 := with_status id InFlight n None t1 (pending e) in
  match r with
  | Ok _ => exists e3, flush_one applied mutation e = (e3, Ok (applied + 1)) /\ engine_ok e3 /\
      pending e3 = with_status id Succeeded n None t2 queue1 /\ w_now (e_world e3) = t2
  | Err err => exists e3, flush_one applied mutation e = (e3, Err err) /\ engine_ok e3 /\
      pending e3 = with_status id Failed n (Some (next_attempt_time t2 n)) t2 queue1 /\
      w_now (e_world e3) = t2
  | Panic => flush_one applied mutation e = (e2, Panic) /\ pending e2 = queue1
  end.
Proof.
  intros Hok Hin Hid Ha id n t1 t2 queue1. unfold in_flight in Ha. rewrite Hid in Ha.
  destruct (on_repo_update row InFlight n None e Hok Hin)
    as (e1 & m & E1 & Hm & Hn & Hp1 & Ht1 & Hok1).
  fold n in Ha. rewrite E1 in Ha. cbn [fst] in Ha. unfold flush_one. rewrite Hid.
  erewrite bind_Ok by exact E1.
  pose proof (ekeeps_run _ _ _ _ _ (apply_mutation_keeps_queue mutation) Ha) as Hp2.
  pose proof (apply_mutation_safe mutation e1 Hok1) as Hok2. rewrite Ha in Hok2. cbn in Hok2.
  assert (Hrow2 : In (set_row_status InFlight n None t1 row) (pending e2))
    by (rewrite Hp2, Hp1; by apply with_status_In).
  rewrite Hp1 in Hp2. destruct r as [a|err|].
  - erewrite bind_Ok by (unfold try; by rewrite Ha). cbv beta iota. rewrite Hm, Hn.
    destruct (on_repo_update _ Succeeded n None e2 Hok2 Hrow2)
      as (e3 & m3 & E3 & _ & _ & Hp3 & Ht3 & Hok3).
    exists e3. erewrite bind_Ok by exact E3. split_and!; [done|done| |done].
    by rewrite Hp3, Hp2.
  - erewrite bind_Ok by (unfold try; by rewrite Ha). cbv beta iota.
    erewrite bind_Ok by reflexivity. rewrite Hm, Hn.
    destruct (on_repo_update _ Failed n (Some (next_attempt_time t2 n)) e2 Hok2 Hrow2)
      as (e3 & m3 & E3 & _ & _ & Hp3 & Ht3 & Hok3).
    exists e3. erewrite bind_Ok by exact E3. split_and!; [done|done| |done].
    by rewrite Hp3, Hp2.
  - unfold try, bind. rewrite Ha. done.
Qed.
Lemma wrapping_succ n : 0 <= n < i32_max -> wrapping_i32 (n + 1) = n + 1 /\ as_u32 (n + 1) = n + 1.
Proof.
  unfold wrapping_i32, as_u32, i32_min, i32_max. intros Hn. split.
  - rewrite Z.mod_small; lia.
  - rewrite Z.mod_small; lia.
Qed.

Lemma next_attempt_bounds t n :
  1 <= n <= i32_max -> t + 2000000 <= next_attempt_time t n <= t + 300000000.
Proof.
  unfold next_attempt_time, i32_max. intros Hn.
  assert (as_u32 n = n) as -> by (unfold as_u32; apply Z.mod_small; lia).
  pose proof (retry_delay_cases n). assert (2 <= retry_delay n); [|lia].
  destruct (Z.le_gt_cases n 8); [|rewrite retry_delay_large by lia; lia].
  rewrite retry_delay_small by lia.
  assert (2 ^ 1 <= 2 ^ n) by (apply Z.pow_le_mono_r; lia). lia.
Qed.

(** C28 When replaying a mutation fails, the flush stops with that error and the
    mutation is rescheduled: its row becomes failed with one more attempt and a
    next attempt 2 to 300 seconds ahead; until then it is not due, from then on
    it is; every other row of the queue is untouched. *)
Theorem flush_failure_reschedules applied mutation row e e2 err :
  engine_ok e -> In row (pending e) -> PendingMutation_try_from row = Ok mutation ->
  0 <= PendingMutationRow_attempts row < i32_max ->
  apply_mutation mutation (in_flight mutation e) = (e2, Err err) ->
  exists e3 row' t,
    flush_one applied mutation e = (e3, Err err) /\
    In row' (pending e3) /\ PendingMutationRow_id row' = PendingMutationRow_id row /\
    PendingMutationRow_status row' = lit "failed" /\
    PendingMutationRow_attempts row' = PendingMutationRow_attempts row + 1 /\
    PendingMutationRow_next_attempt_at row' = Some t /\
    w_now (e_world e3) + 2000000 <= t <= w_now (e_world e3) + 300000000 /\
    (forall now, mutation_due (PendingMutationRow_account_id row) now row' = (t <=? now)) /\
    (forall r, In r (pending e) -> PendingMutationRow_id r <> PendingMutationRow_id row ->
               In r (pending e3)).
Proof.
  intros Hok Hin Hfrom Hrange Ha. apply try_from_inv in Hfrom as (Hid & _ & Hn & _).
  pose proof (flush_one_run applied mutation row e e2 (Err err) Hok Hin Hid Ha) as Hrun.
  cbv zeta in Hrun. destruct Hrun as (e3 & E & _ & Hp & Ht). rewrite Hn in Hp.
  destruct (wrapping_succ (PendingMutationRow_attempts row) Hrange) as [Hw Hu].
  rewrite Hw in Hp. set (t1 := w_now (e_world e)) in *. set (t2 := w_now (e_world e2)) in *.
  set (n := PendingMutationRow_attempts row + 1) in *.
  set (row1 := set_row_status InFlight n None t1 row).
  exists e3, (set_row_status Failed n (Some (next_attempt_time t2 n)) t2 row1),
    (next_attempt_time t2 n).
  split_and!; try done.
  - rewrite Hp. apply with_status_In; [|done]. by apply with_status_In.
  - rewrite Ht. apply next_attempt_bounds. unfold i32_max in *. lia.
  - rewrite Ht. apply next_attempt_bounds. unfold i32_max in *. lia.
  - intros now. unfold mutation_due. simpl. rewrite Z.eqb_refl. done.
  - intros r Hr Hne. rewrite Hp. apply with_status_other; [|done].
    by apply with_status_other.
Qed.

(** The rows of a queue with a given id and status. *)
Definition has_status (id : Z) (st : MutationStatus) (rows : list PendingMutationRow) : Prop :=
  exists r, In r rows /\ PendingMutationRow_id r = id /\
            PendingMutationRow_status r = MutationStatus_to_string st.

(** A loop that ends well applied every mutation it was given. *)
Lemma flush_loop_ok ms : forall applied e e' n,
  engine_ok e -> NoDup (map PendingMutation_id ms) ->
  (forall m, In m ms -> exists r, In r (pending e) /\ PendingMutationRow_id r = PendingMutation_id m) ->
  fold_each ms applied flush_one e = (e', Ok n) ->
  n = applied + Z.of_nat (length ms) /\
  (forall m, In m ms -> has_status (PendingMutation_id m) Succeeded (pending e')) /\
  (forall r, In r (pending e) -> ~ In (PendingMutationRow_id r) (map PendingMutation_id ms) ->
             In r (pending e')).
Proof.
  induction ms as [|m ms IH]; intros applied e e' n Hok Hnd Hrows E; simpl in E.
  { injection E as <- <-. split_and!; [simpl; lia|done|done]. }
  simpl in Hnd. apply NoDup_cons in Hnd as [Hm Hnd]. rewrite list_elem_of_In in Hm.
  destruct (Hrows m (or_introl eq_refl)) as (row & Hrow & Hid).
  destruct (apply_mutation m (in_flight m e)) as [e2 r] eqn:Ha.
  pose proof (flush_one_run applied m row e e2 r Hok Hrow (eq_sym Hid) Ha) as Hrun.
  cbv zeta in Hrun. inv_bind E. destruct r as [a|err|].
  2: { destruct Hrun as (e3 & E3 & _). by rewrite E3 in Hstep. }
  2: { destruct Hrun as [E3 _]. by rewrite E3 in Hstep. }
  destruct Hrun as (e3 & E3 & Hok3 & Hp3 & _). rewrite E3 in Hstep. injection Hstep as <- <-.
  assert (Hother : forall r, In r (pending e) -> PendingMutationRow_id r <> PendingMutationRow_id row ->
            In r (pending e3)).
  { intros r Hr Hne. rewrite Hp3. apply with_status_other; [|done]. by apply with_status_other. }
  assert (Hsame : exists r, In r (pending e3) /\ PendingMutationRow_id r = PendingMutation_id m /\
            PendingMutationRow_status r = MutationStatus_to_string Succeeded).
  { eexists. split; [rewrite Hp3; apply with_status_In; [apply with_status_In; [exact Hrow|done]|done]|].
    done. }
  destruct (IH (applied + 1) e3 e' n Hok3 Hnd) as (Hn & Hdone & Hrest); [|exact E|].
  { intros m' Hm'. destruct (Hrows m' (or_intror Hm')) as (r' & Hr' & Hid').
    exists r'. split; [|done]. apply Hother; [done|]. rewrite Hid, Hid'. intros Heq. apply Hm.
    rewrite <- Heq. by apply in_map. }
  split_and!.
  - simpl length. lia.
  - intros m' [<-|Hm']; [|by apply Hdone].
    destruct Hsame as (r & Hr & Hrid & Hst). exists r. split; [|done].
    apply Hrest; [done|]. by rewrite Hrid.
  - intros r Hr Hni. simpl in Hni. apply Hrest; [|tauto]. apply Hother; [done|].
    rewrite Hid. intros Heq. apply Hni. by left.
Qed.
Lemma collect_ids rows ms :
  collect_results PendingMutation_try_from rows = Ok ms ->
  map PendingMutation_id ms = map PendingMutationRow_id rows.
Proof.
  revert ms. induction rows as [|r rows IH]; intros ms E; simpl in E; [by injection E as <-|].
  destruct (PendingMutation_try_from r) as [m|err|] eqn:Em; [|done|done]. simpl in E.
  destruct (collect_results PendingMutation_try_from rows) as [ms'|err|]; [|done|done].
  injection E as <-. simpl. rewrite (IH ms' eq_refl). f_equal.
  by apply try_from_inv in Em as (? & _).
Qed.

Lemma due_ids_NoDup account_id w ms w' :
  db_ok (w_db w) (w_seq w) -> list_due_pending_mutations account_id w = (w', Ok ms) ->
  w' = w /\ NoDup (map PendingMutation_id ms) /\
  forall m, In m ms -> exists r, In r (pending_mutations (w_db w)) /\
                                 PendingMutationRow_id r = PendingMutation_id m.
Proof.
  intros Hok E. unfold list_due_pending_mutations in E. inv_bind E. injection Hstep as <- <-.
  inv_bind E. injection Hstep as <- <-. unfold lift in E. injection E as <- E.
  set (sel := select _ _) in E. split_and!; [done| |].
  - rewrite (collect_ids _ _ E). destruct (ok_pending _ _ Hok) as [[Hnd _] _].
    eapply NoDup_Permutation_proper;
      [symmetry; apply Permutation_map, order_by_perm|].
    eapply sublist_NoDup; [exact Hnd|]. unfold sel, select.
    clear. induction (pending_mutations (w_db w)) as [|r l IH]; simpl; [done|].
    destruct (mutation_due account_id (w_now w) r); by constructor.
  - intros m Hm. eapply collect_results_In in E as (r & Hr & Hf); [|exact Hm].
    apply order_by_In, select_In in Hr as [Hr _]. exists r. split; [done|].
    by apply try_from_inv in Hf as (-> & _).
Qed.

(** A flush that ends well replayed every mutation that was due: it reports
    their number and each of them is marked succeeded. *)
Theorem flush_success_applies_all account_id e e' n :
  engine_ok e -> flush_pending_mutations account_id e = (e', Ok n) ->
  exists ms, list_due_pending_mutations account_id (e_world e) = (e_world e, Ok ms) /\
    n = Z.of_nat (length ms) /\
    forall m, In m ms -> has_status (PendingMutation_id m) Succeeded (pending e').
Proof.
  intros Hok E. unfold flush_pending_mutations in E. inv_bind E.
  apply on_repo_inv in Hstep as (Hdue & _).
  destruct (due_ids_NoDup _ _ _ _ Hok Hdue) as (Hw & Hnd & Hrows).
  exists x. split; [by rewrite <- Hw at 2|].
  destruct (flush_loop_ok x 0 _ _ _ (ltac:(unfold engine_ok; by rewrite Hw)) Hnd
              (ltac:(by rewrite Hw)) E) as (Hn & Hdone & _).
  split; [lia|done].
Qed.
End Flush.

(** ** The idempotency key *)

(** The queue refuses a second row with the idempotency key of an earlier one,
    whatever became of the earlier: the insert fails with a unique violation and
    the database and the events are as before.  Since the key is a hash of the
    account, mailbox, type and payload, a change that returns a message to flags
    queued once before cannot be queued again. *)
Theorem enqueue_same_key_fails input w row :
  In row (pending_mutations (w_db w)) ->
  PendingMutationRow_idempotency_key row = NewPendingMutation_idempotency_key input ->
  exists w', enqueue_mutation input w =
    (w', Err (ESqlx (UniqueViolation (lit "pending_mutations_idempotency_key_key")))) /\
    w_db w' = w_db w /\ w_events w' = w_events w.
Proof.
  intros Hin Hkey. unfold enqueue_mutation. erewrite bind_Ok by reflexivity.
  erewrite bind_Ok by reflexivity. cbv zeta. erewrite bind_Ok by reflexivity. unfold require.
  match goal with |- context [unique_by ?k ?t] => assert (unique_by k t = false) as -> end.
  - unfold unique_by. apply bool_decide_eq_false. simpl. rewrite omap_app. csimpl. intros Hnd.
    apply NoDup_app in Hnd as (_ & Hdis & _). apply (Hdis (NewPendingMutation_idempotency_key input)).
    + apply list_elem_of_omap. exists row. split; [by apply list_elem_of_In|].
      unfold key_idempotency. by rewrite Hkey.
    + by left.
  - eexists. split; reflexivity || done.
Qed.

(** ** Witnesses *)
Module QueueWitness.

(** An upstream server that refuses or accepts every store. *)
#[local] Instance upstream : UpstreamClient bool := {
upstream_select := fun _ => ret tt;
upstream_select_mailbox := fun _ => fail (EParse []);
upstream_list_mailboxes := ret [];
uid_search_all := ret [];
uid_fetch_flags := fun _ => ret [];
uid_fetch_rfc822 := fun _ => ret [];
append_with_internal_date := fun _ _ _ _ => ret None;
uid_store_flags := fun _ _ => fun ok => (ok, if ok : bool then Ok tt else Err (EParse (lit "NO")));
uid_copy_message := fun _ _ => ret 1;
expunge_selected := ret tt
}.
#[local] Instance sha : Sha256 := { sha256_hex := fun b => b }.
#[local] Instance texts : Texts := {
json_to_string := fun v => match get_u64 v (lit "local_uid") with Some n => fmt_u n | None => [] end;
to_rfc3339 := fmt_i;
parse_rfc3339 := fun s => match parse_i64 s with Some d => inl d | None => inr [] end;
debug_str := fun s => s;
foreign_error := fun _ => []
}.

Definition input : NewPendingMutation :=
new_mutation 1 1 (Some 2) (lit "store_flags") (flags_payload 2 [seen]).
Definition queued : World := run_calls [EnqueueMutation input] world.
Definition engine (ok : bool) : Engine MemoryObjectStore bool unit unit :=
mkEngine queued (mkMemoryObjectStore ∅) ok tt tt AppMetrics_new.

Definition queued_row : PendingMutationRow := pending_mutation_row 1 1000 input.
Definition queued_mutation : PendingMutation :=
mkPendingMutation 1 1 1 (Some 2) (lit "store_flags") (flags_payload 2 [seen]) Pending 0 None
  (NewPendingMutation_idempotency_key input) 1000 1000.

Lemma queued_ok ok : engine_ok (engine ok).
Proof.
apply (db_ok_reachable world queued); [exact world_ok|apply run_calls_reachable].
Qed.

Lemma queued_rows : pending_mutations (w_db queued) = [queued_row].
Proof. by vm_compute. Qed.

Lemma due_mutations_spec_witness :
exists m, In m [queued_mutation] /\ PendingMutation_id m = 1.
Proof.
apply (proj2 (proj2 (due_mutations_spec 1 queued [queued_mutation]
  ltac:(vm_compute; reflexivity))) queued_row).
- rewrite queued_rows. left. reflexivity.
- vm_compute. reflexivity.
Defined.

Lemma flush_failure_reschedules_witness : exists e3 row' t,
flush_one 0 queued_mutation (engine false) = (e3, Err (EParse (lit "NO"))) /\
In row' (pending_mutations (w_db (e_world e3))) /\
PendingMutationRow_attempts row' = 1 /\ PendingMutationRow_next_attempt_at row' = Some t.
Proof.
destruct (flush_failure_reschedules 0 queued_mutation queued_row (engine false)
  (in_flight queued_mutation (engine false)) (EParse (lit "NO")))
  as (e3 & row' & t & E & Hin & _ & _ & Ha & Ht & _).
- apply queued_ok.
- change (In queued_row (pending_mutations (w_db queued))). rewrite queued_rows. left. reflexivity.
- vm_compute. reflexivity.
- unfold i32_max. simpl. lia.
- vm_compute. reflexivity.
- exists e3, row', t. split; [exact E|]. split; [exact Hin|]. split; [exact Ha|exact Ht].
Defined.

Lemma flush_success_applies_all_witness :
let e' := fst (flush_pending_mutations 1 (engine true)) in
exists ms, list_due_pending_mutations 1 (e_world (engine true)) = (e_world (engine true), Ok ms) /\
           1 = Z.of_nat (length ms).
Proof.
intros e'. destruct (flush_success_applies_all 1 (engine true) e' 1) as (ms & H1 & H2 & _).
- apply queued_ok.
- vm_compute. reflexivity.
- exists ms. split; [exact H1|exact H2].
Defined.

Lemma enqueue_same_key_fails_witness : exists w', enqueue_mutation input queued =
(w', Err (ESqlx (UniqueViolation (lit "pending_mutations_idempotency_key_key")))).
Proof.
destruct (enqueue_same_key_fails input queued queued_row) as (w' & E & _).
- rewrite queued_rows. left. reflexivity.
- vm_compute. reflexivity.
- exists w'. exact E.
Defined.

End QueueWitness.
