(* ===== verification/SyncEngine.v ===== *)
(** * Synchronising an account

    Models [SyncEngine] of crates/sync/src/lib.rs: one pass over the upstream
    mailboxes of an account under the account's lock, the incremental fetch of
    one mailbox from its checkpoint, and the reconciliation of what vanished
    upstream.  The concurrency limiter only delays a pass and is left out. *)

From stdpp Require Import base strings list gmap.
From Stdlib Require Import ZArith Lia.
From S2P Require Import Prelude RustStr Domain Storage Schema RepoCore RepoAccounts RepoMailboxes RepoMessages RepoQueue Coordination Mime Search Engine Ingest Mutations.

Local Open Scope Z_scope.

Record SyncRunReport : Type := mkSyncRunReport {
  mailboxes_synced : Z;
  messages_synced : Z
}.

Definition empty_report : SyncRunReport := mkSyncRunReport 0 0.

Section SyncEngine.
Context {O U X L : Type} `{ObjectStore O} `{UpstreamClient U} `{SearchBackend X}
  `{SyncLockManager L}.
Context `{Sha256, Texts, MimeParser, PgText}.
(** [self.search] and [self.lock_manager]: are they configured. *)
Variables has_search has_lock_manager : bool.
Abbreviation Sync := (M Error (Engine O U X L)).

Definition account_lock_key (account_id : Z) : str :=
  lit "imap-cache-rs:sync:account:" ++ fmt_i account_id.

Definition acquire_account_lock (account_id ttl : Z) : Sync (option SyncLockGuard) :=
  if has_lock_manager then on_lock (lock_acquire (account_lock_key account_id) ttl)
  else ret None.

(** ** Reconciliation *)
Definition clear_synced_mailbox_messages (mailbox_id : Z) : Sync unit :=
  do messages <- on_repo (list_mailbox_messages mailbox_id) ;;
  for_each (List.filter (fun m => is_some (MailboxMessage_upstream_uid m)) messages)
    (fun message =>
       on_repo (delete_mailbox_message mailbox_id (MailboxMessage_local_uid message)) ;;;
       ret tt).

(** An upstream UID that is not in the set. *)
Definition vanished (upstream_uids : gset Z) (m : MailboxMessage) : bool :=
  match MailboxMessage_upstream_uid m with
  | Some u => negb (bool_decide (u ∈ upstream_uids))
  | None => false
  end.

Definition reconcile_missing_upstream_messages_with_set (mailbox_id : Z)
  (upstream_uids : gset Z) : Sync unit :=
  do messages <- on_repo (list_mailbox_messages mailbox_id) ;;
  for_each (List.filter (vanished upstream_uids) messages)
    (fun message =>
       on_repo (delete_mailbox_message mailbox_id (MailboxMessage_local_uid message)) ;;;
       ret tt).

(** [COALESCE(new, old)]. *)
Definition coalesce {A} (new old : option A) : option A :=
  match new with Some _ => new | None => old end.

Definition set_row_selection (sel : SelectedMailboxInfo) (t : Z) (r : MailboxRow) : MailboxRow :=
  mkMailboxRow (MailboxRow_id r) (MailboxRow_account_id r) (MailboxRow_name r)
    (MailboxRow_canonical_name r) (MailboxRow_delimiter r) (MailboxRow_attributes r)
    (MailboxRow_subscribed r) (MailboxRow_special_use r)
    (coalesce (SelectedMailboxInfo_uidvalidity sel) (MailboxRow_uidvalidity r))
    (coalesce (SelectedMailboxInfo_uidnext sel) (MailboxRow_uidnext r))
    (coalesce (SelectedMailboxInfo_highestmodseq sel) (MailboxRow_highestmodseq r))
    (default (MailboxRow_exists_count r) (SelectedMailboxInfo_exists sel))
    (default (MailboxRow_recent_count r) (SelectedMailboxInfo_recent sel))
    (default (MailboxRow_unseen_count r) (SelectedMailboxInfo_unseen sel))
    (MailboxRow_created_at r) t.

Definition update_mailbox_sync_metadata (mailbox_id : Z) (selection : SelectedMailboxInfo)
  : Sync unit :=
  on_repo (
    do t <- now ;;
    execute (fun db =>
      set_mailboxes
        (update (mailbox_by_id mailbox_id) (set_row_selection selection t) (mailboxes db)) db)).

Definition remove_missing_mailboxes (account_id : Z) (upstream_mailboxes : list str)
  : Sync unit :=
  do mailboxes <- on_repo (list_mailboxes account_id None) ;;
  for_each mailboxes (fun mailbox =>
    if existsb (str_eqb (Mailbox_canonical_name mailbox)) upstream_mailboxes then ret tt
    else
      do messages <- on_repo (list_mailbox_messages (Mailbox_id mailbox)) ;;
      for_each messages (fun message =>
        on_repo (delete_mailbox_message (Mailbox_id mailbox)
                   (MailboxMessage_local_uid message)) ;;;
        ret tt) ;;;
      on_repo (delete_mailbox account_id (Mailbox_name mailbox)) ;;;
      ret tt).

(** ** One mailbox *)

(** [HashMap] of the local messages by upstream UID; of two entries with one
    key the later stays. *)
Definition by_upstream_uid (local_messages : list MailboxMessage) : gmap Z MailboxMessage :=
  list_to_map (rev (omap (fun m => (fun u => (u, m)) <$> MailboxMessage_upstream_uid m)
                      local_messages)).

(** One turn of the loop over the upstream UIDs.  The accumulator is the
    number of messages ingested and the last UID ingested. *)
Definition sync_uid (account_id mailbox_id : Z) (mailbox_name : str) (last_uid : Z)
  (local : gmap Z MailboxMessage) (acc : Z * option Z) (uid : Z) : Sync (Z * option Z) :=
  let '(messages_synced, newest_uid) := acc in
  do uid_i64 <- lift (if uid <=? i64_max then Ok uid
                      else Err (EStorage (lit "upstream UID out of range: " ++ fmt_i uid))) ;;
  do fetched <- on_upstream (uid_fetch_flags uid) ;;
  let fetched_flags := normalize_flags fetched in
  match local !! uid_i64 with
  | Some local_message =>
      if bool_decide (normalize_flags (MailboxMessage_flags local_message) = fetched_flags)
      then ret tt
      else on_repo (update_mailbox_message_flags mailbox_id
                      (MailboxMessage_local_uid local_message) fetched_flags) ;;; ret tt
  | None => ret tt
  end ;;;
  if uid_i64 <=? last_uid then ret (messages_synced, newest_uid)
  else
    do raw <- on_upstream (uid_fetch_rfc822 uid) ;;
    ingest_raw_message has_search account_id mailbox_id mailbox_name uid_i64 (Some uid_i64)
      None raw fetched_flags ;;;
    ret (messages_synced + 1, Some uid_i64).

Definition checkpoint_field (checkpoint : option SyncState) (key : str) : option Z :=
  match checkpoint with
  | Some state => get_i64 (SyncState_state_json state) key
  | None => None
  end.

Definition checkpoint_json (mailbox_name : str) (sel : SelectedMailboxInfo)
  (last_uid : option Z) : Value :=
  Object [(lit "mailbox_name", VString mailbox_name);
          (lit "uidvalidity", json_opt Number (SelectedMailboxInfo_uidvalidity sel));
          (lit "uidnext", json_opt Number (SelectedMailboxInfo_uidnext sel));
          (lit "highestmodseq", json_opt Number (SelectedMailboxInfo_highestmodseq sel));
          (lit "exists", json_opt Number (SelectedMailboxInfo_exists sel));
          (lit "recent", json_opt Number (SelectedMailboxInfo_recent sel));
          (lit "unseen", json_opt Number (SelectedMailboxInfo_unseen sel));
          (lit "last_uid", json_opt Number last_uid)].

Definition sync_mailbox_inner (account_id : Z) (mailbox_name : str) (mailbox : Mailbox)
  : Sync Z :=
  let mailbox_id := Mailbox_id mailbox in
  do selection <- on_upstream (upstream_select_mailbox mailbox_name) ;;
  do checkpoint <- on_repo (load_sync_state account_id (Some mailbox_id)) ;;
  let checkpoint_uidvalidity := checkpoint_field checkpoint (lit "uidvalidity") in
  let uidvalidity_changed :=
    is_some (SelectedMailboxInfo_uidvalidity selection) &&
    negb (not_distinct checkpoint_uidvalidity (SelectedMailboxInfo_uidvalidity selection)) in
  (if uidvalidity_changed then clear_synced_mailbox_messages mailbox_id else ret tt) ;;;
  let last_uid := default 0 (checkpoint_field checkpoint (lit "last_uid")) in
  let last_uid := if uidvalidity_changed then 0 else last_uid in
  do upstream_uids <- on_upstream uid_search_all ;;
  let upstream_uid_set : gset Z :=
    list_to_set (List.filter (fun uid => uid <=? i64_max) upstream_uids) in
  do local_messages <- on_repo (list_mailbox_messages mailbox_id) ;;
  do '(messages_synced, newest_uid) <- fold_each upstream_uids (0, None)
    (sync_uid account_id mailbox_id mailbox_name last_uid (by_upstream_uid local_messages)) ;;
  let new_last_uid := coalesce newest_uid (Some last_uid) in
  let state_json := checkpoint_json mailbox_name selection new_last_uid in
  do t <- utc_now ;;
  lift (validate_checkpoint (mkSyncCheckpoint account_id (Some mailbox_id)
    (coalesce (SelectedMailboxInfo_uidvalidity selection) (Mailbox_uidvalidity mailbox))
    (coalesce (SelectedMailboxInfo_highestmodseq selection) (Mailbox_highestmodseq mailbox))
    new_last_uid t)) ;;;
  on_repo (put_sync_state (mkNewSyncState account_id (Some mailbox_id) state_json
             (Some t) (Some t) None)) ;;;
  update_mailbox_sync_metadata mailbox_id selection ;;;
  reconcile_missing_upstream_messages_with_set mailbox_id upstream_uid_set ;;;
  on_repo (refresh_mailbox_counts mailbox_id) ;;;
  ret messages_synced.

(** What both callers upsert before they sync a mailbox. *)
Definition synced_mailbox (account_id : Z) (mailbox_name : str) : NewMailbox :=
  let canonical_name := to_ascii_lowercase mailbox_name in
  mkNewMailbox account_id mailbox_name canonical_name (Some (lit "/")) [] true
    (if str_eqb canonical_name (lit "inbox") then Some (92 :: lit "Inbox") else None)
    None None None 0 0 0.

Definition sync_mailbox (account_id : Z) (mailbox_name : str) : Sync Z :=
  do mailbox <- on_repo (upsert_mailbox (synced_mailbox account_id mailbox_name)) ;;
  sync_mailbox_inner account_id mailbox_name mailbox.

(** ** One account *)
Definition sync_account_mailboxes (account_id : Z) : Sync SyncRunReport :=
  do names <- on_upstream upstream_list_mailboxes ;;
  do report <- fold_each names empty_report (fun report mailbox_name =>
    do mailbox <- on_repo (upsert_mailbox (synced_mailbox account_id mailbox_name)) ;;
    do synced <- sync_mailbox_inner account_id mailbox_name mailbox ;;
    ret (mkSyncRunReport (mailboxes_synced report + 1) (messages_synced report + synced))) ;;
  remove_missing_mailboxes account_id (map to_ascii_lowercase names) ;;;
  ret report.

(** The async block: nothing for a disabled account or a busy lock, else the
    pass with the guard dropped at its end. *)
Definition sync_account_body (account : MailAccount) (account_id : Z) : Sync SyncRunReport :=
  if is_some (MailAccount_disabled_at account) then ret empty_report
  else if has_lock_manager then
    do guard <- on_lock (lock_acquire (account_lock_key account_id) 600000) ;;
    match guard with
    | None => ret empty_report
    | Some guard =>
        finally (sync_account_mailboxes account_id)
                (on_lock (SyncLockGuard_drop true guard))
    end
  else sync_account_mailboxes account_id.

(** [elapsed] is the measured duration of the pass. *)
Definition sync_account (elapsed account_id : Z) : Sync SyncRunReport :=
  do account <- on_repo (find_account_by_id_any_state account_id) ;;
  match account with
  | None => ret empty_report
  | Some account =>
      do outcome <- try (sync_account_body account account_id) ;;
      do t <- utc_now ;;
      match outcome with
      | inl report =>
          record_sync_run elapsed true ;;;
          ignore (on_repo (set_mail_account_sync_status account_id (Some t) None)) ;;;
          ret report
      | inr err =>
          record_sync_run elapsed false ;;;
          ignore (on_repo (set_mail_account_sync_status account_id (Some t)
            (Some (Error_to_string foreign_error err)))) ;;;
          fail err
      end
  end.
End SyncEngine.
