(* ===== verification/SyncSpecs.v ===== *)
(** * What synchronisation promises

    Reconciliation with the upstream mailbox, the quota gate and the blobs of
    ingestion, the payloads of queued mutations, the account lock, and where
    local and upstream UIDs get in each other's way. *)

From stdpp Require Import base strings list gmap.
From Stdlib Require Import ZArith Lia Permutation Sorting.Sorted.
From S2P Require Import Prelude RustStr Metrics Domain Storage Notifications Schema RepoCore Security RepoAccounts RepoMailboxes RepoMessages RepoQueue Invariant Integrity Scenario MessageSpecs Coordination Mime Search Engine Ingest Mutations QueueSpecs SyncEngine.

Local Open Scope Z_scope.

(** ** Reconciliation *)
Section Reconcile.
Context {O U X L : Type} `{PgText}.
Implicit Types e : Engine O U X L.
Local Abbreviation rows e := (mailbox_messages (w_db (e_world e))).

(** Deleting a list of messages one by one. *)
Definition delete_each (mb : Z) (ms : list MailboxMessage) : M Error (Engine O U X L) unit :=
  for_each ms (fun m =>
    on_repo (delete_mailbox_message mb (MailboxMessage_local_uid m)) ;;; ret tt).

Lemma delete_each_rows mb ms e e' :
  delete_each mb ms e = (e', Ok tt) ->
  forall r, In r (rows e') <->
    In r (rows e) /\
    ~ (live_in mb r = true /\
       exists m, In m ms /\ MailboxMessage_local_uid m = MailboxMessageRow_local_uid r).
Proof.
  unfold delete_each. revert e. induction ms as [|m ms IH]; intros e E r; simpl in E.
  { injection E as <-. split; [|tauto]. intros Hr. split; [done|]. intros (_ & m & [] & _). }
  inv_bind E. inv_bind Hstep. injection Hstep as <- <-.
  apply on_repo_inv in Hstep0 as (Hdel & _). apply delete_message_rows in Hdel as (Hrows & _).
  rewrite (IH _ E), Hrows, delete_where_In. unfold live_uid. split.
  - intros [[Hr Hne] Hn]. split; [done|]. intros (Hl & m' & [<-|Hm'] & Hu); [|by eauto].
    rewrite Hl, <- Hu in Hne. simpl in Hne. by rewrite Z.eqb_refl in Hne.
  - intros [Hr Hn]. split; [split; [done|]|].
    + apply not_true_iff_false. intros Ht. apply andb_true_iff in Ht as [Hl Hu].
      apply Z.eqb_eq in Hu. apply Hn. split; [done|]. exists m. split; [by left|done].
    + intros (Hl & m' & Hm' & Hu). apply Hn. split; [done|]. exists m'. split; [by right|done].
Qed.

(** Deleting the listed messages that satisfy a condition, in any order. *)
Lemma delete_listed_rows mb q ms e e' :
  engine_ok e ->
  (forall m, In m ms <-> In m (List.filter q (map MailboxMessage_from
                                  (mailbox_rows mb (w_db (e_world e)))))) ->
  delete_each mb ms e = (e', Ok tt) ->
  forall r, In r (rows e') <->
    In r (rows e) /\ (live_in mb r = true -> q (MailboxMessage_from r) = false).
Proof.
  intros Hok Hms E r. rewrite (delete_each_rows _ _ _ _ E).
  assert (Hm : live_in mb r = true -> In r (rows e) ->
    (exists m, In m ms /\ MailboxMessage_local_uid m = MailboxMessageRow_local_uid r) <->
    q (MailboxMessage_from r) = true).
  { intros Hl Hr. split.
    - intros (m & Hm & Hu). apply Hms, filter_In in Hm as [Hm Hq].
      apply in_map_iff in Hm as (r' & <- & Hr'). apply mailbox_rows_In in Hr' as [Hr' Hl'].
      destruct (ok_mailbox_messages _ _ Hok) as (_ & Hk & _).
      assert (r' = r) as ->; [|done].
      eapply (keys_ok_inj key_local_uid); [exact Hk|done|done|reflexivity|].
      unfold live_in in Hl, Hl'. b2p. unfold key_local_uid. simpl in Hu. congruence.
    - intros Hq. exists (MailboxMessage_from r). split; [|done]. apply Hms, filter_In.
      split; [|done]. apply in_map. by apply mailbox_rows_In. }
  split; intros [Hr Hn]; (split; [done|]).
  - intros Hl. apply not_true_iff_false. intros Hq. apply Hn. split; [done|]. by apply Hm.
  - intros [Hl Hex]. apply Hm in Hex; [|done|done]. rewrite Hn in Hex; done.
Qed.

Lemma delete_filtered_rows mb q e e' :
  engine_ok e ->
  delete_each mb (List.filter q (map MailboxMessage_from (mailbox_rows mb (w_db (e_world e))))) e =
    (e', Ok tt) ->
  forall r, In r (rows e') <->
    In r (rows e) /\ (live_in mb r = true -> q (MailboxMessage_from r) = false).
Proof. intros Hok. by apply delete_listed_rows. Qed.

Lemma reconcile_rows mb (uids : gset Z) e e' :
  engine_ok e ->
  reconcile_missing_upstream_messages_with_set mb uids e = (e', Ok tt) ->
  forall r, In r (rows e') <->
    In r (rows e) /\
    (live_in mb r = true ->
     match MailboxMessageRow_upstream_uid r with Some u => u ∈ uids | None => True end).
Proof.
  intros Hok E r. unfold reconcile_missing_upstream_messages_with_set in E.
  erewrite bind_Ok in E by apply on_repo_query.
  rewrite (delete_filtered_rows _ _ _ _ Hok E r). unfold vanished. simpl.
  destruct (MailboxMessageRow_upstream_uid r) as [u|]; [|tauto].
  rewrite negb_false_iff, bool_decide_eq_true. done.
Qed.

(** Reconciliation deletes exactly what vanished upstream: afterwards the
    message rows are those that were there before, less the live rows of the
    mailbox whose upstream UID is not among the server's; messages that were
    never uploaded and other mailboxes are kept. *)
Theorem reconcile_removes_vanished mb (uids : gset Z) e e' :
  engine_ok e ->
  reconcile_missing_upstream_messages_with_set mb uids e = (e', Ok tt) ->
  forall r, In r (rows e') <->
    In r (rows e) /\
    (live_in mb r = true ->
     match MailboxMessageRow_upstream_uid r with Some u => u ∈ uids | None => True end).
Proof. apply reconcile_rows. Qed.

(** When the server's UIDVALIDITY changed, the local copy is reset: of the
    live messages of the mailbox only those without an upstream UID stay, and
    rows of other mailboxes are untouched. *)
Theorem uidvalidity_reset_clears_synced mb e e' :
  engine_ok e -> clear_synced_mailbox_messages mb e = (e', Ok tt) ->
  forall r, In r (rows e') <->
    In r (rows e) /\ (live_in mb r = true -> MailboxMessageRow_upstream_uid r = None).
Proof.
  intros Hok E r. unfold clear_synced_mailbox_messages in E.
  erewrite bind_Ok in E by apply on_repo_query.
  rewrite (delete_filtered_rows _ _ _ _ Hok E r). simpl.
  destruct (MailboxMessageRow_upstream_uid r); simpl; [|tauto].
  split; intros [? Hn]; (split; [done|]); intros Hl; by apply Hn in Hl.
Qed.
End Reconcile.

(** ** Ingestion *)
Section Ingestion.
Context {O U X L : Type} `{ObjectStore O} `{SearchBackend X} `{Sha256, MimeParser}.
Implicit Types e : Engine O U X L.

(** The quota gate: a message that would take the account above its quota is
    refused before anything is written; the object store, the database and the
    index are as they were. *)
Theorem ingest_over_quota_changes_nothing has_search account_id mailbox_id name uid upstream_uid
  date raw parsed flags e q n :
  get_account_quota account_id (e_world e) = (e_world e, Ok (Some q)) ->
  estimate_message_bytes raw parsed = Ok n ->
  Quota_max_bytes q < Quota_used_bytes q + n ->
  exists err, ingest_parsed_message has_search account_id mailbox_id name uid upstream_uid date
                raw parsed flags e = (e, Err err).
Proof.
  intros Hq Hn Hover. unfold ingest_parsed_message.
  erewrite bind_Ok by (unfold lift; by rewrite Hn).
  assert (Hgate : exists err, check_quota (O := O) (U := U) (X := X) (L := L) account_id n e =
            (e, Err err)); [|destruct Hgate as [err Hg]; exists err; by apply bind_Err].
  unfold check_quota. unfold get_account_quota in *.
  erewrite bind_Ok by apply on_repo_query. injection Hq as ->.
  unfold checked_add_i64. destruct (in_i64 (Quota_used_bytes q + n)); simpl.
  - erewrite bind_Ok by reflexivity. rewrite (proj2 (Z.ltb_lt _ _)) by lia. eauto.
  - erewrite bind_Err by reflexivity. eauto.
Qed.
End Ingestion.

(** ** The blob of an ingested message *)
Section Blobs.
Context {O U X L : Type} `{SearchBackend X} `{Sha256, MimeParser}
  `{ObjectStore O} `{!ObjectStoreLaws O}.
Implicit Types e : Engine O U X L.

(** Under [key] the store holds bytes with the digest of [raw]. *)
Definition stored (key : str) (raw : bytes) (e : Engine O U X L) : Prop :=
  store_ok (e_store e) /\
  exists b, store_contents (e_store e) !! key = Some b /\ sha256_hex b = sha256_hex raw.

Lemma key_digest_inj t1 t2 b1 b2 :
  content_addressed_key t1 b1 = content_addressed_key t2 b2 -> sha256_hex b1 = sha256_hex b2.
Proof.
  intros E. pose proof (content_addressed_key_split t1 b1) as H1'.
  pose proof (content_addressed_key_split t2 b2) as H2'. rewrite E in H1'. congruence.
Qed.

(** A put of other bytes leaves it so, also under the same key. *)
Lemma put_keeps_stored t raw k b :
  preserves (stored (content_addressed_key t raw) raw) (on_store (store_put k b)).
Proof.
  intros e [Hok (b0 & Hb & Hd)]. unfold on_store, zoom.
  assert (Hdec : (exists t', k = content_addressed_key t' b) \/
                 forall t', k <> content_addressed_key t' b).
  { destruct (validate_content_addressed_bytes k b) as [[]|err|] eqn:E.
    - left. by apply validate_iff.
    - right. intros t' ->. assert (validate_content_addressed_bytes (content_addressed_key t' b) b
        = Ok tt) as Ht by (apply validate_iff; eauto). congruence.
    - by apply validate_not_panic in E. }
  destruct Hdec as [Hk|Hk].
  - destruct (law_put_ok k b (e_store e) Hok Hk) as (s' & -> & Hok' & Hc). split; [done|].
    simpl. rewrite Hc. destruct (decide (k = content_addressed_key t raw)) as [->|Hne].
    + exists b. rewrite lookup_insert_eq. split; [done|]. destruct Hk as [t' Hk].
      symmetry. by eapply key_digest_inj.
    + exists b0. by rewrite lookup_insert_ne.
  - destruct (law_put_reject k b (e_store e) Hk) as [err ->]. simpl. split; [done|]. eauto.
Qed.

Lemma repo_keeps_stored {A} key raw (m : Repo A) : preserves (stored key raw) (on_repo m).
Proof. intros e He. unfold on_repo, zoom. by destruct (m (e_world e)). Qed.
Lemma search_keeps_stored {A} key raw (m : M Error X A) :
  preserves (stored key raw) (on_search m).
Proof. intros e He. unfold on_search, zoom. by destruct (m (e_search e)). Qed.
Lemma metrics_keeps_stored key raw f : preserves (stored key raw) (on_metrics f).
Proof. by intros e He. Qed.
Lemma now_keeps_stored key raw : preserves (stored key raw) utc_now.
Proof. by intros e He. Qed.

Hint Resolve repo_keeps_stored search_keeps_stored metrics_keeps_stored now_keeps_stored
  put_keeps_stored : repo.

Lemma ingest_part_keeps_stored t raw account_id message_id n part :
  preserves (stored (content_addressed_key t raw) raw)
    (ingest_part (U := U) (X := X) (L := L) account_id message_id n part).
Proof.
  unfold ingest_part, record_object_store_bytes_written.
  repeat (apply preserves_bind; [solve [eauto with repo]|intros ?]). apply preserves_ret.
Qed.

(** An ingested message has its blob: when ingestion succeeds, the key it
    reports is the content address of the raw message and the store holds,
    under that key, bytes with the digest of the raw message (the message
    itself, for a hash without collisions), whatever the MIME parts are. *)
Theorem ingested_blob_is_stored has_search account_id mailbox_id name uid upstream_uid date
  raw parsed flags e e' im :
  store_ok (e_store e) ->
  ingest_parsed_message has_search account_id mailbox_id name uid upstream_uid date
    raw parsed flags e = (e', Ok im) ->
  IngestedMessage_blob_key im = content_addressed_key Rfc822 raw /\
  stored (IngestedMessage_blob_key im) raw e'.
Proof.
  intros Hok E. unfold ingest_parsed_message in E. set (key := content_addressed_key Rfc822 raw) in *.
  inv_bind E. injection Hstep as <- _. inv_bind E.
  assert (Hs : e_store w = e_store e).
  { unfold check_quota, get_account_quota in Hstep. erewrite bind_Ok in Hstep by apply on_repo_query.
    destruct (Quota_from <$> _) as [q|]; [|by injection Hstep as <- _].
    inv_bind Hstep. injection Hstep0 as <- _. destruct (_ <? _); [done|]. by injection Hstep as <- _. }
  inv_bind E. apply on_store_inv in Hstep0 as (Hput & _). rewrite Hs in Hput.
  destruct (law_put_ok key raw (e_store e) Hok) as (s' & Hp & Hok' & Hc); [by exists Rfc822|].
  rewrite Hp in Hput. injection Hput as Hs' Hx. subst x1. cbn [ObjectMetadata_key ObjectMetadata_sha256
    ObjectMetadata_size_octets] in E.
  assert (H0s : stored key raw w0).
  { unfold stored. rewrite <- Hs'. split; [done|]. exists raw. by rewrite Hc, lookup_insert_eq. }
  clear Hs' Hs Hp Hc Hok' Hstep.
  match type of E with ?m w0 = _ => assert (Hpres : preserves (stored key raw) m) end.
  { unfold record_object_store_bytes_written.
    repeat first
      [ apply preserves_bind; [|intros ?]
      | apply preserves_fold_each; intros; apply ingest_part_keeps_stored
      | solve [eauto with repo]
      | match goal with |- preserves _ (if ?b then _ else _) => destruct b end ]. }
  specialize (Hpres w0 H0s). rewrite E in Hpres. simpl in Hpres.
  do 9 (inv_bind E; clear Hstep). injection E as _ <-. done.
Qed.
End Blobs.

(** ** Payloads *)
Lemma get_flags_strings l : omap Value_as_str (map VString l) = l.
Proof. induction l as [|s l IH]; [done|]. csimpl. by rewrite IH. Qed.

(** What a copy or move queues is what its replay reads: the six fields and the
    flags come back from the payload as they were put in, for identifiers in the
    64-bit range. *)
Theorem copy_payload_roundtrip kind src dst src_name dst_name uid dst_uid flags :
  in_i64 src = true -> in_i64 dst = true -> in_i64 uid = true -> in_i64 dst_uid = true ->
  let payload := copy_payload src dst src_name dst_name uid dst_uid flags in
  copy_fields kind payload = Ok (mkCopyFields src src_name dst_name dst uid dst_uid) /\
  get_flags payload = flags.
Proof.
  intros H1 H2 H3 H4 payload. split.
  - unfold copy_fields, field, get_i64, get_str, payload, copy_payload. simpl.
    by rewrite H1, H2, H3, H4.
  - unfold get_flags, payload, copy_payload. simpl. apply get_flags_strings.
Qed.

Lemma copy_payload_roundtrip_witness :
  copy_fields (lit "copy") (copy_payload 1 2 (lit "INBOX") (lit "Archive") 3 1 [seen]) =
  Ok (mkCopyFields 1 (lit "INBOX") (lit "Archive") 2 3 1).
Proof.
  apply (copy_payload_roundtrip (lit "copy") 1 2 (lit "INBOX") (lit "Archive") 3 1 [seen]);
    reflexivity.
Defined.

(** A replayed flag change addresses the upstream message by the LOCAL UID, in
    whatever mailbox the connection has selected: the replay of a queued flag
    update is one UID STORE of the payload's local UID, and depends neither on
    the upstream UID the database maps it to nor on the mailbox of the
    mutation. *)
Theorem flag_replay_uses_local_uid {O U X L} `{UpstreamClient U} uid flags
  (e : Engine O U X L) :
  0 <= uid <= u64_max ->
  apply_flag_update (flags_payload uid flags) e = on_upstream (uid_store_flags uid flags) e.
Proof.
  intros Hu. unfold apply_flag_update, get_u64, flags_payload, get_flags. simpl.
  assert (in_u64 uid = true) as -> by (unfold in_u64; lia).
  erewrite bind_Ok by reflexivity. by rewrite get_flags_strings.
Qed.

(** ** Local and upstream UIDs *)

(** The mod-sequence is assigned for every mailbox that exists. *)
Lemma assign_modseq_ok mrow requested w :
  db_ok (w_db w) (w_seq w) -> In mrow (mailboxes (w_db w)) ->
  exists w' v, assign_mailbox_modseq (MailboxRow_id mrow) requested w = (w', Ok v) /\
    mailbox_messages (w_db w') = mailbox_messages (w_db w).
Proof.
  intros Hok Hin.
  assert (Hrun : exists w' v, assign_mailbox_modseq (MailboxRow_id mrow) requested w = (w', Ok v)).
  { unfold assign_mailbox_modseq. erewrite bind_Ok by reflexivity.
    erewrite select_mailbox by done. erewrite bind_Ok by reflexivity. cbv zeta.
    destruct (_ =? _); (erewrite bind_Ok by reflexivity); eexists _, _; reflexivity. }
  destruct Hrun as (w' & v & E). exists w', v. split; [done|].
  eapply keeps_run; [apply keeps_assign_modseq|exact E].
Qed.

(** A row statement that would give a second message the same upstream UID. *)
Lemma upsert_row_conflict uid modseq input w r u :
  In r (mailbox_messages (w_db w)) ->
  MailboxMessageRow_mailbox_id r = NewMailboxMessage_mailbox_id input ->
  MailboxMessageRow_upstream_uid r = Some u -> NewMailboxMessage_upstream_uid input = Some u ->
  MailboxMessageRow_local_uid r <> uid ->
  exists w', upsert_mailbox_message_row uid modseq input w =
    (w', Err (ESqlx (UniqueViolation (lit "mailbox_messages_mailbox_upstream_uid_idx")))).
Proof.
  intros Hr Hmb Hru Hiu Hne. unfold upsert_mailbox_message_row.
  do 3 (erewrite bind_Ok by reflexivity). cbv zeta. cbn [w_db].
  set (p := has_uid (NewMailboxMessage_mailbox_id input) uid).
  assert (Hpr : p r = false).
  { unfold p, has_uid. by rewrite (proj2 (Z.eqb_neq (MailboxMessageRow_local_uid r) uid)), andb_false_r. }
  assert (Hk : key_upstream_uid r = Some (NewMailboxMessage_mailbox_id input, u))
    by (unfold key_upstream_uid; by rewrite Hru, Hmb).
  assert (Hdup : forall t x, In r t -> In x t -> MailboxMessageRow_local_uid x = uid ->
    key_upstream_uid x = Some (NewMailboxMessage_mailbox_id input, u) ->
    unique_by key_upstream_uid t = false).
  { intros t x Ht Hx Hxu Hxk. apply not_true_iff_false. intros Hu. apply unique_by_ok in Hu.
    apply Hne. rewrite <- Hxu. f_equal. by eapply keys_ok_inj. }
  destruct (select p (mailbox_messages (w_db w))) as [|r0 l] eqn:Es; cbv beta iota;
    (erewrite bind_Ok by reflexivity); unfold require.
  - erewrite Hdup; [eexists; reflexivity| | | |].
    + simpl. apply in_app_iff. by left.
    + simpl. apply in_app_iff. right. by left.
    + done.
    + unfold key_upstream_uid. simpl. by rewrite Hiu.
  - assert (Hr0 : In r0 (select p (mailbox_messages (w_db w)))) by (rewrite Es; by left).
    apply select_In in Hr0 as [Hr0 Hp0].
    erewrite (Hdup _ (overwrite_message (w_now w) modseq input r0)); [eexists; reflexivity| | | |].
    + simpl. apply update_In. exists r. by rewrite Hpr.
    + simpl. apply update_In. exists r0. by rewrite Hp0.
    + unfold p, has_uid in Hp0. b2p. done.
    + unfold key_upstream_uid. simpl. unfold p, has_uid in Hp0. b2p. by rewrite Hiu, H.
Qed.

(** A locally appended message whose local UID differs from the UID the server
    gave it blocks the mailbox's sync: the pass tries to store the server's copy
    under the server's UID, and the database refuses it because the appended row
    already carries that upstream UID; nothing is stored. *)
Theorem sync_of_appended_message_fails mrow r u input w :
  db_ok (w_db w) (w_seq w) -> In mrow (mailboxes (w_db w)) ->
  In r (mailbox_messages (w_db w)) ->
  MailboxMessageRow_mailbox_id r = MailboxRow_id mrow ->
  MailboxMessageRow_upstream_uid r = Some u -> MailboxMessageRow_local_uid r <> u -> u <> 0 ->
  NewMailboxMessage_mailbox_id input = MailboxRow_id mrow ->
  NewMailboxMessage_local_uid input = u -> NewMailboxMessage_upstream_uid input = Some u ->
  exists w', upsert_mailbox_message input w =
    (w', Err (ESqlx (UniqueViolation (lit "mailbox_messages_mailbox_upstream_uid_idx")))) /\
    w_db w' = w_db w.
Proof.
  intros Hok Hm Hr Hmb Hru Hne H0 Himb Hiu Hiup. unfold upsert_mailbox_message.
  destruct (assign_modseq_ok mrow (NewMailboxMessage_modseq input) w Hok Hm) as (w1 & v & Ea & Hmm).
  destruct (upsert_row_conflict u v input w1 r u) as (w2 & Er);
    [by rewrite Hmm|congruence|done|done|done|].
  assert (Htx : upsert_tx input w =
    (w2, Err (ESqlx (UniqueViolation (lit "mailbox_messages_mailbox_upstream_uid_idx"))))).
  { unfold upsert_tx. rewrite Hiu, (proj2 (Z.eqb_neq u 0)) by done.
    erewrite bind_Ok by reflexivity. rewrite Himb. erewrite bind_Ok by exact Ea.
    by apply bind_Err. }
  eexists. split; [apply bind_Err; unfold transaction; rewrite Htx; reflexivity|done].
Qed.

(** A sync pass overwrites a locally appended message that happens to have the
    UID of a new upstream message: after the upstream message was stored under
    its UID, the row of the local message shows the upstream message instead, and
    no row of the mailbox has that UID with the local message. *)
Theorem sync_overwrites_local_append input r w w' m :
  db_ok (w_db w) (w_seq w) -> In r (mailbox_messages (w_db w)) ->
  live_in (NewMailboxMessage_mailbox_id input) r = true ->
  MailboxMessageRow_upstream_uid r = None ->
  NewMailboxMessage_local_uid input = MailboxMessageRow_local_uid r ->
  NewMailboxMessage_local_uid input <> 0 ->
  upsert_mailbox_message input w = (w', Ok m) ->
  forall x, In x (mailbox_messages (w_db w')) ->
    key_local_uid x = key_local_uid r ->
    MailboxMessageRow_message_id x = NewMailboxMessage_message_id input.
Proof.
  intros Hok Hr Hl _ Hu H0 E x Hx Hk.
  destruct (safe_upsert_mailbox_message input (w_seq w) w) as [Hok' _]; [by split|].
  rewrite E in Hok'. simpl in Hok'.
  apply upsert_message_inv in E as (w1 & row & n & Htx & _ & Hrows).
  apply upsert_tx_inv in Htx as (w0 & uid & modseq & Hrow & _ & Huid).
  rewrite (proj2 (Z.eqb_neq _ _) H0) in Huid.
  apply upsert_row_inv in Hrow as (Hin & _ & Hmb & Hru & _ & Hmsg & _).
  rewrite <- Hmsg. f_equal. destruct (ok_mailbox_messages _ _ Hok') as (_ & Hkeys & _).
  rewrite <- Hrows in Hin. eapply (keys_ok_inj key_local_uid _ _ _ _ Hkeys Hx Hin); [exact Hk|].
  unfold live_in in Hl. b2p. unfold key_local_uid. congruence.
Qed.

(** ** The account lock *)
Section AccountLock.
Context {O U X L : Type} `{ObjectStore O} `{UpstreamClient U} `{SearchBackend X}
  `{SyncLockManager L}.
Context `{Sha256, Texts, MimeParser, PgText}.
Implicit Types e : Engine O U X L.

(** A sync pass whose account lock is held elsewhere does nothing: it reports
    an empty run without a word to the server, and mailboxes, messages, queue
    and object store are as they were. *)
Theorem sync_skips_locked_account has_search elapsed account_id account e l' :
  find_account_by_id_any_state account_id (e_world e) = (e_world e, Ok (Some account)) ->
  MailAccount_disabled_at account = None ->
  lock_acquire (account_lock_key account_id) 600000 (e_lock e) = (l', Ok None) ->
  exists e', sync_account has_search true elapsed account_id e = (e', Ok empty_report) /\
    e_upstream e' = e_upstream e /\ e_store e' = e_store e /\
    let db := w_db (e_world e) in let db' := w_db (e_world e') in
    mailboxes db' = mailboxes db /\ messages db' = messages db /\
    mailbox_messages db' = mailbox_messages db /\ pending_mutations db' = pending_mutations db.
Proof.
  intros Hfind Hdis Hlock. unfold sync_account.
  erewrite bind_Ok by (apply on_repo_spec; exact Hfind). cbv beta iota.
  unfold sync_account_body. rewrite Hdis. cbn [is_some].
  erewrite bind_Ok.
  2: { unfold try, bind, on_lock, zoom. cbn [e_lock]. rewrite Hlock. reflexivity. }
  erewrite bind_Ok by reflexivity. erewrite bind_Ok by reflexivity.
  erewrite bind_Ok by reflexivity. eexists. split; [reflexivity|]. done.
Qed.
End AccountLock.

(** ** Witnesses *)
Module SyncWitness.

#[local] Instance sha : Sha256 := { sha256_hex := fun b => b }.
#[local] Instance texts : Texts := {
json_to_string := fun _ => [];
to_rfc3339 := fmt_i;
parse_rfc3339 := fun s => match parse_i64 s with Some d => inl d | None => inr [] end;
debug_str := fun s => s;
foreign_error := fun _ => []
}.
Definition parsed (raw : bytes) (parts : list MimePartRecord) : ParsedMessage :=
mkParsedMessage (sha256_hex raw) (Z.of_nat (length raw)) None None Null Null Null Null Null Null
  Null None parts.
#[local] Instance mime : MimeParser := { parse_message := fun raw => Ok (parsed raw []) }.
#[local] Instance search : SearchBackend unit := { index_message := fun _ _ => ret tt; backend_search := fun _ _ => ret [] }.
(** A server that records the stores it is sent. *)
#[local] Instance upstream : UpstreamClient (list (Z * list str)) := {
upstream_select := fun _ => ret tt;
upstream_select_mailbox := fun _ => fail (EParse []);
upstream_list_mailboxes := ret [];
uid_search_all := ret [];
uid_fetch_flags := fun _ => ret [];
uid_fetch_rfc822 := fun _ => ret [];
append_with_internal_date := fun _ _ _ _ => ret None;
uid_store_flags := fun uid flags => modify (fun log => log ++ [(uid, flags)]);
uid_copy_message := fun _ _ => ret 1;
expunge_selected := ret tt
}.

Definition State : Type := Engine MemoryObjectStore (list (Z * list str)) unit unit.
Definition engine (w : World) : State :=
mkEngine w (mkMemoryObjectStore ∅) [] tt tt AppMetrics_new.

Lemma reconcile_removes_vanished_witness :
let e' := fst (reconcile_missing_upstream_messages_with_set 1 {[1]} (engine world)) in
In r1 (mailbox_messages (w_db (e_world e'))) /\ In r3 (mailbox_messages (w_db (e_world e'))).
Proof.
intros e'.
assert (H : forall r, In r (mailbox_messages (w_db (e_world e'))) <->
  In r (mailbox_messages (w_db (e_world (engine world)))) /\
  (live_in 1 r = true ->
   match MailboxMessageRow_upstream_uid r with Some u => u ∈ ({[1]} : gset Z) | None => True end)).
{ refine (reconcile_removes_vanished 1 {[1]} (engine world) e' world_ok _).
  vm_compute. reflexivity. }
rewrite !H. change (e_world (engine world)) with world. rewrite world_rows.
split; (split; [simpl; tauto|]); intros _; simpl; [set_solver|exact I].
Defined.

Lemma uidvalidity_reset_clears_synced_witness :
let e' := fst (clear_synced_mailbox_messages 1 (engine world)) in
~ In r1 (mailbox_messages (w_db (e_world e'))) /\ In r3 (mailbox_messages (w_db (e_world e'))).
Proof.
intros e'.
assert (H : forall r, In r (mailbox_messages (w_db (e_world e'))) <->
  In r (mailbox_messages (w_db (e_world (engine world)))) /\
  (live_in 1 r = true -> MailboxMessageRow_upstream_uid r = None)).
{ refine (uidvalidity_reset_clears_synced 1 (engine world) e' world_ok _).
  vm_compute. reflexivity. }
rewrite !H. change (e_world (engine world)) with world. rewrite world_rows. split.
- intros [_ Hn]. discriminate (Hn eq_refl).
- split; [simpl; tauto|done].
Defined.

Definition limited : World := run_calls [UpsertAccountQuota 1 10] world.

Lemma ingest_over_quota_changes_nothing_witness : exists err,
ingest_parsed_message true 1 1 (lit "INBOX") 0 None None (lit "hello world")
  (parsed (lit "hello world") []) [] (engine limited) = (engine limited, Err err).
Proof.
apply (ingest_over_quota_changes_nothing true 1 1 (lit "INBOX") 0 None None (lit "hello world")
         (parsed (lit "hello world") []) [] (engine limited) (mkQuota 1 None (Some 1) 10 0 1000) 11).
- vm_compute. reflexivity.
- reflexivity.
- simpl. lia.
Defined.

Definition part : MimePartRecord :=
mkMimePartRecord (lit "1") (lit "text/plain") None None None None 2
  (content_addressed_key MimePartObject (lit "hi")) (lit "hi") None Null (lit "hi").

Lemma ingested_blob_is_stored_witness :
let run := ingest_parsed_message true 1 1 (lit "INBOX") 0 None None (lit "hello")
             (parsed (lit "hello") [part]) [] (engine world) in
stored (lit "Rfc822/hello") (lit "hello") (fst run).
Proof.
intros run.
refine (proj2 (ingested_blob_is_stored true 1 1 (lit "INBOX") 0 None None (lit "hello")
  (parsed (lit "hello") [part]) [] (engine world) (fst run)
  (mkIngestedMessage 4 4 4 (lit "Rfc822/hello")) _ _)).
- intros k b Hk. simpl in Hk. rewrite lookup_empty in Hk. discriminate Hk.
- vm_compute. reflexivity.
Defined.

Lemma flag_replay_uses_local_uid_witness :
apply_flag_update (flags_payload 3 [seen]) (engine world) =
on_upstream (uid_store_flags 3 [seen]) (engine world).
Proof. apply (flag_replay_uses_local_uid 3 [seen] (engine world)). unfold u64_max. lia. Defined.

(** The message appended under UID 3 was uploaded and got UID 9. *)
Definition uploaded : World := run_calls [SetUpstreamUid 1 3 9] world.
Definition uploaded_row : MailboxMessageRow :=
mkMailboxMessageRow 3 1 3 3 (Some 9) (Some 3) [] [] false None 1000 1000.

Lemma sync_of_appended_message_fails_witness : exists w',
upsert_mailbox_message (row 1 2 9 (Some 9) []) uploaded =
  (w', Err (ESqlx (UniqueViolation (lit "mailbox_messages_mailbox_upstream_uid_idx")))) /\
w_db w' = w_db uploaded.
Proof.
refine (sync_of_appended_message_fails inbox_row uploaded_row 9 (row 1 2 9 (Some 9) []) uploaded
  _ _ _ eq_refl eq_refl _ _ eq_refl eq_refl eq_refl).
- apply (db_ok_reachable world uploaded); [exact world_ok|apply run_calls_reachable].
- vm_compute. left. reflexivity.
- vm_compute. right. right. left. reflexivity.
- simpl. lia.
- lia.
Defined.

Lemma sync_overwrites_local_append_witness :
let w' := fst (upsert_mailbox_message (row 1 2 3 (Some 3) []) world) in
List.Forall (fun x => key_local_uid x = Some (1, 3) -> MailboxMessageRow_message_id x = 2)
  (mailbox_messages (w_db w')).
Proof.
intros w'. apply List.Forall_forall.
refine (sync_overwrites_local_append (row 1 2 3 (Some 3) []) r3 world w'
  (mkMailboxMessage 3 1 2 3 (Some 3) (Some 4) [] [] false None 1000 1000) world_ok _
  eq_refl eq_refl eq_refl _ _).
- rewrite world_rows. simpl. tauto.
- simpl. lia.
- vm_compute. reflexivity.
Defined.

Lemma sync_skips_locked_account_witness : exists e',
sync_account true true 0 1 (engine world) = (e', Ok empty_report) /\
e_upstream e' = e_upstream (engine world).
Proof.
destruct (sync_skips_locked_account true 0 1
  (mkMailAccount 1 1 (lit "Alice") (lit "alice@example.com") (lit "imap.example.com") 993 Tls
     Login (nonce ++ 56 :: as_bytes (lit "alice")) (nonce ++ 56 :: as_bytes (lit "hunter2"))
     1000 None None None) (engine world) tt) as (e' & E & Hu & _).
- vm_compute. reflexivity.
- reflexivity.
- reflexivity.
- exists e'. split; [exact E|exact Hu].
Defined.

End SyncWitness.
