(* ===== verification/Convergence.v ===== *)
(** * A sync pass converges

    What one successful pass over a mailbox ([sync_mailbox_inner] of
    crates/sync/src/lib.rs) leaves behind: every message the server has above
    the checkpoint is in the mailbox under its UID, and no synced message of the
    mailbox is left that the server does not have. *)

From stdpp Require Import base strings list gmap.
From Stdlib Require Import ZArith Lia Permutation Sorting.Sorted.
From S2P Require Import Prelude RustStr Metrics Domain Storage Notifications Schema RepoCore Security RepoAccounts RepoMailboxes RepoMessages RepoQueue Invariant Integrity Scenario MessageSpecs Coordination Mime Search Engine Ingest Mutations QueueSpecs SyncEngine SyncSpecs.

Local Open Scope Z_scope.

(** The mailbox has the upstream message [u] under its own UID, as a message
    with an id that satisfies [P]. *)
Definition holds_message (P : Z -> Prop) (mb u : Z) (rows : list MailboxMessageRow) : Prop :=
  exists r, In r rows /\ live_in mb r = true /\ MailboxMessageRow_local_uid r = u /\
            MailboxMessageRow_upstream_uid r = Some u /\ P (MailboxMessageRow_message_id r).

(** ... as any message. *)
Definition holds_copy (mb u : Z) : list MailboxMessageRow -> Prop :=
  holds_message (fun _ => True) mb u.

(** A mailbox row for an upstream message, stored under the upstream UID. *)
Definition synced_row (input : NewMailboxMessage) : Prop :=
  NewMailboxMessage_upstream_uid input = Some (NewMailboxMessage_local_uid input) /\
  NewMailboxMessage_is_expunged input = false.

(** ** Repository calls *)

(** A transaction keeps a condition on the rows when its committed runs do. *)
Lemma transaction_rows {A} (Q : list MailboxMessageRow -> Prop) (m : Repo A) :
  (forall w w' a, Q (mailbox_messages (w_db w)) -> m w = (w', Ok a) ->
                  Q (mailbox_messages (w_db w'))) ->
  preserves (fun w => Q (mailbox_messages (w_db w))) (transaction m).
Proof.
  intros Hm w Hw. unfold transaction. destruct (m w) as [w' [a|e|]] eqn:E; [|done..].
  by eapply Hm.
Qed.

Lemma keeps_rows {A} (Q : list MailboxMessageRow -> Prop) (m : Repo A) :
  keeps mailbox_messages m -> preserves (fun w => Q (mailbox_messages (w_db w))) m.
Proof. intros Hm w Hw. by rewrite Hm. Qed.

(** Storing a message under its upstream UID does not lose another copy. *)
Lemma upsert_tx_keeps_copy P mb u input w w' a :
  synced_row input ->
  (NewMailboxMessage_local_uid input = u -> P (NewMailboxMessage_message_id input)) ->
  holds_message P mb u (mailbox_messages (w_db w)) -> upsert_tx input w = (w', Ok a) ->
  holds_message P mb u (mailbox_messages (w_db w')).
Proof.
  intros [Hup Hex] HP (r & Hr & Hl & Hu & Hru & Hm) Htx. destruct a as [row n].
  apply upsert_tx_inv in Htx as (w0 & uid & modseq & Hrow & Hmm & Huid).
  apply upsert_row_inv in Hrow as (Hin & Hkeep & Hmb & Hrow & _ & Hmsg & Hrup & Hrex).
  destruct (has_uid (NewMailboxMessage_mailbox_id input) uid r) eqn:E;
    [|exists r; split; [apply Hkeep; [by rewrite Hmm|done]|done]].
  pose proof E as E'. unfold has_uid in E. unfold live_in in Hl. b2p.
  destruct (Z.eqb_spec (NewMailboxMessage_local_uid input) 0) as [Hz|Hz].
  - assert (MailboxMessageRow_local_uid r < uid); [|lia]. apply Huid; [done|].
    unfold live_in. apply andb_true_iff. split; [by apply Z.eqb_eq|by apply negb_true_iff].
  - exists row. rewrite Hrup, Hup, Hrow, Hmsg.
    split_and!; [done| |congruence|congruence|apply HP; congruence].
    unfold live_in. rewrite Hrex, Hex, Hmb. simpl. rewrite andb_true_r. apply Z.eqb_eq. congruence.
Qed.

Lemma upsert_keeps_copy P mb u input :
  synced_row input ->
  (NewMailboxMessage_local_uid input = u -> P (NewMailboxMessage_message_id input)) ->
  preserves (fun w => holds_message P mb u (mailbox_messages (w_db w)))
    (upsert_mailbox_message input).
Proof.
  intros Hin HP. unfold upsert_mailbox_message. apply preserves_bind.
  - apply transaction_rows. intros. by eapply upsert_tx_keeps_copy.
  - intros [row n]. apply keeps_rows.
    apply keeps_bind; [apply keeps_query|intros account_id].
    apply keeps_bind; [|intros _; keep_steps].
    destruct (MailboxMessageRow_upstream_uid row); [|apply keeps_ret].
    apply keeps_bind; [apply keeps_query|intros v; by apply keeps_upsert_uid_mapping].
Qed.

(** ... and afterwards it is there. *)
Lemma upsert_makes_copy (P : Z -> Prop) input w w' m :
  synced_row input -> P (NewMailboxMessage_message_id input) ->
  NewMailboxMessage_local_uid input <> 0 ->
  upsert_mailbox_message input w = (w', Ok m) ->
  holds_message P (NewMailboxMessage_mailbox_id input) (NewMailboxMessage_local_uid input)
    (mailbox_messages (w_db w')).
Proof.
  intros [Hup Hex] HP H0 H. apply upsert_message_inv in H as (w1 & row & n & Htx & _ & ->).
  apply upsert_tx_inv in Htx as (w0 & uid & modseq & Hrow & _ & Huid).
  rewrite (proj2 (Z.eqb_neq _ _) H0) in Huid. subst uid.
  apply upsert_row_inv in Hrow as (Hin & _ & Hmb & Hrow & _ & Hmsg & Hrup & Hrex).
  exists row. rewrite Hrup, Hmsg. split_and!; [done| |done|done|done].
  unfold live_in. by rewrite Hmb, Hrex, Hex, Z.eqb_refl.
Qed.

Lemma flags_keep_copy P mb u mb' uid flags :
  preserves (fun w => holds_message P mb u (mailbox_messages (w_db w)))
    (update_mailbox_message_flags mb' uid flags).
Proof.
  unfold update_mailbox_message_flags. apply preserves_bind.
  - apply transaction_rows. intros w w' a Hc E. unfold flags_tx in E.
    inv_bind E. apply (keeps_run mailbox_messages) in Hstep; [|apply keeps_assign_modseq].
    inv_bind E. injection Hstep0 as <- <-. inv_bind E. injection Hstep0 as <- <-.
    inv_bind E. injection Hstep0 as <- <-.
    assert (Hw : mailbox_messages (w_db w') = update (live_uid mb' uid)
              (set_row_flags flags x (w_now w0)) (mailbox_messages (w_db w))).
    { rewrite <- Hstep. destruct (head _); [|by injection E as <- _].
      inv_bind E. injection E as <- _. unfold mailbox_sequence_number_in_tx in Hstep0.
      inv_bind Hstep0. injection Hstep1 as <- _. by injection Hstep0 as <- _. }
    rewrite Hw. destruct Hc as (r & Hr & Hl & Hu & Hru & Hm).
    exists (if live_uid mb' uid r then set_row_flags flags x (w_now w0) r else r).
    split; [apply update_In; eauto|]. by destruct (live_uid mb' uid r).
  - intros [[row n]|]; apply keeps_rows; unfold account_id_for_mailbox; keep_steps.
Qed.

(** ** Ingestion *)
Section Pass.
Context {O U X L : Type} `{ObjectStore O} `{UpstreamClient U} `{SearchBackend X}.
Context `{Sha256, MimeParser, PgText}.
Variable has_search : bool.
Implicit Types e : Engine O U X L.

Local Abbreviation rows e := (mailbox_messages (w_db (e_world e))).
Definition copy (mb u : Z) (e : Engine O U X L) : Prop := holds_copy mb u (rows e).

Lemma ekeeps_rows {A} (Q : list MailboxMessageRow -> Prop) (m : M Error (Engine O U X L) A) :
  ekeeps mailbox_messages m -> preserves (fun e => Q (rows e)) m.
Proof. intros Hm e He. by rewrite Hm. Qed.

Lemma on_repo_rows {A} (Q : list MailboxMessageRow -> Prop) (m : Repo A) :
  preserves (fun w => Q (mailbox_messages (w_db w))) m -> preserves (fun e => Q (rows e)) (on_repo m).
Proof.
  intros Hm e He. specialize (Hm _ He). unfold on_repo, zoom. by destruct (m (e_world e)).
Qed.

Lemma ekeeps_on_search {A B} (g : Database -> B) (m : M Error X A) :
  ekeeps g (on_search (O := O) (U := U) (L := L) m).
Proof. intros e. unfold on_search, zoom. by destruct (m (e_search e)). Qed.

Lemma ingest_part_keeps_rows account_id message_id n part :
  ekeeps mailbox_messages
    (ingest_part (O := O) (U := U) (X := X) (L := L) account_id message_id n part).
Proof.
  unfold ingest_part, record_object_store_bytes_written, insert_mime_part, upsert_cache_object.
  ekeep_steps; keep_steps.
Qed.

Lemma ekeeps_fold_each {A B C} (g : Database -> C) (xs : list A) (acc : B)
  (m : B -> A -> M Error (Engine O U X L) B) :
  (forall b a, ekeeps g (m b a)) -> ekeeps g (fold_each xs acc m).
Proof.
  intros Hm. revert acc. induction xs as [|x xs IH]; intros acc; simpl; [apply ekeeps_ret|].
  apply ekeeps_bind; [apply Hm|]. intros b. apply IH.
Qed.

Hint Resolve ekeeps_on_search : repo.

(** The repository calls of an ingestion that write other tables. *)
Lemma keeps_upsert_message input : keeps mailbox_messages (upsert_message input).
Proof. unfold upsert_message. keep_steps. Qed.
Lemma keeps_upsert_cache_object input : keeps mailbox_messages (upsert_cache_object input).
Proof. unfold upsert_cache_object. keep_steps. Qed.
Lemma keeps_delete_mime_parts id : keeps mailbox_messages (delete_mime_parts_for_message id).
Proof. unfold delete_mime_parts_for_message. keep_steps. Qed.
Lemma keeps_adjust_quota a n : keeps mailbox_messages (adjust_account_quota_usage a n).
Proof. unfold adjust_account_quota_usage. keep_steps. Qed.
Lemma ekeeps_check_quota a n :
  ekeeps mailbox_messages (check_quota (O := O) (U := U) (X := X) (L := L) a n).
Proof. unfold check_quota, get_account_quota. ekeep_steps. Qed.

Hint Resolve keeps_upsert_message keeps_upsert_cache_object keeps_delete_mime_parts
  keeps_adjust_quota ekeeps_check_quota ingest_part_keeps_rows : repo.

Ltac rows_steps :=
  repeat first
    [ apply preserves_bind; [|intros ?]
    | apply on_repo_rows, upsert_keeps_copy; done
    | apply on_repo_rows, flags_keep_copy
    | apply ekeeps_rows; solve [ekeep_steps; apply ekeeps_fold_each; eauto with repo]
    | apply ekeeps_rows; solve [ekeep_steps] ].

(** Ingesting a synced message keeps the other copies ... *)
Lemma ingest_keeps_copy mb u account_id mb' name uid date raw flags :
  preserves (copy mb u)
    (ingest_raw_message (U := U) (L := L) has_search account_id mb' name uid (Some uid) date raw flags).
Proof.
  unfold ingest_raw_message, ingest_parsed_message, record_object_store_bytes_written, copy.
  rows_steps.
Qed.

(** ... and adds its own. *)
Lemma ingest_makes_copy account_id mb name uid date raw flags e e' im :
  uid <> 0 ->
  ingest_raw_message has_search account_id mb name uid (Some uid) date raw flags e =
    (e', Ok im) ->
  copy mb uid e'.
Proof.
  intros Hz E. unfold ingest_raw_message, ingest_parsed_message in E.
  do 8 (inv_bind E; clear Hstep).
  inv_bind E. apply on_repo_inv in Hstep as (Hup & _).
  apply (upsert_makes_copy (fun _ => True)) in Hup; [|done..].
  match type of E with ?m _ = _ => assert (Hk : ekeeps mailbox_messages m) by ekeep_steps end.
  unfold copy. by rewrite (ekeeps_run _ _ _ _ _ Hk E).
Qed.
(** ** Soundness of the database *)
Lemma preserves_on_search {A} (m : M Error X A) :
  preserves engine_ok (on_search (O := O) (U := U) (L := L) m).
Proof. intros e He. unfold on_search, zoom. by destruct (m (e_search e)). Qed.

Lemma preserves_utc_now : preserves engine_ok (utc_now (O := O) (U := U) (X := X) (L := L)).
Proof. by intros e He. Qed.

Hint Resolve preserves_on_search preserves_utc_now safe_upsert_message safe_insert_mime_part
  safe_delete_mime_parts safe_upsert_mailbox_message safe_adjust_quota safe_update_flags : repo.

Lemma ingest_part_safe account_id message_id n part :
  preserves engine_ok
    (ingest_part (O := O) (U := U) (X := X) (L := L) account_id message_id n part).
Proof. unfold ingest_part, record_object_store_bytes_written. esafe_steps. Qed.

Lemma ingest_safe account_id mb name uid up date raw flags :
  preserves engine_ok
    (ingest_raw_message (O := O) (U := U) (X := X) (L := L) has_search account_id mb name uid up
       date raw flags).
Proof.
  unfold ingest_raw_message, ingest_parsed_message, check_quota, get_account_quota,
    record_object_store_bytes_written.
  esafe_steps. apply preserves_fold_each. intros. apply ingest_part_safe.
Qed.

(** ** The loop over the upstream UIDs *)
Lemma sync_uid_preserves (I : Engine O U X L -> Prop) account_id mb name last local acc uid :
  (forall A (m : M Error U A), preserves I (on_upstream m)) ->
  (forall uid flags, preserves I (on_repo (update_mailbox_message_flags mb uid flags))) ->
  (forall uid raw flags, preserves I
     (ingest_raw_message has_search account_id mb name uid (Some uid) None raw flags)) ->
  preserves I (sync_uid has_search account_id mb name last local acc uid).
Proof.
  intros Hup Hflags Hingest. unfold sync_uid. destruct acc as [n newest].
  apply preserves_bind; [apply preserves_lift|intros uid'].
  apply preserves_bind; [apply Hup|intros fetched]. cbv zeta. apply preserves_bind.
  - destruct (local !! uid'); [|apply preserves_ret].
    destruct (bool_decide _); [apply preserves_ret|].
    apply preserves_bind; [apply Hflags|intros; apply preserves_ret].
  - intros _. destruct (uid' <=? last); [apply preserves_ret|].
    apply preserves_bind; [apply Hup|intros raw].
    apply preserves_bind; [simple apply Hingest|intros; apply preserves_ret].
Qed.

Lemma sync_uid_safe account_id mb name last local acc uid :
  preserves engine_ok
    (sync_uid (O := O) (U := U) (X := X) (L := L) has_search account_id mb name last local acc uid).
Proof.
  apply sync_uid_preserves; intros; [apply preserves_on_upstream| |apply ingest_safe].
  apply preserves_on_repo, safe_update_flags.
Qed.

Lemma sync_uid_keeps_copy mb u account_id name last local acc uid :
  preserves (copy mb u)
    (sync_uid (L := L) has_search account_id mb name last local acc uid).
Proof.
  apply sync_uid_preserves; intros; [|apply on_repo_rows, flags_keep_copy|apply ingest_keeps_copy].
  apply ekeeps_rows, ekeeps_on_upstream.
Qed.

Lemma sync_uid_run account_id mb name last local n newest uid e e' n' newest' :
  sync_uid has_search account_id mb name last local (n, newest) uid e = (e', Ok (n', newest')) ->
  uid <= i64_max /\
  (if last <? uid then (uid <> 0 -> copy mb uid e') /\ n' = n + 1 else n' = n).
Proof.
  intros E. unfold sync_uid in E. inv_bind E.
  destruct (uid <=? i64_max) eqn:Hr; [|done]. injection Hstep as <- <-. apply Z.leb_le in Hr.
  split; [done|]. inv_bind E. cbv zeta in E. inv_bind E.
  destruct (Z.leb_spec uid last) as [Hle|Hlt].
  - injection E as _ <- _. by rewrite (proj2 (Z.ltb_ge _ _)).
  - rewrite (proj2 (Z.ltb_lt _ _)) by done. inv_bind E. inv_bind E. injection E as <- <- _.
    split; [|done]. intros Hz. by eapply ingest_makes_copy.
Qed.

Lemma sync_loop_run account_id mb name last local uids n newest e e' n' newest' :
  fold_each uids (n, newest) (sync_uid has_search account_id mb name last local) e =
    (e', Ok (n', newest')) ->
  n' = n + Z.of_nat (length (List.filter (fun u => last <? u) uids)) /\
  forall u, In u uids -> u <= i64_max /\ (last < u -> u <> 0 -> copy mb u e').
Proof.
  revert n newest e. induction uids as [|uid uids IH]; intros n newest e E; simpl in E.
  { injection E as <- <- _. simpl. split; [lia|]. by intros u []. }
  inv_bind E. destruct x as [n1 newest1]. apply sync_uid_run in Hstep as [Hr Huid].
  pose proof E as Hrest. apply IH in E as [-> Hall]. simpl. split.
  - destruct (last <? uid); simpl; [destruct Huid as [_ ->]|subst]; lia.
  - intros u [<-|Hu]; [|by apply Hall]. split; [done|]. intros Hlt Hz.
    rewrite (proj2 (Z.ltb_lt _ _) Hlt) in Huid. destruct Huid as [Hc _].
    assert (Hp : preserves (copy mb uid) (fold_each uids (n1, newest1)
      (sync_uid (L := L) has_search account_id mb name last local))).
    { apply preserves_fold_each. intros. apply sync_uid_keeps_copy. }
    specialize (Hp _ (Hc Hz)). by rewrite Hrest in Hp.
Qed.

(** ** The rest of the pass *)
Lemma clear_safe mb : preserves engine_ok (clear_synced_mailbox_messages (O := O) (U := U) (X := X) (L := L) mb).
Proof.
  unfold clear_synced_mailbox_messages, list_mailbox_messages.
  apply preserves_bind; [apply preserves_on_repo, safe_query|intros ms].
  apply preserves_for_each. intros m.
  apply preserves_bind; [apply preserves_on_repo, safe_delete_mailbox_message|intros n].
  apply preserves_ret.
Qed.

Lemma clear_keeps_upstream mb u o :
  preserves (fun e => e_upstream e = u /\ e_store e = o)
    (clear_synced_mailbox_messages (O := O) (U := U) (X := X) (L := L) mb).
Proof.
  assert (Hr : forall A (m : Repo A),
    preserves (fun e : Engine O U X L => e_upstream e = u /\ e_store e = o) (on_repo m)).
  { intros A m e [Hu Ho]. destruct (on_repo m e) as [e' r] eqn:E.
    apply on_repo_inv in E as (_ & ? & ? & _). simpl. split; congruence. }
  unfold clear_synced_mailbox_messages. apply preserves_bind; [apply Hr|intros ms].
  apply preserves_for_each. intros m. apply preserves_bind; [apply Hr|intros n].
  apply preserves_ret.
Qed.

Lemma metadata_safe mb sel :
  preserves engine_ok (update_mailbox_sync_metadata (O := O) (U := U) (X := X) (L := L) mb sel).
Proof.
  unfold update_mailbox_sync_metadata. apply preserves_on_repo.
  apply safe_bind; [apply safe_now|intros t]. by apply safe_update_mailboxes.
Qed.

Lemma preserves_run {A} (I : Engine O U X L -> Prop) (m : M Error (Engine O U X L) A) e e' r :
  preserves I m -> I e -> m e = (e', r) -> I e'.
Proof. intros Hm He E. specialize (Hm e He). by rewrite E in Hm. Qed.

(** Where a pass resumes: at the checkpoint, or at the beginning when the
    server's UIDVALIDITY is not the checkpoint's. *)
Definition resume_uid (checkpoint : option SyncState) (sel : SelectedMailboxInfo) : Z :=
  match SelectedMailboxInfo_uidvalidity sel with
  | Some v => if bool_decide (checkpoint_field checkpoint (lit "uidvalidity") = Some v)
              then default 0 (checkpoint_field checkpoint (lit "last_uid")) else 0
  | None => default 0 (checkpoint_field checkpoint (lit "last_uid"))
  end.

(** What follows the loop: the checkpoint, the selection, the reconciliation and
    the counts. *)
Definition after_loop (account_id mb : Z) (sel : SelectedMailboxInfo) (state : Value)
  (uids : gset Z) (t cnt : Z) : M Error (Engine O U X L) Z :=
  on_repo (put_sync_state (mkNewSyncState account_id (Some mb) state (Some t) (Some t) None)) ;;;
  update_mailbox_sync_metadata mb sel ;;;
  reconcile_missing_upstream_messages_with_set mb uids ;;;
  on_repo (refresh_mailbox_counts mb) ;;; ret cnt.

(** It changes the rows only by reconciling. *)
Lemma after_loop_rows account_id mb sel state uids (t cnt n : Z) e e' :
  engine_ok e -> after_loop account_id mb sel state uids t cnt e = (e', Ok n) ->
  n = cnt /\ forall r, In r (rows e') <->
    In r (rows e) /\
    (live_in mb r = true ->
     match MailboxMessageRow_upstream_uid r with Some u => u ∈ uids | None => True end).
Proof.
  intros Hok E. unfold after_loop in E. inv_bind E. pose proof Hstep as Hrows1.
  eapply preserves_run in Hstep; [|apply preserves_on_repo, safe_put_sync_state|exact Hok].
  inv_bind E. pose proof Hstep0 as Hrows2.
  eapply preserves_run in Hstep0; [|apply metadata_safe|exact Hstep].
  inv_bind E. destruct x1. pose proof (reconcile_rows _ _ _ _ Hstep0 Hstep1) as Hrec.
  inv_bind E. injection E as <- <-. split; [done|]. intros r. rename Hstep2 into E.
  apply on_repo_inv in Hrows1 as (Hrows1 & _), Hrows2 as (Hrows2 & _), E as (E & _).
  apply (keeps_run mailbox_messages) in Hrows1; [|unfold put_sync_state; keep_steps].
  apply (keeps_run mailbox_messages) in Hrows2; [|keep_steps].
  apply (keeps_run mailbox_messages) in E;
    [|unfold refresh_mailbox_counts, account_id_for_mailbox; keep_steps].
  by rewrite E, Hrec, Hrows2, Hrows1.
Qed.

(** The server's UIDs the database can hold. *)
Definition upstream_set (uids : list Z) : gset Z :=
  list_to_set (List.filter (fun uid => uid <=? i64_max) uids).

(** A successful pass, taken apart: the mailbox is selected, the checkpoint read
    and the UIDs listed; the loop runs from the resume point; the rest follows. *)
Lemma sync_mailbox_inv account_id name mailbox e e' n :
  engine_ok e ->
  sync_mailbox_inner has_search account_id name mailbox e = (e', Ok n) ->
  let mb := Mailbox_id mailbox in
  exists sel checkpoint uids u1 local e1 e2 cnt newest state t,
    upstream_select_mailbox name (e_upstream e) = (u1, Ok sel) /\
    load_sync_state account_id (Some mb) (e_world e) = (e_world e, Ok checkpoint) /\
    uid_search_all u1 = (e_upstream e1, Ok uids) /\
    engine_ok e1 /\ e_store e1 = e_store e /\
    fold_each uids (0, None)
      (sync_uid has_search account_id mb name (resume_uid checkpoint sel) local) e1 =
      (e2, Ok (cnt, newest)) /\
    engine_ok e2 /\
    after_loop account_id mb sel state (upstream_set uids) t cnt e2 = (e', Ok n).
Proof.
  intros Hok E mb. unfold sync_mailbox_inner in E. fold mb in E. cbv zeta in E.
  inv_bind E. apply on_upstream_inv in Hstep as (Hsel & Hw & Hst).
  assert (Hok1 : engine_ok w) by (unfold engine_ok; by rewrite Hw).
  inv_bind E. unfold load_sync_state in Hstep. rewrite on_repo_query in Hstep.
  injection Hstep as <- Hcp.
  set (changed := is_some _ && _) in E.
  assert (Hlast : (if changed then 0 else default 0 (checkpoint_field x0 (lit "last_uid"))) =
                  resume_uid x0 x).
  { unfold changed, resume_uid, not_distinct. destruct (SelectedMailboxInfo_uidvalidity x); [|done].
    simpl. by destruct (bool_decide _). }
  rewrite Hlast in E. clear Hlast.
  inv_bind E.
  assert (engine_ok w0 /\ e_upstream w0 = e_upstream w /\ e_store w0 = e_store w) as (Hok2 & Hup & Hst').
  { destruct changed; [|by injection Hstep as <- _]. split.
    - eapply preserves_run; [apply clear_safe|exact Hok1|exact Hstep].
    - eapply (preserves_run (fun e => e_upstream e = e_upstream w /\ e_store e = e_store w));
        [apply clear_keeps_upstream|done|exact Hstep]. }
  clear Hstep changed. inv_bind E. apply on_upstream_inv in Hstep as (Hsearch & Hw1 & Hst1).
  inv_bind E. unfold list_mailbox_messages in Hstep. rewrite on_repo_query in Hstep.
  injection Hstep as <- Hloc. inv_bind E. destruct x4 as [cnt newest].
  assert (Hok3 : engine_ok w1) by (unfold engine_ok; by rewrite Hw1).
  assert (Hok4 : engine_ok w2).
  { eapply preserves_run; [|exact Hok3|exact Hstep].
    apply preserves_fold_each. intros. apply sync_uid_safe. }
  inv_bind E. injection Hstep0 as <- _. inv_bind E. injection Hstep0 as <- _.
  exists x, x0, x2, (e_upstream w), (by_upstream_uid x3), w1, w2, cnt, newest. eexists _, _.
  split; [done|]. split; [unfold load_sync_state, query, gets; congruence|].
  split; [by rewrite <- Hup|]. split; [done|]. split; [congruence|].
  split; [exact Hstep|]. split; [done|]. exact E.
Qed.

(** C3 A pass over a mailbox converges on the server.  When it succeeds, it asked
    the server for its UIDs and resumed where the checkpoint says (from the
    beginning when the UIDVALIDITY changed); it reports the number of UIDs above
    that point; each of them is now a live message of the mailbox, under that
    UID and mapped to it; and no live message of the mailbox is mapped to a UID
    the server does not have. *)
Theorem sync_mailbox_converges account_id name mailbox e e' n :
  engine_ok e ->
  sync_mailbox_inner has_search account_id name mailbox e = (e', Ok n) ->
  let mb := Mailbox_id mailbox in
  exists sel checkpoint uids u1 u2,
    upstream_select_mailbox name (e_upstream e) = (u1, Ok sel) /\
    uid_search_all u1 = (u2, Ok uids) /\
    load_sync_state account_id (Some mb) (e_world e) = (e_world e, Ok checkpoint) /\
    let last := resume_uid checkpoint sel in
    n = Z.of_nat (length (List.filter (fun u => last <? u) uids)) /\
    (forall u, In u uids -> last < u -> u <> 0 -> holds_copy mb u (rows e')) /\
    (forall r u, In r (rows e') -> live_in mb r = true ->
       MailboxMessageRow_upstream_uid r = Some u -> In u uids).
Proof.
  intros Hok E mb. apply sync_mailbox_inv in E as
    (sel & cp & uids & u1 & local & e1 & e2 & cnt & newest & state & t & Hsel & Hcp & Hu & _ & _ &
     Hloop & Hok2 & Htail); [|done].
  apply sync_loop_run in Hloop as [Hcnt Hall].
  apply after_loop_rows in Htail as [-> Hrows]; [|exact Hok2].
  exists sel, cp, uids, u1, (e_upstream e1). do 3 (split; [done|]). cbv zeta.
  split; [by rewrite Hcnt|]. split.
  - intros u Hin Hlt Hz. destruct (Hall u Hin) as [Hmax Hc].
    destruct (Hc Hlt Hz) as (r & Hr & Hl & Hlu & Hru & _).
    exists r. split; [|done]. apply Hrows. split; [done|]. intros _. rewrite Hru.
    apply elem_of_list_to_set, list_elem_of_In, filter_In. split; [done|by apply Z.leb_le].
  - intros r u Hr Hl Hru. apply Hrows in Hr as [_ Hin]. specialize (Hin Hl). rewrite Hru in Hin.
    by apply elem_of_list_to_set, list_elem_of_In, filter_In in Hin as [Hin _].
Qed.

End Pass.

(** ** A concrete pass *)
Module ConvergenceWitness.
#[local] Instance sha : Sha256 := { sha256_hex := fun b => b }.
#[local] Instance mime : MimeParser := {
  parse_message := fun raw => Ok (mkParsedMessage raw (Z.of_nat (length raw)) None None Null Null
    Null Null Null Null Null None [])
}.
#[local] Instance search : SearchBackend unit := { index_message := fun _ _ => ret tt; backend_search := fun _ _ => ret [] }.
(** A server with the messages 1, 2 and 5. *)
#[local] Instance server : UpstreamClient unit := {
  upstream_select := fun _ => ret tt;
  upstream_select_mailbox :=
    fun _ => ret (mkSelectedMailboxInfo [] (Some 3) None (Some 7) (Some 6) None None false);
  upstream_list_mailboxes := ret [lit "INBOX"];
  uid_search_all := ret [1; 2; 5];
  uid_fetch_flags := fun _ => ret [seen];
  uid_fetch_rfc822 := fun uid => ret (fmt_i uid);
  append_with_internal_date := fun _ _ _ _ => ret None;
  uid_store_flags := fun _ _ => ret tt;
  uid_copy_message := fun _ _ => ret 1;
  expunge_selected := ret tt
}.

Definition start : Engine MemoryObjectStore unit unit unit :=
  mkEngine world (mkMemoryObjectStore ∅) tt tt tt AppMetrics_new.

Lemma no_checkpoint :
  snd (load_sync_state 1 (Some (Mailbox_id (Mailbox_from inbox_row))) (e_world start)) = Ok None.
Proof. by vm_compute. Qed.

Lemma start_ok : engine_ok start.
Proof. exact world_ok. Qed.

Lemma start_run :
  sync_mailbox_inner true 1 (lit "INBOX") (Mailbox_from inbox_row) start =
  (fst (sync_mailbox_inner true 1 (lit "INBOX") (Mailbox_from inbox_row) start), Ok 3).
Proof. vm_compute. reflexivity. Qed.

Lemma sync_mailbox_converges_witness :
  let e' := fst (sync_mailbox_inner true 1 (lit "INBOX") (Mailbox_from inbox_row) start) in
  holds_copy (Mailbox_id (Mailbox_from inbox_row)) 5 (mailbox_messages (w_db (e_world e'))).
Proof.
  intros e'.
  destruct (sync_mailbox_converges true 1 (lit "INBOX") (Mailbox_from inbox_row) start e' 3
              start_ok start_run)
    as (sel & cp & uids & u1 & u2 & Hsel & Hu & Hcp & _ & Hall & _).
  injection Hsel as <- <-. injection Hu as <- <-. apply (f_equal snd) in Hcp.
  rewrite no_checkpoint in Hcp. cbn [snd] in Hcp. injection Hcp as <-.
  apply Hall; [simpl; tauto|reflexivity|discriminate].
Defined.
End ConvergenceWitness.
