(* ===== verification/ImapSessionSpecs.v ===== *)
(** * Every command is answered, every session is consistent

    The completion line of each command, the invariant of a session, and what a
    session without an account cannot do. *)

From stdpp Require Import base strings list relations.
From Stdlib Require Import ZArith Lia.
From S2P Require Import Prelude RustStr Metrics Domain Protocol SearchQuery Storage Notifications Schema RepoCore Security RepoAccounts RepoMailboxes RepoMessages Auth Mime Search Scenario Engine SearchEval Threads ImapText Ingest Mutations ImapSession ImapFetch ImapCommands ImapServer ImapScenario ImapFrames.

Local Open Scope Z_scope.

(** ** Answers *)

(** A line the client reads as untagged data or as a continuation request. *)
Definition untagged (line : str) : Prop :=
  exists text, line = lit "* " ++ text \/ line = lit "+ " ++ text.

(** The status line that ends a command. *)
Definition completion (tag line : str) : Prop :=
  exists text, line = tag ++ lit " OK " ++ text \/ line = tag ++ lit " NO " ++ text \/
    line = tag ++ lit " BAD " ++ text.

Definition answers (tag : str) (lines : list str) : Prop :=
  exists data status, lines = data ++ [status] /\ List.Forall untagged data /\
    completion tag status.

Lemma completion_ok tag text : completion tag (ok tag text).
Proof. exists text. by left. Qed.
Lemma completion_bad tag text : completion tag (bad tag text).
Proof. exists text. by right; right. Qed.
Lemma completion_no tag code text : completion tag (no tag code text).
Proof.
  exists (lit "[" ++ code ++ lit "] " ++ text). right; left. unfold no.
  change (lit " NO [") with (lit " NO " ++ lit "["). by rewrite <- !app_assoc.
Qed.

Lemma answers_snoc tag data status :
  List.Forall untagged data -> completion tag status -> answers tag (data ++ [status]).
Proof. intros Hd Hs. by exists data, status. Qed.
Lemma answers_one tag status : completion tag status -> answers tag [status].
Proof. intros Hs. by apply (answers_snoc tag []). Qed.
Lemma answers_two tag line status :
  untagged line -> completion tag status -> answers tag [line; status].
Proof. intros Hl Hs. by apply (answers_snoc tag [line]); [constructor|]. Qed.

Lemma untagged_star text : untagged (lit "* " ++ text).
Proof. exists text. by left. Qed.

(** [simple apply] does not look through the texts. *)
Lemma untagged_cons rest : untagged (42 :: 32 :: rest).
Proof. exists rest. by left. Qed.
Lemma untagged_plus rest : untagged (43 :: 32 :: rest).
Proof. exists rest. by right. Qed.

#[local] Hint Resolve completion_ok completion_bad completion_no answers_one : imap.
#[local] Hint Extern 1 (untagged _) => (apply untagged_cons || apply untagged_plus) : imap.

Section Answers.
Context {O U X L T : Type} `{ObjectStore O} `{UpstreamClient U} `{UpstreamConnector U}.
Context `{SearchBackend X} `{Authenticator T}.
Context `{Sha256} `{MimeParser} `{PgText} `{UuidText} `{Crypto} `{Texts} `{ChronoRange}.
Context `{MailHeaders}.
Variable services : AppServices.
Variable secrets : SecretBox.
Abbreviation Imap := (M Error (Server O U X L T)).
Abbreviation Yields := (yields (E := Error) (S := Server O U X L T)).

Lemma answers_badstate tag text : answers tag (badstate tag text).
Proof. apply answers_one, completion_no. Qed.
Lemma answers_need_account name tag : answers tag (need_account name tag).
Proof. apply answers_badstate. Qed.
Lemma answers_read_only name tag : answers tag (read_only_refusal name tag).
Proof. apply answers_one, completion_no. Qed.

#[local] Hint Resolve answers_badstate answers_need_account answers_read_only : imap.

Ltac answer_steps :=
  repeat first
    [ assumption
    | apply yields_then; intros ?
    | match goal with
      | |- yields _ (match ?x with _ => _ end) => destruct x
      | |- yields _ (let _ := ?x in _) => cbv zeta
      | |- yields _ (ret (match ?x with _ => _ end)) => destruct x
      | |- yields _ panic => apply yields_panic
      | |- yields _ (ret _) => apply yields_ret; solve [eauto 3 with imap]
      end ].

Lemma with_selected_answers name tag (k : Z -> str -> Mailbox -> Imap (list str)) :
  (forall a s m, Yields (answers tag) (k a s m)) ->
  Yields (answers tag) (with_selected services name tag k).
Proof. intros Hk. unfold with_selected. answer_steps. apply Hk. Qed.

Lemma unless_read_only_answers name tag (k : Imap (list str)) :
  Yields (answers tag) k -> Yields (answers tag) (unless_read_only name tag k).
Proof. intros Hk. unfold unless_read_only. answer_steps. Qed.

Lemma select_responses_untagged mailbox : List.Forall untagged (select_responses mailbox).
Proof.
  unfold select_responses. repeat (apply List.Forall_app; split); try case_match;
    repeat constructor; eauto with imap.
Qed.

Lemma cmd_select_answers examine tag args :
  Yields (answers tag) (cmd_select
                          services examine tag args).
Proof.
  unfold cmd_select. answer_steps.
  all: apply yields_ret, answers_snoc; [apply select_responses_untagged|eauto with imap].
Qed.

Lemma cmd_list_answers name tag args :
  Yields (answers tag) (cmd_list
                          services name tag args).
Proof.
  unfold cmd_list. answer_steps.
  - apply yields_ret, answers_snoc; [|eauto with imap].
    apply List.Forall_flat_map, List.Forall_forall. intros mb _. constructor; [eauto with imap|].
    case_match; [constructor; [eauto with imap|done]|done].
  - apply yields_ret, answers_two; eauto with imap.
Qed.

Lemma cmd_enable_answers tag args :
  Yields (answers tag) (cmd_enable tag args).
Proof.
  unfold cmd_enable. answer_steps. apply yields_ret, answers_snoc; [|eauto with imap].
  case_match; repeat constructor; eauto with imap.
Qed.

(** The answers of the searches. *)
Lemma search_answer_untagged tag results o : untagged (search_answer tag results o).
Proof. unfold search_answer. repeat case_match; eauto with imap. Qed.

Lemma run_search_answers account mailbox tag args uid done_ :
  Yields (answers tag) (run_search services account mailbox tag args uid done_).
Proof.
  unfold run_search. answer_steps. apply yields_ret, answers_two; [|eauto with imap].
  apply search_answer_untagged.
Qed.
Lemma run_sort_answers account mailbox tag args uid usage done_ :
  Yields (answers tag) (run_sort services account mailbox tag args uid usage done_).
Proof.
  unfold run_sort. answer_steps. apply yields_ret, answers_two; [|eauto with imap].
  case_match; eauto with imap.
Qed.
Lemma run_thread_answers account mailbox tag args uid usage done_ :
  Yields (answers tag) (run_thread services secrets account mailbox tag args uid usage done_).
Proof.
  unfold run_thread. answer_steps. apply yields_ret, answers_two; [|eauto with imap].
  case_match; eauto with imap.
Qed.

Lemma when_selected_answers name tag (k : option Z -> str -> Imap (list str)) :
  (forall a m, Yields (answers tag) (k a m)) ->
  Yields (answers tag) (when_selected name tag k).
Proof. intros Hk. unfold when_selected. answer_steps. apply Hk. Qed.

(** The loops collect untagged lines. *)
Abbreviation Data := (List.Forall untagged).

Lemma data_snoc data line : Data data -> untagged line -> Data (data ++ [line]).
Proof. intros Hd Hl. apply List.Forall_app. split; [done|by constructor]. Qed.

Lemma store_row_data account mb mode silent requested out target :
  Data out -> Yields Data (store_row services
                             account mb mode silent requested out target).
Proof.
  intros Ho. unfold store_row. destruct target as [n message]. apply yields_then; intros ?.
  cbv zeta. apply yields_then; intros ?. apply yields_ret. case_match; [done|].
  apply data_snoc; eauto with imap.
Qed.

Lemma uid_store_row_data mb mode silent requested out message :
  Data out -> Yields Data (uid_store_row
                             mb mode silent requested out message).
Proof.
  intros Ho. unfold uid_store_row. cbv zeta. apply yields_then; intros ?.
  destruct silent; [by apply yields_ret|]. apply yields_then; intros n. apply yields_ret.
  destruct n; [|done]. apply data_snoc; eauto with imap.
Qed.

Lemma expunge_targets_data mb targets :
  Yields Data (expunge_targets mb targets).
Proof.
  unfold expunge_targets. apply yields_fold_each; [constructor|].
  intros out [n message] Ho. unfold expunge_target. apply yields_then; intros ?.
  apply yields_ret, data_snoc; eauto with imap.
Qed.

Lemma copyuid_line_completion tag name destination copied :
  completion tag (copyuid_line tag name destination copied).
Proof.
  unfold copyuid_line. destruct copied as [|p copied]; [eauto with imap|].
  eexists. left. change (lit " OK [COPYUID ") with (lit " OK " ++ lit "[COPYUID ").
  by rewrite <- !app_assoc.
Qed.

Lemma cmd_copy_answers move name tag args :
  Yields (answers tag) (cmd_copy services
                          move name tag args).
Proof.
  unfold cmd_copy. apply with_selected_answers. intros account selected source.
  destruct (head args); [|apply yields_ret; eauto with imap].
  destruct (args !! 1%nat); [|apply yields_ret; eauto with imap].
  apply yields_then; intros found. destruct found; [|apply yields_ret; eauto with imap].
  apply yields_then; intros s. destruct (move && is_read_only s);
    [apply yields_ret; eauto with imap|].
  apply yields_then; intros targets.
  eapply (yields_bind (fun acc => Data (fst acc))).
  - apply yields_fold_each; [constructor|]. intros [out copied] [n message] Ho.
    unfold copy_row. do 2 (apply yields_then; intros ?). apply yields_ret. simpl in *.
    destruct move; [|done]. apply data_snoc; eauto with imap.
  - intros [out copied] Ho. do 2 (apply yields_then; intros ?).
    apply yields_ret, answers_snoc; [done|apply copyuid_line_completion].
Qed.

Lemma uid_copy_answers move sub tag args account source :
  Yields (answers tag) (uid_copy services
                          move sub tag args account source).
Proof.
  unfold uid_copy. cbv zeta. answer_steps.
  apply yields_ret, answers_one, copyuid_line_completion.
Qed.

Lemma uid_expunge_answers tag args mailbox :
  Yields (answers tag) (uid_expunge tag args mailbox).
Proof.
  unfold uid_expunge. apply unless_read_only_answers.
  destruct (args !! 1%nat); [|apply yields_ret; eauto with imap].
  apply yields_then; intros ?. cbv zeta.
  eapply yields_bind; [apply expunge_targets_data|]. intros out Ho.
  apply yields_then; intros ?. apply yields_ret, answers_snoc; eauto with imap.
Qed.

Lemma uid_store_answers tag args account mailbox :
  Yields (answers tag) (uid_store services
                          tag args account mailbox).
Proof.
  unfold uid_store. apply unless_read_only_answers. apply yields_then; intros r.
  destruct r as [[[set mode] silent] requested]. apply yields_then; intros targets.
  eapply (yields_bind Data); [apply yields_fold_each; [constructor|intros; by apply uid_store_row_data]|].
  intros out Ho. do 2 (apply yields_then; intros ?). apply yields_ret, answers_snoc; eauto with imap.
Qed.

Lemma cmd_store_answers tag args :
  Yields (answers tag) (cmd_store services tag args).
Proof.
  unfold cmd_store. apply with_selected_answers. intros account selected mailbox.
  apply unless_read_only_answers. apply yields_then; intros r.
  destruct r as [[[set mode] silent] requested]. apply yields_then; intros targets.
  eapply (yields_bind Data); [apply yields_fold_each; [constructor|intros; by apply store_row_data]|].
  intros out Ho. apply yields_then; intros ?. apply yields_ret, answers_snoc; eauto with imap.
Qed.

Lemma cmd_expunge_answers tag args :
  Yields (answers tag) (cmd_expunge services tag args).
Proof.
  unfold cmd_expunge. apply with_selected_answers. intros account selected mailbox.
  apply unless_read_only_answers. apply yields_then; intros targets.
  eapply yields_bind; [apply expunge_targets_data|]. intros out Ho.
  apply yields_then; intros ?. apply yields_ret, answers_snoc; eauto with imap.
Qed.

Lemma fetch_lines_data {A} (f : A -> str) l : (forall a, untagged (f a)) -> Data (map f l).
Proof. intros Hf. induction l; simpl; constructor; done. Qed.

Lemma cmd_fetch_answers tag args :
  Yields (answers tag) (cmd_fetch services tag args).
Proof.
  unfold cmd_fetch. apply with_selected_answers. intros account selected mailbox. answer_steps.
  apply yields_ret, answers_snoc; [|eauto with imap]. apply fetch_lines_data.
  intros [n view]. unfold format_fetch_response. eauto with imap.
Qed.

Lemma uid_fetch_answers tag args mailbox :
  Yields (answers tag) (uid_fetch tag args mailbox).
Proof.
  unfold uid_fetch. answer_steps. apply yields_ret, answers_snoc; [|eauto with imap].
  apply fetch_lines_data. intros view. unfold format_fetch_response. eauto with imap.
Qed.

Lemma cmd_append_answers tag args literal :
  Yields (answers tag) (cmd_append services tag args literal).
Proof.
  unfold cmd_append. answer_steps.
  all: apply yields_ret, answers_one; eexists; left;
    change (lit " OK [APPENDUID ") with (lit " OK " ++ lit "[APPENDUID ");
    by rewrite <- !app_assoc.
Qed.

Lemma cmd_uid_answers tag args :
  Yields (answers tag) (cmd_uid services secrets tag args).
Proof.
  unfold cmd_uid. destruct args as [|sub rest]; [apply yields_ret; eauto with imap|].
  apply with_selected_answers. intros account selected mailbox.
  destruct (match_str _ _) eqn:Em; [|apply yields_ret; eauto with imap].
  revert Em. apply match_str_Forall. each_arm;
    eauto using uid_fetch_answers, run_search_answers, run_sort_answers, run_thread_answers,
      uid_copy_answers, uid_expunge_answers, uid_store_answers.
Qed.

(** C13 Every command gets exactly one answer: when the handler returns, its
    lines are untagged data followed by one completion line (OK, NO or BAD) with
    the command's tag, which is the last. *)
Theorem every_command_is_answered command literal (sv sv' : Server O U X L T) lines :
  handle_parsed_command services secrets command literal sv = (sv', Ok lines) ->
  answers (ParsedCommand_tag command) lines.
Proof.
  apply yields_run. unfold handle_parsed_command. apply yields_then; intros ?. cbv zeta.
  destruct (match_str _ _) eqn:Em; [|apply yields_ret; eauto with imap].
  revert Em. apply match_str_Forall. unfold command_arms. each_arm;
    try solve [eauto using cmd_select_answers, cmd_list_answers, cmd_enable_answers,
      cmd_copy_answers, cmd_store_answers, cmd_expunge_answers, cmd_fetch_answers,
      cmd_append_answers, cmd_uid_answers];
    try (apply when_selected_answers; intros; eauto using run_search_answers, run_sort_answers,
           run_thread_answers);
    unfold cmd_capability, cmd_logout, cmd_login, cmd_starttls, cmd_status, cmd_idle, cmd_check,
      cmd_unselect, cmd_close, cmd_create, cmd_delete, cmd_rename, cmd_subscribe, cmd_namespace,
      cmd_id, cmd_condstore; answer_steps;
    apply yields_ret; apply answers_two; eauto with imap.
Qed.
End Answers.

(** ** The invariant of a session *)
Definition b2z (b : bool) : Z := if b then 1 else 0.

(** A snapshot exactly while a mailbox is selected; the snapshot of a stored
    mailbox belongs to the session's account; nobody is logged in before the
    login; the gauge of the session counts it. *)
Record session_ok (s : ImapSession) : Prop := mkSessionOk {
  ok_snapshot : is_some (selected_mailbox_snapshot s) = is_some (selected_mailbox_name_ref s);
  ok_account : forall sn, selected_mailbox_snapshot s = Some sn -> 0 < snapshot_mailbox_id sn ->
    session_account s = Some (snapshot_account_id sn);
  ok_login : state s = NotAuthenticated -> authenticated s = None;
  ok_gauge : authenticated_sessions (session_metrics s) = b2z (auth_counted s)
}.

Lemma session_new_ok uuid : session_ok (ImapSession_new uuid).
Proof. by split. Qed.

(** Updates that touch none of the fields the invariant is about. *)
Lemma session_ok_metrics s m :
  session_ok s -> authenticated_sessions m = authenticated_sessions (session_metrics s) ->
  session_ok (set_session_metrics m s).
Proof. intros [H1 H2 H3 H4] Hm. split; [done|done|done|]. simpl. congruence. Qed.
Lemma session_ok_record s b : session_ok s -> session_ok (set_session_record_created b s).
Proof. by intros [H1 H2 H3 H4]. Qed.
Lemma session_ok_tls s b c :
  session_ok s -> session_ok (set_starttls_available b (set_tls_active c s)).
Proof. by intros [H1 H2 H3 H4]. Qed.
(** Leaving the selected mailbox for a state past the login. *)
Lemma session_ok_leave s st :
  session_ok s -> st = Authenticated \/ st = Logout ->
  session_ok (set_selected_mailbox_snapshot None (set_state st s)).
Proof. intros [H1 H2 H3 H4] Hst. split; simpl; [by destruct Hst as [-> | ->]|done| |done].
  by destruct Hst as [-> | ->].
Qed.
Lemma session_ok_login s ctx :
  session_ok s ->
  session_ok (set_selected_mailbox_snapshot None
                (set_state Authenticated (set_authenticated (Some ctx) s))).
Proof. by intros [H1 H2 H3 H4]. Qed.
Lemma session_ok_select s examine mailbox :
  session_ok s ->
  (0 < Mailbox_id mailbox -> session_account s = Some (Mailbox_account_id mailbox)) ->
  session_ok (set_selected_mailbox_snapshot
    (Some (mkSelectedMailboxSnapshot (Mailbox_account_id mailbox) (Mailbox_id mailbox)
             (Mailbox_exists_count mailbox)))
    (set_state (SelectedMailbox examine (Mailbox_name mailbox)) s)).
Proof. intros [H1 H2 H3 H4] Ha. split; simpl; [done| |done|done]. by intros sn [= <-]. Qed.
Lemma session_ok_count_in s :
  session_ok s -> auth_counted s = false ->
  session_ok (set_auth_counted true
    (set_session_metrics (inc_authenticated_sessions (session_metrics s)) s)).
Proof. intros [H1 H2 H3 H4] Hc. split; [done..|]. simpl. by rewrite H4, Hc. Qed.
Lemma session_ok_count_out s :
  session_ok s -> auth_counted s = true ->
  session_ok (set_auth_counted false
    (set_session_metrics (dec_authenticated_sessions (session_metrics s)) s)).
Proof. intros [H1 H2 H3 H4] Hc. split; [done..|]. simpl. by rewrite H4, Hc. Qed.
Lemma session_ok_rename s a b : session_ok s -> session_ok (rename_selected a b s).
Proof.
  intros Hs. unfold rename_selected. destruct (state s) eqn:E; try done.
  case_match; [|done]. destruct Hs as [H1 H2 H3 H4]. split; simpl; [|done|done|done].
  rewrite H1. unfold selected_mailbox_name_ref. simpl. by rewrite E.
Qed.
Lemma session_ok_refresh s sn n :
  session_ok s -> selected_mailbox_snapshot s = Some sn ->
  session_ok (set_selected_mailbox_snapshot
    (Some (mkSelectedMailboxSnapshot (snapshot_account_id sn) (snapshot_mailbox_id sn) n)) s).
Proof.
  intros [H1 H2 H3 H4] Hsn. rewrite Hsn in H1. split; [exact H1| |done|done].
  intros sn' [= <-]. exact (H2 sn Hsn).
Qed.

(** The mailbox found for an account belongs to it. *)
Lemma find_mailbox_account account_id name w w' mailbox :
  find_mailbox account_id name w = (w', Ok (Some mailbox)) ->
  Mailbox_account_id mailbox = account_id.
Proof.
  unfold find_mailbox, query. intros [= _ Hf]. apply fmap_Some in Hf as (row & Hrow & ->).
  destruct (order_by_desc _ _) as [|r rows] eqn:Eo; [done|]. injection Hrow as ->.
  assert (Hin : In row (order_by_desc MailboxRow_id
    (select (mailbox_named account_id name) (mailboxes (w_db w))))) by (rewrite Eo; by left).
  unfold order_by_desc in Hin. apply sort_by_In in Hin. unfold select in Hin.
  apply filter_In in Hin as [_ Hn]. unfold mailbox_named in Hn. b2p. done.
Qed.

Section Invariant.
Context {O U X L T : Type} `{ObjectStore O} `{UpstreamClient U} `{UpstreamConnector U}.
Context `{SearchBackend X} `{Authenticator T}.
Context `{Sha256} `{MimeParser} `{PgText} `{UuidText} `{Crypto} `{Texts} `{ChronoRange}.
Context `{MailHeaders} `{Base64} `{TlsAcceptor}.
Variable services : AppServices.
Variable secrets : SecretBox.
Variable has_acceptor : bool.
Variable elapsed : Z.
Abbreviation Imap := (M Error (Server O U X L T)).

Definition conn_ok (sv : Server O U X L T) : Prop := session_ok (sv_session sv).

Lemma ok_frame {A} (m : Imap A) : sframe sv_session m -> preserves conn_ok m.
Proof. apply (sframe_preserves sv_session session_ok). Qed.

Lemma ok_update f :
  (forall s, session_ok s -> session_ok (f s)) ->
  preserves conn_ok (update_session (O := O) (U := U) (X := X) (L := L) (T := T) f).
Proof. intros Hf sv Hs. by apply Hf. Qed.

(** A method on both metrics that leaves the gauge alone. *)
Lemma ok_both_metrics f :
  (forall m, authenticated_sessions (f m) = authenticated_sessions m) ->
  preserves conn_ok (on_both_metrics (O := O) (U := U) (X := X) (L := L) (T := T) f).
Proof.
  intros Hf. unfold on_both_metrics. apply preserves_bind.
  - apply ok_update. intros s Hs. by apply session_ok_metrics.
  - intros _. apply ok_frame, session_on_engine.
Qed.

(** Reading the session: the rest may use what is known of it. *)
Lemma ok_get {A} (k : ImapSession -> Imap A) :
  (forall sv, conn_ok sv -> conn_ok (fst (k (sv_session sv) sv))) ->
  preserves conn_ok (bind get_session k).
Proof. intros Hk sv Hs. by apply Hk. Qed.

#[local] Hint Resolve preserves_ret preserves_fail preserves_lift preserves_gets : imap.

Lemma activate_ok ctx : preserves conn_ok (activate_authenticated_session services ctx).
Proof.
  apply ok_get. intros sv Hs. unfold conn_ok in Hs.
  set (sv1 := if negb (auth_counted (sv_session sv)) then
    fst ((on_both_metrics inc_authenticated_sessions ;;; update_session (set_auth_counted true)) sv)
    else sv).
  assert (Hs1 : conn_ok sv1).
  { subst sv1. unfold conn_ok. destruct (auth_counted _) eqn:Ec; simpl; [done|].
    by apply session_ok_count_in. }
  assert (Hrest : forall m : Imap unit, preserves conn_ok m -> conn_ok (fst (m sv1)))
    by (intros m Hm; by apply Hm).
  match goal with |- conn_ok (fst (bind ?m ?k sv)) =>
    replace (bind m k sv) with (k tt sv1)
      by (subst sv1; unfold bind; by destruct (auth_counted (sv_session sv))) end.
  apply Hrest. apply preserves_bind.
  - case_match; [|apply preserves_ret]. apply preserves_bind.
    + apply preserves_try, ok_frame, session_on_db.
    + intros [r|e]; [|apply preserves_ret]. apply ok_update. intros. by apply session_ok_record.
  - intros _. apply ok_update. intros. by apply session_ok_login.
Qed.

Lemma cmd_logout_ok tag : preserves conn_ok (cmd_logout (O := O) (U := U) (X := X) (L := L) (T := T) tag).
Proof.
  apply ok_get. intros sv Hs. unfold conn_ok in *.
  destruct (auth_counted (sv_session sv)) eqn:Ec; simpl; apply session_ok_leave; auto.
  by apply session_ok_count_out.
Qed.

Lemma cmd_login_ok tag args : preserves conn_ok (cmd_login services tag args).
Proof.
  unfold cmd_login. destruct args as [|u [|p args]]; try apply preserves_ret.
  apply preserves_bind; [apply ok_frame, session_on_auth|]. intros [ctx|]; [|apply preserves_ret].
  apply preserves_bind; [apply activate_ok|]. intros. apply preserves_ret.
Qed.

Lemma cmd_select_ok examine tag args :
  preserves conn_ok (cmd_select (O := O) (U := U) (X := X) (L := L) (T := T)
                       services examine tag args).
Proof.
  apply ok_get. intros sv Hs. rewrite bind_Ok with (s' := sv) (a := w_now (sv_world sv));
    [|by destruct sv]. unfold conn_ok in Hs.
  assert (Hplace : forall mb, Mailbox_id mb = 0 -> session_ok (set_selected_mailbox_snapshot
    (Some (mkSelectedMailboxSnapshot (Mailbox_account_id mb) (Mailbox_id mb)
             (Mailbox_exists_count mb)))
    (set_state (SelectedMailbox examine (Mailbox_name mb)) (sv_session sv)))).
  { intros mb Hid. apply session_ok_select; [done|lia]. }
  destruct (has_repository services); [|by apply Hplace].
  destruct (session_account (sv_session sv)) as [account_id|] eqn:Ea; [|by apply Hplace].
  unfold bind, on_db, on_engine, on_repo, zoom.
  destruct (find_mailbox account_id _ _) as [w' r] eqn:Ef.
  destruct r as [[mailbox|]|e|]; simpl; [|done..].
  apply session_ok_select; [done|]. intros _. rewrite Ea. f_equal. symmetry.
  by eapply find_mailbox_account.
Qed.

(** The commands that leave the session alone. *)
Lemma session_with_selected name tag (k : Z -> str -> Mailbox -> Imap (list str)) :
  (forall a s m, sframe sv_session (k a s m)) ->
  sframe sv_session (with_selected services name tag k).
Proof. intros Hk. unfold with_selected, get_session. frame_steps. Qed.
Lemma session_unless_read_only name tag (k : Imap (list str)) :
  sframe sv_session k -> sframe sv_session (unless_read_only name tag k).
Proof. intros Hk. unfold unless_read_only, get_session. frame_steps. Qed.
Lemma session_when_selected name tag (k : option Z -> str -> Imap (list str)) :
  (forall a m, sframe sv_session (k a m)) -> sframe sv_session (when_selected name tag k).
Proof. intros Hk. unfold when_selected, get_session. frame_steps. Qed.

Lemma session_run_search account mailbox tag args uid done_ :
  sframe sv_session (run_search (O := O) (U := U) (L := L) (T := T) services account mailbox tag args uid done_).
Proof. unfold run_search. frame_steps. Qed.
Lemma session_run_sort account mailbox tag args uid usage done_ :
  sframe sv_session (run_sort (O := O) (U := U) (L := L) (T := T) services account mailbox tag args uid usage done_).
Proof. unfold run_sort. frame_steps. Qed.
Lemma session_run_thread account mailbox tag args uid usage done_ :
  sframe sv_session (run_thread (O := O) (U := U) (X := X) (L := L) (T := T) services secrets account mailbox tag args uid usage done_).
Proof. unfold run_thread. frame_steps. Qed.

Lemma session_copy_one move account source destination copied message :
  sframe sv_session (copy_one (O := O) (U := U) (X := X) (L := L) (T := T) services
                       move account source destination copied message).
Proof. unfold copy_one. frame_steps. Qed.
Lemma session_move_source move mb message :
  sframe sv_session (move_source (O := O) (U := U) (X := X) (L := L) (T := T) move mb message).
Proof. unfold move_source. frame_steps. Qed.
Lemma session_expunge_targets mb targets :
  sframe sv_session (expunge_targets (O := O) (U := U) (X := X) (L := L) (T := T) mb targets).
Proof. unfold expunge_targets, expunge_target. frame_steps. Qed.
#[local] Hint Resolve session_copy_one session_move_source session_expunge_targets
  session_run_search session_run_sort session_run_thread : imap.

Lemma cmd_uid_session tag args :
  sframe sv_session (cmd_uid (O := O) (U := U) (X := X) (L := L) (T := T) services secrets tag args).
Proof.
  unfold cmd_uid. destruct args as [|sub rest]; [apply sframe_ret|].
  apply session_with_selected. intros account selected mailbox.
  destruct (match_str _ _) eqn:Em; [|apply sframe_ret]. revert Em. apply match_str_Forall.
  each_arm; eauto with imap;
    unfold uid_fetch, uid_copy, uid_copy_row, uid_expunge, uid_store, uid_store_row, queue_flags,
      get_session; try apply session_unless_read_only; frame_steps.
Qed.

Lemma gauge_record_command c m :
  authenticated_sessions (record_command c m) = authenticated_sessions m.
Proof. done. Qed.

Lemma cmd_close_ok tag :
  preserves conn_ok (cmd_close (O := O) (U := U) (X := X) (L := L) (T := T) services tag).
Proof.
  unfold cmd_close. apply preserves_bind; [apply ok_frame, sframe_gets|]. intros s.
  destruct (selected_mailbox_name_ref s); [|apply preserves_ret]. apply preserves_bind.
  - apply ok_frame. unfold close_expunge. frame_steps.
  - intros _. apply preserves_bind; [|intros; apply preserves_ret].
    apply ok_update. intros s' Hs'. by apply (session_ok_leave s' Authenticated); [|left].
Qed.

Lemma handle_parsed_command_ok command literal :
  preserves conn_ok (handle_parsed_command services secrets command literal).
Proof.
  unfold handle_parsed_command. cbv zeta.
  apply preserves_bind; [apply ok_both_metrics, gauge_record_command|]. intros _.
  destruct (match_str _ _) eqn:Em; [|apply preserves_ret].
  revert Em. apply match_str_Forall. unfold command_arms.
  each_arm;
    try (apply cmd_login_ok || apply cmd_logout_ok || apply cmd_select_ok || apply cmd_close_ok);
    try (apply ok_frame; first
      [ apply cmd_uid_session
      | apply session_when_selected; intros; eauto with imap
      | unfold cmd_fetch, cmd_store, store_row, queue_flags, cmd_expunge, cmd_copy, copy_row,
          get_session; apply session_with_selected; intros;
        try apply session_unless_read_only; solve [frame_steps]
      | unfold cmd_capability, cmd_starttls, cmd_list, cmd_status, cmd_append, cmd_idle, cmd_check,
          cmd_create, cmd_delete, cmd_subscribe, cmd_namespace, cmd_id, cmd_enable, cmd_condstore,
          get_session; solve [frame_steps] ]).
  - unfold cmd_unselect. apply preserves_bind; [apply ok_frame, sframe_gets|]. intros s.
    destruct (selected_mailbox_name_ref s); [|apply preserves_ret].
    apply preserves_bind; [|intros; apply preserves_ret].
    apply ok_update. intros s' Hs'. by apply (session_ok_leave s' Authenticated); [|left].
  - unfold cmd_rename. destruct (has_repository services); [|apply preserves_ret].
    apply preserves_bind; [apply ok_frame, sframe_gets|]. intros s.
    destruct (session_account s); [|apply preserves_ret].
    destruct (head _); [|apply preserves_ret]. destruct (_ !! _); [|apply preserves_ret].
    apply preserves_bind; [apply ok_frame, session_on_db|]. intros [r|]; [|apply preserves_ret].
    apply preserves_bind; [|intros; apply preserves_ret].
    apply ok_update. intros. by apply session_ok_rename.
Qed.

(** ** Whole connections *)
Lemma session_write_raw_row account mb selected raw before after n view :
  sframe sv_session (write_raw_row (O := O) (U := U) (X := X) (L := L) (T := T) services secrets
                       account mb selected raw before after n view).
Proof. unfold write_raw_row. frame_steps. Qed.
#[local] Hint Resolve session_write_raw_row : imap.

Lemma session_write_raw_fetch command :
  sframe sv_session (write_raw_fetch_response (O := O) (U := U) (X := X) (L := L) (T := T)
                       services secrets command).
Proof. unfold write_raw_fetch_response, get_session. frame_steps. Qed.

Lemma session_read_line : sframe sv_session (read_line (O := O) (U := U) (X := X) (L := L) (T := T)).
Proof. unfold read_line, set_input. frame_steps. all: done. Qed.
Lemma session_read_exact n :
  sframe sv_session (read_exact (O := O) (U := U) (X := X) (L := L) (T := T) n).
Proof. unfold read_exact, set_input. frame_steps. all: done. Qed.
Lemma session_write_line l :
  sframe sv_session (write_line (O := O) (U := U) (X := X) (L := L) (T := T) l).
Proof. apply session_write_all. Qed.
#[local] Hint Resolve session_read_line session_read_exact session_write_line : imap.

Lemma session_read_command line :
  sframe sv_session (read_command_with_literal (O := O) (U := U) (X := X) (L := L) (T := T) line).
Proof. unfold read_command_with_literal. frame_steps. Qed.
Lemma session_read_auth_blob args :
  sframe sv_session (read_auth_blob (O := O) (U := U) (X := X) (L := L) (T := T) args).
Proof. unfold read_auth_blob. frame_steps. Qed.

Lemma observation_ok name errored :
  preserves conn_ok (record_command_observation (O := O) (U := U) (X := X) (L := L) (T := T)
                       elapsed name errored).
Proof.
  unfold record_command_observation. apply preserves_bind; [by apply ok_both_metrics|].
  intros _. destruct errored; [by apply ok_both_metrics|apply preserves_ret].
Qed.

Lemma serve_starttls_ok name tag :
  preserves conn_ok (serve_starttls (O := O) (U := U) (X := X) (L := L) (T := T)
                       has_acceptor elapsed name tag).
Proof.
  unfold serve_starttls. apply preserves_bind; [apply ok_frame, sframe_gets|]. intros s.
  apply preserves_bind; [|intros; apply preserves_ret].
  destruct has_acceptor.
  - case_match.
    + apply preserves_bind; [apply ok_frame, session_write_line|]. intros _.
      apply preserves_bind; [apply ok_frame, sframe_gets|]. intros rest.
      destruct (tls_accept rest); [|apply preserves_fail].
      apply preserves_bind; [by apply ok_frame|]. intros _.
      apply preserves_bind; [|intros; apply observation_ok].
      apply ok_update. intros. by apply session_ok_tls.
    + apply preserves_bind; [apply ok_frame, session_write_line|]. intros. apply observation_ok.
  - apply preserves_bind; [apply ok_frame, session_write_line|]. intros. apply observation_ok.
Qed.

Lemma serve_authenticate_ok name command :
  preserves conn_ok (serve_authenticate services elapsed name command).
Proof.
  unfold serve_authenticate. apply preserves_bind.
  - unfold handle_authenticate_command. cbv zeta.
    apply preserves_bind; [apply ok_both_metrics, gauge_record_command|]. intros _.
    apply preserves_bind; [apply ok_frame, sframe_gets|]. intros s.
    destruct (state s); try apply ok_frame, session_write_line.
    destruct (ParsedCommand_args command); [apply ok_frame, session_write_line|].
    repeat (case_match; [apply ok_frame, session_write_line|]).
    apply preserves_bind; [apply ok_frame, session_read_auth_blob|]. intros [blob|];
      [|apply ok_frame, session_write_line].
    unfold authenticate_with_blob. apply preserves_bind; [apply preserves_lift|]. intros c.
    apply preserves_bind; [apply ok_frame, session_on_auth|]. intros [ctx|];
      [|apply ok_frame, session_write_line].
    apply preserves_bind; [apply activate_ok|]. intros. apply ok_frame, session_write_line.
  - intros _. apply preserves_bind; [apply ok_frame, sframe_gets|]. intros s.
    apply preserves_bind; [apply observation_ok|]. intros. apply preserves_ret.
Qed.

Lemma serve_plain_ok name command literal :
  preserves conn_ok (serve_plain services secrets elapsed name command literal).
Proof.
  unfold serve_plain. cbv zeta.
  apply preserves_bind; [apply preserves_try, handle_parsed_command_ok|]. intros result.
  apply preserves_bind; [apply ok_frame; unfold answer_errors; frame_steps|]. intros responses.
  apply preserves_bind; [apply ok_frame; frame_steps|]. intros _.
  apply preserves_bind; [apply observation_ok|]. intros _.
  apply preserves_bind; [apply ok_frame, sframe_gets|]. intros. apply preserves_ret.
Qed.

Lemma serve_command_ok : preserves conn_ok (serve_command services secrets has_acceptor elapsed).
Proof.
  unfold serve_command. apply preserves_bind; [apply ok_frame, session_read_line|].
  intros [line|]; [|apply preserves_ret].
  apply preserves_bind; [apply ok_frame, session_read_command|].
  intros [[command literal]|]; [|apply preserves_ret]. cbv zeta.
  case_match; [apply serve_starttls_ok|]. case_match; [apply serve_authenticate_ok|].
  case_match; [|case_match; [|apply serve_plain_ok]].
  - apply preserves_bind; [apply ok_both_metrics, gauge_record_command|]. intros _.
    apply preserves_bind; [apply ok_frame, session_write_line|]. intros. apply preserves_ret.
  - unfold serve_fetch. apply preserves_bind; [apply ok_frame, session_write_raw_fetch|].
    intros [|]; [|apply serve_plain_ok].
    apply preserves_bind; [apply ok_both_metrics, gauge_record_command|]. intros _.
    apply preserves_bind; [apply ok_frame, session_write_line|]. intros _.
    apply preserves_bind; [apply observation_ok|]. intros. apply preserves_ret.
Qed.

(** IDLE only moves the count of the snapshot. *)
Definition same_mailbox (sn : SelectedMailboxSnapshot) (s : ImapSession) : Prop :=
  session_ok s /\ exists n, selected_mailbox_snapshot s =
    Some (mkSelectedMailboxSnapshot (snapshot_account_id sn) (snapshot_mailbox_id sn) n).

Lemma same_frame {A} sn (m : Imap A) :
  sframe sv_session m -> preserves (fun sv => same_mailbox sn (sv_session sv)) m.
Proof. apply (sframe_preserves sv_session (same_mailbox sn)). Qed.

Lemma same_refresh sn n :
  preserves (fun sv => same_mailbox sn (sv_session sv))
    (refresh_snapshot (O := O) (U := U) (X := X) (L := L) (T := T) sn n).
Proof.
  intros sv [Hs [k Hk]]. split; [|by exists n]. by apply (session_ok_refresh _ _ n) in Hk.
Qed.

Ltac same_steps :=
  repeat first
    [ apply same_refresh
    | apply preserves_ret
    | solve [apply same_frame; frame_steps]
    | match goal with
      | |- preserves _ (match ?x with _ => _ end) => destruct x
      | |- preserves _ (let _ := ?x in _) => cbv zeta
      end
    | apply preserves_bind; [|intros ?] ].

Lemma idle_notification_ok event :
  preserves conn_ok (idle_notification_for_event (O := O) (U := U) (X := X) (L := L) (T := T)
                       services event).
Proof.
  apply ok_get. intros sv Hs.
  destruct (selected_mailbox_snapshot (sv_session sv)) as [sn|] eqn:Esn; [|done].
  assert (Hsn : same_mailbox sn (sv_session sv))
    by (split; [done|]; exists (snapshot_exists_count sn); by rewrite Esn; destruct sn).
  match goal with |- conn_ok (fst (?m sv)) =>
    enough (Hm : preserves (fun sv => same_mailbox sn (sv_session sv)) m)
      by (exact (proj1 (Hm sv Hsn))) end.
  unfold expunge_notice, flags_notice, count_notice, count_messages. same_steps.
Qed.

Lemma idle_turn_ok tag wake :
  preserves conn_ok (idle_turn (O := O) (U := U) (X := X) (L := L) (T := T)
                       services elapsed tag wake).
Proof.
  unfold idle_turn. apply preserves_bind.
  - destruct wake; simpl; try apply preserves_ret.
    + apply ok_frame. unfold idle_on_line. frame_steps.
    + apply ok_frame. unfold idle_on_timeout. frame_steps.
    + unfold idle_on_event. apply preserves_bind; [apply idle_notification_ok|].
      intros [r|]; [|apply preserves_ret].
      apply preserves_bind; [apply ok_frame, session_write_line|]. intros. apply preserves_ret.
  - intros [|]; [apply preserves_ret|].
    apply preserves_bind; [apply observation_ok|]. intros. apply preserves_ret.
Qed.

Definition phase_ok (c : Phase * Server O U X L T) : Prop :=
  match fst c with Finished _ => True | _ => conn_ok (snd c) end.

Lemma turn_ok (m : Imap Turn) sv : preserves conn_ok m -> conn_ok sv -> phase_ok (turn services m sv).
Proof.
  intros Hm Hs. specialize (Hm sv Hs). unfold turn. destruct (m sv) as [sv' r].
  destruct r as [[]| |]; done.
Qed.

(** C12 A session stays consistent through any run of a connection, whatever the
    client sends and whatever IDLE wakes up with: a snapshot exactly while a
    mailbox is selected, the snapshot of a stored mailbox owned by the session's
    account, nobody logged in before the login, and the session's gauge counting
    the login. *)
Theorem connection_keeps_session uuid peer tls e auth input phase (sv : Server O U X L T) :
  rtc (conn_step services secrets has_acceptor elapsed)
    (Running, open_connection has_acceptor uuid peer tls e auth input) (phase, sv) ->
  (forall r, phase <> Finished r) -> session_ok (sv_session sv).
Proof.
  intros Hrun Hph.
  assert (Hok : phase_ok (phase, sv)); [|by destruct phase; try done; destruct (Hph result)].
  refine (rtc_ind_r (fun c => phase_ok c) _ _ _ _ Hrun); [by split|].
  intros c c' _ Hstep Hc. destruct Hstep.
  - apply turn_ok; [apply serve_command_ok|exact Hc].
  - apply turn_ok; [apply idle_turn_ok|exact Hc].
Qed.
End Invariant.

Lemma every_command_is_answered_witness :
  answers (lit "a1") [lit "* CAPABILITY IMAP4rev1 AUTH=PLAIN AUTH=XOAUTH2";
                      lit "a1 OK CAPABILITY completed"].
Proof.
  exact (every_command_is_answered services secrets
           (mkParsedCommand (lit "a1") (lit "capability") []) None (connect [])
           (fst (handle_parsed_command services secrets
                   (mkParsedCommand (lit "a1") (lit "capability") []) None (connect []))) _ eq_refl).
Defined.

(** The login of the concrete connection. *)
Definition login_turn : Phase * Srv := turn services (serve_command services secrets false 0)
                                         (connect [login]).
Lemma login_turn_phase : fst login_turn = Running.
Proof. by vm_compute. Qed.
Lemma login_turn_pair : (Running, snd login_turn) = login_turn.
Proof. rewrite <- login_turn_phase. by destruct login_turn. Qed.

Lemma connection_keeps_session_witness : session_ok (sv_session (snd login_turn)).
Proof.
  apply (connection_keeps_session services secrets false 0 (lit "conn-1") None false engine
           (with_limits 5 900 0) (crlf_lines [login]) Running).
  - apply rtc_once. rewrite login_turn_pair. apply step_serve.
  - discriminate.
Defined.
