(* ===== verification/ImapTextSpecs.v ===== *)
(** * What the text helpers of the server compute

    LIST patterns as a glob relation, the flag arithmetic of STORE, partial
    ranges of FETCH, and the SASL responses. *)

From stdpp Require Import base strings list gmap.
From Stdlib Require Import ZArith Lia.
From S2P Require Import Prelude RustStr Metrics Domain Protocol SearchQuery Storage Notifications Schema RepoCore Security RepoAccounts RepoMailboxes RepoMessages Auth Mime Search Scenario Engine SearchEval ImapText Mutations ImapSession ImapFetch ImapScenario.

Local Open Scope Z_scope.

(** ** LIST patterns *)

(** [*] stands for any text, [%] for any text without the hierarchy delimiter. *)
Inductive glob (delimiter : Z) : str -> str -> Prop :=
| glob_nil : glob delimiter [] []
| glob_star pattern skipped name :
    glob delimiter pattern name -> glob delimiter (42 :: pattern) (skipped ++ name)
| glob_percent pattern skipped name :
    ~ In delimiter skipped -> glob delimiter pattern name ->
    glob delimiter (37 :: pattern) (skipped ++ name)
| glob_char c pattern name :
    c <> 42 -> c <> 37 -> glob delimiter pattern name ->
    glob delimiter (c :: pattern) (c :: name).

Lemma star_matches (p : str -> bool) name :
  (fix any (name : str) : bool := p name || match name with [] => false | _ :: name' => any name' end)
    name = true <-> exists skipped rest, name = skipped ++ rest /\ p rest = true.
Proof.
  induction name as [|c name IH].
  - rewrite orb_false_r. split; [intros Hp; by exists [], []|].
    intros (skipped & rest & Hn & Hp). by destruct skipped, rest.
  - rewrite orb_true_iff, IH. split.
    + intros [Hp|(skipped & rest & -> & Hp)]; [by exists [], (c :: name)|by exists (c :: skipped), rest].
    + intros ([|x skipped] & rest & Hn & Hp); simpl in Hn; [left; congruence|right].
      injection Hn as _ Hn. eauto.
Qed.

Lemma percent_matches d (p : str -> bool) name :
  (fix level (name : str) : bool :=
     if p name then true
     else match name with [] => false | c :: name' => if c =? d then false else level name' end)
    name = true <-> exists skipped rest, name = skipped ++ rest /\ ~ In d skipped /\ p rest = true.
Proof.
  induction name as [|c name IH].
  - split; [destruct (p []) eqn:Ep; [exists [], []; by split_and!; auto|done]|].
    intros (skipped & rest & Hn & _ & Hp). destruct skipped, rest; try done. by rewrite Hp.
  - destruct (p (c :: name)) eqn:Ep; [split; [exists [], (c :: name); by split_and!; auto|done]|].
    destruct (Z.eqb_spec c d) as [->|Hc].
    + split; [done|]. intros ([|x skipped] & rest & Hn & Hd & Hp); simpl in Hn.
      * congruence.
      * injection Hn as -> Hn. destruct Hd. by left.
    + rewrite IH. split.
      * intros (skipped & rest & -> & Hd & Hp). exists (c :: skipped), rest.
        split_and!; [done| |done]. by intros [->|Hin].
      * intros ([|x skipped] & rest & Hn & Hd & Hp); simpl in Hn; [congruence|].
        injection Hn as -> Hn. exists skipped, rest. split_and!; [done| |done]. intros Hin. apply Hd. by right.
Qed.

Lemma pattern_matches_glob d pattern : forall name,
  pattern_matches d pattern name = true <-> glob d pattern name.
Proof.
  induction pattern as [|p pattern IH]; intros name; cbn [pattern_matches].
  - destruct name; split; try done; [by constructor|by inversion 1].
  - destruct (Z.eqb_spec p 42) as [->|Hs]; [|destruct (Z.eqb_spec p 37) as [->|Hp]].
    + rewrite star_matches. split.
      * intros (skipped & rest & -> & Hm). constructor. by apply IH.
      * inversion 1; subst; [|done]. do 2 eexists. by rewrite IH.
    + rewrite percent_matches. split.
      * intros (skipped & rest & -> & Hd & Hm). constructor; [done|]. by apply IH.
      * inversion 1; subst; [|done]. do 2 eexists. by rewrite IH.
    + destruct name as [|c name]; [split; [done|by inversion 1]|].
      destruct (Z.eqb_spec p c) as [->|Hc].
      * rewrite IH. split; [by constructor|by inversion 1].
      * split; [done|]. by inversion 1.
Qed.

(** C39 A LIST pattern matches a mailbox name exactly when the name, up to ASCII
    case, is an instance of it, where [*] stands for any text and [%] for any
    text within one level of the hierarchy. *)
Theorem list_pattern_is_glob pattern name delimiter :
  imap_list_pattern_matches pattern name delimiter = true <->
  glob (default 47 (head delimiter)) (to_ascii_lowercase pattern) (to_ascii_lowercase name).
Proof. apply pattern_matches_glob. Qed.

(** ** Flags *)
Definition has_flag (flag : str) (flags : list str) : bool :=
  existsb (fun existing => eq_ignore_ascii_case existing flag) flags.

(** No flag twice, up to case. *)
Definition distinct_flags (flags : list str) : Prop := NoDup (map to_ascii_lowercase flags).

Lemma eq_ignore_iff a b :
  eq_ignore_ascii_case a b = true <-> to_ascii_lowercase a = to_ascii_lowercase b.
Proof. apply str_eqb_eq. Qed.

Lemma has_flag_iff flag flags :
  has_flag flag flags = true <-> to_ascii_lowercase flag ∈ map to_ascii_lowercase flags.
Proof.
  unfold has_flag. rewrite existsb_exists, list_elem_of_fmap.
  split; intros (f & Hf & He); exists f; rewrite ?list_elem_of_In, ?eq_ignore_iff in *; auto.
Qed.
Lemma has_flag_app flag a b : has_flag flag (a ++ b) = has_flag flag a || has_flag flag b.
Proof. apply existsb_app. Qed.

Definition push_flag (out : list str) (flag : str) : list str :=
  if has_flag flag out then out else out ++ [flag].

Lemma push_flag_has f flag out : has_flag f (push_flag out flag) = has_flag f out || has_flag f [flag].
Proof.
  unfold push_flag. destruct (has_flag flag out) eqn:E; [|apply has_flag_app].
  destruct (has_flag f [flag]) eqn:Ef; [|by rewrite orb_false_r]. rewrite orb_true_r.
  rewrite !has_flag_iff in *. apply list_elem_of_singleton in Ef. by rewrite Ef.
Qed.
Lemma push_flag_distinct flag out : distinct_flags out -> distinct_flags (push_flag out flag).
Proof.
  intros Hd. unfold push_flag. destruct (has_flag flag out) eqn:E; [done|].
  unfold distinct_flags. rewrite map_app. apply NoDup_app. split_and!; [done| |apply NoDup_singleton].
  intros x Hx Hx2. apply list_elem_of_singleton in Hx2 as ->. apply has_flag_iff in Hx. congruence.
Qed.
Lemma push_flags_spec flags : forall out,
  (forall f, has_flag f (fold_left push_flag flags out) = has_flag f out || has_flag f flags) /\
  (distinct_flags out -> distinct_flags (fold_left push_flag flags out)).
Proof.
  induction flags as [|flag flags IH]; intros out; simpl; [split; [by intros; rewrite orb_false_r|done]|].
  destruct (IH (push_flag out flag)) as [Hh Hd]. split.
  - intros f. rewrite Hh, push_flag_has. simpl. by rewrite orb_false_r, orb_assoc.
  - intros Ho. by apply Hd, push_flag_distinct.
Qed.

Lemma has_flag_eq a b flags :
  eq_ignore_ascii_case a b = true -> has_flag a flags = has_flag b flags.
Proof. intros E. apply eq_true_iff_eq. rewrite !has_flag_iff. apply eq_ignore_iff in E. by rewrite E. Qed.

Lemma has_flag_filter f current requested :
  has_flag f (List.filter (fun existing => negb
    (existsb (fun flag => eq_ignore_ascii_case existing flag) requested)) current) =
  has_flag f current && negb (has_flag f requested).
Proof.
  assert (Hsym : forall x, existsb (fun flag => eq_ignore_ascii_case x flag) requested =
                           has_flag x requested).
  { intros x. unfold has_flag. induction requested as [|r requested IH]; simpl; [done|].
    rewrite IH. f_equal. apply eq_true_iff_eq. rewrite !eq_ignore_iff. by split. }
  induction current as [|x current IH]; simpl; [done|]. rewrite Hsym.
  destruct (eq_ignore_ascii_case x f) eqn:E; simpl.
  - rewrite <- (has_flag_eq x f requested E). destruct (has_flag x requested) eqn:Er; simpl.
    + rewrite IH, <- (has_flag_eq x f requested E), Er. by rewrite andb_false_r.
    + by rewrite E.
  - destruct (has_flag x requested); simpl; [|rewrite E]; apply IH.
Qed.

(** The flags after a STORE: FLAGS replaces them by the requested ones,
    +FLAGS gives the union and -FLAGS the difference, where flags are compared
    without case, and no flag is there twice if none was before. *)
Theorem store_flags_meaning current requested :
  distinct_flags current -> forall mode,
  distinct_flags (apply_store_flags current mode requested) /\
  forall flag, has_flag flag (apply_store_flags current mode requested) =
    match mode with
    | Replace => has_flag flag requested
    | Add => has_flag flag current || has_flag flag requested
    | Remove => has_flag flag current && negb (has_flag flag requested)
    end.
Proof.
  intros Hc [| |]; simpl.
  - destruct (push_flags_spec requested []) as [Hh Hd]. split; [by apply Hd; constructor|].
    intros f. apply Hh.
  - destruct (push_flags_spec requested current) as [Hh Hd]. by split; [apply Hd|].
  - split.
    + unfold distinct_flags in *. eapply sublist_NoDup; [exact Hc|].
      clear Hc. induction current as [|f current IH]; simpl; [done|].
      destruct (negb _); simpl; by constructor.
    + intros f. apply has_flag_filter.
Qed.

(** ** Partial ranges *)
Lemma apply_partial_cut b offset count :
  0 <= offset -> 0 <= count -> Z.of_nat (length b) <= i64_max ->
  apply_partial b (Some (offset, Some count)) =
  take (Z.to_nat count) (drop (Z.to_nat offset) b).
Proof.
  intros Ho Hc Hl. unfold apply_partial, saturating_add_usize. unfold i64_max in Hl.
  destruct (Z.leb_spec (Z.of_nat (length b)) offset) as [Hle|Hlt].
  - rewrite drop_ge by lia. by rewrite take_nil.
  - unfold u64_max. destruct (Z.le_gt_cases (offset + count) (Z.of_nat (length b))).
    + f_equal. lia.
    + rewrite !take_ge; [done| |]; rewrite length_drop; lia.
Qed.

(** The store cuts the range the way [apply_partial] does. *)
Lemma slice_range_partial b offset count :
  0 <= offset -> 0 <= count -> Z.of_nat (length b) <= i64_max ->
  slice_range b offset (range_end offset (Some count)) =
  Ok (apply_partial b (Some (offset, Some count))).
Proof.
  intros Ho Hc Hl. unfold slice_range, slice, range_end, apply_partial, saturating_add_usize.
  simpl. destruct (Z.leb_spec (Z.of_nat (length b)) offset) as [Hle|Hlt]; [done|].
  unfold i64_max, u64_max in *. rewrite (proj2 (Z.leb_le offset _)) by lia.
  by rewrite (proj2 (Z.leb_le _ (Z.of_nat (length b)))) by lia.
Qed.

(** ** A blob in the store *)
Section Hits.
Context {O U X L : Type} `{ObjectStore O} `{PgText}.
Variable services : AppServices.

Lemma touch_never_fails account_id key (e : Engine O U X L) :
  exists e', touch_ignored services account_id key e = (e', Ok tt).
Proof.
  unfold touch_ignored. destruct (has_repository services); [|by eexists].
  unfold ignore, on_repo, zoom. by eexists.
Qed.

(** What a hit does after the bytes were read. *)
Lemma after_hit account_id key b (e : Engine O U X L) :
  snd ((on_metrics record_cache_hit ;;;
        record_object_store_bytes_read (len b) ;;;
        touch_ignored services account_id key ;;;
        ret (Some b)) e) = Ok (Some b).
Proof.
  unfold bind, on_metrics, record_object_store_bytes_read, modify, ret. simpl.
  match goal with |- context [touch_ignored _ _ _ ?e'] =>
    destruct (touch_never_fails account_id key e') as [e2 ->] end. done.
Qed.

Lemma on_store_read {A} (m : M Error O A) (e : Engine O U X L) a :
  m (e_store e) = (e_store e, Ok a) -> on_store m e = (e, Ok a).
Proof. intros Hm. unfold on_store, zoom. rewrite Hm. by destruct e. Qed.
End Hits.

Section Ranges.
Context {U X L : Type} `{UpstreamClient U} `{UpstreamConnector U}.
Context `{Sha256} `{MimeParser} `{PgText} `{Crypto}.
Variable services : AppServices.
Variable secrets : SecretBox.
Abbreviation Eng := (Engine MemoryObjectStore U X L).

Lemma load_whole_hit account_id name view raw (e : Eng) :
  memory_ok (e_store e) ->
  blobs (e_store e) !! MailboxMessageView_rfc822_blob_key view = Some raw ->
  snd (load_whole services secrets account_id name view e) = Ok (Some raw).
Proof.
  intros Hok Hraw. unfold load_whole. cbv zeta. erewrite bind_Ok; [|apply on_store_read].
  2: { cbn [store_get memory_object_store]. unfold memory_get, bind, gets. rewrite Hraw.
       unfold lift. rewrite (proj2 (validate_iff _ raw)); [done|by apply Hok]. }
  apply after_hit.
Qed.

End Ranges.

(** ** SASL *)
Lemma as_bytes_app a b : as_bytes (a ++ b) = as_bytes a ++ as_bytes b.
Proof. apply flat_map_app. Qed.

Lemma utf8_char_nul c : In 0 (utf8_char c) -> c = 0.
Proof.
  unfold utf8_char. destruct (c <? 128) eqn:E1; [by intros [|[]]|].
  apply Z.ltb_ge in E1. pose proof (Z.div_le_lower_bound c 64 0).
  assert (Hm : forall a, 0 <= a mod 64 < 64) by (intros; by apply Z.mod_pos_bound).
  assert (Hd : forall k, 0 < k -> 0 <= c / k) by (intros; apply Z.div_pos; lia).
  pose proof (Hm c). pose proof (Hm (c / 64)). pose proof (Hm (c / 4096)).
  pose proof (Hd 64 ltac:(lia)). pose proof (Hd 4096 ltac:(lia)). pose proof (Hd 262144 ltac:(lia)).
  destruct (c <? 2048); [|destruct (c <? 65536)]; cbn [In]; intuition lia.
Qed.
Lemma as_bytes_nul s : In 0 (as_bytes s) -> In 0 s.
Proof.
  unfold as_bytes. rewrite in_flat_map. intros (c & Hc & H0). by apply utf8_char_nul in H0 as ->.
Qed.

(** The PLAIN response a client builds from an authorisation identity, a user
    name and a password without NUL characters is read back as that user name
    and password, through UTF-8. *)
Theorem sasl_plain_roundtrip `{Base64} authzid username password :
  ~ In 0 authzid -> ~ In 0 username -> ~ In 0 password ->
  Forall (fun c => is_scalar c = true) username -> Forall (fun c => is_scalar c = true) password ->
  parse_sasl_plain_auth (as_bytes (authzid ++ [0] ++ username ++ [0] ++ password)) =
  Ok (username, password).
Proof.
  intros Ha Hu Hp Hsu Hsp. unfold parse_sasl_plain_auth.
  rewrite !as_bytes_app. change (as_bytes [0]) with [0]. cbn [app].
  rewrite !split_char_app by (by intros ?%as_bytes_nul). rewrite split_char_absent by (by intros ?%as_bytes_nul).
  unfold str_from_utf8. rewrite !from_utf8_as_bytes by done. done.
Qed.

(** ** Examples *)
Lemma store_flags_meaning_witness :
  apply_store_flags [lit "\Seen"; lit "work"] Remove [lit "\SEEN"] = [lit "work"] /\
  has_flag (lit "\seen") (apply_store_flags [lit "\Seen"; lit "work"] Remove [lit "\SEEN"]) = false.
Proof.
  split; [by vm_compute|].
  refine (proj2 (store_flags_meaning [lit "\Seen"; lit "work"] [lit "\SEEN"] _ Remove) (lit "\seen")).
  apply (bool_decide_unpack _). by vm_compute.
Defined.

(** The first message of the concrete store. *)
Definition first_view : View :=
  mkMailboxMessageView 1 1 1 1 (Some 1) (Some 1) [lit "\Seen"] [] false None 1000 1000 (blob 1)
    (lit "1") None None Null Null None None 100 None.

Lemma store_sound : memory_ok store.
Proof.
  intros key b. unfold store. cbn [blobs]. rewrite !lookup_insert. rewrite lookup_empty.
  repeat case_decide; subst; intros [= <-]; exists Rfc822; by vm_compute.
Qed.


Lemma sasl_plain_roundtrip_witness :
  parse_sasl_plain_auth (as_bytes ([] ++ [0] ++ lit "alice" ++ [0] ++ lit "secret")) =
  Ok (lit "alice", lit "secret").
Proof.
  apply sasl_plain_roundtrip; try (intros Hin; vm_compute in Hin; by repeat destruct Hin as [Hin|Hin]);
    repeat (apply List.Forall_cons; [done|]); by constructor.
Defined.
