(* ===== verification/ImapSafetySpecs.v ===== *)
(** * What commands cannot do

    A session without an account changes nothing; a read-only selection
    protects the mail from STORE, EXPUNGE, MOVE and CLOSE. *)

From stdpp Require Import base strings list relations.
From Stdlib Require Import ZArith Lia.
From S2P Require Import Prelude RustStr Metrics Domain Protocol SearchQuery Storage Notifications Schema RepoCore Security RepoAccounts RepoMailboxes RepoMessages RepoQueue Invariant Integrity Auth Mime Search Scenario Engine SearchEval Threads ImapText Ingest Mutations QueueSpecs SyncSpecs Convergence ImapSession ImapFetch ImapCommands ImapServer ImapScenario ImapFrames ImapSessionSpecs.

Local Open Scope Z_scope.

(** ** A session without an account *)
Section Anonymous.
Context {O U X L T : Type} `{ObjectStore O} `{UpstreamClient U} `{UpstreamConnector U}.
Context `{SearchBackend X} `{Authenticator T}.
Context `{Sha256} `{MimeParser} `{PgText} `{UuidText} `{Crypto} `{Texts} `{ChronoRange}.
Context `{MailHeaders}.
Variable services : AppServices.
Variable secrets : SecretBox.
Abbreviation Imap := (M Error (Server O U X L T)).

(** Nothing in the database changes, as long as the session has no account. *)
Definition harmless {A} (m : Imap A) : Prop :=
  forall sv, session_ok (sv_session sv) -> session_account (sv_session sv) = None ->
    sv_world (fst (m sv)) = sv_world sv.

Lemma harmless_frame {A} (m : Imap A) : sframe sv_world m -> harmless m.
Proof. intros Hm sv _ _. apply Hm. Qed.

Lemma harmless_get {A} (k : ImapSession -> Imap A) :
  (forall s, session_ok s -> session_account s = None -> sframe sv_world (k s)) ->
  harmless (bind get_session k).
Proof. intros Hk sv Hs Ha. by apply (Hk (sv_session sv)). Qed.

Ltac no_account :=
  apply harmless_get; intros s Hs Ha; cbv beta; rewrite ?Ha; frame_steps.

Lemma with_selected_harmless name tag (k : Z -> str -> Mailbox -> Imap (list str)) :
  harmless (with_selected services name tag k).
Proof. unfold with_selected. no_account. Qed.

Lemma when_selected_harmless name tag (k : option Z -> str -> Imap (list str)) :
  (forall m, sframe sv_world (k None m)) -> harmless (when_selected name tag k).
Proof. intros Hk. unfold when_selected. no_account. Qed.

Lemma search_world mailbox query uid :
  sframe sv_world (on_engine (T := T) (execute_search (O := O) (U := U) (L := L) services None
                                         mailbox query uid)).
Proof.
  unfold execute_search. destruct (has_repository services); simpl; [by intros []|].
  destruct (has_search_backend services); [apply world_on_search|by intros []].
Qed.
Lemma sort_world mailbox query keys reverse uid :
  sframe sv_world (on_engine (T := T) (execute_sort (O := O) (U := U) (L := L) services None
                                         mailbox query keys reverse uid)).
Proof.
  unfold execute_sort. destruct (has_repository services); simpl; [by intros []|].
  destruct (has_search_backend services); [|by intros []].
  intros [s e a i w]. unfold on_engine, zoom, bind, on_search, zoom, sv_world. simpl.
  by destruct (backend_search mailbox query (e_search e)) as [x [r|err|]].
Qed.
Lemma thread_world mailbox query algorithm uid :
  sframe sv_world (on_engine (T := T) (execute_thread (O := O) (U := U) (X := X) (L := L) services
                                         secrets None mailbox query algorithm uid)).
Proof. unfold execute_thread. by destruct (has_repository services); intros []. Qed.
#[local] Hint Resolve search_world sort_world thread_world : imap.

Lemma cmd_close_harmless tag : harmless (cmd_close services tag).
Proof.
  apply harmless_get. intros s Hs Ha.
  destruct (selected_mailbox_name_ref s); [|apply sframe_ret].
  apply sframe_bind; [|intros; unfold deselect; frame_steps].
  destruct (negb (is_read_only s) && has_repository services); [|apply sframe_ret].
  destruct (selected_mailbox_snapshot s) as [sn|] eqn:Esn; [|apply sframe_ret].
  destruct (0 <? snapshot_mailbox_id sn) eqn:Eid; [|apply sframe_ret].
  apply Z.ltb_lt in Eid. by rewrite (ok_account s Hs sn Esn Eid) in Ha.
Qed.

Ltac repository_command :=
  destruct (has_repository services); [no_account|apply harmless_frame; frame_steps].

Lemma cmd_list_harmless name tag args : harmless (cmd_list services name tag args).
Proof. unfold cmd_list. repository_command. Qed.
Lemma cmd_status_harmless tag args : harmless (cmd_status services tag args).
Proof. unfold cmd_status. repository_command. Qed.
Lemma cmd_create_harmless tag args : harmless (cmd_create services tag args).
Proof. unfold cmd_create. repository_command. Qed.
Lemma cmd_delete_harmless tag args : harmless (cmd_delete services tag args).
Proof. unfold cmd_delete. repository_command. Qed.
Lemma cmd_rename_harmless tag args : harmless (cmd_rename services tag args).
Proof. unfold cmd_rename. repository_command. Qed.
Lemma cmd_subscribe_harmless b name tag args :
  harmless (cmd_subscribe services b name tag args).
Proof. unfold cmd_subscribe. repository_command. Qed.
Lemma cmd_append_harmless tag args literal : harmless (cmd_append services tag args literal).
Proof. unfold cmd_append. no_account. Qed.
Lemma cmd_select_harmless b tag args : harmless (cmd_select services b tag args).
Proof. unfold cmd_select. no_account. Qed.
Lemma cmd_uid_harmless tag args : harmless (cmd_uid services secrets tag args).
Proof.
  unfold cmd_uid. destruct args; [by apply harmless_frame, sframe_ret|].
  apply with_selected_harmless.
Qed.
#[local] Hint Resolve with_selected_harmless cmd_list_harmless cmd_status_harmless
  cmd_create_harmless cmd_delete_harmless cmd_rename_harmless cmd_subscribe_harmless
  cmd_append_harmless cmd_select_harmless cmd_uid_harmless cmd_close_harmless : imap.

End Anonymous.

(** ** A read-only selection *)
Section ReadOnly.
Context {O U X L T : Type} `{ObjectStore O} `{UpstreamClient U} `{UpstreamConnector U}.
Context `{SearchBackend X} `{Authenticator T}.
Context `{Sha256} `{MimeParser} `{PgText} `{UuidText} `{Crypto} `{Texts} `{ChronoRange}.
Context `{MailHeaders}.
Variable services : AppServices.
Variable secrets : SecretBox.
Abbreviation Imap := (M Error (Server O U X L T)).

(** Nothing in the database changes while the session is read-only. *)
Definition guarded {A} (m : Imap A) : Prop :=
  forall sv, is_read_only (sv_session sv) = true -> sv_world (fst (m sv)) = sv_world sv.

Lemma guarded_frame {A} (m : Imap A) : sframe sv_world m -> guarded m.
Proof. intros Hm sv _. apply Hm. Qed.
Lemma guarded_get {A} (k : ImapSession -> Imap A) :
  (forall s, is_read_only s = true -> guarded (k s)) -> guarded (bind get_session k).
Proof. intros Hk sv Hs. by apply (Hk (sv_session sv)). Qed.
(** A query between the session and the rest. *)
Lemma guarded_query {A B} (f : Database -> A) (k : A -> Imap B) :
  (forall a, guarded (k a)) -> guarded (bind (on_db (query f)) k).
Proof. intros Hk [s [w st up x l m] a i o] Hs. by apply Hk. Qed.

Lemma unless_read_only_guarded name tag (k : Imap (list str)) :
  guarded (unless_read_only name tag k).
Proof. apply guarded_get. intros s ->. by apply guarded_frame, sframe_ret. Qed.

Lemma with_selected_guarded name tag (k : Z -> str -> Mailbox -> Imap (list str)) :
  (forall a m mailbox, guarded (k a m mailbox)) -> guarded (with_selected services name tag k).
Proof.
  intros Hk. apply guarded_get. intros s _.
  destruct (session_account s); [|by apply guarded_frame, sframe_ret].
  destruct (selected_mailbox_name_ref s); [|by apply guarded_frame, sframe_ret].
  destruct (negb (has_repository services)); [by apply guarded_frame, sframe_ret|].
  apply guarded_query. intros [mailbox|]; [apply Hk|by apply guarded_frame, sframe_ret].
Qed.

Lemma cmd_move_guarded name tag args : guarded (cmd_copy services true name tag args).
Proof.
  apply with_selected_guarded. intros a m source.
  destruct (head args); [|by apply guarded_frame, sframe_ret].
  destruct (args !! 1%nat); [|by apply guarded_frame, sframe_ret].
  apply guarded_query. intros [d|]; [|by apply guarded_frame, sframe_ret].
  apply guarded_get. intros s ->. by apply guarded_frame, sframe_ret.
Qed.

Lemma cmd_close_guarded tag : guarded (cmd_close services tag).
Proof.
  apply guarded_get. intros s Hs. rewrite Hs. cbn [negb andb].
  destruct (selected_mailbox_name_ref s); [|by apply guarded_frame, sframe_ret].
  apply guarded_frame. unfold deselect. frame_steps.
Qed.

Lemma uid_move_guarded sub tag args a source : guarded (uid_copy services true sub tag args a source).
Proof. apply guarded_get. intros s ->. by apply guarded_frame, sframe_ret. Qed.

(** The commands a read-only mailbox refuses, or (CLOSE) trims down. *)
Definition changes_mail (command : ParsedCommand) : bool :=
  let upper word s := str_eqb (to_ascii_uppercase s) (lit word) in
  let name := ParsedCommand_name command in
  upper "STORE"%string name || upper "EXPUNGE"%string name || upper "MOVE"%string name ||
  upper "CLOSE"%string name ||
  (upper "UID"%string name &&
   match ParsedCommand_args command with
   | sub :: _ => upper "STORE"%string sub || upper "EXPUNGE"%string sub || upper "MOVE"%string sub
   | [] => false
   end).

Lemma cmd_uid_guarded tag sub rest :
  In (to_ascii_uppercase sub) (map lit ["STORE"; "EXPUNGE"; "MOVE"]%string) ->
  guarded (cmd_uid services secrets tag (sub :: rest)).
Proof.
  intros Hsub. apply with_selected_guarded. intros a m mailbox. revert Hsub.
  generalize (to_ascii_uppercase sub). intros name Hname. cbn [map In] in Hname.
  repeat destruct Hname as [<-|Hname]; try done; cbn;
    first [apply unless_read_only_guarded|apply uid_move_guarded].
Qed.

End ReadOnly.

(** ** Examples *)
Definition command (tag name : string) (args : list string) : ParsedCommand :=
  mkParsedCommand (lit tag) (lit name) (map lit args).

(** The server after a logged-in client's command. *)
Definition after (c : ParsedCommand) (sv : Srv) : Srv :=
  fst (handle_parsed_command services secrets c None sv).
Definition examined : Srv := after (command "a2" "EXAMINE" ["INBOX"]) (snd login_turn).

Lemma examined_read_only : is_read_only (sv_session examined) = true.
Proof. by vm_compute. Qed.

Lemma connect_ok : session_ok (sv_session (connect [])).
Proof. by split. Qed.


