(* ===== verification/ImapSoundness.v ===== *)
(** * Connections keep the database sound

    Every command, every turn of a connection and every wake-up of IDLE keeps
    [db_ok], whatever its outcome.  An authenticator is asked to keep it too
    ([AuthenticatorLaws]); the PostgreSQL one does. *)

From stdpp Require Import base strings list relations.
From Stdlib Require Import ZArith Lia.
From S2P Require Import Prelude RustStr Metrics Domain Protocol SearchQuery Storage Notifications Schema RepoCore Security RepoAccounts RepoMailboxes RepoMessages RepoQueue Invariant Integrity Auth Mime Search Scenario Engine SearchEval Threads ImapText Ingest Mutations QueueSpecs SyncSpecs Convergence ImapSession ImapFetch ImapCommands ImapServer ImapScenario ImapFrames ImapSessionSpecs.

Local Open Scope Z_scope.

(** ** Authenticators *)
Definition auth_ok {T} (st : @AuthState T) : Prop :=
  db_ok (w_db (auth_world st)) (w_seq (auth_world st)).

Class AuthenticatorLaws (T : Type) `{Authenticator T} : Prop := {
  authenticate_safe : forall username password,
    preserves auth_ok (authenticate username password)
}.

Section Postgres.
Context {T : Type} `{LoginThrottle T, Crypto, PgText}.

Lemma auth_on_throttle {A} (m : M Error T A) : preserves auth_ok (on_throttle m).
Proof. intros st Hst. unfold on_throttle, zoom. by destruct (m (auth_throttle st)). Qed.
Lemma auth_on_repository {A} (m : Repo A) : safe m -> preserves auth_ok (on_repository (T := T) m).
Proof.
  intros Hm st Hst. destruct (Hm (w_seq (auth_world st)) (auth_world st)) as [Hok _]; [by split|].
  unfold on_repository, zoom. by destruct (m (auth_world st)).
Qed.
Hint Resolve auth_on_throttle safe_record_audit_log : repo.

#[export] Instance PostgresAuthenticatorLaws : AuthenticatorLaws T.
Proof.
  split. intros username password. unfold authenticate, PostgresAuthenticator,
    postgres_authenticate, login_failure, account_for_login, find_user_by_username.
  repeat first
    [ solve [eauto 2 with repo]
    | apply preserves_ignore
    | apply auth_on_repository; solve [safe_steps]
    | apply preserves_bind; [|intros ?]
    | match goal with
      | |- preserves _ (match ?x with _ => _ end) => destruct x
      | |- preserves _ (let _ := ?x in _) => cbv zeta
      end ].
Qed.
End Postgres.

(** ** Commands *)
Section Sound.
Context {O U X L T : Type} `{ObjectStore O} `{UpstreamClient U} `{UpstreamConnector U}.
Context `{SearchBackend X} `{AuthenticatorLaws T}.
Context `{Sha256} `{MimeParser} `{PgText} `{UuidText} `{Crypto} `{Texts} `{ChronoRange}.
Context `{MailHeaders} `{Base64} `{TlsAcceptor}.
Variable services : AppServices.
Variable secrets : SecretBox.
Variable has_acceptor : bool.
Variable elapsed : Z.
Abbreviation Imap := (M Error (Server O U X L T)).
Abbreviation Sync := (M Error (Engine O U X L)).

Definition server_ok (sv : Server O U X L T) : Prop := engine_ok (sv_engine sv).

Lemma sound_on_engine {A} (m : Sync A) :
  preserves engine_ok m -> preserves server_ok (on_engine (T := T) m).
Proof.
  intros Hm sv Hs. specialize (Hm _ Hs). unfold on_engine, zoom.
  by destruct (m (sv_engine sv)).
Qed.
Lemma sound_on_db {A} (m : Repo A) : safe m -> preserves server_ok (on_db m).
Proof. intros Hm. by apply sound_on_engine, preserves_on_repo. Qed.
Lemma sound_authenticate username password :
  preserves server_ok (on_auth (authenticate username password)).
Proof.
  intros sv Hs. pose proof (authenticate_safe username password
    (mkAuthState (e_world (sv_engine sv)) (sv_auth sv)) Hs) as Hok.
  unfold on_auth. by destruct (authenticate username password _).
Qed.
Lemma sound_update_session f : preserves server_ok (update_session f).
Proof. by intros sv Hs. Qed.
Lemma sound_write_all b : preserves server_ok (write_all b).
Proof. by intros sv Hs. Qed.
Lemma sound_set_input b : preserves server_ok (set_input b).
Proof. by intros sv Hs. Qed.

Hint Resolve sound_authenticate sound_update_session sound_write_all sound_set_input : repo.
Hint Resolve safe_find_mailbox safe_create_mailbox safe_delete_mailbox safe_rename_mailbox
  safe_set_mailbox_subscribed safe_refresh_mailbox_counts safe_update_flags
  safe_delete_mailbox_message safe_copy_mailbox_message safe_enqueue_mutation
  safe_create_session safe_mark_session_disconnected safe_upsert_cache_object
  safe_touch_cache_object preserves_on_search preserves_utc_now ingest_safe : repo.

Ltac sound_steps :=
  repeat first
    [ solve [eauto 2 with repo]
    | apply sound_on_db; solve [safe_steps]
    | apply preserves_on_repo; solve [safe_steps]
    | apply sound_on_engine
    | apply preserves_try
    | apply preserves_ignore
    | apply preserves_for_each; intros ?
    | apply preserves_fold_each; intros ? ?
    | apply preserves_bind; [|intros ?]
    | match goal with
      | |- preserves _ (match ?x with _ => _ end) => destruct x
      | |- preserves _ (let _ := ?x in _) => cbv zeta
      end ].

(** Reading messages: the cache rows, and a blob fetched again. *)
Lemma touch_ignored_sound account_id key :
  preserves engine_ok (touch_ignored (O := O) (U := U) (X := X) (L := L) services account_id key).
Proof. unfold touch_ignored. sound_steps. Qed.
Lemma bytes_written_sound n :
  preserves engine_ok (record_object_store_bytes_written (O := O) (U := U) (X := X) (L := L) n).
Proof. by intros e He. Qed.
Lemma bytes_read_sound n :
  preserves engine_ok (record_object_store_bytes_read (O := O) (U := U) (X := X) (L := L) n).
Proof. by intros e He. Qed.
Hint Resolve touch_ignored_sound bytes_written_sound bytes_read_sound : repo.

Lemma remember_blob_sound account_id kind key metadata :
  preserves engine_ok (remember_blob (O := O) (U := U) (X := X) (L := L) account_id kind key metadata).
Proof. unfold remember_blob. sound_steps. Qed.
Hint Resolve remember_blob_sound : repo.
Lemma rehydrate_sound account_id name view :
  preserves engine_ok (rehydrate_missing_raw_blob (O := O) (U := U) (X := X) (L := L) services
                         secrets account_id name view).
Proof. unfold rehydrate_missing_raw_blob. sound_steps. Qed.
Hint Resolve rehydrate_sound : repo.
Lemma load_whole_sound account_id name view :
  preserves engine_ok (load_whole (O := O) (U := U) (X := X) (L := L) services secrets account_id
                         name view).
Proof. unfold load_whole. sound_steps. Qed.
Lemma load_full_range_sound account_id name view offset count :
  preserves engine_ok (load_full_range (O := O) (U := U) (X := X) (L := L) services secrets
                         account_id name view offset count).
Proof. unfold load_full_range. sound_steps. Qed.
Lemma load_part_from_message_sound account_id name view part path :
  preserves engine_ok (load_part_from_message (O := O) (U := U) (X := X) (L := L) services secrets
                         account_id name view part path).
Proof. unfold load_part_from_message. sound_steps. Qed.
Hint Resolve load_whole_sound load_full_range_sound load_part_from_message_sound : repo.
Lemma load_part_sound account_id name view path section partial :
  preserves engine_ok (load_part (O := O) (U := U) (X := X) (L := L) services secrets account_id
                         name view path section partial).
Proof. unfold load_part. sound_steps. Qed.
Hint Resolve load_part_sound : repo.
Lemma load_raw_sound account_id name view section partial :
  preserves engine_ok (load_raw_fetch_bytes (O := O) (U := U) (X := X) (L := L) services secrets
                         account_id name view section partial).
Proof. unfold load_raw_fetch_bytes. sound_steps. Qed.
Hint Resolve load_raw_sound : repo.

(** The searches read; THREAD may fetch messages again. *)
Lemma execute_search_sound account_id name query uid :
  preserves engine_ok (execute_search (O := O) (U := U) (L := L) services account_id name query uid).
Proof. unfold execute_search. sound_steps. Qed.
Hint Resolve execute_search_sound : repo.
Lemma execute_sort_sound account_id name query keys reverse uid :
  preserves engine_ok (execute_sort (O := O) (U := U) (L := L) services account_id name query keys
                         reverse uid).
Proof. unfold execute_sort, search_rows. sound_steps. Qed.
Lemma execute_thread_sound account_id name query algorithm uid :
  preserves engine_ok (execute_thread (O := O) (U := U) (X := X) (L := L) services secrets
                         account_id name query algorithm uid).
Proof. unfold execute_thread, search_rows, thread_message. sound_steps. Qed.
Hint Resolve execute_sort_sound execute_thread_sound : repo.

(** The guards. *)
Lemma with_selected_sound name tag (k : Z -> str -> Mailbox -> Imap (list str)) :
  (forall a m mailbox, preserves server_ok (k a m mailbox)) ->
  preserves server_ok (with_selected services name tag k).
Proof. intros Hk. unfold with_selected, get_session. sound_steps. Qed.
Lemma unless_read_only_sound name tag (k : Imap (list str)) :
  preserves server_ok k -> preserves server_ok (unless_read_only name tag k).
Proof. intros Hk. unfold unless_read_only, get_session. sound_steps. Qed.
Lemma both_metrics_sound f : preserves server_ok (on_both_metrics f).
Proof. unfold on_both_metrics. sound_steps. Qed.
Hint Resolve both_metrics_sound : repo.

Lemma queue_flags_sound account_id mailbox_id uid flags :
  preserves server_ok (queue_flags (T := T) services account_id mailbox_id uid flags).
Proof. unfold queue_flags, queue_flag_update. sound_steps. Qed.
Hint Resolve queue_flags_sound : repo.

Lemma cmd_store_sound tag args : preserves server_ok (cmd_store services tag args).
Proof.
  apply with_selected_sound. intros. apply unless_read_only_sound.
  unfold resolve_sequence_targets, store_row. sound_steps.
Qed.
Lemma expunge_targets_sound mailbox_id targets :
  preserves server_ok (expunge_targets (T := T) mailbox_id targets).
Proof. unfold expunge_targets, expunge_target. sound_steps. Qed.
Hint Resolve expunge_targets_sound : repo.
Lemma cmd_expunge_sound tag args : preserves server_ok (cmd_expunge services tag args).
Proof.
  apply with_selected_sound. intros. apply unless_read_only_sound.
  unfold resolve_sequence_targets. sound_steps.
Qed.
Lemma cmd_close_sound tag : preserves server_ok (cmd_close services tag).
Proof. unfold cmd_close, close_expunge, deselect, get_session. sound_steps. Qed.
Lemma copy_one_sound move account_id source destination copied message :
  preserves server_ok (copy_one (T := T) services move account_id source destination copied message).
Proof.
  unfold copy_one, queue_move_message, queue_copy_message. destruct move; sound_steps.
Qed.
Lemma move_source_sound move mailbox_id message :
  preserves server_ok (move_source (T := T) move mailbox_id message).
Proof. unfold move_source. sound_steps. Qed.
Hint Resolve copy_one_sound move_source_sound : repo.
Lemma cmd_copy_sound move name tag args : preserves server_ok (cmd_copy services move name tag args).
Proof.
  apply with_selected_sound. intros.
  unfold resolve_sequence_targets, copy_row, get_session. sound_steps.
Qed.
Lemma cmd_append_sound tag args literal : preserves server_ok (cmd_append services tag args literal).
Proof. unfold cmd_append, queue_append, get_session. sound_steps. Qed.
Lemma cmd_fetch_sound tag args : preserves server_ok (cmd_fetch services tag args).
Proof. apply with_selected_sound. intros. unfold resolve_sequence_views. sound_steps. Qed.
Lemma run_search_sound account_id mailbox tag args uid completed :
  preserves server_ok (run_search services account_id mailbox tag args uid completed).
Proof. unfold run_search. sound_steps. Qed.
Lemma run_sort_sound account_id mailbox tag args uid usage completed :
  preserves server_ok (run_sort services account_id mailbox tag args uid usage completed).
Proof. unfold run_sort. sound_steps. Qed.
Lemma run_thread_sound account_id mailbox tag args uid usage completed :
  preserves server_ok (run_thread services secrets account_id mailbox tag args uid usage completed).
Proof. unfold run_thread. sound_steps. Qed.
Hint Resolve run_search_sound run_sort_sound run_thread_sound : repo.

Lemma uid_copy_sound move sub tag args account_id source :
  preserves server_ok (uid_copy services move sub tag args account_id source).
Proof. unfold uid_copy, uid_copy_row, resolve_uid_targets, get_session. sound_steps. Qed.
Lemma uid_expunge_sound tag args mailbox : preserves server_ok (uid_expunge tag args mailbox).
Proof. apply unless_read_only_sound. sound_steps. Qed.
Lemma uid_store_sound tag args account_id mailbox :
  preserves server_ok (uid_store services tag args account_id mailbox).
Proof.
  apply unless_read_only_sound.
  unfold resolve_uid_targets, uid_store_row, sequence_number_for_local_uid. sound_steps.
Qed.
Hint Resolve uid_copy_sound uid_expunge_sound uid_store_sound : repo.
Lemma cmd_uid_sound tag args : preserves server_ok (cmd_uid services secrets tag args).
Proof.
  unfold cmd_uid. destruct args as [|sub rest]; [apply preserves_ret|].
  apply with_selected_sound. intros.
  destruct (match_str _ _) eqn:Em; [|apply preserves_ret].
  revert Em. apply match_str_Forall. each_arm; eauto with repo.
  unfold uid_fetch, resolve_uid_views. sound_steps.
Qed.

Lemma activate_sound ctx : preserves server_ok (activate_authenticated_session services ctx).
Proof. unfold activate_authenticated_session, get_session. sound_steps. Qed.
Hint Resolve activate_sound cmd_uid_sound cmd_fetch_sound cmd_append_sound cmd_copy_sound
  cmd_close_sound cmd_expunge_sound cmd_store_sound : repo.

Lemma handle_parsed_command_sound command literal :
  preserves server_ok (handle_parsed_command services secrets command literal).
Proof.
  unfold handle_parsed_command. apply preserves_bind; [apply both_metrics_sound|]. intros _.
  destruct (match_str _ _) eqn:Em; [|apply preserves_ret]. revert Em. apply match_str_Forall.
  unfold command_arms. each_arm; try solve [eauto with repo];
    unfold cmd_capability, cmd_logout, cmd_login, cmd_starttls, cmd_select, cmd_list, cmd_status,
      cmd_idle, cmd_check, cmd_unselect, cmd_create, cmd_delete, cmd_rename, cmd_subscribe,
      cmd_namespace, cmd_id, cmd_enable, cmd_condstore, cmd_search, cmd_sort, cmd_thread,
      when_selected, deselect, get_session; sound_steps.
Qed.
Hint Resolve handle_parsed_command_sound : repo.

(** ** Connections *)
Lemma read_line_sound : preserves server_ok read_line.
Proof. unfold read_line. sound_steps. Qed.
Lemma read_exact_sound n : preserves server_ok (read_exact n).
Proof. unfold read_exact. sound_steps. Qed.
Lemma write_line_sound l : preserves server_ok (write_line l).
Proof. apply sound_write_all. Qed.
Lemma observation_sound name errored :
  preserves server_ok (record_command_observation elapsed name errored).
Proof. unfold record_command_observation. sound_steps. Qed.
Hint Resolve read_line_sound read_exact_sound write_line_sound observation_sound : repo.
Lemma read_command_sound line : preserves server_ok (read_command_with_literal line).
Proof. unfold read_command_with_literal. sound_steps. Qed.

Lemma write_raw_row_sound account mb selected raw before after n view :
  preserves server_ok (write_raw_row (T := T) services secrets account mb selected raw before after n
                         view).
Proof. unfold write_raw_row, queue_flag_update. sound_steps. Qed.
Hint Resolve read_command_sound write_raw_row_sound : repo.
Lemma write_raw_fetch_sound command :
  preserves server_ok (write_raw_fetch_response services secrets command).
Proof.
  unfold write_raw_fetch_response, resolve_uid_views, resolve_sequence_views, get_session.
  sound_steps.
Qed.
Lemma serve_starttls_sound name tag :
  preserves server_ok (serve_starttls has_acceptor elapsed name tag).
Proof. unfold serve_starttls, get_session. sound_steps. Qed.
Lemma read_auth_blob_sound args : preserves server_ok (read_auth_blob args).
Proof. unfold read_auth_blob. sound_steps. Qed.
Lemma authenticate_with_blob_sound tag mechanism blob :
  preserves server_ok (authenticate_with_blob services tag mechanism blob).
Proof. unfold authenticate_with_blob. sound_steps. Qed.
Hint Resolve write_raw_fetch_sound serve_starttls_sound read_auth_blob_sound
  authenticate_with_blob_sound : repo.
Lemma serve_authenticate_sound name command :
  preserves server_ok (serve_authenticate services elapsed name command).
Proof. unfold serve_authenticate, handle_authenticate_command, get_session. sound_steps. Qed.
Lemma serve_plain_sound name command literal :
  preserves server_ok (serve_plain services secrets elapsed name command literal).
Proof. unfold serve_plain, answer_errors, get_session. sound_steps. Qed.
Hint Resolve serve_authenticate_sound serve_plain_sound : repo.
Lemma serve_command_sound : preserves server_ok (serve_command services secrets has_acceptor elapsed).
Proof. unfold serve_command, serve_fetch. sound_steps. Qed.

Lemma idle_turn_sound tag wake : preserves server_ok (idle_turn services elapsed tag wake).
Proof.
  unfold idle_turn, idle_on_wake, idle_on_line, idle_on_timeout, idle_on_event,
    idle_notification_for_event, expunge_notice, flags_notice, count_notice, count_messages,
    refresh_snapshot, sequence_number_for_local_uid, get_session. sound_steps.
Qed.

Lemma close_session_sound : preserves server_ok (close_session services).
Proof. unfold close_session, record_disconnected, get_session. sound_steps. Qed.

Lemma turn_sound (m : Imap Turn) sv :
  preserves server_ok m -> server_ok sv -> server_ok (snd (turn services m sv)).
Proof.
  intros Hm Hs. specialize (Hm sv Hs). unfold turn. destruct (m sv) as [sv' [[]|err|]]; try done.
  all: by apply close_session_sound.
Qed.

(** No connection can corrupt the database: from a sound one, every state
    that turns of the main loop and wake-ups of IDLE reach is sound, with
    whatever bytes the client sends, and also after errors, panics and the
    disconnect. *)
Theorem connections_keep_database_sound phase phase' (sv sv' : Server O U X L T) :
  rtc (conn_step services secrets has_acceptor elapsed) (phase, sv) (phase', sv') ->
  db_ok (w_db (sv_world sv)) (w_seq (sv_world sv)) ->
  db_ok (w_db (sv_world sv')) (w_seq (sv_world sv')).
Proof.
  intros Hrun. change (server_ok (snd (phase, sv)) -> server_ok (snd (phase', sv'))).
  induction Hrun as [|c1 c2 c3 Hstep _ IH]; [done|]. intros Hs. apply IH. destruct Hstep.
  - by apply turn_sound; [apply serve_command_sound|].
  - by apply turn_sound; [apply idle_turn_sound|].
Qed.
End Sound.

Lemma connections_keep_database_sound_witness :
  db_ok (w_db (sv_world (snd login_turn))) (w_seq (sv_world (snd login_turn))).
Proof.
  apply (connections_keep_database_sound services secrets false 0 Running Running (connect [login])).
  - apply rtc_once. rewrite login_turn_pair. apply step_serve.
  - exact world_ok.
Defined.
