(* ===== verification/ImapTermination.v ===== *)
(** * Connections come to an end

    A turn of the main loop eats at least a byte of the input, STARTTLS replaces
    the rest of it once, and an IDLE ends with a line, a timeout or a closed hub.
    [budget] bounds the turns, so a connection whose IDLEs are ended is served
    to its end. *)

From stdpp Require Import base strings list.
From Stdlib Require Import ZArith Lia.
From S2P Require Import Prelude RustStr Metrics Domain Protocol SearchQuery Storage Notifications Schema RepoCore Security RepoAccounts RepoMailboxes RepoMessages RepoQueue Auth Mime Search Scenario Engine SearchEval Threads ImapText Ingest Mutations ImapSession ImapFetch ImapCommands ImapServer ImapScenario ImapFrames.

Local Open Scope Z_scope.

Section Termination.
Context {O U X L T : Type} `{ObjectStore O} `{UpstreamClient U} `{UpstreamConnector U}.
Context `{SearchBackend X} `{Authenticator T}.
Context `{Sha256} `{MimeParser} `{PgText} `{UuidText} `{Crypto} `{Texts} `{ChronoRange}.
Context `{MailHeaders} `{Base64} `{TlsAcceptor}.
Variable services : AppServices.
Variable secrets : SecretBox.
Variable has_acceptor : bool.
Variable elapsed : Z.
Abbreviation Imap := (M Error (Server O U X L T)).
Abbreviation Sv := (Server O U X L T).

(** ** What is read *)

(** The input and whether TLS is on. *)
Definition stream (sv : Sv) : bytes * bool := (sv_input sv, tls_active (sv_session sv)).

(** [m] reads a part of the input and leaves TLS alone. *)
Definition reads {A} (m : Imap A) : Prop :=
  forall sv, suffix (sv_input (fst (m sv))) (sv_input sv) /\
    tls_active (sv_session (fst (m sv))) = tls_active (sv_session sv).

Lemma reads_frame {A} (m : Imap A) : sframe stream m -> reads m.
Proof. intros Hm sv. specialize (Hm sv). injection Hm as -> ->. done. Qed.
Lemma reads_bind {A B} (m : Imap A) (k : A -> Imap B) :
  reads m -> (forall a, reads (k a)) -> reads (bind m k).
Proof.
  intros Hm Hk sv. specialize (Hm sv). unfold bind.
  destruct (m sv) as [sv' [a|e|]]; simpl in *; [|done|done].
  destruct Hm as [Hi Ht]. specialize (Hk a sv') as [Hi' Ht']. split; [by etrans|by rewrite Ht'].
Qed.

Lemma stream_of {A} (m : Imap A) : sframe sv_input m -> sframe sv_session m -> sframe stream m.
Proof. intros Hi Hs sv. unfold stream. by rewrite Hi, Hs. Qed.
Lemma stream_on_engine {A} (m : M Error (Engine O U X L) A) :
  sframe stream (on_engine (T := T) m).
Proof. apply stream_of; auto with imap. Qed.
Lemma stream_on_db {A} (m : Repo A) : sframe stream (on_db m).
Proof. apply stream_of; auto with imap. Qed.
Lemma stream_on_auth {A} (m : M Error (@AuthState T) A) : sframe stream (on_auth m).
Proof. apply stream_of; auto with imap. Qed.
Lemma stream_write_all b : sframe stream (write_all b).
Proof. done. Qed.
Lemma stream_get_session : sframe stream get_session.
Proof. done. Qed.
Lemma stream_update f :
  (forall s, tls_active (f s) = tls_active s) -> sframe stream (update_session f).
Proof. intros Hf sv. unfold stream. simpl. by rewrite Hf. Qed.
Lemma stream_both_metrics f : sframe stream (on_both_metrics f).
Proof. done. Qed.
Hint Resolve stream_on_engine stream_on_db stream_on_auth stream_write_all stream_get_session
  stream_both_metrics : imap.

Lemma rename_selected_tls a b s : tls_active (rename_selected a b s) = tls_active s.
Proof. unfold rename_selected. by repeat case_match. Qed.
Hint Extern 1 (sframe stream (update_session _)) =>
  (apply stream_update; intros; first [done|apply rename_selected_tls]) : imap.

Lemma with_selected_stream name tag (k : Z -> str -> Mailbox -> Imap (list str)) :
  (forall a m mailbox, sframe stream (k a m mailbox)) ->
  sframe stream (with_selected services name tag k).
Proof. intros Hk. unfold with_selected. frame_steps. Qed.
Lemma unless_read_only_stream name tag (k : Imap (list str)) :
  sframe stream k -> sframe stream (unless_read_only name tag k).
Proof. intros Hk. unfold unless_read_only. frame_steps. Qed.
Lemma run_search_stream account mailbox tag args uid completed :
  sframe stream (run_search services account mailbox tag args uid completed).
Proof. unfold run_search. frame_steps. Qed.
Lemma run_sort_stream account mailbox tag args uid usage completed :
  sframe stream (run_sort services account mailbox tag args uid usage completed).
Proof. unfold run_sort. frame_steps. Qed.
Lemma run_thread_stream account mailbox tag args uid usage completed :
  sframe stream (run_thread services secrets account mailbox tag args uid usage completed).
Proof. unfold run_thread. frame_steps. Qed.
Hint Resolve run_search_stream run_sort_stream run_thread_stream : imap.

Lemma activate_stream ctx : sframe stream (activate_authenticated_session services ctx).
Proof. unfold activate_authenticated_session. frame_steps. Qed.
Hint Resolve activate_stream : imap.

Lemma cmd_uid_stream tag args : sframe stream (cmd_uid services secrets tag args).
Proof.
  unfold cmd_uid. destruct args as [|sub rest]; [apply sframe_ret|].
  apply with_selected_stream. intros a m mailbox.
  destruct (match_str _ _) eqn:Em; [|apply sframe_ret].
  revert Em. apply match_str_Forall. each_arm; auto with imap;
    unfold uid_fetch, uid_copy, uid_copy_row, copy_one, move_source, uid_expunge, expunge_targets,
      expunge_target, uid_store, uid_store_row, queue_flags, unless_read_only; frame_steps.
Qed.
Hint Resolve cmd_uid_stream : imap.

Lemma handle_parsed_command_stream command literal :
  sframe stream (handle_parsed_command services secrets command literal).
Proof.
  unfold handle_parsed_command. apply sframe_bind; [auto with imap|]. intros _. cbv zeta.
  destruct (match_str _ _) eqn:Em; [|apply sframe_ret]. revert Em. apply match_str_Forall.
  unfold command_arms. each_arm; try solve [auto with imap];
    unfold cmd_capability, cmd_logout, cmd_login, cmd_starttls, cmd_select, cmd_list, cmd_status,
      cmd_idle, cmd_check, cmd_unselect, cmd_create, cmd_delete, cmd_rename, cmd_subscribe,
      cmd_namespace, cmd_id, cmd_enable, cmd_condstore, cmd_search, cmd_sort, cmd_thread,
      cmd_fetch, cmd_store, store_row, queue_flags, cmd_expunge, expunge_targets, expunge_target,
      cmd_close, close_expunge, cmd_copy, copy_row, copy_one, move_source, cmd_append,
      when_selected, with_selected, unless_read_only, deselect; frame_steps.
Qed.
Hint Resolve handle_parsed_command_stream : imap.

Lemma write_raw_fetch_stream command :
  sframe stream (write_raw_fetch_response services secrets command).
Proof. unfold write_raw_fetch_response, write_raw_row. frame_steps. Qed.
Hint Resolve write_raw_fetch_stream : imap.

(** ** Reading *)

(** A line of a nonempty input is not empty. *)
Lemma read_line_spec (sv : Sv) : exists line rest,
  sv_input sv = line ++ rest /\ (sv_input sv = [] \/ line <> []) /\
  stream (fst (read_line sv)) = (rest, tls_active (sv_session sv)) /\
  (snd (read_line sv) = Ok None -> sv_input sv = []).
Proof.
  unfold read_line, gets, bind, stream. simpl. destruct (sv_input sv) as [|c b] eqn:Ei.
  - exists [], []. simpl. rewrite Ei. auto.
  - destruct (split_once 10 (c :: b)) as [[line rest]|] eqn:Es.
    + apply split_once_suffix in Es. exists (line ++ [10]), rest. unfold set_input, modify.
      destruct (from_utf8 (line ++ [10])) as [u|]; simpl;
        (split_and!; [by rewrite <- app_assoc| |done|done]); right; by destruct line.
    + exists (c :: b), []. unfold set_input, modify. rewrite app_nil_r.
      destruct (from_utf8 (c :: b)) as [u|]; simpl; split_and!; first [done|by right].
Qed.
Lemma read_line_reads : reads read_line.
Proof.
  intros sv. destruct (read_line_spec sv) as (line & rest & -> & _ & Hs & _).
  unfold stream in Hs. injection Hs as -> ->. split; [by exists line|done].
Qed.
Lemma read_exact_reads n : reads (read_exact n).
Proof.
  intros sv. unfold read_exact. destruct (_ <? _); [done|]. unfold bind, gets. simpl.
  destruct (_ <? _); simpl; (split; [|done]); [apply suffix_nil|].
  exists (take (Z.to_nat n) (sv_input sv)). by rewrite take_drop.
Qed.
Lemma write_line_stream l : sframe stream (write_line l).
Proof. done. Qed.
Lemma observation_stream name errored :
  sframe stream (record_command_observation elapsed name errored).
Proof. unfold record_command_observation. frame_steps. Qed.
Hint Resolve write_line_stream observation_stream : imap.

(** ** What is left to serve *)

(** The longest stream a handshake on what is left could give. *)
Definition decrypted_length (b : bytes) : nat :=
  match tls_accept b with inl d => length d | inr _ => 0%nat end.
Fixpoint tls_bound (b : bytes) : nat :=
  Nat.max (decrypted_length b) (match b with [] => 0%nat | _ :: b' => tls_bound b' end).

Definition remaining (sv : Sv) : nat :=
  (length (sv_input sv) + if tls_active (sv_session sv) then 0 else tls_bound (sv_input sv))%nat.

Lemma tls_bound_suffix b b' : suffix b' b -> (tls_bound b' <= tls_bound b)%nat.
Proof.
  intros [k ->]. induction k as [|x k IH]; [done|]. change (tls_bound b' <= Nat.max
    (decrypted_length (x :: k ++ b')) (tls_bound (k ++ b')))%nat. lia.
Qed.

(** [m] adds nothing to what is left. *)
Definition shrinks {A} (m : Imap A) : Prop := forall sv, (remaining (fst (m sv)) <= remaining sv)%nat.

Lemma remaining_reads (sv sv' : Sv) :
  suffix (sv_input sv') (sv_input sv) -> tls_active (sv_session sv') = tls_active (sv_session sv) ->
  (remaining sv' <= remaining sv)%nat.
Proof.
  intros Hs Ht. unfold remaining. rewrite Ht. apply tls_bound_suffix in Hs as Hb.
  apply suffix_length in Hs. destruct (tls_active (sv_session sv)); lia.
Qed.
Lemma shrinks_reads {A} (m : Imap A) : reads m -> shrinks m.
Proof. intros Hm sv. destruct (Hm sv). by apply remaining_reads. Qed.
Lemma shrinks_frame {A} (m : Imap A) : sframe stream m -> shrinks m.
Proof. intros Hm. by apply shrinks_reads, reads_frame. Qed.
Lemma shrinks_bind {A B} (m : Imap A) (k : A -> Imap B) :
  shrinks m -> (forall a, shrinks (k a)) -> shrinks (bind m k).
Proof.
  intros Hm Hk sv. specialize (Hm sv). unfold bind.
  destruct (m sv) as [sv' [a|e|]]; simpl in *; [|done|done]. specialize (Hk a sv'). lia.
Qed.
Lemma shrinks_read_line : shrinks read_line.
Proof. apply shrinks_reads, read_line_reads. Qed.
Lemma shrinks_read_exact n : shrinks (read_exact n).
Proof. apply shrinks_reads, read_exact_reads. Qed.
Hint Resolve shrinks_read_line shrinks_read_exact : imap.

Ltac shrink_steps :=
  repeat first
    [ solve [eauto 2 with imap]
    | solve [apply shrinks_frame; frame_steps]
    | match goal with
      | |- shrinks (match ?x with _ => _ end) => destruct x
      | |- shrinks (let _ := ?x in _) => cbv zeta
      end
    | apply shrinks_bind; [|intros ?] ].

(** The handshake: the new stream is within the bound, and there is no second one. *)
Lemma starttls_shrinks name tag : shrinks (serve_starttls has_acceptor elapsed name tag).
Proof.
  intros sv. unfold serve_starttls. destruct has_acceptor; [|done].
  unfold get_session, gets, bind, write_line, write_all, modify, remaining. simpl.
  destruct (tls_active (sv_session sv)) eqn:Et; simpl; [by rewrite Et|].
  destruct (starttls_available (sv_session sv)); simpl; [|by rewrite Et].
  destruct (state (sv_session sv)); simpl; try by rewrite Et.
  assert (Hb : (decrypted_length (sv_input sv) <= tls_bound (sv_input sv))%nat)
    by (destruct (sv_input sv); simpl; lia).
  unfold decrypted_length in Hb. destruct (tls_accept (sv_input sv)); simpl; [lia|].
  by rewrite Et.
Qed.
Hint Resolve starttls_shrinks : imap.

Lemma read_command_shrinks line : shrinks (read_command_with_literal line).
Proof. unfold read_command_with_literal. shrink_steps. Qed.
Lemma authenticate_shrinks name command :
  shrinks (serve_authenticate services elapsed name command).
Proof.
  unfold serve_authenticate, handle_authenticate_command, read_auth_blob, authenticate_with_blob.
  shrink_steps.
Qed.
Lemma plain_shrinks name command literal :
  shrinks (serve_plain services secrets elapsed name command literal).
Proof. apply shrinks_frame. unfold serve_plain, answer_errors. frame_steps. Qed.
Hint Resolve read_command_shrinks authenticate_shrinks plain_shrinks : imap.

(** After a line of a nonempty input there is less left. *)
Lemma read_line_progress (sv : Sv) :
  sv_input sv <> [] -> (remaining (fst (read_line sv)) < remaining sv)%nat.
Proof.
  intros Hne. destruct (read_line_spec sv) as (line & rest & Hi & Hl & Hs & _).
  unfold stream in Hs. injection Hs as Hr Ht. unfold remaining. rewrite Hr, Ht, Hi.
  assert (Hb : (tls_bound rest <= tls_bound (line ++ rest))%nat)
    by (apply tls_bound_suffix; by exists line).
  destruct Hl as [|Hl]; [done|]. destruct line as [|c line]; [done|].
  rewrite length_app. cbn [length]. destruct (tls_active (sv_session sv)); lia.
Qed.

(** A turn of the main loop ends the connection or makes progress. *)
Lemma serve_command_progress (sv : Sv) :
  (remaining (fst (serve_command services secrets has_acceptor elapsed sv)) < remaining sv)%nat \/
  snd (serve_command services secrets has_acceptor elapsed sv) = Ok Break.
Proof.
  destruct (decide (sv_input sv = [])) as [He|He].
  - right. unfold serve_command, read_line, gets, bind. simpl. by rewrite He.
  - left. pose proof (read_line_progress sv He) as Hp. unfold serve_command.
    unfold bind at 1. destruct (read_line sv) as [sv' [r|e|]]; cbn [fst] in *; [|done|done].
    match goal with |- (remaining (fst (?m sv')) < _)%nat =>
      assert (Hm : shrinks m) by (unfold serve_fetch; shrink_steps) end.
    specialize (Hm sv'). lia.
Qed.

(** IDLE goes on only after a line or an event. *)
Definition quiet (wake : Wake) : bool :=
  match wake with WakeEvent _ | WakeLagged => false | _ => true end.

Lemma idle_line_progress tag (sv : Sv) :
  (remaining (fst (idle_on_line tag sv)) <= remaining sv)%nat /\
  (snd (idle_on_line tag sv) = Ok true ->
   (remaining (fst (idle_on_line tag sv)) < remaining sv)%nat).
Proof.
  split; [assert (Hs : shrinks (idle_on_line tag)) by (unfold idle_on_line; shrink_steps); apply Hs|].
  destruct (decide (sv_input sv = [])) as [He|He].
  - unfold idle_on_line, read_line, gets, bind. simpl. by rewrite He.
  - intros _. pose proof (read_line_progress sv He) as Hp. unfold idle_on_line, bind.
    destruct (read_line sv) as [sv' [r|e|]]; cbn [fst] in *; [|done|done].
    match goal with |- (remaining (fst (?m sv')) < _)%nat =>
      assert (Hm : shrinks m) by shrink_steps end.
    specialize (Hm sv'). lia.
Qed.

Lemma idle_event_stream event : sframe stream (idle_on_event services event).
Proof.
  unfold idle_on_event, idle_notification_for_event, expunge_notice, flags_notice, count_notice,
    count_messages, refresh_snapshot. frame_steps.
Qed.

(** ** The budget of a connection *)
Definition budget (c : Phase * Sv) : nat :=
  match fst c with
  | Running => 1 + 2 * remaining (snd c)
  | Idling _ => 2 + 2 * remaining (snd c)
  | Finished _ => 0
  end%nat.

Lemma serve_budget (sv : Sv) :
  (budget (turn services (serve_command services secrets has_acceptor elapsed) sv) <
   budget (Running, sv))%nat.
Proof.
  pose proof (serve_command_progress sv) as Hp. unfold turn.
  destruct (serve_command services secrets has_acceptor elapsed sv) as [sv' r]. cbn [fst snd] in *.
  destruct Hp as [Hp| ->]; [|unfold budget; simpl; lia].
  destruct r as [[]|e|]; unfold budget; simpl; lia.
Qed.

Lemma idle_wake_progress tag wake (sv : Sv) :
  (remaining (fst (idle_on_wake services tag wake sv)) <= remaining sv)%nat /\
  (snd (idle_on_wake services tag wake sv) = Ok true -> quiet wake = true ->
   (remaining (fst (idle_on_wake services tag wake sv)) < remaining sv)%nat).
Proof.
  destruct wake; simpl; try by split.
  - destruct (idle_line_progress tag sv) as [Hle Hlt]. split; [done|auto].
  - split; [|done]. apply (shrinks_frame _ (idle_event_stream event)).
Qed.

Lemma idle_budget tag wake (sv : Sv) :
  (budget (turn services (idle_turn services elapsed tag wake) sv) + Nat.b2n (quiet wake) <=
   budget (Idling tag, sv))%nat.
Proof.
  pose proof (idle_wake_progress tag wake sv) as [Hle Hlt]. unfold turn, idle_turn, bind.
  destruct (idle_on_wake services tag wake sv) as [sv' [[]|e|]]; cbn [fst snd] in *.
  - unfold budget. simpl. destruct (quiet wake); simpl; [|lia]. specialize (Hlt eq_refl eq_refl). lia.
  - unfold budget, remaining in *. simpl in *. destruct (quiet wake); simpl; lia.
  - unfold budget. simpl. destruct (quiet wake); simpl; lia.
  - unfold budget. simpl. destruct (quiet wake); simpl; lia.
Qed.

Definition quiet_wakes (wakes : list Wake) : nat := length (List.filter quiet wakes).

(** C11 Connections come to an end: whatever the client sends, a connection ends
    with a result after a number of turns that its input bounds, as long as the
    wake-ups of its IDLEs include enough lines, timeouts or closings; any number
    of events in between does not matter. *)
Theorem connection_terminates wakes phase (sv : Sv) :
  (budget (phase, sv) <= quiet_wakes wakes)%nat ->
  exists result sv', run_connection services secrets has_acceptor elapsed
    (S (budget (phase, sv) + length wakes)) wakes (phase, sv) = Some (result, sv').
Proof.
  enough (Hgen : forall fuel wakes c, (budget c <= quiet_wakes wakes)%nat ->
    (budget c + length wakes < fuel)%nat -> exists result sv',
    run_connection services secrets has_acceptor elapsed fuel wakes c = Some (result, sv'))
    by (intros; apply Hgen; lia).
  clear. intros fuel. induction fuel as [|fuel IH]; intros wakes [phase sv] Hw Hf; [lia|].
  destruct phase as [|tag|r]; cbn [run_connection]; [| |by eauto].
  - pose proof (serve_budget sv) as Hb. apply IH; lia.
  - destruct wakes as [|wake wakes]; [unfold budget, quiet_wakes in Hw; simpl in Hw; lia|].
    pose proof (idle_budget tag wake sv) as Hb. unfold quiet_wakes in *.
    cbn [List.filter length] in Hw, Hf.
    apply IH; destruct (quiet wake); cbn [Nat.b2n length] in *; lia.
Qed.
End Termination.

Lemma connection_terminates_witness : exists result sv',
  run_connection services secrets false 0
    (S (budget (Idling (lit "a1"), connect []) + 3)) [WakeLagged; WakeTimeout; WakeClosed]
    (Idling (lit "a1"), connect []) = Some (result, sv').
Proof.
  apply (connection_terminates services secrets false 0 [WakeLagged; WakeTimeout; WakeClosed]
           (Idling (lit "a1")) (connect [])).
  vm_compute. constructor.
Defined.
