(* ===== verification/ImapMailSpecs.v ===== *)
(** * What the message commands do to the mail

    EXPUNGE and the client's numbering, the agreement of FETCH and STORE on
    sequence numbers, and the messages SEARCH finds. *)

From stdpp Require Import base strings list.
From Stdlib Require Import ZArith Lia Permutation Sorting.Sorted.
From S2P Require Import Prelude RustStr Metrics Domain Protocol SearchQuery Storage Notifications Schema RepoCore Security RepoAccounts RepoMailboxes RepoMessages RepoQueue Invariant Integrity Auth Mime Search Scenario MessageSpecs Engine SearchEval Threads ImapText Ingest Mutations QueueSpecs SyncSpecs ImapSession ImapFetch ImapCommands ImapServer ImapScenario ImapFrames ImapSessionSpecs ImapSafetySpecs ImapSoundness.

Local Open Scope Z_scope.

(** ** Strictly sorted lists are determined by their elements *)
Lemma strict_sorted_ext {A} (key : A -> Z) l1 l2 :
  StronglySorted (key_lt key) l1 -> StronglySorted (key_lt key) l2 ->
  (forall x, In x l1 <-> In x l2) -> l1 = l2.
Proof.
  intros Hs1. revert l2. induction Hs1 as [|x l1 Hs1 IH Hx]; intros l2 Hs2 Hin.
  - destruct l2 as [|y l2]; [done|]. destruct (proj2 (Hin y)). by left.
  - destruct Hs2 as [|y l2 Hs2 Hy]; [destruct (proj1 (Hin x)); by left|].
    rewrite List.Forall_forall in Hx, Hy. unfold key_lt in *.
    assert (Hxy : x = y).
    { destruct (proj1 (Hin x) (or_introl eq_refl)) as [|Hxl]; [done|].
      destruct (proj2 (Hin y) (or_introl eq_refl)) as [|Hyl]; [done|].
      specialize (Hy _ Hxl). specialize (Hx _ Hyl). lia. }
    subst y. f_equal. apply IH; [done|]. intros z. split; intros Hz.
    + destruct (proj1 (Hin z) (or_intror Hz)) as [->|]; [|done].
      specialize (Hx _ Hz). lia.
    + destruct (proj2 (Hin z) (or_intror Hz)) as [->|]; [|done].
      specialize (Hy _ Hz). lia.
Qed.

Lemma filter_strict_sorted {A} (R : A -> A -> Prop) p l :
  StronglySorted R l -> StronglySorted R (List.filter p l).
Proof.
  induction 1 as [|x l Hs IH Hx]; simpl; [constructor|]. destruct (p x); [|done].
  constructor; [done|]. rewrite List.Forall_forall in *. intros y Hy.
  apply filter_In in Hy as [Hy _]. by apply Hx.
Qed.

(** ** Replaying EXPUNGE lines *)

(** What a client does on [* n EXPUNGE]. *)
Definition remove_at {A} (n : Z) (l : list A) : list A :=
  take (Z.to_nat (n - 1)) l ++ drop (Z.to_nat n) l.
Definition replay_expunges {A} (ns : list Z) (l : list A) : list A :=
  fold_left (fun l n => remove_at n l) ns l.

Lemma remove_at_cons {A} n (x : A) l : 1 < n -> remove_at n (x :: l) = x :: remove_at (n - 1) l.
Proof.
  intros Hn. unfold remove_at. replace (Z.to_nat n) with (S (Z.to_nat (n - 1))) by lia.
  by replace (Z.to_nat (n - 1)) with (S (Z.to_nat (n - 1 - 1))) at 1 by lia.
Qed.

Lemma number_from_ge {A} (l : list A) : forall k n x, In (n, x) (number_from k l) -> k <= n.
Proof.
  induction l as [|y l IH]; intros k n x; simpl; [done|]. intros [[= <- _]|Hin]; [lia|].
  apply IH in Hin. lia.
Qed.

Lemma shift_removals {A} (x : A) l k ns : (forall n, In n ns -> k + 2 <= n) ->
  fold_right (fun n l => remove_at (n - k) l) (x :: l) ns =
  x :: fold_right (fun n l => remove_at (n - (k + 1)) l) l ns.
Proof.
  induction ns as [|n ns IH]; intros Hns; simpl; [done|].
  rewrite IH by (intros; apply Hns; by right). rewrite remove_at_cons.
  - f_equal. f_equal. lia.
  - specialize (Hns n (or_introl eq_refl)). lia.
Qed.

Lemma removals_filter {A} (p : A -> bool) l : forall k,
  fold_right (fun n l => remove_at (n - k) l) l
    (map fst (List.filter (fun '(_, x) => p x) (number_from (k + 1) l))) =
  List.filter (fun x => negb (p x)) l.
Proof.
  induction l as [|x l IH]; intros k; simpl; [done|].
  assert (Hge : forall n, In n (map fst (List.filter (fun '(_, x) => p x)
    (number_from (k + 1 + 1) l))) -> k + 2 <= n).
  { intros n Hn. apply in_map_iff in Hn as ([n' y] & <- & Hn). apply filter_In in Hn as [Hn _].
    apply number_from_ge in Hn. simpl. lia. }
  destruct (p x) eqn:Ep; simpl; rewrite shift_removals by done; rewrite IH; [|done].
  unfold remove_at. by replace (k + 1 - k) with 1 by lia.
Qed.

(** Descending numbers, each of the list as it was, are right for the list as it
    is then. *)
Lemma replay_numbered {A} (p : A -> bool) l :
  replay_expunges (rev (map fst (numbered p l))) l = List.filter (fun x => negb (p x)) l.
Proof.
  unfold replay_expunges, numbered. rewrite <- fold_left_rev_right, rev_involutive.
  rewrite <- (removals_filter p l 0). change (0 + 1) with 1.
  generalize (map fst (List.filter (fun '(_, x) => p x) (number_from 1 l))). intros ns.
  induction ns as [|n ns IH]; simpl; [done|]. by rewrite IH, Z.sub_0_r.
Qed.

Lemma sort_by_id {A} (leb : A -> A -> bool) l : StronglySorted (le_rel leb) l -> sort_by leb l = l.
Proof.
  induction 1 as [|x l Hs IH Hx]; simpl; [done|]. rewrite IH.
  destruct Hx as [|y l Hy _]; simpl; [done|]. unfold le_rel in Hy. by rewrite Hy.
Qed.

Lemma number_from_sorted {A} (l : list A) : forall k,
  StronglySorted (le_rel (fun a b : Z * A => fst a <=? fst b)) (number_from k l).
Proof.
  induction l as [|x l IH]; intros k; simpl; constructor; [apply IH|].
  apply List.Forall_forall. intros [n y] Hn. apply number_from_ge in Hn. apply Z.leb_le. simpl. lia.
Qed.

Lemma numbered_members {A} (p : A -> bool) l x :
  In x (map snd (numbered p l)) <-> In x (List.filter p l).
Proof.
  unfold numbered. generalize 1 as k. induction l as [|y l IH]; intros k; simpl; [done|].
  destruct (p y); simpl; by rewrite IH.
Qed.

Lemma filter_map_comm {A B} (f : A -> B) (p : B -> bool) l :
  List.filter p (map f l) = map f (List.filter (fun x => p (f x)) l).
Proof. induction l as [|x l IH]; simpl; [done|]. destruct (p (f x)); simpl; by rewrite IH. Qed.

(** ** EXPUNGE *)
Section Expunge.
Context {O U X L T : Type} `{ObjectStore O} `{UpstreamClient U} `{UpstreamConnector U}.
Context `{SearchBackend X} `{Authenticator T}.
Context `{Sha256} `{MimeParser} `{PgText} `{UuidText} `{Crypto} `{Texts} `{ChronoRange}.
Context `{MailHeaders}.
Variable services : AppServices.
Abbreviation Sv := (Server O U X L T).

(** The messages of a mailbox as FETCH and STORE number them. *)
Definition listing (mailbox_id : Z) (sv : Sv) : list MailboxMessage :=
  map MailboxMessage_from (mailbox_rows mailbox_id (w_db (sv_world sv))).

Lemma on_db_inv {A} (m : Repo A) (sv sv' : Sv) r :
  on_db m sv = (sv', r) ->
  on_repo m (sv_engine sv) = (sv_engine sv', r) /\ sv_session sv' = sv_session sv.
Proof. unfold on_db, on_engine, zoom. destruct (on_repo m (sv_engine sv)). by intros [= <- <-]. Qed.

Lemma on_engine_run {A} (m : M Error (Engine O U X L) A) (sv : Sv) e' a :
  m (sv_engine sv) = (e', a) ->
  on_engine m sv =
    (mkServer (sv_session sv) e' (sv_auth sv) (sv_input sv) (sv_wire sv), a).
Proof. unfold on_engine, zoom. by intros ->. Qed.

Lemma on_db_query {A} (f : Database -> A) (sv : Sv) :
  on_db (query f) sv = (sv, Ok (f (w_db (sv_world sv)))).
Proof. by destruct sv as [s [] a i w]. Qed.

Lemma expunge_fold mb targets : forall out (sv sv' : Sv) out',
  fold_each targets out (expunge_target mb) sv = (sv', Ok out') ->
  out' = out ++ map (fun t => expunge_line (fst t)) targets /\
  delete_each mb (map snd targets) (sv_engine sv) = (sv_engine sv', Ok tt).
Proof.
  induction targets as [|[n m] targets IH]; intros out sv sv' out' E; simpl in E.
  { injection E as <- <-. by rewrite app_nil_r. }
  inv_bind E. inv_bind Hstep. injection Hstep as <- <-. apply on_db_inv in Hstep0 as [Hdel _].
  apply IH in E as [-> Hrest]. split; [by rewrite <- app_assoc|].
  unfold delete_each. cbn [map for_each snd]. erewrite bind_Ok; [exact Hrest|].
  by erewrite bind_Ok.
Qed.

Lemma expunged_rows mb q (sv sv' : Sv) (targets : list (Z * MailboxMessage)) :
  engine_ok (sv_engine sv) -> engine_ok (sv_engine sv') ->
  (forall m, In m (map snd targets) <-> In m (List.filter q (listing mb sv))) ->
  delete_each mb (map snd targets) (sv_engine sv) = (sv_engine sv', Ok tt) ->
  listing mb sv' = List.filter (fun m => negb (q m)) (listing mb sv).
Proof.
  intros Hok Hok' Hms Hdel. unfold listing.
  pose proof (delete_listed_rows mb q _ _ _ Hok Hms Hdel) as Hrows.
  rewrite filter_map_comm.
  f_equal. apply (strict_sorted_ext MailboxMessageRow_local_uid).
  - by eapply mailbox_rows_strict.
  - apply filter_strict_sorted. by eapply mailbox_rows_strict.
  - intros r. rewrite filter_In, !mailbox_rows_In, negb_true_iff. unfold sv_world. rewrite Hrows.
    tauto.
Qed.

Lemma refresh_keeps_listing mb mb' (sv sv' : Sv) r :
  on_db (refresh_mailbox_counts mb) sv = (sv', r) -> listing mb' sv' = listing mb' sv.
Proof.
  intros E. apply on_db_inv in E as [E _]. unfold listing, mailbox_rows, sv_world.
  enough (keeps mailbox_messages (refresh_mailbox_counts mb)) as Hk.
  { apply on_repo_inv in E as [E _]. specialize (Hk (e_world (sv_engine sv))).
    rewrite E in Hk. simpl in Hk. by rewrite Hk. }
  unfold refresh_mailbox_counts, account_id_for_mailbox. keep_steps.
Qed.

(** C8 EXPUNGE on a read-write mailbox removes exactly the messages flagged
    \Deleted, and tells the client so that it can follow: a client that removes
    the message at each announced number, one line after the other, is left with
    the messages of the mailbox in their order. *)
Theorem expunge_keeps_client_in_step tag account_id name mailbox (sv sv' : Sv) lines :
  engine_ok (sv_engine sv) -> has_repository services = true ->
  session_account (sv_session sv) = Some account_id ->
  state (sv_session sv) = SelectedMailbox false name ->
  snd (find_mailbox account_id name (sv_world sv)) = Ok (Some mailbox) ->
  cmd_expunge services tag [] sv = (sv', Ok lines) ->
  exists numbers,
    lines = map expunge_line numbers ++ [ok tag (lit "EXPUNGE completed")] /\
    replay_expunges numbers (listing (Mailbox_id mailbox) sv) =
      listing (Mailbox_id mailbox) sv' /\
    listing (Mailbox_id mailbox) sv' =
      List.filter (fun m => negb (is_deleted m)) (listing (Mailbox_id mailbox) sv).
Proof.
  intros Hok Hrepo Ha Hst Hf E. set (mb := Mailbox_id mailbox).
  assert (Hrun : exists sv1 out, expunge_targets mb (numbered is_deleted (listing mb sv)) sv =
    (sv1, Ok out) /\ listing mb sv' = listing mb sv1 /\
    lines = out ++ [ok tag (lit "EXPUNGE completed")]).
  { unfold cmd_expunge, with_selected in E.
    erewrite bind_Ok in E by reflexivity. unfold selected_mailbox_name_ref in E.
    rewrite Ha, Hst, Hrepo in E. cbn [negb] in E.
    assert (Hfind : on_db (find_mailbox account_id name) sv = (sv, Ok (Some mailbox)))
      by (unfold find_mailbox in *; rewrite on_db_query; f_equal; exact Hf).
    rewrite (bind_Ok _ _ _ _ _ Hfind) in E.
    unfold unless_read_only in E. erewrite bind_Ok in E by reflexivity.
    assert (Hro : is_read_only (sv_session sv) = false)
      by (unfold is_read_only, selected_mailbox_is_read_only; by rewrite Hst).
    rewrite Hro in E. cbn [head] in E.
    unfold list_mailbox_messages in E.
    erewrite bind_Ok in E by (erewrite bind_Ok by apply on_db_query; reflexivity).
    inv_bind E. inv_bind E. injection E as <- <-.
    do 2 eexists. split_and!; [exact Hstep| |done]. by eapply refresh_keeps_listing. }
  destruct Hrun as (sv1 & out & Hrun & Hl & ->).
  pose proof (expunge_targets_sound mb (numbered is_deleted (listing mb sv)) sv Hok) as Hok1.
  rewrite Hrun in Hok1. unfold expunge_targets in Hrun.
  rewrite sort_by_id in Hrun by (apply filter_strict_sorted, number_from_sorted).
  apply expunge_fold in Hrun as [-> Hdel]. simpl.
  assert (Hafter : listing mb sv1 = List.filter (fun m => negb (is_deleted m)) (listing mb sv)).
  { eapply expunged_rows; [done|exact Hok1| |exact Hdel]. intros m.
    rewrite map_rev, <- in_rev. apply numbered_members. }
  exists (rev (map fst (numbered is_deleted (listing mb sv)))). rewrite Hl, Hafter.
  rewrite <- map_rev, map_map. split_and!; [done| |done].
  rewrite map_rev. apply replay_numbered.
Qed.
End Expunge.

(** ** Sequence numbers *)

(** Sorting two lists with the same keys, related position by position. *)
Lemma order_by_Forall2 {A B} (R : A -> B -> Prop) (ka : A -> Z) (kb : B -> Z) l l' :
  (forall x y, R x y -> kb y = ka x) -> Forall2 R l l' -> Forall2 R (order_by ka l) (order_by kb l').
Proof.
  intros Hk. unfold order_by. induction 1 as [|x y l l' Hxy _ IH]; simpl; [constructor|].
  revert IH. generalize (sort_by (fun a b => ka a <=? ka b) l) (sort_by (fun a b => kb a <=? kb b) l').
  intros s s'. induction 1 as [|x' y' s s' Hxy' Hs IH]; simpl; [by repeat constructor|].
  rewrite (Hk _ _ Hxy), (Hk _ _ Hxy'). destruct (ka x <=? ka x'); by repeat constructor.
Qed.

Lemma select_message db seq id :
  db_ok db seq -> has_message db id = true ->
  exists m, select (fun m => MessageRow_id m =? id) (messages db) = [m].
Proof.
  intros Hok Hm. apply has_message_iff in Hm as (m & Hm & <-). exists m.
  pose proof (ok_messages _ _ Hok) as Hids. destruct Hids as [Hnd _]. unfold select.
  induction (messages db) as [|x l IH]; [done|]. simpl in Hnd. apply NoDup_cons in Hnd as [Hx Hnd].
  destruct Hm as [->|Hm]; simpl.
  - rewrite Z.eqb_refl. f_equal. clear IH Hnd. induction l as [|y l IH]; simpl in *; [done|].
    apply not_elem_of_cons in Hx as [Hy Hx]. destruct (Z.eqb_spec (MessageRow_id y) (MessageRow_id m));
      [congruence|by apply IH].
  - destruct (Z.eqb_spec (MessageRow_id x) (MessageRow_id m)) as [He|He]; [|by apply IH].
    destruct Hx. rewrite He. apply list_elem_of_In, in_map_iff. eauto.
Qed.

(** The view a row has: the row with the columns of its message. *)
Definition view_of (mm : MailboxMessage) (v : View) : Prop :=
  MailboxMessageView_local_uid v = MailboxMessage_local_uid mm /\
  MailboxMessageView_message_id v = MailboxMessage_message_id mm /\
  MailboxMessageView_flags v = MailboxMessage_flags mm.

Lemma join_messages_rows db seq rows :
  db_ok db seq -> (forall r, In r rows -> In r (mailbox_messages db)) ->
  Forall2 (fun r v => exists m, v = view_row r m) rows (join_messages db rows).
Proof.
  intros Hok. induction rows as [|r rows IH]; intros Hin; [constructor|].
  unfold join_messages. cbn [flat_map].
  destruct (ok_fk_rows _ _ Hok r (Hin r (or_introl eq_refl))) as [_ Hm].
  destruct (select_message _ _ _ Hok Hm) as [m ->]. simpl. constructor; [by exists m|].
  apply IH. intros r' Hr'. apply Hin. by right.
Qed.

Lemma views_follow_rows mb db seq :
  db_ok db seq ->
  Forall2 view_of (map MailboxMessage_from (mailbox_rows mb db))
    (map MailboxMessageView_from (order_by MailboxMessageViewRow_local_uid
       (join_messages db (select (live_in mb) (mailbox_messages db))))).
Proof.
  intros Hok. apply Forall2_fmap. eapply Forall2_impl.
  - apply (order_by_Forall2 (fun r v => exists m, v = view_row r m) MailboxMessageRow_local_uid);
      [by intros r v [m ->]|].
    eapply join_messages_rows; [exact Hok|]. intros r Hr. by apply select_In in Hr as [Hr _].
  - by intros r v [m ->].
Qed.

Lemma pick_sequences_Forall2 {A B} (R : A -> B -> Prop) set l l' :
  Forall2 R l l' ->
  Forall2 (fun t v => fst t = fst v /\ R (snd t) (snd v)) (pick_sequences set l) (pick_sequences set l').
Proof.
  intros Hl. unfold pick_sequences. rewrite (Forall2_length _ _ _ Hl).
  induction (parse_number_set set (Z.of_nat (length l'))) as [|n ns IH]; [constructor|]. csimpl.
  destruct (l !! Z.to_nat (n - 1)) as [x|] eqn:Ex.
  - destruct (Forall2_lookup_l _ _ _ _ _ Hl Ex) as (y & Ey & Hxy). rewrite Ey. csimpl.
    by constructor.
  - apply lookup_ge_None in Ex. rewrite (Forall2_length _ _ _ Hl) in Ex.
    apply lookup_ge_None in Ex. by rewrite Ex.
Qed.

Lemma pick_uids_Forall2 set l l' :
  Forall2 view_of l l' ->
  Forall2 view_of (pick_uids MailboxMessage_local_uid set l)
    (pick_uids MailboxMessageView_local_uid set l').
Proof.
  intros Hl. unfold pick_uids.
  assert (Hm : map MailboxMessageView_local_uid l' = map MailboxMessage_local_uid l)
    by (induction Hl as [|x y l l' [Hu _] _ IH]; simpl; congruence).
  rewrite Hm. generalize (parse_number_set set (max_uid (map MailboxMessage_local_uid l))).
  intros uids. clear Hm. induction Hl as [|x y l l' Hxy Hl IH]; simpl; [constructor|].
  destruct Hxy as (Hu & Hxy). rewrite Hu. destruct (memZ _ _); [|done]. by constructor.
Qed.

Section Numbers.
Context {O U X L : Type}.

(** C14 FETCH and STORE mean the same messages: for every message set, by
    sequence number or by UID, the rows that STORE, COPY and EXPUNGE work on and
    the joined views that FETCH shows are the same messages, under the same
    numbers, with the same flags and in the same order. *)
Theorem fetch_and_store_agree mailbox_id set (e : Engine O U X L) :
  engine_ok e -> exists targets views uid_targets uid_views,
    resolve_sequence_targets mailbox_id set e = (e, Ok targets) /\
    resolve_sequence_views mailbox_id set e = (e, Ok views) /\
    Forall2 (fun t v => fst t = fst v /\ view_of (snd t) (snd v)) targets views /\
    resolve_uid_targets mailbox_id set e = (e, Ok uid_targets) /\
    resolve_uid_views mailbox_id set e = (e, Ok uid_views) /\
    Forall2 view_of uid_targets uid_views.
Proof.
  intros Hok. pose proof (views_follow_rows mailbox_id _ _ Hok) as Hv. do 4 eexists.
  split_and!.
  - unfold resolve_sequence_targets. by erewrite bind_Ok by apply on_repo_query.
  - unfold resolve_sequence_views. by erewrite bind_Ok by apply on_repo_query.
  - by apply pick_sequences_Forall2.
  - unfold resolve_uid_targets. by erewrite bind_Ok by apply on_repo_query.
  - unfold resolve_uid_views. by erewrite bind_Ok by apply on_repo_query.
  - by apply pick_uids_Forall2.
Qed.
End Numbers.

(** ** SEARCH *)
Lemma strict_le {A} (key : A -> Z) l :
  StronglySorted (key_lt key) l -> StronglySorted (le_rel Z.leb) (map key l).
Proof.
  induction 1 as [|x l Hs IH Hx]; simpl; constructor; [done|].
  rewrite List.Forall_forall in *. intros z Hz. apply in_map_iff in Hz as (y & <- & Hy).
  apply Z.leb_le. specialize (Hx y Hy). unfold key_lt in Hx. lia.
Qed.

Lemma dedup_strict {A} (key : A -> Z) l :
  StronglySorted (key_lt key) l -> dedup (map key l) = map key l.
Proof.
  induction 1 as [|x l Hs IH Hx]; simpl; [done|]. rewrite IH.
  destruct Hx as [|y l Hy _]; simpl; [done|]. unfold key_lt in Hy. rewrite decide_False by lia. done.
Qed.

Lemma sorted_keys {A} (key : A -> Z) l :
  StronglySorted (key_lt key) l -> dedup (sort_by Z.leb (map key l)) = map key l.
Proof. intros Hs. rewrite sort_by_id by (by apply strict_le). by apply dedup_strict. Qed.

(** The only element of a strictly sorted list with a given key. *)
Lemma filter_key {A} (key : A -> Z) l1 x l2 :
  StronglySorted (key_lt key) (l1 ++ x :: l2) ->
  List.filter (fun y => key y =? key x) (l1 ++ x :: l2) = [x] /\
  position (fun y => key y =? key x) (l1 ++ x :: l2) = Some (length l1).
Proof.
  induction l1 as [|y l1 IH]; simpl; intros Hs; apply StronglySorted_inv in Hs as [Hs Hx];
    rewrite List.Forall_forall in Hx; unfold key_lt in Hx.
  - rewrite Z.eqb_refl. split; [|done]. f_equal. clear Hs. induction l2 as [|z l2 IH]; simpl; [done|].
    rewrite (proj2 (Z.eqb_neq _ _)); [apply IH; intros; apply Hx; by right|].
    specialize (Hx z (or_introl eq_refl)). lia.
  - rewrite (proj2 (Z.eqb_neq (key y) (key x))).
    + destruct (IH Hs) as [-> ->]. done.
    + specialize (Hx x). rewrite in_app_iff in Hx. specialize (Hx (or_intror (or_introl eq_refl))). lia.
Qed.

Section SearchSpec.
Context {O U X L : Type} `{SearchBackend X} `{Texts} `{Chrono}.
Variable services : AppServices.
Hypothesis no_index : has_search_backend services = false.
Hypothesis repository : has_repository services = true.

(** What the query asks of a message; [recent] are the UIDs of the recent ones. *)
Definition search_hit (recent : list Z) (query : SearchQuery) (view : View) : bool :=
  implb (recent_only query) (memZ (view_uid view) recent) &&
  implb (old_only query) (negb (memZ (view_uid view) recent)) &&
  matches_search_view view query &&
  match matches_search_text_fallback view (query_string query) with Ok b => b | _ => false end.

(** What SEARCH answers for a message: its UID or its number. *)
Definition result_number (uid_results : bool) (hit : Z * View) : Z :=
  if uid_results then view_uid (snd hit) else fst hit.

Lemma candidate_run l1 x l2 recent query uid_results r :
  StronglySorted (key_lt view_uid) (l1 ++ x :: l2) ->
  search_candidate services (l1 ++ x :: l2) recent query uid_results (view_uid x) = Ok r ->
  r = if search_hit recent query x
      then Some (if uid_results : bool then view_uid x else Z.of_nat (length l1) + 1) else None.
Proof.
  intros Hs. destruct (filter_key view_uid l1 x l2 Hs) as [Hf Hp].
  unfold search_candidate, view_map_get, sequence_number_for_view. rewrite Hf, Hp, no_index.
  cbn [last]. unfold search_hit.
  destruct (recent_only query), (old_only query), (memZ (view_uid x) recent); simpl;
    try (by intros [= <-]);
    destruct (matches_search_view x query); simpl; try (by intros [= <-]);
    destruct (matches_search_text_fallback x (query_string query)) as [[]|e|]; simpl;
    try done; by intros [= <-].
Qed.

Lemma candidates_run recent query uid_results suf : forall pre filtered,
  StronglySorted (key_lt view_uid) (pre ++ suf) ->
  map_outcome (search_candidate services (pre ++ suf) recent query uid_results)
    (map view_uid suf) = Ok filtered ->
  omap id filtered =
    map (result_number uid_results)
      (List.filter (fun '(_, view) => search_hit recent query view)
         (number_from (Z.of_nat (length pre) + 1) suf)).
Proof.
  induction suf as [|x suf IH]; intros pre filtered Hs E; simpl in E; [by injection E as <-|].
  destruct (search_candidate _ _ _ _ _ _) as [r|e|] eqn:Er; try done. simpl in E.
  destruct (map_outcome _ _) as [rs|e|] eqn:Ers; try done. injection E as <-.
  rewrite (app_assoc pre [x] suf : pre ++ x :: suf = (pre ++ [x]) ++ suf) in Ers.
  apply IH in Ers; [|by rewrite <- app_assoc].
  apply candidate_run in Er; [|done]. subst r. rewrite length_app in Ers. simpl in Ers.
  replace (Z.of_nat (length pre + 1) + 1) with (Z.of_nat (length pre) + 1 + 1) in Ers by lia.
  csimpl. destruct (search_hit recent query x); csimpl; by rewrite Ers.
Qed.

Lemma number_from_strict uid_results views : forall k,
  StronglySorted (key_lt view_uid) views ->
  StronglySorted (key_lt (result_number uid_results)) (number_from k views).
Proof.
  induction views as [|x views IH]; intros k Hs; simpl; [constructor|].
  apply StronglySorted_inv in Hs as [Hs Hx]. constructor; [by apply IH|].
  rewrite List.Forall_forall in *. intros [n y] Hn. unfold key_lt, result_number. simpl.
  destruct uid_results; [|apply number_from_ge in Hn; lia].
  apply Hx. apply (in_map snd) in Hn. simpl in Hn. clear -Hn. revert Hn. generalize (k + 1).
  induction views as [|z views IH]; intros j; simpl; [done|]. intros [->|Hn]; [by left|right; eauto].
Qed.

Lemma search_hit_recent recent recent' query view :
  recent_only query || old_only query = false ->
  search_hit recent query view = search_hit recent' query view.
Proof. intros [Hr Ho]%orb_false_iff. unfold search_hit. by rewrite Hr, Ho. Qed.

(** The views of a mailbox; what [list_mailbox_message_views] answers. *)
Definition view_listing (mailbox_id : Z) (db : Database) : list View :=
  map MailboxMessageView_from (order_by MailboxMessageViewRow_local_uid
    (join_messages db (select (live_in mailbox_id) (mailbox_messages db)))).

Lemma view_listing_strict mailbox_id db seq :
  db_ok db seq ->
  (forall r, In r (mailbox_rows mailbox_id db) -> 0 <= MailboxMessageRow_local_uid r <= i64_max) ->
  StronglySorted (key_lt view_uid) (view_listing mailbox_id db).
Proof.
  intros Hok Hu. pose proof (views_follow_rows mailbox_id _ _ Hok) as Hv. fold (view_listing mailbox_id db) in Hv.
  pose proof (mailbox_rows_strict mailbox_id _ _ Hok) as Hs. revert Hv Hs Hu.
  generalize (mailbox_rows mailbox_id db) (view_listing mailbox_id db). intros rows views Hv.
  remember (map MailboxMessage_from rows) as ms eqn:Ems. revert rows Ems.
  assert (Hid : forall m v, view_of m v -> 0 <= MailboxMessage_local_uid m <= i64_max ->
    view_uid v = MailboxMessage_local_uid m).
  { intros m v [Hl _] Hm. unfold view_uid, as_u64. rewrite Hl, Z.mod_small; [done|].
    unfold i64_max in Hm. lia. }
  induction Hv as [|m v ms views Hmv Hv IH]; intros [|r rows] Ems Hs Hu; try done; [constructor|].
  injection Ems as -> ->. apply StronglySorted_inv in Hs as [Hs Hr]. constructor.
  - eapply IH; [done|done|]. intros r' Hr'. apply Hu. by right.
  - rewrite List.Forall_forall in *. intros v' Hv'.
    apply list_elem_of_In, list_elem_of_lookup in Hv' as [i Hi].
    destruct (Forall2_lookup_r _ _ _ _ _ Hv Hi) as (m' & Hm' & Hmv').
    apply list_lookup_fmap_Some in Hm' as (r' & -> & Hr'). apply list_elem_of_lookup_2, list_elem_of_In in Hr'.
    unfold key_lt. rewrite (Hid _ _ Hmv), (Hid _ _ Hmv'); [by apply Hr| |]; apply Hu; [by right|by left].
Qed.

End SearchSpec.

(** ** Examples *)
Definition selected : Srv := after (command "a2" "SELECT" ["INBOX"]) (snd login_turn).
Definition flagged : Srv :=
  after (command "a3" "STORE" ["1,3"; "+FLAGS"; "(\Deleted)"]) selected.
Definition expunged : Srv := fst (cmd_expunge services (lit "a4") [] flagged).
Definition found : Mailbox :=
  match snd (find_mailbox 1 (lit "INBOX") (sv_world flagged)) with
  | Ok (Some mailbox) => mailbox
  | _ => placeholder_mailbox (sv_session flagged) [] 0
  end.

Lemma after_ok c sv : engine_ok (sv_engine sv) -> engine_ok (sv_engine (after c sv)).
Proof. apply handle_parsed_command_sound. Qed.
Lemma login_ok : engine_ok (sv_engine (snd login_turn)).
Proof.
  unfold login_turn. apply turn_sound; [apply serve_command_sound|exact world_ok].
Qed.
Lemma flagged_ok : engine_ok (sv_engine flagged).
Proof. apply after_ok, after_ok, login_ok. Qed.

Lemma flagged_session : session_account (sv_session flagged) = Some 1 /\
  state (sv_session flagged) = SelectedMailbox false (lit "INBOX").
Proof. by vm_compute. Qed.
Lemma flagged_found : snd (find_mailbox 1 (lit "INBOX") (sv_world flagged)) = Ok (Some found).
Proof. by vm_compute. Qed.
Lemma expunged_lines : snd (cmd_expunge services (lit "a4") [] flagged) =
  Ok [lit "* 3 EXPUNGE"; lit "* 1 EXPUNGE"; lit "a4 OK EXPUNGE completed"].
Proof. by vm_compute. Qed.

Lemma expunge_keeps_client_in_step_witness : exists numbers,
  [lit "* 3 EXPUNGE"; lit "* 1 EXPUNGE"; lit "a4 OK EXPUNGE completed"] =
    map expunge_line numbers ++ [ok (lit "a4") (lit "EXPUNGE completed")] /\
  replay_expunges numbers (listing (Mailbox_id found) flagged) =
    listing (Mailbox_id found) expunged /\
  listing (Mailbox_id found) expunged =
    List.filter (fun m => negb (is_deleted m)) (listing (Mailbox_id found) flagged).
Proof.
  apply (expunge_keeps_client_in_step services (lit "a4") 1 (lit "INBOX") found flagged expunged _
           flagged_ok eq_refl (proj1 flagged_session) (proj2 flagged_session) flagged_found).
  rewrite <- expunged_lines. apply surjective_pairing.
Defined.

Lemma engine_sound : engine_ok engine.
Proof. exact world_ok. Qed.

Lemma fetch_and_store_agree_witness : exists targets views uid_targets uid_views,
  resolve_sequence_targets 1 (lit "1:*") engine = (engine, Ok targets) /\
  resolve_sequence_views 1 (lit "1:*") engine = (engine, Ok views) /\
  Forall2 (fun t v => fst t = fst v /\ view_of (snd t) (snd v)) targets views /\
  resolve_uid_targets 1 (lit "1:*") engine = (engine, Ok uid_targets) /\
  resolve_uid_views 1 (lit "1:*") engine = (engine, Ok uid_views) /\
  Forall2 view_of uid_targets uid_views.
Proof. exact (fetch_and_store_agree 1 (lit "1:*") engine engine_sound). Defined.

(** A server without an index, asked for the unseen messages. *)
Definition unindexed : AppServices := mkAppServices true false true.
Definition unseen_query : SearchQuery :=
  set_forbidden_flags [lit "\Seen"] SearchQuery_all.
Definition inbox_mailbox : Mailbox := Mailbox_from inbox_row.

Lemma inbox_found : snd (find_mailbox 1 (lit "INBOX") (e_world engine)) = Ok (Some inbox_mailbox).
Proof. by vm_compute. Qed.
Lemma engine_rows : mailbox_messages (w_db (e_world engine)) = [r1; r2; r3].
Proof. by vm_compute. Qed.
Lemma inbox_uids r :
  In r (mailbox_rows (Mailbox_id inbox_mailbox) (w_db (e_world engine))) ->
  0 <= MailboxMessageRow_local_uid r <= i64_max.
Proof.
  rewrite mailbox_rows_In, engine_rows. intros [Hr _].
  unfold i64_max. cbn [In] in Hr. destruct Hr as [<-|[<-|[<-|[]]]]; cbn; lia.
Qed.
Lemma unseen_answer :
  execute_search unindexed (Some 1) (lit "INBOX") unseen_query false engine = (engine, Ok [2; 3]).
Proof. by vm_compute. Qed.

