(* ===== verification/ImapFindings.v ===== *)
(** * Where the server leaves the protocol

    Transcripts of the concrete server, computed: each shows a behaviour that
    IMAP (RFC 3501, RFC 6851) or the code's own intention rules out. *)

From stdpp Require Import base strings list.
From Stdlib Require Import ZArith Lia.
From S2P Require Import Prelude RustStr Metrics Domain Protocol SearchQuery Storage Notifications Schema RepoCore Security RepoAccounts RepoMailboxes RepoMessages Auth Mime Search Scenario Engine SearchEval Threads ImapText Ingest Mutations ImapSession ImapFetch ImapCommands ImapServer ImapScenario ImapSessionSpecs ImapSafetySpecs ImapMailSpecs.

Local Open Scope Z_scope.

(** What the server says after its first [n] lines. *)
Definition says (n : nat) (lines : list string) : option (list str) :=
  (fun t => List.filter non_empty (drop n t)) <$> talk lines.
(** After LOGIN and SELECT INBOX. *)
Definition says_selected (lines : list string) : option (list str) :=
  says 10 (login :: "a2 SELECT INBOX"%string :: lines).

(** STATUS without arguments slices an empty vector: the task panics. *)
Example status_without_arguments_panics :
  fst <$> run [login; "a2 STATUS"]%string = Some Panic.
Proof. by vm_compute. Qed.

(** SELECT and CLOSE before any login end in the authenticated state; the client
    has no account, but AUTHENTICATE is refused from then on. *)
Example close_authenticates_anonymous :
  says 8 ["a1 SELECT INBOX"; "a2 CLOSE"; "a3 ENABLE CONDSTORE"; "a4 AUTHENTICATE PLAIN"]%string =
  Some (map lit ["a1 OK [READ-WRITE] SELECT completed"; "a2 OK CLOSE completed";
    "* ENABLED CONDSTORE"; "a3 OK ENABLE completed";
    "a4 NO [BADSTATE] AUTHENTICATE requires a not-authenticated session"]%string).
Proof. by vm_compute. Qed.

(** FETCH BODY[] in a mailbox opened with EXAMINE sets \Seen. *)
Example examine_sets_seen :
  says 10 [login; "a2 EXAMINE INBOX"; "a3 FETCH 2 (FLAGS)"; "a4 FETCH 2 BODY[TEXT]";
           "a5 FETCH 2 (FLAGS)"]%string =
  Some (map lit ["* 2 FETCH (FLAGS ())"; "a3 OK FETCH completed"; "* 2 FETCH (BODY[TEXT] {6}";
    "body 2)"; "a4 OK FETCH completed"; "* 2 FETCH (FLAGS (\Seen))";
    "a5 OK FETCH completed"]%string).
Proof. by vm_compute. Qed.

(** The last header field is sent twice. *)
Example header_fields_repeats_last :
  says_selected ["a3 FETCH 1 BODY.PEEK[HEADER.FIELDS (SUBJECT)]"]%string =
  Some (map lit ["* 1 FETCH (BODY.PEEK[HEADER.FIELDS (SUBJECT)] {28}"; "Subject: s"; "Subject: s";
    ")"; "a3 OK FETCH completed"]%string).
Proof. by vm_compute. Qed.

(** UID FETCH numbers its answers with the UID: after the first message is gone,
    UID 3 is message 2, but is announced as 3; and the UID is not in the answer. *)
Example uid_fetch_numbers_with_uid :
  says_selected ["a3 EXPUNGE 1"; "a4 UID FETCH 3 (FLAGS)"]%string =
  Some (map lit ["* 1 EXPUNGE"; "a3 OK EXPUNGE completed"; "* 3 FETCH (FLAGS ())";
    "a4 OK UID FETCH completed"]%string).
Proof. by vm_compute. Qed.

(** EXPUNGE with a set removes messages that are not flagged \Deleted. *)
Example expunge_set_ignores_deleted :
  says_selected ["a3 FETCH 2 (FLAGS)"; "a4 EXPUNGE 2"; "a5 UID FETCH 2 (FLAGS)"]%string =
  Some (map lit ["* 2 FETCH (FLAGS ())"; "a3 OK FETCH completed"; "* 2 EXPUNGE";
    "a4 OK EXPUNGE completed"; "a5 OK UID FETCH completed"]%string).
Proof. by vm_compute. Qed.

(** Every UID command is first read as a FETCH: a destination named RFC822 turns
    UID COPY into a fetch, and nothing is copied. *)
Example uid_copy_read_as_fetch :
  says_selected ["a3 UID COPY 1 RFC822"]%string =
  Some (map lit ["* 1 FETCH (RFC822 {29}"; "From: a"; "Subject: s"; "body 1)";
    "a3 OK FETCH completed"]%string).
Proof. by vm_compute. Qed.

(** Setting a flag, clearing it and setting it again ends the connection: the
    third change has the idempotency key of the first. *)
Example flag_toggle_drops_connection : exists sv,
  run [login; "a2 SELECT INBOX"; "a3 STORE 2 +FLAGS (\Seen)"; "a4 STORE 2 -FLAGS (\Seen)";
       "a5 STORE 2 +FLAGS (\Seen)"; "a6 NOOP"]%string =
  Some (Err (ESqlx (UniqueViolation (lit "pending_mutations_idempotency_key_key"))), sv).
Proof. eexists. vm_compute. reflexivity. Qed.

(** A mailbox that is deleted and created again has the UIDVALIDITY it had. *)
Definition work_status : str :=
  lit "* STATUS " ++ quote_imap_string (lit "Work") ++ lit " (UIDVALIDITY 1)".
Example recreated_mailbox_keeps_uidvalidity :
  says 2 [login; "a2 CREATE Work"; "a3 STATUS Work (UIDVALIDITY)"; "a4 DELETE Work";
          "a5 CREATE Work"; "a6 STATUS Work (UIDVALIDITY)"]%string =
  Some [lit "a2 OK CREATE completed"; work_status; lit "a3 OK STATUS completed";
        lit "a4 OK DELETE completed"; lit "a5 OK CREATE completed"; work_status;
        lit "a6 OK STATUS completed"].
Proof. by vm_compute. Qed.

(** MOVE announces its expunges in ascending order, with the numbers the messages
    had before: a client that follows the lines is left with a message that is
    gone, and misses the one that is there. *)
Definition moved : Srv := after (command "a3" "MOVE" ["1:2"; "Archive"]) selected.
Example move_misleads_client :
  snd (handle_parsed_command services secrets (command "a3" "MOVE" ["1:2"; "Archive"]) None selected) =
    Ok (map lit ["* 1 EXPUNGE"; "* 2 EXPUNGE"; "a3 OK [COPYUID 1 1,2 1,2] MOVE completed"]%string) /\
  map MailboxMessage_local_uid (replay_expunges [1; 2] (listing 1 selected)) = [2] /\
  map MailboxMessage_local_uid (listing 1 moved) = [3].
Proof. by vm_compute. Qed.
