(* ===== verification/Upstream.v ===== *)
(** * The upstream IMAP client

    Models crates/upstream/src/lib.rs: the commands the client sends to the
    upstream server, how it reads the responses, and the texts it takes apart.
    The server is the environment: [peer_receive] is what it sends back when the
    client has written something.  Reads see what was received; a peer that has
    nothing more to say has closed the connection.  Sockets and the TLS
    handshake are parameters. *)

From stdpp Require Import base strings list gmap.
From Stdlib Require Import ZArith Lia.
From S2P Require Import Prelude RustStr Metrics Domain Protocol SearchQuery Storage Schema RepoCore Security RepoAccounts Engine SearchEval ImapText ImapFetch.

Local Open Scope Z_scope.

(** The other side of a connection.  [tcp_connect] is the peer with what it
    sends first, or the text of the error; [peer_receive] its answer to what the
    client writes, or the error of the write; [peer_end] the error that ends its
    stream, [None] when it closes it; [tls_handshake] takes what it had sent
    unread to the stream inside TLS. *)
Class Peer (P : Type) : Type := {
  tcp_connect : str -> Z -> (P * bytes) + str;
  peer_receive : P -> bytes -> P * (bytes + str);
  peer_end : P -> option str;
  server_name_ok : str -> bool;
  tls_handshake : P -> bytes -> (P * bytes) + str
}.

(** [base64::engine::general_purpose::STANDARD.encode]. *)
Class Base64Encode : Type := { base64_encode : bytes -> str }.

Record CommandResponse : Type := mkCommandResponse {
  CommandResponse_tagged : str;
  CommandResponse_untagged : list str;
  CommandResponse_continuations : list str
}.

(** [UpstreamClient]: [uc_transport] is the transport, plain or TLS; [uc_input]
    what was received and not yet read, [uc_metrics] the recorder with its
    counts, [uc_limit_guard] the account whose permit is held. *)
Record UpstreamConn {P : Type} : Type := mkUpstreamConn {
  uc_transport : option bool;
  uc_peer : P;
  uc_input : bytes;
  uc_next_tag : Z;
  uc_greeting : option str;
  uc_capabilities : list str;
  uc_metrics : option AppMetrics;
  uc_metrics_counted : bool;
  uc_limit_guard : option Z
}.
Arguments UpstreamConn : clear implicits.
Arguments mkUpstreamConn {P}.

(** ** Texts *)
Definition ensure_ok (tagged : str) : Result unit :=
  if str_contains tagged (lit " OK ") then Ok tt
  else if str_contains tagged (lit " NO ") then Err EAuthenticationFailed
  else if str_contains tagged (lit " BAD ") then Err (EImapCommand tagged)
  else Err (EParse (lit "unexpected tagged response: " ++ tagged)).

Definition quote (value : str) : str :=
  [34] ++ replace_char 34 [92; 34] (replace_char 92 [92; 92] value) ++ [34].

Fixpoint unescape (escaped : bool) (inner : str) : str :=
  match inner with
  | [] => []
  | c :: inner' =>
      if escaped then c :: unescape false inner'
      else if c =? 92 then unescape true inner'
      else c :: unescape false inner'
  end.

Definition unquote (value : str) : str :=
  let trimmed := trim value in
  if starts_with [34] trimmed && ends_with [34] trimmed && Nat.leb 2 (length trimmed)
  then unescape false (take (length trimmed - 2) (drop 1 trimmed))
  else trimmed.

Definition parse_list_mailbox_name (line : str) : option str :=
  let trimmed := trim line in
  if negb (starts_with (lit "* LIST ") trimmed) then None
  else match rsplit_once 32 trimmed with
       | Some (_, mailbox) => Some (unquote mailbox)
       | None => None
       end.

Definition extract_bracketed_response_code (line code : str) : option str :=
  let marker := lit "[" ++ code ++ lit " " in
  match find_str marker line with
  | None => None
  | Some (_, from) =>
      match split_once 93 (drop (length marker) from) with
      | Some (value, _) => Some (trim value)
      | None => None
      end
  end.

Definition parse_parenthesized_list (value : str) : list str :=
  let trimmed := trim value in
  match strip_prefix [40] trimmed ≫= strip_suffix [41] with
  | Some inner => map (trim_matches 34) (split_whitespace inner)
  | None => []
  end.

Definition parse_fetch_flags (line : str) (uid : Z) : option (list str) :=
  let trimmed := trim line in
  if negb (starts_with (lit "* ") trimmed) || negb (str_contains trimmed (lit " FETCH ")) then None
  else if negb (str_contains trimmed (lit "UID " ++ fmt_u uid)) then None
  else match find_str (lit "FLAGS (") trimmed with
       | None => None
       | Some (_, from) =>
           match split_once 41 (drop 6 from) with
           | Some (inner, _) => Some (parse_parenthesized_list (inner ++ [41]))
           | None => None
           end
       end.

(** The text between the last brace and the last closing brace; the slice
    panics when they are the other way round. *)
Definition parse_literal_size (line : str) : Result (option Z) :=
  match rsplit_once 123 line with
  | None => Err (EParse (lit "missing literal marker in response: " ++ line))
  | Some (before, _) =>
      match rsplit_once 125 line with
      | None => Err (EParse (lit "missing literal terminator in response: " ++ line))
      | Some (upto, _) =>
          if Nat.leb (S (length before)) (length upto) then
            match parse_uint u64_max (drop (S (length before)) upto) with
            | inl size => Ok (Some size)
            | inr e => Err (EParse (lit "invalid literal size in response: " ++ e))
            end
          else Panic
      end
  end.

(** [format!("A{:04}", n)]. *)
Definition format_tag (n : Z) : str :=
  let d := fmt_u n in lit "A" ++ replicate (4 - length d) 48 ++ d.

(** ** The connection *)
Section Client.
Context {P : Type} `{Peer P}.
Abbreviation Client := (M Error (UpstreamConn P)).

Definition missing_transport : Error := EStorage (lit "missing upstream transport").
Definition closed_connection : Error := EParse (lit "upstream closed connection").

Definition set_transport (t : option bool) (c : UpstreamConn P) : UpstreamConn P :=
  mkUpstreamConn t (uc_peer c) (uc_input c) (uc_next_tag c) (uc_greeting c) (uc_capabilities c)
    (uc_metrics c) (uc_metrics_counted c) (uc_limit_guard c).
Definition set_stream (p : P) (input : bytes) (c : UpstreamConn P) : UpstreamConn P :=
  mkUpstreamConn (uc_transport c) p input (uc_next_tag c) (uc_greeting c) (uc_capabilities c)
    (uc_metrics c) (uc_metrics_counted c) (uc_limit_guard c).
Definition set_next_tag (n : Z) (c : UpstreamConn P) : UpstreamConn P :=
  mkUpstreamConn (uc_transport c) (uc_peer c) (uc_input c) n (uc_greeting c) (uc_capabilities c)
    (uc_metrics c) (uc_metrics_counted c) (uc_limit_guard c).
Definition set_greeting (line : str) (c : UpstreamConn P) : UpstreamConn P :=
  mkUpstreamConn (uc_transport c) (uc_peer c) (uc_input c) (uc_next_tag c) (Some line)
    (uc_capabilities c) (uc_metrics c) (uc_metrics_counted c) (uc_limit_guard c).
Definition set_capabilities (caps : list str) (c : UpstreamConn P) : UpstreamConn P :=
  mkUpstreamConn (uc_transport c) (uc_peer c) (uc_input c) (uc_next_tag c) (uc_greeting c) caps
    (uc_metrics c) (uc_metrics_counted c) (uc_limit_guard c).
Definition set_metrics (m : option AppMetrics) (counted : bool) (c : UpstreamConn P)
  : UpstreamConn P :=
  mkUpstreamConn (uc_transport c) (uc_peer c) (uc_input c) (uc_next_tag c) (uc_greeting c)
    (uc_capabilities c) m counted (uc_limit_guard c).
Definition set_limit_guard (g : option Z) (c : UpstreamConn P) : UpstreamConn P :=
  mkUpstreamConn (uc_transport c) (uc_peer c) (uc_input c) (uc_next_tag c) (uc_greeting c)
    (uc_capabilities c) (uc_metrics c) (uc_metrics_counted c) g.

(** [if let Some(metrics) = &self.metrics]. *)
Definition with_recorder (f : AppMetrics -> AppMetrics) : Client unit :=
  modify (fun c => set_metrics (f <$> uc_metrics c) (uc_metrics_counted c) c).

Definition need_transport : Client unit :=
  do t <- gets uc_transport ;;
  match t with Some _ => ret tt | None => fail missing_transport end.

Definition conn_next_tag : Client str :=
  do n <- gets uc_next_tag ;;
  modify (set_next_tag (as_u64 (n + 1))) ;;;
  ret (format_tag n).

Definition conn_write_all (b : bytes) : Client unit :=
  need_transport ;;;
  do c <- get ;;
  let '(p, answer) := peer_receive (uc_peer c) b in
  match answer with
  | inl received =>
      modify (set_stream p (uc_input c ++ received)) ;;;
      with_recorder (record_upstream_bytes_sent (len b))
  | inr e => modify (set_stream p (uc_input c)) ;;; fail (EIo e)
  end.

(** The end of the stream inside a line: its error, or the end of the line. *)
Definition conn_read_line : Client str :=
  need_transport ;;;
  do c <- get ;;
  let '(line, rest, ended) :=
    match split_once 10 (uc_input c) with
    | Some (line, rest) => (line ++ [10], rest, false)
    | None => (uc_input c, [], true)
    end in
  modify (set_stream (uc_peer c) rest) ;;;
  match (if ended : bool then peer_end (uc_peer c) else None) with
  | Some e => fail (EIo e)
  | None =>
      match line with
      | [] => fail closed_connection
      | _ =>
          match from_utf8 line with
          | None => fail (EIo (lit "stream did not contain valid UTF-8"))
          | Some text =>
              with_recorder (record_upstream_bytes_fetched (len line)) ;;;
              ret (trim_end_by is_eol text)
          end
      end
  end.

(** [vec![0; size]] and [read_exact]. *)
Definition conn_read_exact (size : Z) : Client bytes :=
  if i64_max <? size then panic
  else
    need_transport ;;;
    do c <- get ;;
    if len (uc_input c) <? size then
      modify (set_stream (uc_peer c) []) ;;;
      fail (EIo (default (lit "early eof") (peer_end (uc_peer c))))
    else
      modify (set_stream (uc_peer c) (drop (Z.to_nat size) (uc_input c))) ;;;
      with_recorder (record_upstream_bytes_fetched size) ;;;
      ret (take (Z.to_nat size) (uc_input c)).

(** The loops over response lines: [step] looks at a line and goes on with a new
    accumulator or ends the loop.  A line takes at least a byte of the input, so
    [read_lines] never runs out of fuel. *)
Fixpoint read_lines_loop {A B} (fuel : nat) (step : A -> str -> Client (A + B)) (acc : A)
  : Client B :=
  match fuel with
  | O => fail closed_connection
  | S fuel' =>
      do line <- conn_read_line ;;
      do next <- step acc line ;;
      match next with
      | inl acc' => read_lines_loop fuel' step acc'
      | inr result => ret result
      end
  end.

Definition read_lines {A B} (step : A -> str -> Client (A + B)) (acc : A) : Client B :=
  do input <- gets uc_input ;;
  read_lines_loop (S (length input)) step acc.

(** ** Commands *)
Definition strip_capability : str -> option str := strip_prefix (lit "* CAPABILITY ").

Definition update_capabilities_from_untagged (untagged : list str) : Client unit :=
  for_each untagged (fun line =>
    match strip_capability line with
    | Some caps => modify (set_capabilities (split_whitespace caps))
    | None => ret tt
    end).

(** The accumulator: untagged lines and continuations, the last first. *)
Definition command_step (tag : str) (acc : list str * list str) (response : str)
  : Client (list str * list str + CommandResponse) :=
  let '(untagged, continuations) := acc in
  if starts_with (lit "+ ") response then ret (inl (untagged, response :: continuations))
  else if starts_with (lit "* ") response then ret (inl (response :: untagged, continuations))
  else if starts_with tag response then
    update_capabilities_from_untagged (rev untagged) ;;;
    ret (inr (mkCommandResponse response (rev untagged) (rev continuations)))
  else fail (EParse (lit "unexpected IMAP response line: " ++ response)).

Definition command_text (tag command : str) (args : list str) : str :=
  tag ++ lit " " ++ command ++ flat_map (fun arg => lit " " ++ arg) args.

Definition send_command (command : str) (args : list str) : Client CommandResponse :=
  do tag <- conn_next_tag ;;
  conn_write_all (as_bytes (command_text tag command args) ++ crlf) ;;;
  read_lines (command_step tag) ([], []).

(** A command of which only the completion matters. *)
Definition run_command (command : str) (args : list str) : Client unit :=
  do response <- send_command command args ;;
  lift (ensure_ok (CommandResponse_tagged response)).

Definition capability : Client (list str) :=
  do response <- send_command (lit "CAPABILITY") [] ;;
  let caps :=
    match list_find (fun line => is_some (strip_capability line) = true)
            (CommandResponse_untagged response) with
    | Some (_, line) => default [] (split_whitespace <$> strip_capability line)
    | None => []
    end in
  modify (set_capabilities caps) ;;;
  ret caps.

Definition login (username password : str) : Client unit :=
  run_command (lit "LOGIN") [quote username; quote password].

Definition conn_noop : Client unit := run_command (lit "NOOP") [].
Definition conn_expunge_selected : Client unit := run_command (lit "EXPUNGE") [].
Definition conn_logout : Client unit := run_command (lit "LOGOUT") [].
Definition starttls : Client unit := run_command (lit "STARTTLS") [].

(** ** SELECT and LIST *)
Definition empty_info : SelectedMailboxInfo :=
  mkSelectedMailboxInfo [] None None None None None None false.

Definition read_select_line (info : SelectedMailboxInfo) (line : str) : SelectedMailboxInfo :=
  let '(mkSelectedMailboxInfo flags exists_ recent uidvalidity uidnext highestmodseq unseen
          read_only) := info in
  match strip_prefix (lit "* FLAGS ") line with
  | Some rest =>
      mkSelectedMailboxInfo (map (trim_matches 34) (parse_parenthesized_list rest)) exists_ recent
        uidvalidity uidnext highestmodseq unseen read_only
  | None =>
  let numbered suffix :=
    match strip_prefix (lit "* ") line with
    | Some rest => strip_suffix suffix rest
    | None => None
    end in
  match numbered (lit " EXISTS") with
  | Some rest =>
      mkSelectedMailboxInfo flags (parse_i64 (trim rest)) recent uidvalidity uidnext highestmodseq
        unseen read_only
  | None =>
  match numbered (lit " RECENT") with
  | Some rest =>
      mkSelectedMailboxInfo flags exists_ (parse_i64 (trim rest)) uidvalidity uidnext
        highestmodseq unseen read_only
  | None =>
  match extract_bracketed_response_code line (lit "UIDVALIDITY") with
  | Some value =>
      mkSelectedMailboxInfo flags exists_ recent (parse_i64 value) uidnext highestmodseq unseen
        read_only
  | None =>
  match extract_bracketed_response_code line (lit "UIDNEXT") with
  | Some value =>
      mkSelectedMailboxInfo flags exists_ recent uidvalidity (parse_i64 value) highestmodseq unseen
        read_only
  | None =>
  match extract_bracketed_response_code line (lit "HIGHESTMODSEQ") with
  | Some value =>
      mkSelectedMailboxInfo flags exists_ recent uidvalidity uidnext (parse_i64 value) unseen
        read_only
  | None =>
  match extract_bracketed_response_code line (lit "UNSEEN") with
  | Some value =>
      mkSelectedMailboxInfo flags exists_ recent uidvalidity uidnext highestmodseq
        (parse_i64 value) read_only
  | None =>
      mkSelectedMailboxInfo flags exists_ recent uidvalidity uidnext highestmodseq unseen
        (read_only || str_contains line (lit "[READ-ONLY]"))
  end end end end end end end.

Definition conn_select_mailbox (mailbox : str) : Client SelectedMailboxInfo :=
  do response <- send_command (lit "SELECT") [quote mailbox] ;;
  let info := fold_left read_select_line (CommandResponse_untagged response) empty_info in
  lift (ensure_ok (CommandResponse_tagged response)) ;;;
  ret info.

Definition conn_select (mailbox : str) : Client unit :=
  do _ <- conn_select_mailbox mailbox ;; ret tt.

Definition conn_list_mailboxes : Client (list str) :=
  do response <- send_command (lit "LIST") [quote []; quote (lit "*")] ;;
  lift (ensure_ok (CommandResponse_tagged response)) ;;;
  ret (omap parse_list_mailbox_name (CommandResponse_untagged response)).

(** ** Messages *)
Definition search_uids (line : str) : list Z :=
  match strip_prefix (lit "* SEARCH ") line with
  | Some rest => omap parse_u64 (split_whitespace rest)
  | None => []
  end.

Definition conn_uid_search_all : Client (list Z) :=
  do response <- send_command (lit "UID") [lit "SEARCH"; lit "ALL"] ;;
  lift (ensure_ok (CommandResponse_tagged response)) ;;;
  ret (flat_map search_uids (CommandResponse_untagged response)).

(** The last word of a response code, as a UID. *)
Definition response_code_uid (line code : str) : option Z :=
  value ← extract_bracketed_response_code line code;
  word ← last (split_whitespace value);
  parse_u64 word.

Definition paren_flags (flags : list str) : str := lit "(" ++ join (lit " ") flags ++ lit ")".

Definition append_text `{Chrono} (tag mailbox : str) (flags : list str)
  (internal_date : option Z) (data : bytes) : str :=
  tag ++ lit " APPEND " ++ quote mailbox ++
  match flags with [] => [] | _ => lit " " ++ paren_flags flags end ++
  match internal_date with
  | Some date => lit " " ++ quote (format_date_time date)
  | None => []
  end ++ lit " {" ++ fmt_u (len data) ++ lit "}".

(** Waiting for the continuation: [true] when it came, [false] when the command
    was completed first. *)
Definition append_ready (tag : str) (acc : unit) (response : str) : Client (unit + bool) :=
  if starts_with (lit "+ ") response then ret (inr true)
  else if starts_with tag response then lift (ensure_ok response) ;;; ret (inr false)
  else ret (inl tt).

Definition append_done (tag : str) (acc : unit) (response : str) : Client (unit + option Z) :=
  if starts_with tag response then
    lift (ensure_ok response) ;;; ret (inr (response_code_uid response (lit "APPENDUID")))
  else ret (inl tt).

Definition conn_append_with_internal_date `{Chrono} (mailbox : str) (flags : list str)
  (internal_date : option Z) (data : bytes) : Client (option Z) :=
  do tag <- conn_next_tag ;;
  conn_write_all (as_bytes (append_text tag mailbox flags internal_date data) ++ crlf) ;;;
  do ready <- read_lines (append_ready tag) tt ;;
  if ready : bool then
    conn_write_all (data ++ crlf) ;;;
    read_lines (append_done tag) tt
  else ret None.

Definition conn_append `{Chrono} (mailbox : str) (flags : list str) (data : bytes)
  : Client (option Z) :=
  conn_append_with_internal_date mailbox flags None data.

Definition conn_uid_store_flags (uid : Z) (flags : list str) : Client unit :=
  run_command (lit "UID") [lit "STORE"; fmt_u uid; lit "FLAGS.SILENT"; paren_flags flags].

(** UID COPY and UID MOVE. *)
Definition transfer (verb : str) (uid : Z) (mailbox : str) : Client Z :=
  do response <- send_command (lit "UID") [verb; fmt_u uid; quote mailbox] ;;
  lift (ensure_ok (CommandResponse_tagged response)) ;;;
  lift (ok_or (response_code_uid (CommandResponse_tagged response) (lit "COPYUID"))
          (EParse (lit "COPYUID response missing destination uid: " ++
                   CommandResponse_tagged response))).

Definition conn_uid_copy_message (uid : Z) (mailbox : str) : Client Z :=
  transfer (lit "COPY") uid mailbox.

Definition conn_uid_move_message (uid : Z) (mailbox : str) : Client Z :=
  do known <- gets uc_capabilities ;;
  do caps <- match known with [] => capability | _ => ret known end ;;
  if existsb (fun cap => eq_ignore_ascii_case cap (lit "MOVE")) caps
  then transfer (lit "MOVE") uid mailbox
  else
    do copied_uid <- conn_uid_copy_message uid mailbox ;;
    conn_uid_store_flags uid [lit "\Deleted"] ;;;
    conn_expunge_selected ;;;
    ret copied_uid.

(** A line that announces the literal of a FETCH. *)
Definition announces_literal (response : str) : bool :=
  starts_with (lit "* ") response && str_contains response (lit "FETCH") &&
  str_contains response [123] && ends_with [125] response.

Definition fetch_step (tag : str) (body : option bytes) (response : str)
  : Client (option bytes + bytes) :=
  if str_eqb response [] || str_eqb response (lit ")") then ret (inl body)
  else
    do size <- (if announces_literal response then lift (parse_literal_size response)
                else ret None) ;;
    match size with
    | Some size => do b <- conn_read_exact size ;; ret (inl (Some b))
    | None =>
        if starts_with tag response then
          update_capabilities_from_untagged [] ;;;
          lift (ensure_ok response) ;;;
          do b <- lift (ok_or body (EParse (lit "FETCH completed without a literal body"))) ;;
          ret (inr b)
        else ret (inl body)
    end.

Definition fetch_text (tag : str) (uid : Z) : str :=
  tag ++ lit " UID FETCH " ++ fmt_u uid ++ lit " (UID BODY.PEEK[])".

Definition conn_uid_fetch_rfc822 (uid : Z) : Client bytes :=
  do tag <- conn_next_tag ;;
  conn_write_all (as_bytes (fetch_text tag uid) ++ crlf) ;;;
  read_lines (fetch_step tag) None.

Definition conn_uid_fetch_flags (uid : Z) : Client (list str) :=
  do response <- send_command (lit "UID") [lit "FETCH"; fmt_u uid; lit "(UID FLAGS)"] ;;
  lift (ensure_ok (CommandResponse_tagged response)) ;;;
  match omap (fun line => parse_fetch_flags line uid) (CommandResponse_untagged response) with
  | flags :: _ => ret flags
  | [] => fail (EParse (lit "FETCH response missing flags for UID " ++ fmt_u uid))
  end.

(** ** Authentication *)
Definition sasl_challenge `{Base64Encode} (tag response : str) (acc : unit) (line : str)
  : Client (unit + bool) :=
  if starts_with [43] line then
    conn_write_all (as_bytes (base64_encode (as_bytes response)) ++ crlf) ;;;
    ret (inr true)
  else if starts_with tag line then lift (ensure_ok line) ;;; ret (inr false)
  else ret (inl tt).

Definition sasl_done (tag : str) (acc : unit) (line : str) : Client (unit + unit) :=
  if starts_with tag line then lift (ensure_ok line) ;;; ret (inr tt)
  else ret (inl tt).

Definition authenticate_sasl `{Base64Encode} (mechanism response : str) : Client unit :=
  do tag <- conn_next_tag ;;
  conn_write_all (as_bytes (tag ++ lit " AUTHENTICATE " ++ mechanism) ++ crlf) ;;;
  do answered <- read_lines (sasl_challenge tag response) tt ;;
  if answered : bool then read_lines (sasl_done tag) tt else ret tt.

Definition xoauth2_response (username secret : str) : str :=
  lit "user=" ++ username ++ [1] ++ lit "auth=Bearer " ++ secret ++ [1; 1].

Definition authenticate_with_method `{Base64Encode} (auth_method : UpstreamAuthMethod)
  (username secret : str) : Client unit :=
  match auth_method with
  | Login => login username secret
  | OAuth2 | XOAuth2 =>
      authenticate_sasl (lit "XOAUTH2") (xoauth2_response username secret)
  end.

(** ** Opening and closing *)
Definition read_greeting : Client (option str) :=
  do line <- conn_read_line ;;
  (if starts_with (lit "* OK") line then modify (set_greeting line) else ret tt) ;;;
  ret (Some line).

Definition wrap_tls_client (p : P) (unread : bytes) (host : str) : Result (P * bytes) :=
  if server_name_ok host then
    match tls_handshake p unread with
    | inl stream => Ok stream
    | inr e => Err (EStorage (lit "upstream TLS handshake failed: " ++ e))
    end
  else Err (EConfig (lit "invalid TLS host name: " ++ host)).

Definition upgrade_to_tls (host : str) : Client unit :=
  do c <- get ;;
  modify (set_transport None) ;;;
  match uc_transport c with
  | None => fail missing_transport
  | Some true => fail (EStorage (lit "connection is already TLS"))
  | Some false =>
      do stream <- lift (wrap_tls_client (uc_peer c) (uc_input c) host) ;;
      modify (fun c => set_transport (Some true) (set_stream (fst stream) (snd stream) c))
  end.

Definition new_conn (tls : bool) (p : P) (input : bytes) : UpstreamConn P :=
  mkUpstreamConn (Some tls) p input 1 None [] None false None.
Definition from_plain : P -> bytes -> UpstreamConn P := new_conn false.
Definition from_tls : P -> bytes -> UpstreamConn P := new_conn true.

(** What runs on a fresh connection; the connection is lost on an error. *)
Definition on_fresh (c : UpstreamConn P) (m : Client unit) : Result (UpstreamConn P) :=
  let '(c', r) := m c in try! _ <- r ;; Ok c'.

Definition connect_tcp (config : UpstreamAccountConfig) : Result (P * bytes) :=
  match tcp_connect (UpstreamAccountConfig_host config) (UpstreamAccountConfig_port config) with
  | inl stream => Ok stream
  | inr e => Err (EIo e)
  end.

Definition connect (config : UpstreamAccountConfig) : Result (UpstreamConn P) :=
  let host := UpstreamAccountConfig_host config in
  try! stream <- connect_tcp config ;;
  match UpstreamAccountConfig_tls_mode config with
  | Plain => on_fresh (from_plain (fst stream) (snd stream)) (read_greeting ;;; ret tt)
  | Tls =>
      try! stream <- wrap_tls_client (fst stream) (snd stream) host ;;
      on_fresh (from_tls (fst stream) (snd stream)) (read_greeting ;;; ret tt)
  | StartTls =>
      on_fresh (from_plain (fst stream) (snd stream))
        (read_greeting ;;;
         do caps <- capability ;;
         if existsb (fun cap => eq_ignore_ascii_case cap (lit "STARTTLS")) caps
         then starttls ;;; upgrade_to_tls host
         else fail (EStorage (lit "upstream server does not advertise STARTTLS")))
  end.
End Client.

(** The interface the sync engines and the server run on. *)
#[export] Instance upstream_conn_client {P : Type} `{Peer P, Chrono}
  : UpstreamClient (UpstreamConn P) := {
  upstream_select := conn_select;
  upstream_select_mailbox := conn_select_mailbox;
  upstream_list_mailboxes := conn_list_mailboxes;
  uid_search_all := conn_uid_search_all;
  uid_fetch_flags := conn_uid_fetch_flags;
  uid_fetch_rfc822 := conn_uid_fetch_rfc822;
  append_with_internal_date := conn_append_with_internal_date;
  uid_store_flags := conn_uid_store_flags;
  uid_copy_message := conn_uid_copy_message;
  expunge_selected := conn_expunge_selected
}.

(** ** Metrics and the connection limit

    [ACCOUNT_LIMITS]: the semaphores of the accounts, by the permits they have
    left.  Dropping a connection gives its permit back and counts it out of the
    metrics it was counted into. *)
Abbreviation AccountLimits := (gmap Z Z).

Section Limits.
Context {P : Type}.

Definition with_metrics (m : AppMetrics) (c : UpstreamConn P) : UpstreamConn P :=
  set_metrics (Some (if uc_metrics_counted c then m else inc_upstream_connections m)) true c.

Definition account_connection_semaphore (account_id limit : Z) (limits : AccountLimits)
  : AccountLimits :=
  match limits !! account_id with
  | Some _ => limits
  | None => <[account_id := limit]> limits
  end.

(** [acquire_owned]: [None] while it waits for a permit. *)
Definition acquire_owned (account_id : Z) (limits : AccountLimits) : option AccountLimits :=
  permits ← limits !! account_id;
  if 0 <? permits then Some (<[account_id := permits - 1]> limits) else None.

(** [None] while the connection waits; the semaphore is there from then on. *)
Definition with_account_connection_limit (account_id limit : Z) (c : UpstreamConn P)
  (limits : AccountLimits) : AccountLimits * option (UpstreamConn P) :=
  if (limit =? 0) || is_some (uc_limit_guard c) then (limits, Some c)
  else
    let limits := account_connection_semaphore account_id limit limits in
    match acquire_owned account_id limits with
    | Some limits => (limits, Some (set_limit_guard (Some account_id) c))
    | None => (limits, None)
    end.

Definition drop_conn (c : UpstreamConn P) (limits : AccountLimits)
  : AccountLimits * option AppMetrics :=
  (match uc_limit_guard c with
   | Some account_id => alter (fun permits => permits + 1) account_id limits
   | None => limits
   end,
   if uc_metrics_counted c then dec_upstream_connections <$> uc_metrics c else uc_metrics c).
End Limits.
