(* ===== verification/UpstreamSpecs.v ===== *)
(** * What the upstream client does on the wire

    [runs m s r s']: from any connection whose stream is [s], the computation
    [m] answers [r] and leaves the stream [s'].  The stream of a connection is
    its transport, its peer, the input it has not read and its next tag; the
    capabilities and the metrics are left out.  With it: a command takes exactly
    its own response off the stream, a message comes back byte for byte, the
    server's LIST lines are read back, and the accounts' connection limits hold. *)

From stdpp Require Import base strings list gmap relations.
From Stdlib Require Import ZArith Lia.
From S2P Require Import Prelude RustStr Metrics Domain Protocol SearchQuery Storage Schema RepoCore Security RepoAccounts Engine SearchEval ImapText ImapFetch ImapTextSpecs Upstream.

Local Open Scope Z_scope.

(** ** Lines on the wire *)
Definition line_char (c : Z) : bool := is_scalar c && negb (is_eol c).
Definition wire_line (l : str) : Prop := Forall (fun c => line_char c = true) l.
Definition wire (l : str) : bytes := as_bytes l ++ crlf.

Lemma utf8_char_low b c : b < 128 -> In b (utf8_char c) -> c = b.
Proof.
  intros Hb. unfold utf8_char. destruct (c <? 128) eqn:E1; [by intros [|[]]|].
  apply Z.ltb_ge in E1.
  assert (Hm : forall a, 0 <= a mod 64 < 64) by (intros; by apply Z.mod_pos_bound).
  assert (Hd : forall k, 0 < k -> 0 <= c / k) by (intros; apply Z.div_pos; lia).
  pose proof (Hm c). pose proof (Hm (c / 64)). pose proof (Hm (c / 4096)).
  pose proof (Hd 64 ltac:(lia)). pose proof (Hd 4096 ltac:(lia)). pose proof (Hd 262144 ltac:(lia)).
  destruct (c <? 2048); [|destruct (c <? 65536)]; cbn [In]; intuition lia.
Qed.

Lemma as_bytes_low b s : b < 128 -> In b (as_bytes s) -> In b s.
Proof.
  intros Hb. unfold as_bytes. rewrite in_flat_map. intros (c & Hc & H0).
  by apply utf8_char_low in H0 as ->.
Qed.

Lemma wire_line_no_lf l : wire_line l -> ~ In 10 (as_bytes l).
Proof.
  intros Hl Hin. apply as_bytes_low in Hin; [|lia].
  unfold wire_line in Hl. rewrite List.Forall_forall in Hl. by specialize (Hl _ Hin).
Qed.

Lemma split_once_wire l rest :
  wire_line l -> split_once 10 (wire l ++ rest) = Some (as_bytes l ++ [13], rest).
Proof.
  intros Hl%wire_line_no_lf. unfold wire, crlf. rewrite <- app_assoc. cbn [app].
  assert (Hn : ~ In 10 (as_bytes l ++ [13])).
  { rewrite in_app_iff. by intros [?|[?|[]]]. }
  replace (as_bytes l ++ 13 :: 10 :: rest) with ((as_bytes l ++ [13]) ++ 10 :: rest)
    by (by rewrite <- app_assoc).
  revert Hn. generalize (as_bytes l ++ [13]) as b. clear Hl. induction b as [|x b IH]; intros Hn; simpl.
  - done.
  - destruct (x =? 10) eqn:E; [exfalso; apply Hn; left; lia|].
    rewrite IH; [done|]. intros ?. apply Hn. by right.
Qed.

Lemma from_utf8_wire l : wire_line l -> from_utf8 (wire l) = Some (l ++ crlf).
Proof.
  intros Hl. unfold wire. change crlf with (as_bytes crlf) at 1. rewrite <- as_bytes_app.
  apply from_utf8_as_bytes, Forall_app. split; [|by repeat constructor].
  eapply Forall_impl; [exact Hl|]. intros c Hc. unfold line_char in Hc. by apply andb_prop in Hc as [? _].
Qed.

Lemma trim_wire l : wire_line l -> trim_end_by is_eol (l ++ crlf) = l.
Proof.
  intros Hl. destruct l as [|c l _] using rev_ind; [done|].
  apply Forall_app in Hl as [_ Hc]. inversion_clear Hc as [|?? Hc' _].
  unfold line_char in Hc'. apply andb_prop in Hc' as [_ Hc'].
  apply trim_end_by_app; [by destruct (is_eol c)|by repeat constructor].
Qed.

(** ** Searching *)
Lemma starts_with_app p s : starts_with p (p ++ s) = true.
Proof. unfold starts_with. by rewrite strip_prefix_app. Qed.

Lemma starts_with_iff p s : starts_with p s = true <-> exists r, s = p ++ r.
Proof.
  split; [|intros [r ->]; apply starts_with_app]. unfold starts_with.
  destruct (strip_prefix p s) as [r|] eqn:E; [|done]. apply strip_prefix_Some in E. by exists r.
Qed.

Lemma starts_with_more p s r : starts_with p s = true -> starts_with p (s ++ r) = true.
Proof. rewrite !starts_with_iff. intros [x ->]. exists (x ++ r). by rewrite app_assoc. Qed.

Lemma find_str_first a p b : starts_with p b = true -> is_some (find_str p (a ++ b)) = true.
Proof.
  intros Hb. induction a as [|c a IH]; simpl.
  - destruct b; simpl; by rewrite Hb.
  - destruct (starts_with p (c :: a ++ b)); [done|]. by destruct (find_str p (a ++ b)) as [[]|].
Qed.

Lemma find_str_Some p s : forall a b,
  find_str p s = Some (a, b) -> s = a ++ b /\ starts_with p b = true.
Proof.
  induction s as [|c s IH]; intros a b; simpl.
  - destruct (starts_with p []) eqn:E; [|done]. by intros [= <- <-].
  - destruct (starts_with p (c :: s)) eqn:E; [by intros [= <- <-]|].
    destruct (find_str p s) as [[a' b']|]; [|done]. intros [= <- <-].
    destruct (IH a' b' eq_refl) as [-> ?]. done.
Qed.

Lemma contains_iff s p : str_contains s p = true <-> exists a b, s = a ++ p ++ b.
Proof.
  unfold str_contains. split.
  - destruct (find_str p s) as [[a b]|] eqn:E; [|done].
    apply find_str_Some in E as [-> [r ->]%starts_with_iff]. by exists a, r.
  - intros (a & b & ->). apply find_str_first, starts_with_app.
Qed.

(** ** Literal sizes *)
Lemma rsplit_once_app c a b : ~ In c b -> rsplit_once c (a ++ c :: b) = Some (a, b).
Proof.
  intros Hb. unfold rsplit_once. rewrite rev_app_distr. cbn [rev]. rewrite <- app_assoc. cbn [app].
  rewrite split_once_app by (by rewrite <- in_rev). by rewrite !rev_involutive.
Qed.

(** The line that announces a literal. *)
Definition announcement (prefix : str) (size : Z) : str := prefix ++ [123] ++ fmt_u size ++ [125].

Lemma parse_announcement prefix size :
  0 <= size <= u64_max -> parse_literal_size (announcement prefix size) = Ok (Some size).
Proof.
  intros Hs. unfold parse_literal_size, announcement. cbn [app].
  assert (Hd : forall c, In c (fmt_u size) -> c < 58) by (intros c Hc; apply fmt_u_char in Hc; lia).
  rewrite rsplit_once_app.
  2:{ rewrite in_app_iff. intros [Hc%Hd|[?|[]]]; lia. }
  replace (prefix ++ 123 :: fmt_u size ++ [125]) with ((prefix ++ 123 :: fmt_u size) ++ 125 :: [])
    by (by rewrite <- app_assoc).
  rewrite rsplit_once_app by (by intros []).
  rewrite length_app, length_cons, (proj2 (Nat.leb_le _ _)) by lia.
  replace (drop (S (length prefix)) (prefix ++ 123 :: fmt_u size)) with (fmt_u size).
  2:{ change (prefix ++ 123 :: fmt_u size) with (prefix ++ [123] ++ fmt_u size).
      rewrite app_assoc, drop_app_length'; [done|]. rewrite length_app. simpl. lia. }
  by rewrite parse_uint_fmt_u.
Qed.

Lemma announcement_announces prefix size :
  starts_with (lit "* ") prefix = true -> str_contains prefix (lit "FETCH") = true ->
  announces_literal (announcement prefix size) = true.
Proof.
  intros Hstar (a & b & ->)%contains_iff. unfold announces_literal. rewrite !andb_true_iff.
  split_and!.
  - by apply starts_with_more.
  - apply contains_iff. exists a, (b ++ [123] ++ fmt_u size ++ [125]). unfold announcement.
    by rewrite <- !app_assoc.
  - apply contains_iff. by exists (a ++ lit "FETCH" ++ b), (fmt_u size ++ [125]).
  - unfold ends_with, announcement. rewrite !app_assoc. by rewrite strip_suffix_app.
Qed.

(** ** Streams *)
Section Streams.
Context {P : Type} `{Peer P}.
Abbreviation Client := (M Error (UpstreamConn P)).

Record Stream : Type := mkStream {
  st_transport : option bool;
  st_peer : P;
  st_input : bytes;
  st_tag : Z
}.
Definition stream_of (c : UpstreamConn P) : Stream :=
  mkStream (uc_transport c) (uc_peer c) (uc_input c) (uc_next_tag c).

Definition runs {B} (m : Client B) (s : Stream) (r : Result B) (s' : Stream) : Prop :=
  forall c, stream_of c = s -> exists c', m c = (c', r) /\ stream_of c' = s'.

Lemma runs_ret {B} (b : B) s : runs (ret b) s (Ok b) s.
Proof. intros c Hc. by exists c. Qed.
Lemma runs_lift {B} (r : Result B) s : runs (lift r) s r s.
Proof. intros c Hc. by exists c. Qed.
Lemma runs_fail {B} e s : runs (B := B) (fail e) s (Err e) s.
Proof. intros c Hc. by exists c. Qed.
Lemma runs_bind {A B} (m : Client A) (k : A -> Client B) s a s1 r s2 :
  runs m s (Ok a) s1 -> runs (k a) s1 r s2 -> runs (bind m k) s r s2.
Proof.
  intros Hm Hk c Hc. destruct (Hm c Hc) as (c1 & E1 & H1). destruct (Hk c1 H1) as (c2 & E2 & H2).
  exists c2. by rewrite (bind_Ok _ _ _ _ _ E1).
Qed.
Lemma runs_bind_err {A B} (m : Client A) (k : A -> Client B) s e s1 :
  runs m s (Err e) s1 -> runs (bind m k) s (Err e) s1.
Proof.
  intros Hm c Hc. destruct (Hm c Hc) as (c1 & E1 & H1). exists c1.
  by rewrite (bind_Err _ _ _ _ _ E1).
Qed.
Lemma runs_same {B} (m : Client B) s r r' s1 s1' :
  runs m s r s1 -> r = r' -> s1 = s1' -> runs m s r' s1'.
Proof. by intros Hm <- <-. Qed.

Lemma runs_recorder f s : runs (with_recorder f) s (Ok tt) s.
Proof. intros c Hc. by eexists. Qed.
Lemma runs_caps untagged s : runs (update_capabilities_from_untagged untagged) s (Ok tt) s.
Proof.
  unfold update_capabilities_from_untagged. induction untagged as [|l ls IH]; simpl; [apply runs_ret|].
  eapply runs_bind; [|exact IH]. destruct (strip_capability l); [|apply runs_ret].
  intros c Hc. by eexists.
Qed.

Lemma runs_next_tag t p input n :
  runs conn_next_tag (mkStream t p input n) (Ok (format_tag n)) (mkStream t p input (as_u64 (n + 1))).
Proof. intros c [= <- <- <- <-]. by eexists. Qed.

Lemma runs_write_all tls p input n b p' received :
  peer_receive p b = (p', inl received) ->
  runs (conn_write_all b) (mkStream (Some tls) p input n) (Ok tt)
    (mkStream (Some tls) p' (input ++ received) n).
Proof.
  intros Hp c [= Ht <- <- <-]. unfold conn_write_all, need_transport, bind, gets, get. rewrite Ht. cbn [ret]. rewrite Hp.
  simpl. eexists. split; [done|]. unfold stream_of. simpl. by rewrite Ht.
Qed.

Lemma runs_read_line tls p n l rest :
  wire_line l ->
  runs conn_read_line (mkStream (Some tls) p (wire l ++ rest) n) (Ok l)
    (mkStream (Some tls) p rest n).
Proof.
  intros Hl c [= Ht <- Hi <-]. unfold conn_read_line, need_transport, bind, gets, get.
  rewrite Ht. cbn [ret]. rewrite Hi, split_once_wire by done.
  replace ((as_bytes l ++ [13]) ++ [10]) with (wire l) by (unfold wire; by rewrite <- app_assoc).
  cbn [modify]. destruct (wire l) as [|b bs] eqn:E.
  { unfold wire in E. by destruct (as_bytes l). }
  rewrite <- E, from_utf8_wire, trim_wire by done. simpl. eexists. split; [done|].
  unfold stream_of. simpl. by rewrite Ht.
Qed.

Lemma runs_closed tls p n :
  peer_end p = None ->
  runs conn_read_line (mkStream (Some tls) p [] n) (Err closed_connection)
    (mkStream (Some tls) p [] n).
Proof.
  intros Hp c [= Ht <- Hi <-]. unfold conn_read_line, need_transport, bind, gets, get.
  rewrite Ht. cbn [ret]. rewrite Hi. simpl. rewrite Hp. simpl. eexists. split; [done|]. unfold stream_of. simpl. by rewrite Ht.
Qed.

Lemma runs_read_exact tls p n data rest :
  len data <= i64_max ->
  runs (conn_read_exact (len data)) (mkStream (Some tls) p (data ++ rest) n) (Ok data)
    (mkStream (Some tls) p rest n).
Proof.
  intros Hd c [= Ht <- Hi <-]. unfold conn_read_exact.
  rewrite (proj2 (Z.ltb_ge _ _)) by done. unfold need_transport, bind, gets, get. rewrite Ht.
  cbn [ret]. rewrite Hi. unfold len in *. rewrite length_app.
  rewrite (proj2 (Z.ltb_ge _ _)) by lia. rewrite Nat2Z.id, drop_app_length, take_app_length.
  eexists. split; [done|]. unfold stream_of. simpl. by rewrite Ht.
Qed.

(** ** Loops over response lines *)
Definition loops {A B} (step : A -> str -> Client (A + B)) (acc : A) (s : Stream) (r : Result B)
  (s' : Stream) : Prop :=
  forall fuel, (length (st_input s) < fuel)%nat -> runs (read_lines_loop fuel step acc) s r s'.

Lemma runs_read_lines {A B} (step : A -> str -> Client (A + B)) acc s r s' :
  loops step acc s r s' -> runs (read_lines step acc) s r s'.
Proof.
  intros Hl c Hc. unfold read_lines. erewrite bind_Ok by done.
  apply Hl; [|done]. subst s. simpl. lia.
Qed.

Lemma length_wire l rest : (length rest < length (wire l ++ rest))%nat.
Proof. unfold wire, crlf. rewrite !length_app. simpl. lia. Qed.

Lemma loops_next {A B} (step : A -> str -> Client (A + B)) acc acc' tls p n l rest rest' r s' :
  wire_line l -> (length rest' <= length rest)%nat ->
  runs (step acc l) (mkStream (Some tls) p rest n) (Ok (inl acc')) (mkStream (Some tls) p rest' n) ->
  loops step acc' (mkStream (Some tls) p rest' n) r s' ->
  loops step acc (mkStream (Some tls) p (wire l ++ rest) n) r s'.
Proof.
  intros Hl Hlen Hstep Hloop fuel Hf. destruct fuel as [|fuel]; [lia|]. simpl in Hf |- *.
  eapply runs_bind; [by apply runs_read_line|]. eapply runs_bind; [exact Hstep|].
  apply Hloop. simpl. pose proof (length_wire l rest). lia.
Qed.

Lemma loops_done {A B} (step : A -> str -> Client (A + B)) acc b tls p n l rest s' :
  wire_line l ->
  runs (step acc l) (mkStream (Some tls) p rest n) (Ok (inr b)) s' ->
  loops step acc (mkStream (Some tls) p (wire l ++ rest) n) (Ok b) s'.
Proof.
  intros Hl Hstep fuel Hf. destruct fuel as [|fuel]; [lia|]. simpl.
  eapply runs_bind; [by apply runs_read_line|]. eapply runs_bind; [exact Hstep|]. apply runs_ret.
Qed.

Lemma loops_fail {A B} (step : A -> str -> Client (A + B)) acc e tls p n l rest s' :
  wire_line l ->
  runs (step acc l) (mkStream (Some tls) p rest n) (Err e) s' ->
  loops step acc (mkStream (Some tls) p (wire l ++ rest) n) (Err e) s'.
Proof.
  intros Hl Hstep fuel Hf. destruct fuel as [|fuel]; [lia|]. simpl.
  eapply runs_bind; [by apply runs_read_line|]. eapply runs_bind_err. exact Hstep.
Qed.

Lemma loops_closed {A B} (step : A -> str -> Client (A + B)) acc tls p n :
  peer_end p = None ->
  loops step acc (mkStream (Some tls) p [] n) (Err closed_connection) (mkStream (Some tls) p [] n).
Proof.
  intros Hp fuel Hf. destruct fuel as [|fuel]; [lia|]. simpl.
  eapply runs_bind_err. by apply runs_closed.
Qed.

(** Lines on which the loop only moves its accumulator. *)
Lemma loops_lines {A B} (step : A -> str -> Client (A + B)) (f : A -> str -> A) lines : forall acc tls p n rest r s',
  Forall wire_line lines ->
  (forall acc l s, In l lines -> runs (step acc l) s (Ok (inl (f acc l))) s) ->
  loops step (fold_left f lines acc) (mkStream (Some tls) p rest n) r s' ->
  loops step acc (mkStream (Some tls) p (flat_map wire lines ++ rest) n) r s'.
Proof.
  induction lines as [|l lines IH]; intros acc tls p n rest r s' Hw Hstep Hloop; [done|].
  inversion_clear Hw as [|?? Hl Hls]. cbn [flat_map]. rewrite <- app_assoc.
  eapply loops_next; [done|reflexivity|apply Hstep; by left|].
  apply IH; [done|intros; apply Hstep; by right|done].
Qed.

(** A loop whose steps do not add to the input has fuel enough as soon as it has
    more than there are bytes to read: a line takes at least a byte. *)
Lemma conn_read_line_consumes c c' l :
  conn_read_line c = (c', Ok l) -> (length (uc_input c') < length (uc_input c))%nat.
Proof.
  unfold conn_read_line, need_transport, bind, gets, get.
  destruct (uc_transport c); [|done]. cbn [ret].
  destruct (split_once 10 (uc_input c)) as [[line rest]|] eqn:E.
  - apply split_once_suffix in E. rewrite E. cbn [modify].
    destruct (line ++ [10]); [done|]. destruct (from_utf8 _); [|done].
    intros [= <- _]. simpl. rewrite length_app. simpl. lia.
  - cbn [modify]. destruct (peer_end (uc_peer c)); [done|].
    destruct (uc_input c) as [|x xs]; [done|]. destruct (from_utf8 _); [|done].
    intros [= <- _]. simpl. lia.
Qed.

Lemma read_lines_fuel {A B} (step : A -> str -> Client (A + B)) :
  (forall acc l c c' acc', step acc l c = (c', Ok (inl acc')) ->
     (length (uc_input c') <= length (uc_input c))%nat) ->
  forall fuel fuel' acc c,
    (length (uc_input c) < fuel)%nat -> (length (uc_input c) < fuel')%nat ->
    read_lines_loop fuel step acc c = read_lines_loop fuel' step acc c.
Proof.
  intros Hstep. induction fuel as [|fuel IH]; intros fuel' acc c Hf Hf'; [lia|].
  destruct fuel' as [|fuel']; [lia|]. cbn [read_lines_loop]. unfold bind.
  destruct (conn_read_line c) as [c1 [l|e|]] eqn:E1; [|done|done].
  apply conn_read_line_consumes in E1.
  destruct (step acc l c1) as [c2 [[acc'|b]|e|]] eqn:E2; [|done..].
  apply Hstep in E2. apply IH; lia.
Qed.

(** ** Commands *)
Definition untagged_line (l : str) : bool := starts_with (lit "* ") l.
Definition continuation_line (l : str) : bool := starts_with (lit "+ ") l.

(** The lines a command collects, and how it sorts them. *)
Definition collected (l : str) : bool := continuation_line l || untagged_line l.
Definition sort_line (acc : list str * list str) (l : str) : list str * list str :=
  if continuation_line l then (acc.1, l :: acc.2) else (l :: acc.1, acc.2).

Lemma command_step_collects tag acc l s :
  collected l = true -> runs (command_step tag acc l) s (Ok (inl (sort_line acc l))) s.
Proof.
  unfold collected, sort_line, command_step, continuation_line, untagged_line.
  destruct acc as [u k]. destruct (starts_with (lit "+ ") l); [intros; apply runs_ret|].
  destruct (starts_with (lit "* ") l); [intros; apply runs_ret|done].
Qed.

Lemma sort_lines lines : forall acc,
  Forall (fun l => collected l = true) lines ->
  fold_left sort_line lines acc =
  (rev (List.filter (fun l => negb (continuation_line l)) lines) ++ acc.1,
   rev (List.filter continuation_line lines) ++ acc.2).
Proof.
  induction lines as [|l lines IH]; intros [u k] Hl; [done|]. inversion_clear Hl.
  simpl. rewrite IH by done. unfold sort_line. destruct (continuation_line l); simpl;
    by rewrite <- app_assoc.
Qed.

Lemma tag_not_collected n l : starts_with (format_tag n) l = true -> collected l = false.
Proof.
  unfold collected, continuation_line, untagged_line, format_tag, starts_with.
  destruct l as [|c l]; [done|]. destruct (Z.eq_dec c 65) as [->|Hc]; [done|].
  change (lit "A" ++ ?x) with (65 :: x). cbn [strip_prefix].
  by rewrite (proj2 (Z.eqb_neq 65 c)).
Qed.

Lemma filter_untagged lines :
  Forall (fun l => collected l = true) lines ->
  List.filter (fun l => negb (continuation_line l)) lines = List.filter untagged_line lines.
Proof.
  induction 1 as [|l lines Hl _ IH]; [done|]. cbn [List.filter]. rewrite IH. clear IH.
  unfold collected, continuation_line, untagged_line in *.
  destruct l as [|c l]; [done|]. destruct (Z.eq_dec c 43) as [->|Hc].
  - by destruct (starts_with (lit "+ ") (43 :: l)).
  - assert (Hp : starts_with (lit "+ ") (c :: l) = false).
    { unfold starts_with. change (lit "+ ") with [43; 32]. cbn [strip_prefix].
      by rewrite (proj2 (Z.eqb_neq 43 c)). }
    rewrite Hp in *. cbn [orb] in Hl. by rewrite Hl.
Qed.

(** The responses of a command as the loop returns them. *)
Definition response_of (final : str) (lines : list str) : CommandResponse :=
  mkCommandResponse final (List.filter untagged_line lines) (List.filter continuation_line lines).

Definition command_answer (tag final : str) (lines : list str) : Result CommandResponse :=
  if starts_with tag final then Ok (response_of final lines)
  else Err (EParse (lit "unexpected IMAP response line: " ++ final)).

Lemma command_step_ends tag final u k s :
  collected final = false ->
  runs (command_step tag (u, k) final) s
    (if starts_with tag final then Ok (inr (mkCommandResponse final (rev u) (rev k)))
     else Err (EParse (lit "unexpected IMAP response line: " ++ final))) s.
Proof.
  unfold collected, continuation_line, untagged_line, command_step.
  intros [-> ->]%orb_false_iff. destruct (starts_with tag final); [|apply runs_fail].
  eapply runs_bind; [apply runs_caps|apply runs_ret].
Qed.

Lemma command_loop tag tls p n lines final rest :
  Forall wire_line lines -> wire_line final -> Forall (fun l => collected l = true) lines ->
  collected final = false ->
  loops (command_step tag) ([], []) (mkStream (Some tls) p (flat_map wire lines ++ wire final ++ rest) n)
    (command_answer tag final lines) (mkStream (Some tls) p rest n).
Proof.
  intros Hw Hf Hc Hfc. pose proof Hc as Hc'. rewrite List.Forall_forall in Hc'.
  eapply loops_lines; [done| |].
  { intros acc l s Hin. by apply command_step_collects, Hc'. }
  rewrite sort_lines by done. simpl. rewrite !app_nil_r.
  pose proof (command_step_ends tag final
    (rev (List.filter (fun l => negb (continuation_line l)) lines))
    (rev (List.filter continuation_line lines)) (mkStream (Some tls) p rest n) Hfc) as Hend.
  rewrite !rev_involutive in Hend.
  unfold command_answer. destruct (starts_with tag final).
  - apply loops_done; [done|]. unfold response_of. rewrite <- filter_untagged by done. exact Hend.
  - apply loops_fail; [done|]. exact Hend.
Qed.

Lemma runs_send_command command args tls p p' input n received lines final rest :
  peer_receive p (as_bytes (command_text (format_tag n) command args) ++ crlf) = (p', inl received) ->
  input ++ received = flat_map wire lines ++ wire final ++ rest ->
  Forall wire_line lines -> wire_line final -> Forall (fun l => collected l = true) lines ->
  collected final = false ->
  runs (send_command command args) (mkStream (Some tls) p input n)
    (command_answer (format_tag n) final lines) (mkStream (Some tls) p' rest (as_u64 (n + 1))).
Proof.
  intros Hp Hin Hw Hf Hc Hfc. unfold send_command.
  eapply runs_bind; [apply runs_next_tag|]. eapply runs_bind; [by apply runs_write_all|].
  rewrite Hin. by apply runs_read_lines, command_loop.
Qed.

(** C17 A command takes exactly its own response off the stream.  Whatever untagged
    and continuation lines come before it, unsolicited ones left from earlier
    included, [send_command] returns the line that carries its tag together with
    the untagged lines and the continuations in the order they came, and leaves
    the stream right behind that line.  Another line in its place is the error
    that quotes it. *)
Theorem send_command_takes_its_response (c : UpstreamConn P) tls command args p' received lines
  final rest :
  uc_transport c = Some tls ->
  peer_receive (uc_peer c)
    (as_bytes (command_text (format_tag (uc_next_tag c)) command args) ++ crlf) = (p', inl received) ->
  uc_input c ++ received = flat_map wire lines ++ wire final ++ rest ->
  Forall wire_line lines -> wire_line final ->
  Forall (fun l => collected l = true) lines -> collected final = false ->
  exists c',
    send_command command args c =
      (c', if starts_with (format_tag (uc_next_tag c)) final
           then Ok (mkCommandResponse final (List.filter untagged_line lines)
                      (List.filter continuation_line lines))
           else Err (EParse (lit "unexpected IMAP response line: " ++ final))) /\
    stream_of c' = mkStream (Some tls) p' rest (as_u64 (uc_next_tag c + 1)).
Proof.
  intros Ht Hp Hin Hw Hf Hc Hfc.
  apply (runs_send_command command args tls _ p' (uc_input c) _ received lines final rest Hp Hin
           Hw Hf Hc Hfc).
  unfold stream_of. by rewrite Ht.
Qed.

(** ** Fetching a message *)

(** A line the loop of a FETCH passes over. *)
Definition passed (tag l : str) : bool :=
  negb (starts_with tag l) && negb (announces_literal l).

Lemma fetch_step_passes tag body l s :
  passed tag l = true -> runs (fetch_step tag body l) s (Ok (inl body)) s.
Proof.
  unfold passed, fetch_step. intros [Ht Ha]%andb_prop.
  destruct (str_eqb l [] || str_eqb l (lit ")")); [apply runs_ret|].
  destruct (announces_literal l); [done|]. eapply runs_bind; [apply runs_ret|].
  destruct (starts_with tag l); [done|]. apply runs_ret.
Qed.

Lemma fetch_step_reads tag body prefix data rest tls p n :
  starts_with (lit "* ") prefix = true -> str_contains prefix (lit "FETCH") = true ->
  len data <= i64_max ->
  runs (fetch_step tag body (announcement prefix (len data)))
    (mkStream (Some tls) p (data ++ rest) n) (Ok (inl (Some data))) (mkStream (Some tls) p rest n).
Proof.
  intros Hstar Hfetch Hlen. unfold fetch_step.
  assert (str_eqb (announcement prefix (len data)) [] ||
          str_eqb (announcement prefix (len data)) (lit ")") = false) as ->.
  { pose proof (starts_with_more _ _ ([123] ++ fmt_u (len data) ++ [125]) Hstar) as Hs.
    change (prefix ++ _) with (announcement prefix (len data)) in Hs.
    apply orb_false_iff. split; apply str_eqb_neq; intros E; by rewrite E in Hs. }
  rewrite announcement_announces by done.
  eapply runs_bind; [rewrite parse_announcement|].
  - apply runs_lift.
  - unfold len, i64_max, u64_max in *. lia.
  - cbv beta iota. eapply runs_bind; [by apply runs_read_exact|]. apply runs_ret.
Qed.

Lemma fetch_step_completes n final data s :
  starts_with (format_tag n) final = true -> ensure_ok final = Ok tt ->
  runs (fetch_step (format_tag n) (Some data) final) s (Ok (inr data)) s.
Proof.
  intros Htag Hok. unfold fetch_step.
  pose proof (tag_not_collected n final Htag) as Hc. apply orb_false_iff in Hc as [_ Hc].
  assert (str_eqb final [] || str_eqb final (lit ")") = false) as ->.
  { apply orb_false_iff. split; apply str_eqb_neq; intros ->; by apply starts_with_iff in Htag as [? ?]. }
  unfold announces_literal. unfold untagged_line in Hc. rewrite Hc. simpl.
  eapply runs_bind; [apply runs_ret|]. cbv beta iota. rewrite Htag.
  eapply runs_bind; [apply runs_caps|]. rewrite Hok.
  eapply runs_bind; [apply runs_lift|]. eapply runs_bind; [apply runs_lift|]. apply runs_ret.
Qed.

Lemma fold_keep {A B} (lines : list B) (acc : A) : fold_left (fun acc _ => acc) lines acc = acc.
Proof. by induction lines. Qed.

Lemma fetch_passes tag tls p n body lines rest r s' :
  Forall wire_line lines -> Forall (fun l => passed tag l = true) lines ->
  loops (fetch_step tag) body (mkStream (Some tls) p rest n) r s' ->
  loops (fetch_step tag) body (mkStream (Some tls) p (flat_map wire lines ++ rest) n) r s'.
Proof.
  intros Hw Hp Hl. rewrite List.Forall_forall in Hp.
  apply loops_lines with (f := fun acc _ => acc); [done| |by rewrite fold_keep].
  intros acc l s Hin. by apply fetch_step_passes, Hp.
Qed.

(** C16 A message is fetched byte for byte.  Whatever bytes the message has, line
    ends and text that looks like a response included, if the server announces
    their number and sends them after lines that do not matter and before the
    rest of its response, [uid_fetch_rfc822] answers exactly those bytes and
    leaves the stream right behind the completion. *)
Theorem fetch_is_byte_exact (c : UpstreamConn P) tls uid p' received before prefix data after
  final rest :
  uc_transport c = Some tls ->
  peer_receive (uc_peer c) (as_bytes (fetch_text (format_tag (uc_next_tag c)) uid) ++ crlf) =
    (p', inl received) ->
  uc_input c ++ received =
    flat_map wire before ++ wire (announcement prefix (len data)) ++ data ++
    flat_map wire after ++ wire final ++ rest ->
  Forall wire_line (before ++ after) ->
  Forall (fun l => passed (format_tag (uc_next_tag c)) l = true) (before ++ after) ->
  wire_line (announcement prefix (len data)) -> wire_line final ->
  starts_with (lit "* ") prefix = true -> str_contains prefix (lit "FETCH") = true ->
  len data <= i64_max ->
  starts_with (format_tag (uc_next_tag c)) final = true -> ensure_ok final = Ok tt ->
  exists c',
    conn_uid_fetch_rfc822 uid c = (c', Ok data) /\
    stream_of c' = mkStream (Some tls) p' rest (as_u64 (uc_next_tag c + 1)).
Proof.
  intros Ht Hp Hin [Hwb Hwa]%Forall_app [Hpb Hpa]%Forall_app Hwan Hwf Hstar Hfetch Hlen Htag Hok.
  assert (Hrun : runs (conn_uid_fetch_rfc822 uid)
    (mkStream (Some tls) (uc_peer c) (uc_input c) (uc_next_tag c)) (Ok data)
    (mkStream (Some tls) p' rest (as_u64 (uc_next_tag c + 1)))).
  { unfold conn_uid_fetch_rfc822. eapply runs_bind; [apply runs_next_tag|].
    eapply runs_bind; [by apply runs_write_all|]. rewrite Hin. apply runs_read_lines.
    apply fetch_passes; [done|done|].
    eapply loops_next; [done| |by apply fetch_step_reads|].
    - rewrite !length_app. lia.
    - apply fetch_passes; [done|done|]. apply loops_done; [done|]. by apply fetch_step_completes. }
  apply Hrun. unfold stream_of. by rewrite Ht.
Qed.
End Streams.

(** ** Mailbox names *)
Lemma quote_is_imap_string value : quote value = quote_imap_string value.
Proof. done. Qed.

Lemma unescape_escape v : unescape false (flat_map escape_char v) = v.
Proof.
  induction v as [|c v IH]; [done|]. cbn [flat_map]. unfold escape_char at 1.
  destruct (c =? 92) eqn:E; [b2p; subst; simpl; by rewrite IH|].
  destruct (c =? 34) eqn:E'; [b2p; subst; simpl; by rewrite IH|].
  simpl. by rewrite E, IH.
Qed.

(** A text whose first and last characters are not white space. *)
Lemma trim_framed a s b :
  is_whitespace a = false -> is_whitespace b = false -> trim (a :: s ++ [b]) = a :: s ++ [b].
Proof.
  intros Ha Hb. unfold trim. cbn [trim_start_by]. rewrite Ha. unfold trim_end_by.
  rewrite app_comm_cons, rev_app_distr. change (rev [b]) with [b]. cbn [app trim_start_by].
  rewrite Hb. cbn [rev]. by rewrite rev_app_distr, rev_involutive.
Qed.

Lemma unquote_quote v : unquote (quote v) = v.
Proof.
  unfold unquote. rewrite quote_is_imap_string, quote_imap_string_escape, trim_framed by done.
  assert (ends_with [34] (34 :: flat_map escape_char v ++ [34]) = true) as ->.
  { unfold ends_with. rewrite app_comm_cons. by rewrite strip_suffix_app. }
  rewrite length_cons, length_app. cbn [length]. rewrite (proj2 (Nat.leb_le _ _)) by lia.
  cbn [andb]. change (starts_with [34] (34 :: flat_map escape_char v ++ [34])) with true.
  cbn [andb]. change (drop 1 (34 :: ?l)) with l. replace (S (length (flat_map escape_char v) + 1) - 2)%nat
    with (length (flat_map escape_char v)) by lia.
  by rewrite take_app_length, unescape_escape.
Qed.

Lemma quote_no_space v : ~ In 32 v -> ~ In 32 (quote v).
Proof.
  intros Hv. rewrite quote_is_imap_string, quote_imap_string_escape. cbn [In].
  rewrite in_app_iff, in_flat_map. intros [?|[(c & Hc & Hin)|[?|[]]]]; [done| |done].
  unfold escape_char in Hin. destruct (c =? 92); [|destruct (c =? 34)]; simpl in Hin;
    destruct Hin as [|[|]] || destruct Hin as [|]; try done; by subst.
Qed.

Lemma list_line_name m :
  ~ In 32 (Mailbox_name m) ->
  parse_list_mailbox_name (mailbox_list_line (lit "LIST") m) = Some (Mailbox_name m).
Proof.
  intros Hn. unfold parse_list_mailbox_name, mailbox_list_line.
  set (attributes := match Mailbox_special_use m with Some _ => _ | None => _ end).
  set (q := quote_imap_string (default (lit "/") (Mailbox_delimiter m))).
  set (mid := lit " (" ++ join (lit " ") attributes ++ lit ") " ++ q).
  assert (Eline : lit "* " ++ lit "LIST" ++ lit " (" ++ join (lit " ") attributes ++ lit ") " ++ q ++
            lit " " ++ quote_imap_string (Mailbox_name m) =
          (lit "* LIST" ++ mid) ++ 32 :: quote (Mailbox_name m)).
  { unfold mid. change (quote (Mailbox_name m)) with (quote_imap_string (Mailbox_name m)).
    change (lit "* LIST") with (lit "* " ++ lit "LIST").
    rewrite <- !app_assoc. done. }
  rewrite Eline. clear Eline.
  assert (Etrim : forall b, trim ((lit "* LIST" ++ b) ++ 32 :: quote (Mailbox_name m)) =
            (lit "* LIST" ++ b) ++ 32 :: quote (Mailbox_name m)).
  { intros b. rewrite quote_is_imap_string, quote_imap_string_escape.
    change (lit "* LIST") with (42 :: lit " LIST").
    replace (((42 :: lit " LIST") ++ b) ++ 32 :: 34 :: flat_map escape_char (Mailbox_name m) ++ [34])
      with (42 :: ((lit " LIST" ++ b) ++ 32 :: 34 :: flat_map escape_char (Mailbox_name m)) ++ [34]).
    - by rewrite trim_framed.
    - simpl. by rewrite <- !app_assoc. }
  rewrite Etrim.
  assert (starts_with (lit "* LIST ") ((lit "* LIST" ++ mid) ++ 32 :: quote (Mailbox_name m)) = true) as ->.
  { apply starts_with_iff. exists (lit "(" ++ join (lit " ") attributes ++ lit ") " ++ q ++
      32 :: quote (Mailbox_name m)). unfold mid. rewrite <- !app_assoc. done. }
  simpl negb. cbv iota. rewrite rsplit_once_app by (by apply quote_no_space).
  by rewrite unquote_quote.
Qed.

Lemma ok_line_is_ok tag text : ensure_ok (ok tag text) = Ok tt.
Proof.
  unfold ensure_ok, ok. rewrite (proj2 (contains_iff _ _)); [done|]. by exists tag, text.
Qed.

Lemma list_line_untagged m : untagged_line (mailbox_list_line (lit "LIST") m) = true.
Proof. apply starts_with_app. Qed.

Lemma list_lines_untagged ms :
  List.filter untagged_line (map (mailbox_list_line (lit "LIST")) ms) =
  map (mailbox_list_line (lit "LIST")) ms.
Proof. induction ms as [|m ms IH]; [done|]. cbn [map List.filter]. by rewrite list_line_untagged, IH. Qed.

Lemma list_lines_names ms :
  Forall (fun m => ~ In 32 (Mailbox_name m)) ms ->
  omap parse_list_mailbox_name (map (mailbox_list_line (lit "LIST")) ms) = map Mailbox_name ms.
Proof.
  induction 1 as [|m ms Hm _ IH]; [done|]. cbn [map omap list_omap].
  rewrite list_line_name by done. by rewrite IH.
Qed.

(** The client understands this server's LIST: when the upstream server answers
    with the lines [mailbox_list_line] makes of its mailboxes and completes the
    command, and no name has a space in it, [list_mailboxes] answers exactly the
    names, in order, whatever quotes, backslashes and other characters they
    have. *)
Theorem list_reads_server_lines {P : Type} `{Peer P} (c : UpstreamConn P) tls p' received ms rest :
  uc_transport c = Some tls ->
  peer_receive (uc_peer c) (as_bytes (command_text (format_tag (uc_next_tag c)) (lit "LIST")
    [quote []; quote (lit "*")]) ++ crlf) = (p', inl received) ->
  uc_input c ++ received =
    flat_map wire (map (mailbox_list_line (lit "LIST")) ms) ++
    wire (ok (format_tag (uc_next_tag c)) (lit "LIST completed")) ++ rest ->
  Forall wire_line (map (mailbox_list_line (lit "LIST")) ms) ->
  wire_line (ok (format_tag (uc_next_tag c)) (lit "LIST completed")) ->
  Forall (fun m => ~ In 32 (Mailbox_name m)) ms ->
  exists c',
    conn_list_mailboxes c = (c', Ok (map Mailbox_name ms)) /\
    stream_of c' = mkStream (Some tls) p' rest (as_u64 (uc_next_tag c + 1)).
Proof.
  intros Ht Hp Hin Hw Hwf Hn.
  assert (Htag : starts_with (format_tag (uc_next_tag c))
                   (ok (format_tag (uc_next_tag c)) (lit "LIST completed")) = true)
    by apply starts_with_app.
  assert (Hrun : runs conn_list_mailboxes
    (mkStream (Some tls) (uc_peer c) (uc_input c) (uc_next_tag c)) (Ok (map Mailbox_name ms))
    (mkStream (Some tls) p' rest (as_u64 (uc_next_tag c + 1)))).
  { unfold conn_list_mailboxes.
    eapply runs_bind; [eapply runs_same|];
      [eapply runs_send_command; [exact Hp|exact Hin|done|done| |by eapply tag_not_collected]
      |unfold command_answer; by rewrite Htag|done|].
    - apply List.Forall_map, List.Forall_forall. intros m _. unfold collected.
      by rewrite list_line_untagged, orb_true_r.
    - unfold response_of. cbn [CommandResponse_tagged CommandResponse_untagged].
      eapply runs_bind; [rewrite ok_line_is_ok; apply runs_lift|].
      rewrite list_lines_untagged, list_lines_names by done. apply runs_ret. }
  apply Hrun. unfold stream_of. by rewrite Ht.
Qed.

(** ** The connection limit

    Connections of any accounts are opened under the limiter and dropped, in any
    order, each account always with the limit [limit_of] it; an opening that
    finds no permit waits, and may be tried again. *)
Section Limiter.
Context {P : Type}.
Variable limit_of : Z -> Z.
Abbreviation State := (AccountLimits * list (Z * UpstreamConn P))%type.

Inductive limit_step : State -> State -> Prop :=
| step_opened account_id (c c' : UpstreamConn P) limits limits' conns :
    uc_limit_guard c = None ->
    with_account_connection_limit account_id (limit_of account_id) c limits = (limits', Some c') ->
    limit_step (limits, conns) (limits', (account_id, c') :: conns)
| step_waits account_id (c : UpstreamConn P) limits limits' conns :
    uc_limit_guard c = None ->
    with_account_connection_limit account_id (limit_of account_id) c limits = (limits', None) ->
    limit_step (limits, conns) (limits', conns)
| step_dropped before account_id (c : UpstreamConn P) after limits :
    limit_step (limits, before ++ (account_id, c) :: after)
      (fst (drop_conn c limits), before ++ after).

Definition open_for (account_id : Z) (conns : list (Z * UpstreamConn P)) : Z :=
  Z.of_nat (length (List.filter (fun ac => ac.1 =? account_id) conns)).

Definition guard_ok (ac : Z * UpstreamConn P) : Prop :=
  uc_limit_guard ac.2 = if limit_of ac.1 =? 0 then None else Some ac.1.

Definition permits_ok (limits : AccountLimits) (held : Z -> Z) : Prop :=
  forall a, limit_of a <> 0 ->
    match limits !! a with
    | Some permits => 0 <= permits /\ permits + held a = limit_of a
    | None => held a = 0
    end.

Definition limits_ok (s : State) : Prop :=
  Forall guard_ok s.2 /\
  permits_ok s.1 (fun a => open_for a s.2).

Lemma open_for_cons a b (c : UpstreamConn P) conns :
  open_for a ((b, c) :: conns) = (if b =? a then 1 else 0) + open_for a conns.
Proof. unfold open_for. simpl. destruct (b =? a); simpl; lia. Qed.

Lemma open_for_middle a b (c : UpstreamConn P) before after :
  open_for a (before ++ (b, c) :: after) =
  (if b =? a then 1 else 0) + open_for a (before ++ after).
Proof.
  induction before as [|[b' c'] before IH]; [apply open_for_cons|].
  cbn [app]. rewrite !open_for_cons, IH. lia.
Qed.

Hypothesis limit_nonneg : forall a, 0 <= limit_of a.

Lemma semaphore_ok a limits held :
  permits_ok limits held -> limit_of a <> 0 ->
  permits_ok (account_connection_semaphore a (limit_of a) limits) held /\
  exists permits, account_connection_semaphore a (limit_of a) limits !! a = Some permits.
Proof.
  intros Hok Ha. unfold account_connection_semaphore.
  destruct (limits !! a) as [permits|] eqn:E; [by eauto|]. split; [|rewrite lookup_insert_eq; by eauto].
  intros b Hb. destruct (decide (b = a)) as [->|Hne].
  - rewrite lookup_insert_eq. specialize (Hok a Ha). rewrite E in Hok. pose proof (limit_nonneg a). lia.
  - rewrite lookup_insert_ne by done. by apply Hok.
Qed.

(** Changing the permits of one account. *)
Lemma permits_move a limits held held' permits k :
  permits_ok limits held -> limits !! a = Some permits -> 0 <= permits + k ->
  (forall b, held' b = held b - (if a =? b then k else 0)) ->
  permits_ok (<[a := permits + k]> limits) held'.
Proof.
  intros Hok E Hk Hheld b Hb. rewrite Hheld. specialize (Hok b Hb). destruct (decide (b = a)) as [->|Hne].
  - rewrite lookup_insert_eq, Z.eqb_refl. rewrite E in Hok. lia.
  - rewrite lookup_insert_ne, (proj2 (Z.eqb_neq a b)) by congruence.
    by rewrite Z.sub_0_r.
Qed.

Lemma limiter_cases a (c : UpstreamConn P) limits held limits' r :
  permits_ok limits held -> uc_limit_guard c = None ->
  with_account_connection_limit a (limit_of a) c limits = (limits', r) ->
  match r with
  | Some c' => guard_ok (a, c') /\
               permits_ok limits' (fun b => (if a =? b then 1 else 0) + held b)
  | None => permits_ok limits' held
  end.
Proof.
  intros Hok Hg. unfold with_account_connection_limit, guard_ok. rewrite Hg. cbn [is_some fst snd].
  rewrite orb_false_r. destruct (limit_of a =? 0) eqn:E.
  - apply Z.eqb_eq in E. intros [= <- <-]. split; [done|]. intros b Hb. specialize (Hok b Hb).
    assert ((a =? b) = false) as -> by (apply Z.eqb_neq; congruence). done.
  - apply Z.eqb_neq in E. destruct (semaphore_ok a limits held Hok E) as [Hok1 [permits Ep]].
    revert Hok1 Ep. generalize (account_connection_semaphore a (limit_of a) limits). intros l1 Hok1 Ep.
    unfold acquire_owned. rewrite Ep. cbn [mbind option_bind]. destruct (0 <? permits) eqn:Hp.
    + intros [= <- <-]. split; [done|]. apply Z.ltb_lt in Hp.
      replace (permits - 1) with (permits + - (1)) by lia.
      eapply permits_move; [exact Hok1|done|lia|]. intros b. destruct (a =? b); lia.
    + by intros [= <- <-].
Qed.

Lemma drop_ok before a (c : UpstreamConn P) after limits :
  limits_ok (limits, before ++ (a, c) :: after) ->
  limits_ok (fst (drop_conn c limits), before ++ after).
Proof.
  intros [Hg Hok]. cbn [fst snd] in *. apply Forall_app in Hg as [Hb [Hc Ha]%Forall_cons].
  split; [by apply Forall_app|]. unfold drop_conn. cbn [fst snd]. unfold guard_ok in Hc. cbn [fst snd] in Hc.
  rewrite Hc. destruct (limit_of a =? 0) eqn:E.
  - apply Z.eqb_eq in E. intros b Hnb. specialize (Hok b Hnb). cbv beta in *.
    rewrite open_for_middle, (proj2 (Z.eqb_neq a b)) in Hok by congruence. done.
  - apply Z.eqb_neq in E. pose proof (Hok a E) as Hpa. cbv beta in Hpa.
    rewrite open_for_middle, Z.eqb_refl in Hpa.
    destruct (limits !! a) as [permits|] eqn:El.
    + assert (alter (fun permits => permits + 1) a limits = <[a := permits + 1]> limits) as ->.
      { apply map_eq. intros b. destruct (decide (b = a)) as [->|Hne].
        - by rewrite lookup_alter_eq, lookup_insert_eq, El.
        - by rewrite lookup_alter_ne, lookup_insert_ne. }
      eapply permits_move; [exact Hok|done|lia|]. intros b. cbv beta.
      rewrite open_for_middle. destruct (a =? b); lia.
    + unfold open_for in Hpa. lia.
Qed.

Lemma limit_step_ok s s' : limits_ok s -> limit_step s s' -> limits_ok s'.
Proof.
  intros Hok Hstep. destruct Hstep as [a c c' limits limits' conns Hg E|a c limits limits' conns Hg E|].
  - destruct Hok as [Hgs Hok]. destruct (limiter_cases _ _ _ _ _ _ Hok Hg E) as [Hc Hp].
    split; [by constructor|]. intros b Hb. specialize (Hp b Hb). cbn [fst snd] in *.
    by rewrite open_for_cons.
  - destruct Hok as [Hgs Hok]. split; [done|]. exact (limiter_cases _ _ _ _ _ _ Hok Hg E).
  - by eapply drop_ok.
Qed.

End Limiter.

(** ** A scripted server

    It answers the writes of the client with the texts of a list, one after the
    other. *)
Definition Script : Type := list bytes.

#[export] Instance script_peer : Peer Script := {
  tcp_connect := fun _ _ => inr (lit "connection refused");
  peer_receive := fun p _ => match p with
                             | answer :: p' => (p', inl answer)
                             | [] => ([], inr (lit "broken pipe"))
                             end;
  peer_end := fun _ => None;
  server_name_ok := fun _ => true;
  tls_handshake := fun p _ => inl (p, [])
}.

Definition scripted (input : bytes) (answers : list bytes) : UpstreamConn Script :=
  mkUpstreamConn (Some true) answers input 7 None [] None false None.

Definition noop_lines : list str := [lit "* 3 EXISTS"; lit "+ go on"; lit "* 4 EXPUNGE"].
Definition noop_conn : UpstreamConn Script :=
  scripted (wire (lit "* 3 EXISTS"))
    [flat_map wire [lit "+ go on"; lit "* 4 EXPUNGE"; lit "A0007 OK done"; lit "* BYE"]].

Lemma send_command_takes_its_response_witness :
  exists c',
    send_command (lit "NOOP") [] noop_conn =
      (c', if starts_with (format_tag (uc_next_tag noop_conn)) (lit "A0007 OK done")
           then Ok (mkCommandResponse (lit "A0007 OK done") (List.filter untagged_line noop_lines)
                      (List.filter continuation_line noop_lines))
           else Err (EParse (lit "unexpected IMAP response line: " ++ lit "A0007 OK done"))) /\
    stream_of c' =
      mkStream (Some true) [] (wire (lit "* BYE")) (as_u64 (uc_next_tag noop_conn + 1)).
Proof.
  apply (send_command_takes_its_response noop_conn true (lit "NOOP") [] []
    (flat_map wire [lit "+ go on"; lit "* 4 EXPUNGE"; lit "A0007 OK done"; lit "* BYE"])
    noop_lines (lit "A0007 OK done") (wire (lit "* BYE")));
    [reflexivity|reflexivity|reflexivity|repeat constructor|repeat constructor
    |repeat constructor|reflexivity].
Defined.

(** A message that contains a completion line. *)
Definition tricky_message : bytes :=
  lit "Subject: x" ++ crlf ++ crlf ++ lit "A0007 OK not the end {9}" ++ crlf ++ lit ")" ++ crlf ++ [0; 255].
Definition fetch_prefix : str := lit "* 2 FETCH (UID 12 BODY[] ".
Definition fetch_answer : bytes :=
  wire (announcement fetch_prefix (len tricky_message)) ++ tricky_message ++
  flat_map wire [lit ")"] ++ wire (lit "A0007 OK FETCH completed") ++ [].
Definition fetch_conn : UpstreamConn Script := scripted (wire (lit "* 2 EXISTS")) [fetch_answer].

Lemma fetch_is_byte_exact_witness :
  exists c',
    conn_uid_fetch_rfc822 12 fetch_conn = (c', Ok tricky_message) /\
    stream_of c' = mkStream (Some true) [] [] (as_u64 (uc_next_tag fetch_conn + 1)).
Proof.
  apply (fetch_is_byte_exact fetch_conn true 12 [] fetch_answer [lit "* 2 EXISTS"] fetch_prefix
    tricky_message [lit ")"] (lit "A0007 OK FETCH completed") []);
    [reflexivity|reflexivity|vm_compute; reflexivity|repeat constructor|repeat constructor
    |repeat constructor|repeat constructor|reflexivity|reflexivity|vm_compute; discriminate
    |reflexivity|reflexivity].
Defined.

Definition named_mailbox (name : str) : Mailbox :=
  mkMailbox 1 1 name (to_ascii_lowercase name) (Some (lit "/")) [] true None None None None 0 0 0 0 0.
Definition listed_mailboxes : list Mailbox :=
  [named_mailbox (lit "INBOX"); named_mailbox (lit "back\slash"); named_mailbox [34; 113; 34]].
Definition list_answer : bytes :=
  flat_map wire (map (mailbox_list_line (lit "LIST")) listed_mailboxes) ++
  wire (ok (format_tag 7) (lit "LIST completed")) ++ [].
Definition list_conn : UpstreamConn Script := scripted [] [list_answer].

Lemma list_reads_server_lines_witness :
  exists c',
    conn_list_mailboxes list_conn = (c', Ok (map Mailbox_name listed_mailboxes)) /\
    stream_of c' = mkStream (Some true) [] [] (as_u64 (uc_next_tag list_conn + 1)).
Proof.
  apply (list_reads_server_lines list_conn true [] list_answer listed_mailboxes []);
    [reflexivity|reflexivity|reflexivity|repeat constructor|repeat constructor|].
  repeat constructor; intros Hin; vm_compute in Hin; intuition discriminate.
Defined.

Definition one_each : Z -> Z := fun _ => 1.
Definition guarded_conn : UpstreamConn Script := set_limit_guard (Some 5) (scripted [] []).


(** ** What the client gets wrong *)

(** A LIST name with a space is cut at its last space. *)
Example spaced_name_is_cut :
  parse_list_mailbox_name (mailbox_list_line (lit "LIST") (named_mailbox (lit "Sent Items"))) =
  Some ([73; 116; 101; 109; 115; 34]).
Proof. vm_compute. reflexivity. Qed.

(** The flags of UID 12 are taken for those of UID 1. *)
Example flags_of_another_uid :
  parse_fetch_flags (lit "* 3 FETCH (UID 12 FLAGS (\Seen))") 1 = Some [lit "\Seen"].
Proof. vm_compute. reflexivity. Qed.

(** A refused command whose text contains the word OK counts as done, and any
    other refusal as a failed login. *)
Example refusal_counts_as_success :
  ensure_ok (lit "A0001 NO it was not OK to do so") = Ok tt /\
  ensure_ok (lit "A0001 NO [TRYCREATE] no such mailbox") = Err EAuthenticationFailed.
Proof. vm_compute. split; reflexivity. Qed.

(** A completion without text is an error. *)
Example bare_ok_is_an_error :
  ensure_ok (lit "A0001 OK") = Err (EParse (lit "unexpected tagged response: A0001 OK")).
Proof. vm_compute. reflexivity. Qed.

(** The limit of an account is the one of its first connection. *)
Example first_limit_stays :
  account_connection_semaphore 5 9 (account_connection_semaphore 5 2 ∅) = {[5 := 2]}.
Proof. vm_compute. reflexivity. Qed.
