(* ===== verification/MimeTree.v ===== *)
(** * The MIME tree

    Models [parse_message] of crates/mime/src/lib.rs and all it calls: headers,
    addresses and the envelope, the tree of parts with their paths, one record
    per leaf and per embedded message, the JSON body structure and the text
    preview.  The mailparse crate is the class [Mailparse] with its data types.
    A part that embeds a message is parsed again, as deep as the messages are
    nested; [depth] is how deep the stack lets it go, and a deeper message
    panics. *)

From stdpp Require Import base strings list.
From Stdlib Require Import ZArith Lia.
From S2P Require Import Prelude RustStr Domain Protocol SearchQuery Storage Schema RepoMessages SearchEval Mime.

Local Open Scope Z_scope.
Local Set Warnings "-register-all".

(** ** mailparse *)
Inductive DispositionType : Type :=
| DInline
| DAttachment
| DFormData
| DExtension (value : str).

Record SingleInfo : Type := mkSingleInfo {
  SingleInfo_display_name : option str;
  SingleInfo_addr : str
}.
Inductive MailAddr : Type :=
| Single (single : SingleInfo)
| Group (group_name : str) (addrs : list SingleInfo).

(** [ParsedMail]: [get_first_value] of its headers, [ctype] with the parameters
    in the order of their keys, [get_content_disposition], [get_body_raw],
    [get_body] and the subparts. *)
Record MailContent : Type := mkMailContent {
  headers : str -> option str;
  mimetype : str;
  charset : str;
  ctype_params : list (str * str);
  disposition : DispositionType;
  disposition_params : list (str * str);
  body_raw : bytes + str;
  body : str + str
}.
Inductive ParsedMail : Type := mkParsedMail (content : MailContent) (subparts : list ParsedMail).

Definition mail_content (m : ParsedMail) : MailContent := let 'mkParsedMail c _ := m in c.
Definition subparts (m : ParsedMail) : list ParsedMail := let 'mkParsedMail _ s := m in s.

Class Mailparse : Type := {
  parse_mail : bytes -> ParsedMail + str;
  addrparse : str -> list MailAddr + str;
  dateparse : str -> Z + str
}.

(** [map.get(key)]. *)
Fixpoint param (key : str) (params : list (str * str)) : option str :=
  match params with
  | [] => None
  | (k, v) :: params' => if str_eqb key k then Some v else param key params'
  end.

Definition str_opt : option str -> Value := json_opt VString.

(** ** Headers *)
Section Tree.
Context `{Sha256, Mailparse}.

Definition address_json (addr : MailAddr) : Value :=
  match addr with
  | Single single =>
      Object [(lit "kind", VString (lit "mailbox"));
              (lit "display_name", str_opt (SingleInfo_display_name single));
              (lit "address", VString (SingleInfo_addr single))]
  | Group group_name addrs =>
      Object [(lit "kind", VString (lit "group"));
              (lit "group_name", VString group_name);
              (lit "members", Array (map (fun member =>
                 Object [(lit "display_name", str_opt (SingleInfo_display_name member));
                         (lit "address", VString (SingleInfo_addr member))]) addrs))]
  end.

Definition address_header_json (c : MailContent) (header : str) : Value :=
  match headers c header with
  | Some value =>
      match addrparse value with
      | inl addrs => Array (map address_json addrs)
      | inr _ => Null
      end
  | None => Null
  end.

Definition build_envelope (c : MailContent) (from_json to_json cc_json bcc_json reply_to_json : Value)
  (subject message_id_header : option str) : Value :=
  let date :=
    match headers c (lit "Date") with
    | Some value => match dateparse value with inl t => Some t | inr _ => None end
    | None => None
    end in
  Object [(lit "date", json_opt Number date); (lit "subject", str_opt subject);
          (lit "message_id", str_opt message_id_header); (lit "from", from_json);
          (lit "to", to_json); (lit "cc", cc_json); (lit "bcc", bcc_json);
          (lit "reply_to", reply_to_json)].

(** The envelope of a message from its own headers. *)
Definition envelope_of (c : MailContent) : Value :=
  build_envelope c (address_header_json c (lit "From")) (address_header_json c (lit "To"))
    (address_header_json c (lit "Cc")) (address_header_json c (lit "Bcc"))
    (address_header_json c (lit "Reply-To")) (headers c (lit "Subject"))
    (headers c (lit "Message-ID")).

(** ** Parts *)

(** [mime_parts] and [preview], which the traversal writes to. *)
Record Collected : Type := mkCollected {
  mime_parts : list MimePartRecord;
  preview : option str
}.
Abbreviation Build := (M Error Collected).

Definition push_part (record : MimePartRecord) : Build unit :=
  modify (fun s => mkCollected (mime_parts s ++ [record]) (preview s)).
Definition set_preview (snippet : option str) : Build unit :=
  modify (fun s => mkCollected (mime_parts s) (option_or (preview s) snippet)).

Definition disposition_text (d : DispositionType) : str :=
  match d with
  | DInline => lit "inline"
  | DAttachment => lit "attachment"
  | DFormData => lit "form-data"
  | DExtension value => value
  end.

Definition filename_of (c : MailContent) : option str :=
  option_or (param (lit "filename") (disposition_params c)) (param (lit "name") (ctype_params c)).

Definition content_id_of (c : MailContent) : option str :=
  (fun value => trim_matches 62 (trim_matches 60 (trim value))) <$> headers c (lit "Content-ID").

Definition params_json (c : MailContent) : Value :=
  Object (map (fun '(key, value) => (key, VString value)) (ctype_params c)).

Definition metadata_of (c : MailContent) (path : str) : Value :=
  Object ([(lit "path", VString path); (lit "content_type", VString (mimetype c))] ++
          match headers c (lit "Content-Description") with
          | Some value => [(lit "description", VString value)]
          | None => []
          end).

Definition is_attachment (c : MailContent) : bool :=
  str_eqb (disposition_text (disposition c)) (lit "attachment") || is_some (filename_of c).

Definition part_record (c : MailContent) (path : str) (raw_bytes : bytes) : MimePartRecord :=
  mkMimePartRecord path (mimetype c)
    (match charset c with [] => None | value => Some value end)
    (Some (disposition_text (disposition c))) (filename_of c) (content_id_of c)
    (Z.of_nat (length raw_bytes))
    (content_addressed_key (if is_attachment c then Attachment else MimePartObject) raw_bytes)
    (sha256_hex raw_bytes) (headers c (lit "Content-Transfer-Encoding"))
    (metadata_of c path) raw_bytes.

Definition decode_part (c : MailContent) (path : str) : Result bytes :=
  match body_raw c with
  | inl raw_bytes => Ok raw_bytes
  | inr e => Err (EParse (lit "failed to decode MIME part " ++ path ++ lit ": " ++ e))
  end.

(** [part.get_body().unwrap_or_default()], cut to 512 characters; [None] when
    nothing is left. *)
Definition snippet_of (c : MailContent) : option str :=
  let text := match body c with inl text => text | inr _ => [] end in
  match take 512 (trim text) with [] => None | snippet => Some snippet end.

Definition is_preview_candidate (c : MailContent) (disposition : option str) (filename : option str)
  : bool :=
  starts_with (lit "text/") (mimetype c) &&
  negb (match disposition with Some d => str_eqb d (lit "attachment") | None => false end
        || is_some filename).

Fixpoint extract_preview_from_message (m : ParsedMail) : option str :=
  let 'mkParsedMail c subs := m in
  option_or (if starts_with (lit "text/") (mimetype c) then snippet_of c else None)
    ((fix first (subs : list ParsedMail) : option str :=
        match subs with
        | [] => None
        | part :: subs' => option_or (extract_preview_from_message part) (first subs')
        end) subs).

Definition subtype_of (c : MailContent) : str :=
  match split_once 47 (mimetype c) with
  | Some (_, subtype) => subtype
  | None => mimetype c
  end.

Definition leaf_json (c : MailContent) (path : str) (size : Z) : Value :=
  Object [(lit "path", VString path);
          (lit "type", VString (default (lit "application") (head (split_char 47 (mimetype c)))));
          (lit "subtype", VString (subtype_of c));
          (lit "charset", str_opt (param (lit "charset") (ctype_params c)));
          (lit "params", params_json c);
          (lit "disposition", VString (disposition_text (disposition c)));
          (lit "filename", str_opt (filename_of c));
          (lit "content_id", str_opt (content_id_of c));
          (lit "transfer_encoding", str_opt (headers c (lit "Content-Transfer-Encoding")));
          (lit "size", Number size)].

Definition build_leaf_part (c : MailContent) (path : str) : Build Value :=
  do raw_bytes <- lift (decode_part c path) ;;
  (if is_preview_candidate c (Some (disposition_text (disposition c))) (filename_of c)
   then set_preview (snippet_of c) else ret tt) ;;;
  push_part (part_record c path raw_bytes) ;;;
  ret (leaf_json c path (Z.of_nat (length raw_bytes))).

Definition message_json (c : MailContent) (path : str) (envelope bodystructure : Value)
  (raw_bytes : bytes) : Value :=
  Object ([(lit "path", VString path); (lit "type", VString (lit "message"));
           (lit "subtype", VString (lit "rfc822")); (lit "params", params_json c);
           (lit "envelope", envelope); (lit "bodystructure", bodystructure);
           (lit "lines", Number (Z.of_nat (length (List.filter (Z.eqb 10) raw_bytes))));
           (lit "size", Number (Z.of_nat (length raw_bytes)))] ++
          match content_id_of c with
          | Some value => [(lit "content_id", VString value)]
          | None => []
          end ++
          match headers c (lit "Content-Transfer-Encoding") with
          | Some value => [(lit "transfer_encoding", VString value)]
          | None => []
          end).

(** [embedded] builds the tree of the message inside. *)
Definition build_message_rfc822_part (embedded : ParsedMail -> str -> Build Value)
  (c : MailContent) (path : str) : Build Value :=
  do raw_bytes <- lift (decode_part c path) ;;
  do nested <- lift (match parse_mail raw_bytes with
                     | inl nested => Ok nested
                     | inr e => Err (EParse (lit "failed to parse embedded message " ++ path ++
                                             lit ": " ++ e))
                     end) ;;
  set_preview (extract_preview_from_message nested) ;;;
  push_part (part_record c path raw_bytes) ;;;
  do bodystructure <- embedded nested (path ++ lit ".1") ;;
  ret (message_json c path (envelope_of (mail_content nested)) bodystructure raw_bytes).

Definition multipart_json (c : MailContent) (path : str) (children : list Value) : Value :=
  Object [(lit "path", VString path); (lit "type", VString (lit "multipart"));
          (lit "subtype", VString (subtype_of c)); (lit "params", params_json c);
          (lit "parts", Array children)].

Definition child_path (path : str) (index : Z) : str :=
  match path with
  | [] => fmt_u index
  | _ => path ++ lit "." ++ fmt_u index
  end.

Definition is_embedded (c : MailContent) : bool :=
  eq_ignore_ascii_case (mimetype c) (lit "message/rfc822").

(** The children of a multipart, numbered from [index]. *)
Definition build_children (tree : ParsedMail -> str -> Build Value) (path : str)
  : Z -> list ParsedMail -> Build (list Value) :=
  fix children (index : Z) (subs : list ParsedMail) : Build (list Value) :=
    match subs with
    | [] => ret []
    | child :: subs' =>
        do value <- tree child (child_path path index) ;;
        do values <- children (index + 1) subs' ;;
        ret (value :: values)
    end.

Fixpoint build_part_tree (depth : nat) : ParsedMail -> str -> Build Value :=
  match depth with
  | O => fun _ _ => panic
  | S depth' =>
      fix tree (part : ParsedMail) (path : str) : Build Value :=
        let 'mkParsedMail c subs := part in
        if is_embedded c then build_message_rfc822_part (build_part_tree depth') c path
        else
          match subs with
          | [] => build_leaf_part c path
          | _ =>
              do children <- build_children tree path 1 subs ;;
              ret (multipart_json c path children)
          end
  end.

Definition parse_rfc822 (depth : nat) (raw : bytes) : Result ParsedMessage :=
  match parse_mail raw with
  | inr e => Err (EParse (lit "failed to parse RFC822 message: " ++ e))
  | inl parsed =>
      let c := mail_content parsed in
      let '(collected, r) := build_part_tree depth parsed (lit "1") (mkCollected [] None) in
      try! bodystructure_json <- r ;;
      Ok (mkParsedMessage (sha256_hex raw) (Z.of_nat (length raw)) (headers c (lit "Message-ID"))
            (headers c (lit "Subject")) (address_header_json c (lit "From"))
            (address_header_json c (lit "To")) (address_header_json c (lit "Cc"))
            (address_header_json c (lit "Bcc")) (address_header_json c (lit "Reply-To"))
            (envelope_of c) bodystructure_json (preview collected) (mime_parts collected))
  end.
End Tree.

(** The parser the ingestor and the server call. *)
Definition mailparse_parser `{Sha256, Mailparse} (depth : nat) : MimeParser :=
  {| parse_message := parse_rfc822 depth |}.
