(* ===== verification/MimeSpecs.v ===== *)
(** * What the MIME tree promises

    Every part of a parsed message can be fetched by its path, its record is
    content addressed, the body structure lists the parts in the order they are
    stored, and parsing returns on every message whose embedded messages nest no
    deeper than the stack allows. *)

From stdpp Require Import base strings list.
From Stdlib Require Import ZArith Lia.
From S2P Require Import Prelude RustStr Domain Protocol SearchQuery Storage Schema RepoMessages SearchEval Mime ImapText MimeTree.

Local Open Scope Z_scope.

(** ** Induction over mails *)
Section MailInd.
Variable P : ParsedMail -> Prop.
Hypothesis step : forall c subs, Forall P subs -> P (mkParsedMail c subs).

Fixpoint mail_ind (m : ParsedMail) : P m :=
  let 'mkParsedMail c subs := m in
  step c subs ((fix all (subs : list ParsedMail) : Forall P subs :=
                  match subs with
                  | [] => List.Forall_nil P
                  | s :: subs' => List.Forall_cons P s subs' (mail_ind s) (all subs')
                  end) subs).
End MailInd.

Section Specs.
Context `{Sha256, Mailparse}.
Abbreviation Build := (M Error Collected).

Lemma build_part_tree_eq depth c subs path :
  build_part_tree (S depth) (mkParsedMail c subs) path =
  if is_embedded c then build_message_rfc822_part (build_part_tree depth) c path
  else match subs with
       | [] => build_leaf_part c path
       | _ => do children <- build_children (build_part_tree (S depth)) path 1 subs ;;
              ret (multipart_json c path children)
       end.
Proof. done. Qed.

(** ** Paths *)

(** A path at or below another. *)
Definition under (path p : str) : Prop := p = path \/ exists rest, p = path ++ 46 :: rest.

Lemma under_refl path : under path path.
Proof. by left. Qed.

Lemma under_child path index p :
  path <> [] -> under (child_path path index) p -> exists rest, p = path ++ 46 :: rest.
Proof.
  intros Hne. unfold child_path. destruct path as [|x path]; [done|].
  intros [->|[rest ->]]; eexists; [done|]. by rewrite <- !app_assoc.
Qed.

Lemma dotted_digits_inj a b t u :
  Forall (fun c => is_ascii_digit c = true) a -> Forall (fun c => is_ascii_digit c = true) b ->
  (t = [] \/ exists t', t = 46 :: t') -> (u = [] \/ exists u', u = 46 :: u') ->
  a ++ t = b ++ u -> a = b.
Proof.
  intros Ha. revert b. induction Ha as [|x a Hx Ha IH]; intros b Hb Ht Hu E; destruct Hb as [|y b Hy Hb].
  - done.
  - simpl in E. destruct Ht as [->|[t' ->]]; [done|]. injection E as <- _. done.
  - simpl in E. destruct Hu as [->|[u' ->]]; [done|]. injection E as -> _. done.
  - simpl in E. injection E as <- E. f_equal. by apply IH.
Qed.

Lemma under_children_disjoint path i j p :
  path <> [] -> 0 <= i -> 0 <= j ->
  under (child_path path i) p -> under (child_path path j) p -> i = j.
Proof.
  intros Hne Hi Hj Hp Hq.
  assert (Hd : forall k, under (child_path path k) p ->
            exists t, (t = [] \/ exists t', t = 46 :: t') /\ p = path ++ 46 :: fmt_u k ++ t).
  { intros k. unfold child_path. destruct path as [|x path]; [done|]. intros [->|[rest ->]].
    - exists []. split; [by left|]. by rewrite app_nil_r.
    - exists (46 :: rest). split; [right; by eexists|]. by rewrite <- !app_assoc. }
  destruct (Hd _ Hp) as (t & Ht & ->). destruct (Hd _ Hq) as (u & Hu & E).
  apply app_inv_head in E. injection E as E.
  apply dotted_digits_inj in E; [|apply fmt_u_digits|apply fmt_u_digits|done|done].
  pose proof (parse_digits_fmt_u i Hi) as Pi. rewrite E, parse_digits_fmt_u in Pi by done.
  congruence.
Qed.

(** ** What a run adds *)
Definition record_ok (r : MimePartRecord) : Prop :=
  MimePartRecord_size_octets r = Z.of_nat (length (MimePartRecord_raw_bytes r)) /\
  MimePartRecord_sha256 r = sha256_hex (MimePartRecord_raw_bytes r) /\
  validate_content_addressed_bytes (MimePartRecord_blob_key r) (MimePartRecord_raw_bytes r) = Ok tt.

Lemma part_record_ok c path raw : record_ok (part_record c path raw).
Proof. split_and!; [done|done|]. apply validate_iff. by eexists. Qed.

(** The records of a subtree: below its path, with different paths, sound. *)
Record records_ok (path : str) (new : list MimePartRecord) : Prop := {
  records_under : Forall (fun r => under path (MimePartRecord_part_path r)) new;
  records_nodup : NoDup (map MimePartRecord_part_path new);
  records_sound : Forall record_ok new
}.

(** The paths the JSON of a subtree shows for its leaves and embedded messages. *)
Definition json_path (v : Value) : str := default [] (value_str v (lit "path")).
Fixpoint part_paths (v : Value) : list str :=
  match v with
  | Object fields =>
      match get_with (fun v => match v with Array parts => flat_map part_paths parts | _ => [] end)
              (lit "parts") fields with
      | Some paths => paths
      | None =>
          json_path v ::
          default [] (get_with part_paths (lit "bodystructure") fields)
      end
  | _ => []
  end.

Lemma part_paths_multipart c path children :
  part_paths (multipart_json c path children) = flat_map part_paths children.
Proof. done. Qed.
Lemma part_paths_leaf c path size : part_paths (leaf_json c path size) = [path].
Proof. done. Qed.
Lemma part_paths_message c path envelope bodystructure raw :
  part_paths (message_json c path envelope bodystructure raw) = path :: part_paths bodystructure.
Proof. unfold message_json. by destruct (content_id_of c), (headers c _). Qed.

(** [adds Q m shows]: a successful run of [m] appends records that satisfy [Q]
    and returns a value that shows their paths in order. *)
Definition adds {A} (Q : list MimePartRecord -> Prop) (m : Build A) (shows : A -> list str) : Prop :=
  forall s s' v, m s = (s', Ok v) ->
    exists new, mime_parts s' = mime_parts s ++ new /\ Q new /\
                shows v = map MimePartRecord_part_path new.

Lemma records_ok_one c path raw : records_ok path [part_record c path raw].
Proof. split; [by repeat constructor|apply NoDup_singleton|]. constructor; [apply part_record_ok|done]. Qed.

Lemma build_leaf_part_adds c path : adds (records_ok path) (build_leaf_part c path) part_paths.
Proof.
  intros s s' v Hr. unfold build_leaf_part in Hr. inv_bind Hr.
  unfold lift in Hstep. injection Hstep as <- Hx.
  apply bind_inv_Ok in Hr as (s1 & [] & Hset & Hr). assert (mime_parts s1 = mime_parts s) as Hm.
  { by destruct (is_preview_candidate _ _ _); injection Hset as <-. }
  unfold push_part, modify, bind, ret in Hr. injection Hr as <- <-. simpl. rewrite Hm.
  exists [part_record c path x]. split; [done|]. split; [apply records_ok_one|done].
Qed.

(** The records of the children from [index] on. *)
Definition children_ok (path : str) (index : Z) (new : list MimePartRecord) : Prop :=
  Forall (fun r => exists k, index <= k /\ under (child_path path k) (MimePartRecord_part_path r)) new /\
  NoDup (map MimePartRecord_part_path new) /\ Forall record_ok new.

Lemma children_ok_cons path index new rest :
  path <> [] -> 0 <= index -> records_ok (child_path path index) new ->
  children_ok path (index + 1) rest -> children_ok path index (new ++ rest).
Proof.
  intros Hne Hi [Hu Hn Hs] (Hcu & Hcn & Hcs). split_and!.
  - apply Forall_app. split.
    + eapply Forall_impl; [exact Hu|]. intros r Hr. exists index. by split; [lia|].
    + eapply Forall_impl; [exact Hcu|]. intros r (k & Hk & Hr). exists k. by split; [lia|].
  - rewrite map_app. apply NoDup_app. split_and!; [done| |done]. intros p Hp Hq.
    apply list_elem_of_In, in_map_iff in Hp as (r & <- & Hr).
    apply list_elem_of_In, in_map_iff in Hq as (r' & E & Hr').
    rewrite List.Forall_forall in Hu, Hcu. specialize (Hu _ Hr).
    destruct (Hcu _ Hr') as (k & Hk & Hk'). rewrite E in Hk'.
    assert (index = k) by (eapply under_children_disjoint; eauto; lia). lia.
  - by apply Forall_app.
Qed.

Lemma build_children_adds tree path subs : forall index,
  path <> [] -> 0 <= index ->
  Forall (fun sub => forall p, p <> [] -> adds (records_ok p) (tree sub p) part_paths) subs ->
  adds (children_ok path index) (build_children tree path index subs) (flat_map part_paths).
Proof.
  induction subs as [|sub subs IH]; intros index Hne Hi Hsubs s s' vs Hr; cbn [build_children] in Hr.
  - injection Hr as <- <-. exists []. rewrite app_nil_r. split; [done|]. split; [|done].
    split_and!; [done|apply NoDup_nil_2|done].
  - inversion_clear Hsubs as [|?? Hsub Hsubs']. inv_bind Hr. inv_bind Hr.
    apply Hsub in Hstep as (new & Hm & Hok & Hp).
    2:{ unfold child_path. destruct path; [done|]. by destruct (fmt_u index). }
    apply IH in Hstep0 as (rest & Hm' & Hok' & Hp'); [|done|lia|done].
    injection Hr as <- <-. exists (new ++ rest). split_and!.
    + by rewrite Hm', Hm, app_assoc.
    + by apply children_ok_cons.
    + cbn [flat_map]. by rewrite Hp, Hp', map_app.
Qed.

Lemma children_under path new : path <> [] -> children_ok path 1 new -> records_ok path new.
Proof.
  intros Hne (Hu & Hn & Hs). split; [|done|done]. eapply Forall_impl; [exact Hu|].
  intros r (k & _ & Hk). right. by eapply under_child.
Qed.

Lemma embedded_records c path raw new :
  records_ok (path ++ lit ".1") new -> records_ok path (part_record c path raw :: new).
Proof.
  intros [Hu Hn Hs].
  assert (Hdot : Forall (fun r => exists rest, MimePartRecord_part_path r = path ++ 46 :: rest) new).
  { eapply Forall_impl; [exact Hu|]. intros r [->|[rest ->]]; eexists; [done|]. by rewrite <- app_assoc. }
  split.
  - constructor; [by left|]. eapply Forall_impl; [exact Hdot|]. intros r Hr. by right.
  - cbn [map]. apply NoDup_cons. split; [|done]. intros Hin.
    apply list_elem_of_In, in_map_iff in Hin as (r & E & Hr). rewrite List.Forall_forall in Hdot.
    destruct (Hdot r Hr) as [rest E']. rewrite E' in E. simpl in E.
    apply (f_equal length) in E. rewrite length_app in E. simpl in E. lia.
  - constructor; [apply part_record_ok|done].
Qed.

Lemma build_message_adds embedded c path :
  (forall m, adds (records_ok (path ++ lit ".1")) (embedded m (path ++ lit ".1")) part_paths) ->
  adds (records_ok path) (build_message_rfc822_part embedded c path) part_paths.
Proof.
  intros He s s' v Hr. unfold build_message_rfc822_part in Hr.
  inv_bind Hr. unfold lift in Hstep. injection Hstep as <- _.
  inv_bind Hr. unfold lift in Hstep. injection Hstep as <- _.
  unfold set_preview, push_part, modify in Hr. unfold bind at 1 2 in Hr. inv_bind Hr.
  apply He in Hstep as (new & Hm & Hok & Hp). injection Hr as <- <-.
  simpl in Hm. exists (part_record c path x :: new). split_and!.
  - by rewrite Hm, <- app_assoc.
  - by apply embedded_records.
  - by rewrite part_paths_message, Hp.
Qed.

Lemma build_part_tree_adds depth : forall m path,
  path <> [] -> adds (records_ok path) (build_part_tree depth m path) part_paths.
Proof.
  induction depth as [|depth IHd]; intros m.
  { intros path _ s s' v Hr. done. }
  induction m as [c subs IHm] using mail_ind. intros path Hne. rewrite build_part_tree_eq.
  destruct (is_embedded c).
  - apply build_message_adds. intros m. apply IHd. by destruct path.
  - destruct subs as [|sub subs]; [apply build_leaf_part_adds|].
    intros s s' v Hr. inv_bind Hr.
    apply build_children_adds in Hstep as (new & Hm & Hok & Hp); [|done|lia|done].
    injection Hr as <- <-. exists new. split; [done|]. split; [by apply children_under|done].
Qed.

(** A parsed message is what its tree built from nothing. *)
Lemma parse_rfc822_inv depth raw parsed :
  parse_rfc822 depth raw = Ok parsed ->
  exists m s, parse_mail raw = inl m /\
    build_part_tree depth m (lit "1") (mkCollected [] None) =
      (s, Ok (ParsedMessage_bodystructure_json parsed)) /\
    ParsedMessage_mime_parts parsed = mime_parts s /\ ParsedMessage_text_preview parsed = preview s.
Proof.
  unfold parse_rfc822. destruct (parse_mail raw) as [m|e]; [|done].
  destruct (build_part_tree depth m (lit "1") (mkCollected [] None)) as [s [v|e|]] eqn:E; [|done|done].
  intros [= <-]. by exists m, s.
Qed.

Lemma parsed_parts depth raw parsed :
  parse_rfc822 depth raw = Ok parsed ->
  records_ok (lit "1") (ParsedMessage_mime_parts parsed) /\
  part_paths (ParsedMessage_bodystructure_json parsed) =
    map MimePartRecord_part_path (ParsedMessage_mime_parts parsed).
Proof.
  intros (m & s & _ & E & -> & _)%parse_rfc822_inv.
  apply build_part_tree_adds in E as (new & -> & Hok & Hp); [|done]. done.
Qed.

Lemma find_by_path r parts :
  NoDup (map MimePartRecord_part_path parts) -> In r parts ->
  List.find (fun part => str_eqb (MimePartRecord_part_path part) (MimePartRecord_part_path r)) parts =
  Some r.
Proof.
  induction parts as [|r' parts IH]; intros Hn Hr; [done|]. cbn [map] in Hn.
  apply NoDup_cons in Hn as [Hnot Hn]. cbn [List.find].
  destruct Hr as [->|Hr]; [by rewrite str_eqb_refl|].
  rewrite (proj2 (str_eqb_neq _ _)); [by apply IH|]. intros E. apply Hnot.
  rewrite E. by apply list_elem_of_In, in_map.
Qed.

(** C36 The parts of a parsed message can be fetched: their paths are all
    different, extracting a path from the raw message gives exactly the bytes of
    the part that has it, and the part's size, digest and blob key are those of
    the bytes. *)
Theorem every_part_is_fetched depth raw parsed :
  parse_rfc822 depth raw = Ok parsed ->
  NoDup (map MimePartRecord_part_path (ParsedMessage_mime_parts parsed)) /\
  Forall (fun part =>
    extract_part_bytes (H := mailparse_parser depth) raw (MimePartRecord_part_path part) =
      Ok (Some (MimePartRecord_raw_bytes part)) /\
    MimePartRecord_size_octets part = Z.of_nat (length (MimePartRecord_raw_bytes part)) /\
    MimePartRecord_sha256 part = sha256_hex (MimePartRecord_raw_bytes part) /\
    validate_content_addressed_bytes (MimePartRecord_blob_key part)
      (MimePartRecord_raw_bytes part) = Ok tt)
    (ParsedMessage_mime_parts parsed).
Proof.
  intros Hp. destruct (parsed_parts _ _ _ Hp) as [[_ Hn Hs] _]. split; [done|].
  rewrite List.Forall_forall in Hs |- *. intros r Hr. split; [|by apply Hs].
  unfold extract_part_bytes. cbn [parse_message mailparse_parser]. rewrite Hp. cbn [obind].
  by rewrite find_by_path.
Qed.

(** C37 BODYSTRUCTURE and the stored parts agree: the leaves and embedded messages
    of the body structure, in the order a client reads them, have exactly the
    paths of the stored parts in their order. *)
Theorem bodystructure_lists_parts depth raw parsed :
  parse_rfc822 depth raw = Ok parsed ->
  part_paths (ParsedMessage_bodystructure_json parsed) =
  map MimePartRecord_part_path (ParsedMessage_mime_parts parsed).
Proof. intros Hp. by destruct (parsed_parts _ _ _ Hp). Qed.

(** ** Termination

    [nests n m]: the embedded messages of [m] nest less than [n] deep. *)
Definition embedded_in (c : MailContent) : option ParsedMail :=
  match body_raw c with
  | inl raw => match parse_mail raw with inl m => Some m | inr _ => None end
  | inr _ => None
  end.
Definition all_of (Q : ParsedMail -> Prop) : list ParsedMail -> Prop :=
  fix all subs := match subs with [] => True | sub :: subs' => Q sub /\ all subs' end.
Fixpoint nests (n : nat) : ParsedMail -> Prop :=
  match n with
  | O => fun _ => False
  | S n' =>
      fix go (m : ParsedMail) : Prop :=
        let 'mkParsedMail c subs := m in
        if is_embedded c
        then match embedded_in c with Some m' => nests n' m' | None => True end
        else all_of go subs
  end.

Lemma nests_eq n c subs :
  nests (S n) (mkParsedMail c subs) =
  if is_embedded c then match embedded_in c with Some m' => nests n m' | None => True end
  else all_of (nests (S n)) subs.
Proof. done. Qed.

(** Two computations with the same, defined result on every state. *)
Definition agree {A} (m m' : Build A) : Prop := forall s, m' s = m s /\ snd (m s) <> Panic.

Lemma agree_refl {A} (m : Build A) : (forall s, snd (m s) <> Panic) -> agree m m.
Proof. by split. Qed.

Lemma agree_bind {A B} (m m' : Build A) (k k' : A -> Build B) :
  agree m m' -> (forall a, agree (k a) (k' a)) -> agree (bind m k) (bind m' k').
Proof.
  intros Hm Hk s. destruct (Hm s) as [E Hn]. unfold bind. rewrite E.
  destruct (m s) as [s1 [a|e|]]; [apply Hk|done|done].
Qed.

Lemma agree_ret {A} (a : A) : agree (ret a) (ret a).
Proof. by apply agree_refl. Qed.

Lemma build_leaf_part_agree c path : agree (build_leaf_part c path) (build_leaf_part c path).
Proof.
  apply agree_refl. intros s. unfold build_leaf_part, decode_part.
  destruct (body_raw c); [|done]. by destruct (is_preview_candidate _ _ _).
Qed.

Lemma build_children_agree tree tree' path subs : forall index,
  all_of (fun sub => forall p, agree (tree sub p) (tree' sub p)) subs ->
  agree (build_children tree path index subs) (build_children tree' path index subs).
Proof.
  induction subs as [|sub subs IH]; intros index Hs; [apply agree_ret|]. destruct Hs as [Hsub Hs].
  cbn [build_children]. apply agree_bind; [apply Hsub|]. intros v.
  apply agree_bind; [by apply IH|]. intros vs. apply agree_ret.
Qed.

Lemma agree_lift {A B} (a : A) (k k' : A -> Build B) :
  agree (k a) (k' a) -> agree (bind (lift (Ok a)) k) (bind (lift (Ok a)) k').
Proof. intros Hk s. apply Hk. Qed.

Lemma build_message_agree embedded embedded' c path :
  match embedded_in c with
  | Some m => forall p, agree (embedded m p) (embedded' m p)
  | None => True
  end ->
  agree (build_message_rfc822_part embedded c path) (build_message_rfc822_part embedded' c path).
Proof.
  unfold embedded_in, build_message_rfc822_part, decode_part.
  destruct (body_raw c) as [raw|e]; [|by intros _; apply agree_refl].
  intros He. apply agree_lift. destruct (parse_mail raw) as [m|e]; [|by apply agree_refl].
  apply agree_lift. apply agree_bind; [by apply agree_refl|]. intros _.
  apply agree_bind; [by apply agree_refl|]. intros _.
  apply agree_bind; [apply He|]. intros v. apply agree_ret.
Qed.

Lemma all_of_impl (Q R : ParsedMail -> Prop) subs :
  Forall (fun sub => Q sub -> R sub) subs -> all_of Q subs -> all_of R subs.
Proof. induction 1 as [|sub subs Hsub _ IH]; [done|]. intros [Hq Hqs]. split; [by apply Hsub|by apply IH]. Qed.

Lemma build_part_tree_agree n : forall m n' path,
  nests n m -> (n <= n')%nat -> agree (build_part_tree n m path) (build_part_tree n' m path).
Proof.
  induction n as [|n IHn]; intros m; [done|].
  induction m as [c subs IHm] using mail_ind. intros n' path Hnest Hle.
  destruct n' as [|n']; [lia|]. rewrite !build_part_tree_eq. rewrite nests_eq in Hnest.
  destruct (is_embedded c).
  - apply build_message_agree. destruct (embedded_in c); [|done]. intros q. apply IHn; [done|lia].
  - destruct subs as [|sub subs]; [apply build_leaf_part_agree|].
    apply agree_bind; [|intros v; apply agree_ret].
    apply build_children_agree. eapply all_of_impl; [|exact Hnest].
    eapply Forall_impl; [exact IHm|]. intros x Hx Hn q. by apply Hx.
Qed.


(** ** The preview *)
Definition preview_ok (s : Collected) : Prop :=
  match preview s with Some text => (1 <= length text <= 512)%nat | None => True end.

Definition snippet_ok (o : option str) : Prop :=
  match o with Some text => (1 <= length text <= 512)%nat | None => True end.

Lemma snippet_of_ok c : snippet_ok (snippet_of c).
Proof.
  unfold snippet_of, snippet_ok. generalize (trim (match body c with inl t => t | inr _ => [] end)) as t.
  intros t. pose proof (firstn_le_length 512 t).
  destruct (take 512 t) as [|x xs] eqn:E; [done|].
  assert (length (take 512 t) <= 512)%nat by (rewrite length_take; lia). rewrite E in *. simpl in *. lia.
Qed.

Lemma extract_preview_ok m : snippet_ok (extract_preview_from_message m).
Proof.
  induction m as [c subs IH] using mail_ind. cbn [extract_preview_from_message].
  destruct (if starts_with _ _ then snippet_of c else None) as [t|] eqn:E.
  - cbn [option_or]. destruct (starts_with _ _); [|done]. rewrite <- E. apply snippet_of_ok.
  - cbn [option_or]. clear E. induction IH as [|sub subs Hsub _ IHs]; [done|].
    by destruct (extract_preview_from_message sub).
Qed.

Lemma set_preview_ok o : snippet_ok o -> preserves preview_ok (set_preview o).
Proof. intros Ho s Hs. unfold preview_ok in *. simpl. by destruct (preview s). Qed.

Lemma push_part_ok r : preserves preview_ok (push_part r).
Proof. by intros s Hs. Qed.

Lemma build_part_tree_preview depth : forall m path, preserves preview_ok (build_part_tree depth m path).
Proof.
  induction depth as [|depth IHd]; intros m; [by intros path s Hs|].
  induction m as [c subs IHm] using mail_ind. intros path. rewrite build_part_tree_eq.
  destruct (is_embedded c).
  - unfold build_message_rfc822_part. repeat first
      [apply preserves_bind; [|intros ?]|apply preserves_lift|apply preserves_ret
      |apply push_part_ok|apply IHd|apply set_preview_ok, extract_preview_ok].
  - destruct subs as [|sub subs].
    + unfold build_leaf_part. destruct (is_preview_candidate _ _ _); repeat first
        [apply preserves_bind; [|intros ?]|apply preserves_lift|apply preserves_ret
        |apply push_part_ok|apply set_preview_ok, snippet_of_ok].
    + apply preserves_bind; [|intros ?; apply preserves_ret]. generalize 1 as index.
      induction IHm as [|s ss Hs _ IHs]; intros index; cbn [build_children]; [apply preserves_ret|].
      apply preserves_bind; [apply Hs|]. intros v. apply preserves_bind; [apply IHs|].
      intros vs. apply preserves_ret.
Qed.

(** The stored preview is never empty nor longer than 512 characters. *)
Lemma preview_is_short depth raw parsed text :
  parse_rfc822 depth raw = Ok parsed -> ParsedMessage_text_preview parsed = Some text ->
  (1 <= length text <= 512)%nat.
Proof.
  intros (m & s & _ & E & _ & ->)%parse_rfc822_inv Ht.
  pose proof (build_part_tree_preview depth m (lit "1") (mkCollected [] None) I) as Hp.
  rewrite E in Hp. unfold preview_ok in Hp. simpl in Hp. by rewrite Ht in Hp.
Qed.
End Specs.

(** ** A parsed message

    A multipart of a text and an embedded message, which is a text again; the
    mail parser knows two inputs. *)
Module MimeWitness.
#[local] Instance sha : Sha256 := { sha256_hex := fun b => b }.

Definition text_part (body_text : str) : ParsedMail :=
  mkParsedMail (mkMailContent (fun _ => None) (lit "text/plain") (lit "utf-8") [] DInline []
    (inl body_text) (inl body_text)) [].
Definition embedded_part : ParsedMail :=
  mkParsedMail (mkMailContent (fun _ => None) (lit "message/rfc822") [] [] DAttachment []
    (inl (lit "inner")) (inr (lit "no text"))) [].
Definition outer_mail : ParsedMail :=
  mkParsedMail (mkMailContent (fun _ => None) (lit "multipart/mixed") [] [] DInline []
    (inl []) (inl [])) [text_part (lit "hello"); embedded_part].

#[local] Instance parser : Mailparse := {
  parse_mail := fun raw => if str_eqb raw (lit "outer") then inl outer_mail
                           else if str_eqb raw (lit "inner") then inl (text_part (lit "within"))
                           else inr (lit "no header");
  addrparse := fun _ => inr (lit "no address");
  dateparse := fun _ => inr (lit "no date")
}.

Definition outer_message : ParsedMessage :=
  match parse_rfc822 2 (lit "outer") with
  | Ok parsed => parsed
  | _ => mkParsedMessage [] 0 None None Null Null Null Null Null Null Null None []
  end.

Lemma outer_parses : parse_rfc822 2 (lit "outer") = Ok outer_message.
Proof. vm_compute. reflexivity. Qed.

Example outer_paths :
  map MimePartRecord_part_path (ParsedMessage_mime_parts outer_message) =
    [lit "1.1"; lit "1.2"; lit "1.2.1"] /\
  ParsedMessage_text_preview outer_message = Some (lit "hello").
Proof. vm_compute. split; reflexivity. Qed.

(** The only part of a message that is not a multipart is stored as 1; the server
    looks for the part of BODY[1] under 1.1. *)
Example single_part_path :
  (fun parsed => map MimePartRecord_part_path (ParsedMessage_mime_parts parsed)) <$>
    match parse_rfc822 1 (lit "inner") with Ok parsed => Some parsed | _ => None end =
  Some [lit "1"].
Proof. vm_compute. reflexivity. Qed.

Lemma every_part_is_fetched_witness :
  NoDup (map MimePartRecord_part_path (ParsedMessage_mime_parts outer_message)) /\
  Forall (fun part =>
    extract_part_bytes (H := mailparse_parser 2) (lit "outer") (MimePartRecord_part_path part) =
      Ok (Some (MimePartRecord_raw_bytes part)) /\
    MimePartRecord_size_octets part = Z.of_nat (length (MimePartRecord_raw_bytes part)) /\
    MimePartRecord_sha256 part = sha256_hex (MimePartRecord_raw_bytes part) /\
    validate_content_addressed_bytes (MimePartRecord_blob_key part)
      (MimePartRecord_raw_bytes part) = Ok tt)
    (ParsedMessage_mime_parts outer_message).
Proof. exact (every_part_is_fetched 2 (lit "outer") outer_message outer_parses). Defined.

Lemma bodystructure_lists_parts_witness :
  part_paths (ParsedMessage_bodystructure_json outer_message) =
  map MimePartRecord_part_path (ParsedMessage_mime_parts outer_message).
Proof. exact (bodystructure_lists_parts 2 (lit "outer") outer_message outer_parses). Defined.

End MimeWitness.
