(* ===== verification/Stores.v ===== *)
(** * The file system and the S3 object stores

    Models crates/storage/src/filesystem.rs on a file system of files and
    directories, and crates/storage/src/r2.rs on the S3 client, which is the
    class [S3Client].  Every call to the file system can fail: [fs_faults] says
    which of the next ones do. *)

From stdpp Require Import base strings list gmap.
From Stdlib Require Import ZArith Lia.
From S2P Require Import Prelude RustStr Domain Storage.

Local Open Scope Z_scope.

(** ** The file system *)
Record IoError : Type := mkIoError {
  io_not_found : bool;
  io_text : str
}.

Record FileSystem : Type := mkFileSystem {
  fs_files : gmap str bytes;
  fs_dirs : gset str;
  fs_faults : list (option str)
}.

Abbreviation Fs := (M IoError FileSystem).

(** A call that the next fault may hit. *)
Definition syscall {A} (m : Fs A) : Fs A := fun s =>
  match fs_faults s with
  | Some e :: faults => (mkFileSystem (fs_files s) (fs_dirs s) faults, Err (mkIoError false e))
  | None :: faults => m (mkFileSystem (fs_files s) (fs_dirs s) faults)
  | [] => m s
  end.

Definition enoent : IoError := mkIoError true (lit "No such file or directory (os error 2)").
Definition eisdir : IoError := mkIoError false (lit "Is a directory (os error 21)").
Definition enotdir : IoError := mkIoError false (lit "Not a directory (os error 20)").

(** The directories on the way to a path, itself included. *)
Fixpoint path_prefixes (seen : str) (path : str) : list str :=
  match path with
  | [] => [rev seen]
  | c :: path' => if c =? 47 then rev seen :: path_prefixes (c :: seen) path'
                  else path_prefixes (c :: seen) path'
  end.

Definition is_dir (s : FileSystem) (path : str) : bool :=
  bool_decide (path = []) || bool_decide (path ∈ fs_dirs s).

Definition set_file (path : str) (b : bytes) (s : FileSystem) : FileSystem :=
  mkFileSystem (<[path := b]> (fs_files s)) (fs_dirs s) (fs_faults s).

Definition fs_create_dir_all (path : str) : Fs unit :=
  syscall (fun s =>
    if existsb (fun p => is_some (fs_files s !! p)) (path_prefixes [] path) then (s, Err enotdir)
    else (mkFileSystem (fs_files s) (list_to_set (path_prefixes [] path) ∪ fs_dirs s) (fs_faults s),
          Ok tt)).

Definition path_parent (path : str) : option str :=
  match rsplit_once 47 path with
  | Some (parent, _) => Some parent
  | None => match path with [] => None | _ => Some [] end
  end.

(** [File::create] empties the file; [write_all] and [flush] fill it. *)
Definition fs_create (path : str) : Fs unit :=
  syscall (fun s =>
    if is_dir s path then (s, Err eisdir)
    else if is_dir s (default [] (path_parent path)) then (set_file path [] s, Ok tt)
    else (s, Err enoent)).
Definition fs_write (path : str) (b : bytes) : Fs unit := syscall (modify (set_file path b)).

Definition fs_read (path : str) : Fs bytes :=
  syscall (fun s =>
    match fs_files s !! path with
    | Some b => (s, Ok b)
    | None => (s, Err (if is_dir s path then eisdir else enoent))
    end).

(** [File::open] with [metadata().len()], and [seek] with [read_exact]. *)
Definition fs_open_len (path : str) : Fs Z :=
  do b <- fs_read path ;; ret (Z.of_nat (length b)).
Definition fs_read_at (path : str) (start n : Z) : Fs bytes :=
  do b <- fs_read path ;;
  if Z.of_nat (length b) <? start + n then fail (mkIoError false (lit "early eof"))
  else ret (take (Z.to_nat n) (drop (Z.to_nat start) b)).

Definition fs_remove_file (path : str) : Fs unit :=
  syscall (fun s =>
    match fs_files s !! path with
    | Some _ => (mkFileSystem (delete path (fs_files s)) (fs_dirs s) (fs_faults s), Ok tt)
    | None => (s, Err (if is_dir s path then eisdir else enoent))
    end).

Definition fs_metadata (path : str) : Fs unit :=
  syscall (fun s =>
    (s, if is_some (fs_files s !! path) || is_dir s path then Ok tt else Err enoent)).

(** [?] on an I/O error, and looking at its kind. *)
Definition io {A} (m : Fs A) : M Error FileSystem A := fun s =>
  let '(s', r) := m s in
  (s', match r with Ok a => Ok a | Err e => Err (EIo (io_text e)) | Panic => Panic end).
Definition unless_missing {A} (m : Fs A) : M Error FileSystem (option A) := fun s =>
  let '(s', r) := m s in
  (s', match r with
       | Ok a => Ok (Some a)
       | Err e => if io_not_found e then Ok None else Err (EIo (io_text e))
       | Panic => Panic
       end).

(** ** The file system store *)
Section Filesystem.
Context `{Sha256}.
Variable root : str.

(** [root.join(key)]. *)
Definition path_for (key : str) : str :=
  if starts_with [47] key then key
  else match root with
       | [] => key
       | _ => if ends_with [47] root then root ++ key else root ++ [47] ++ key
       end.

Definition filesystem_put (key : str) (b : bytes) : M Error FileSystem ObjectMetadata :=
  lift (validate_content_addressed_bytes key b) ;;;
  let path := path_for key in
  match path_parent path with
  | Some parent => io (fs_create_dir_all parent)
  | None => ret tt
  end ;;;
  io (fs_create path) ;;;
  io (fs_write path b) ;;;
  ret (mkObjectMetadata key (sha256_hex b) (Z.of_nat (length b))).

Definition filesystem_get (key : str) : M Error FileSystem (option bytes) :=
  do found <- unless_missing (fs_read (path_for key)) ;;
  match found with
  | Some b => lift (validate_content_addressed_bytes key b) ;;; ret (Some b)
  | None => ret None
  end.

(** An end before the start underflows [end - start]. *)
Definition filesystem_get_range (key : str) (start : Z) (end_ : option Z)
  : M Error FileSystem (option bytes) :=
  let path := path_for key in
  do len <- unless_missing (fs_open_len path) ;;
  match len with
  | None => ret None
  | Some len =>
      if len <=? start then ret (Some [])
      else
        let end_ := Z.min (default len end_) len in
        if end_ <? start then panic
        else do b <- io (fs_read_at path start (end_ - start)) ;; ret (Some b)
  end.

Definition filesystem_delete (key : str) : M Error FileSystem unit :=
  do _ <- unless_missing (fs_remove_file (path_for key)) ;; ret tt.

Definition filesystem_exists (key : str) : M Error FileSystem bool := fun s =>
  let '(s', r) := fs_metadata (path_for key) s in
  (s', Ok (match r with Ok _ => true | _ => false end)).

Definition filesystem_object_store : ObjectStore FileSystem := {|
  store_put := filesystem_put;
  store_get := filesystem_get;
  store_get_range := filesystem_get_range;
  store_delete := filesystem_delete;
  store_exists := filesystem_exists
|}.
End Filesystem.

(** ** The S3 store *)
Record R2Config : Type := mkR2Config {
  R2Config_endpoint : str;
  R2Config_bucket : str;
  R2Config_access_key_id : str;
  R2Config_secret_access_key : str;
  R2Config_region : str
}.

Definition is_complete (config : R2Config) : bool :=
  negb (existsb (fun text => str_eqb text [])
    [R2Config_endpoint config; R2Config_bucket config; R2Config_access_key_id config;
     R2Config_secret_access_key config; R2Config_region config]).

(** [S3ObjectStore::from_config], as the bucket of the store; the client is made
    by the SDK. *)
Definition from_config (config : R2Config) : Result str :=
  if negb (is_complete config) then Err (EConfig (lit "incomplete R2 configuration"))
  else Ok (R2Config_bucket config).

(** The requests of aws_sdk_s3 on a bucket; an error is its text with whether
    the service says that there is no such object.  The body of a GET is
    collected after it, and can fail on its own.  A ranged GET has the text of its
    Range header. *)
Class S3Client (S : Type) : Type := {
  put_object : str -> str -> bytes -> M IoError S unit;
  head_object : str -> str -> M IoError S unit;
  get_object : str -> str -> M IoError S (bytes + str);
  get_object_range : str -> str -> str -> M IoError S (bytes + str);
  delete_object : str -> str -> M IoError S unit
}.

Section S3.
Context {S : Type} `{S3Client S} `{Sha256}.
Variable bucket : str.

(** [map_err(|e| Error::Storage(format!("{what} failed: {e}")))]. *)
Definition s3 {A} (what : str) (m : M IoError S A) : M Error S A := fun s =>
  let '(s', r) := m s in
  (s', match r with
       | Ok a => Ok a
       | Err e => Err (EStorage (what ++ lit " failed: " ++ io_text e))
       | Panic => Panic
       end).
Definition s3_found {A} (what : str) (m : M IoError S A) : M Error S (option A) := fun s =>
  let '(s', r) := m s in
  (s', match r with
       | Ok a => Ok (Some a)
       | Err e => if io_not_found e then Ok None
                  else Err (EStorage (what ++ lit " failed: " ++ io_text e))
       | Panic => Panic
       end).

Definition collect (what : str) (body : bytes + str) : Result bytes :=
  match body with
  | inl b => Ok b
  | inr e => Err (EStorage (what ++ lit " failed: " ++ e))
  end.

Definition s3_put (key : str) (b : bytes) : M Error S ObjectMetadata :=
  lift (validate_content_addressed_bytes key b) ;;;
  s3 (lit "S3 put_object") (put_object bucket key b) ;;;
  ret (mkObjectMetadata key (sha256_hex b) (Z.of_nat (length b))).

Definition s3_get (key : str) : M Error S (option bytes) :=
  do head <- s3_found (lit "S3 head_object") (head_object bucket key) ;;
  match head with
  | None => ret None
  | Some _ =>
      do output <- s3_found (lit "S3 get_object") (get_object bucket key) ;;
      match output with
      | None => ret None
      | Some body =>
          do b <- lift (collect (lit "S3 body collection") body) ;;
          lift (validate_content_addressed_bytes key b) ;;;
          ret (Some b)
      end
  end.

Definition range_header (start : Z) (last : option Z) : str :=
  lit "bytes=" ++ fmt_u start ++ lit "-" ++ match last with Some n => fmt_u n | None => [] end.

Definition s3_get_range (key : str) (start : Z) (end_ : option Z) : M Error S (option bytes) :=
  do head <- s3_found (lit "S3 head_object") (head_object bucket key) ;;
  match head with
  | None => ret None
  | Some _ =>
      let range :=
        match end_ with
        | Some end_ => if (0 <? end_) && (start <? end_)
                       then Some (range_header start (Some (end_ - 1))) else None
        | None => Some (range_header start None)
        end in
      match range with
      | None => ret (Some [])
      | Some range =>
          do body <- s3 (lit "S3 ranged get_object") (get_object_range bucket key range) ;;
          do b <- lift (collect (lit "S3 ranged body collection") body) ;;
          ret (Some b)
      end
  end.

Definition s3_delete (key : str) : M Error S unit :=
  s3 (lit "S3 delete_object") (delete_object bucket key).

Definition s3_exists (key : str) : M Error S bool :=
  do head <- s3_found (lit "S3 head_object") (head_object bucket key) ;;
  ret (is_some head).

Definition s3_object_store : ObjectStore S := {|
  store_put := s3_put;
  store_get := s3_get;
  store_get_range := s3_get_range;
  store_delete := s3_delete;
  store_exists := s3_exists
|}.
End S3.
