(* ===== verification/StoreSpecs.v ===== *)
(** * The object stores are interchangeable

    On the keys the program uses, content addresses, the file system store and
    the S3 store simulate the memory store: related states give the same answers
    and related states.  Where they differ, it is shown. *)

From stdpp Require Import base strings list gmap.
From Stdlib Require Import ZArith Lia.
From S2P Require Import Prelude RustStr Domain Protocol Storage Stores.

Local Open Scope Z_scope.

(** ** Paths *)
Lemma path_prefixes_prefix path : forall seen p,
  In p (path_prefixes seen path) -> exists r, rev seen ++ path = p ++ r.
Proof.
  induction path as [|c path IH]; intros seen p; simpl.
  - intros [<-|[]]. by exists [].
  - destruct (c =? 47); [intros [<-|Hin]; [by eexists|]|intros Hin];
      apply IH in Hin as [r E]; exists r; rewrite <- E; simpl; by rewrite <- app_assoc.
Qed.

Lemma path_prefixes_self path : forall seen, In (rev seen ++ path) (path_prefixes seen path).
Proof.
  induction path as [|c path IH]; intros seen; simpl; [rewrite app_nil_r; by left|].
  specialize (IH (c :: seen)). simpl in IH. rewrite <- app_assoc in IH. simpl in IH.
  destruct (c =? 47); [by right|done].
Qed.

Section Simulation.
Context `{Sha256}.
(** A digest is hexadecimal; all that matters is that it has no slash. *)
Hypothesis sha_no_slash : forall b, ~ In 47 (sha256_hex b).

Definition addressed (key : str) : Prop := exists t b, key = content_addressed_key t b.

Section Filesystem.
Variable root : str.

Definition root_prefix : str :=
  match root with [] => [] | _ => if ends_with [47] root then root else root ++ [47] end.

Definition type_dir (t : ObjectType) : str := root_prefix ++ ObjectType_debug t.

Lemma path_for_addressed t b :
  path_for root (content_addressed_key t b) = type_dir t ++ 47 :: sha256_hex b.
Proof.
  unfold path_for, type_dir, root_prefix.
  assert (starts_with [47] (content_addressed_key t b) = false) as -> by (by destruct t).
  unfold content_addressed_key. destruct root as [|c r]; [done|].
  destruct (ends_with [47] (c :: r)); by rewrite <- ?app_assoc.
Qed.

Lemma debug_no_slash t : ~ In 47 (ObjectType_debug t).
Proof. destruct t; vm_compute; intuition discriminate. Qed.

Lemma path_for_parent t b : path_parent (path_for root (content_addressed_key t b)) = Some (type_dir t).
Proof.
  rewrite path_for_addressed. unfold path_parent, rsplit_once. rewrite rev_app_distr. cbn [rev].
  rewrite <- app_assoc. cbn [app].
  rewrite split_once_app by (rewrite <- in_rev; apply sha_no_slash). by rewrite rev_involutive.
Qed.

Lemma path_for_inj k k' :
  addressed k -> addressed k' -> path_for root k = path_for root k' -> k = k'.
Proof.
  intros (t & b & ->) (t' & b' & ->). rewrite !path_for_addressed. unfold type_dir.
  rewrite <- !app_assoc. intros E%app_inv_head. exact E.
Qed.

(** A blob's path is no directory the store makes. *)
Lemma path_for_no_dir key t :
  addressed key -> ~ In (path_for root key) (path_prefixes [] (type_dir t)).
Proof.
  intros (t' & b & ->) Hin. apply path_prefixes_prefix in Hin as [r E]. simpl in E.
  rewrite path_for_addressed in E. unfold type_dir in E. rewrite <- !app_assoc in E.
  apply app_inv_head in E. apply (debug_no_slash t). rewrite E.
  apply in_app_iff. right. by left.
Qed.

Record fs_like (s : FileSystem) (m : MemoryObjectStore) : Prop := {
  like_faults : fs_faults s = [];
  like_sound : memory_ok m;
  like_blobs : forall key, addressed key -> fs_files s !! path_for root key = blobs m !! key;
  like_files : forall path b, fs_files s !! path = Some b ->
    exists key, addressed key /\ path = path_for root key;
  like_dirs : forall d, d ∈ fs_dirs s -> exists t, In d (path_prefixes [] (type_dir t))
}.

Definition simulates {A} (f : M Error FileSystem A) (g : M Error MemoryObjectStore A)
  (s : FileSystem) (m : MemoryObjectStore) : Prop :=
  snd (f s) = snd (g m) /\ fs_like (fst (f s)) (fst (g m)).

Lemma syscall_run {A} (c : Fs A) s m : fs_like s m -> syscall c s = c s.
Proof. intros Hl. unfold syscall. by rewrite (like_faults s m Hl). Qed.

Lemma not_dir s m key : fs_like s m -> addressed key -> is_dir s (path_for root key) = false.
Proof.
  intros Hl Hk. unfold is_dir. apply orb_false_iff. split.
  - apply bool_decide_eq_false. destruct Hk as (t & b & ->). rewrite path_for_addressed.
    by destruct (type_dir t).
  - apply bool_decide_eq_false. intros Hd. apply (like_dirs s m Hl) in Hd as [t Ht].
    by eapply path_for_no_dir.
Qed.

Lemma read_like s m key :
  fs_like s m -> addressed key ->
  fs_read (path_for root key) s =
  (s, match blobs m !! key with Some b => Ok b | None => Err enoent end).
Proof.
  intros Hl Hk. unfold fs_read. rewrite (syscall_run _ s m Hl), (like_blobs s m Hl key Hk).
  destruct (blobs m !! key); [done|]. by rewrite (not_dir s m).
Qed.

Lemma fs_get_simulates s m key :
  fs_like s m -> addressed key -> simulates (filesystem_get root key) (memory_get key) s m.
Proof.
  intros Hl Hk. unfold simulates, filesystem_get, memory_get, unless_missing, bind, gets, lift, ret.
  rewrite (read_like s m) by done. destruct (blobs m !! key) as [b|]; [|done].
  by destruct (validate_content_addressed_bytes key b).
Qed.

Lemma fs_get_range_simulates s m key start end_ :
  fs_like s m -> addressed key ->
  simulates (filesystem_get_range root key start end_) (memory_get_range key start end_) s m.
Proof.
  intros Hl Hk. unfold simulates, filesystem_get_range, memory_get_range, unless_missing, fs_open_len,
    fs_read_at, io, bind, gets, lift, ret.
  rewrite (read_like s m) by done. destruct (blobs m !! key) as [b|] eqn:E; [|done].
  unfold slice_range, slice. set (len := Z.of_nat (length b)).
  destruct (len <=? start) eqn:Hs; [done|]. apply Z.leb_gt in Hs.
  assert (Z.min (default len end_) len <= len) as Hm by lia.
  set (e := Z.min (default len end_) len) in *. rewrite (proj2 (Z.leb_le e len)) by done.
  rewrite andb_true_r. destruct (e <? start) eqn:He.
  - apply Z.ltb_lt in He. by rewrite (proj2 (Z.leb_gt start e)).
  - apply Z.ltb_ge in He. rewrite (proj2 (Z.leb_le start e)) by done.
    rewrite (read_like s m), E by done. fold len.
    by rewrite (proj2 (Z.ltb_ge len _)) by lia.
Qed.

Lemma fs_exists_simulates s m key :
  fs_like s m -> addressed key -> simulates (filesystem_exists root key) (memory_exists key) s m.
Proof.
  intros Hl Hk. unfold simulates, filesystem_exists, memory_exists, fs_metadata, gets.
  rewrite (syscall_run _ s m Hl), (like_blobs s m Hl key Hk), (not_dir s m key Hl Hk).
  by destruct (blobs m !! key).
Qed.

(** Related after a change at one key. *)
Lemma like_insert s m key b :
  fs_like s m -> (exists t, key = content_addressed_key t b) ->
  fs_like (set_file (path_for root key) b s) (mkMemoryObjectStore (<[key := b]> (blobs m))).
Proof.
  intros [Hf Ho Hb Hp Hd] [t Ht]. assert (Hk : addressed key) by (by exists t, b). split; try done.
  - intros k b'. simpl. rewrite lookup_insert. case_decide; [intros [= <-]; subst; by exists t|apply Ho].
  - intros k Hk'. simpl. destruct (decide (k = key)) as [->|Hne]; [by rewrite !lookup_insert_eq|].
    rewrite !lookup_insert_ne; [by apply Hb|done|]. intros E. apply Hne. symmetry. by apply path_for_inj.
  - intros path b'. simpl. rewrite lookup_insert. case_decide; [intros _; by exists key|apply Hp].
Qed.

Lemma like_delete s m key :
  fs_like s m -> addressed key ->
  fs_like (mkFileSystem (delete (path_for root key) (fs_files s)) (fs_dirs s) (fs_faults s))
    (mkMemoryObjectStore (delete key (blobs m))).
Proof.
  intros [Hf Ho Hb Hp Hd] Hk. split; try done.
  - intros k b. simpl. rewrite lookup_delete. case_decide; [done|apply Ho].
  - intros k Hk'. simpl. destruct (decide (k = key)) as [->|Hne]; [by rewrite !lookup_delete_eq|].
    rewrite !lookup_delete_ne; [by apply Hb|done|]. intros E. apply Hne. symmetry. by apply path_for_inj.
  - intros path b. simpl. rewrite lookup_delete. case_decide; [done|apply Hp].
Qed.

Lemma like_dir s m t :
  fs_like s m ->
  fs_like (mkFileSystem (fs_files s) (list_to_set (path_prefixes [] (type_dir t)) ∪ fs_dirs s) (fs_faults s)) m.
Proof.
  intros [Hf Ho Hb Hp Hd]. split; try done. intros d. simpl. rewrite elem_of_union, elem_of_list_to_set.
  intros [Hin%list_elem_of_In|Hin]; [by exists t|by apply Hd].
Qed.

Lemma fs_delete_simulates s m key :
  fs_like s m -> addressed key -> simulates (filesystem_delete root key) (memory_delete key) s m.
Proof.
  intros Hl Hk. unfold simulates, filesystem_delete, memory_delete, unless_missing, fs_remove_file, bind.
  rewrite (syscall_run _ s m Hl), (like_blobs s m Hl key Hk).
  destruct (blobs m !! key) as [b|] eqn:E.
  - split; [done|]. by apply like_delete.
  - rewrite (not_dir s m key Hl Hk). split; [done|]. simpl.
    assert (delete key (blobs m) = blobs m) as -> by (by apply delete_id). by destruct m.
Qed.

Lemma create_dir_like s m t :
  fs_like s m ->
  fs_create_dir_all (type_dir t) s =
  (mkFileSystem (fs_files s) (list_to_set (path_prefixes [] (type_dir t)) ∪ fs_dirs s) (fs_faults s), Ok tt).
Proof.
  intros Hl. unfold fs_create_dir_all. rewrite (syscall_run _ s m Hl).
  destruct (existsb _ _) eqn:E; [|done]. apply existsb_exists in E as (p & Hin & Hp).
  destruct (fs_files s !! p) as [b|] eqn:Ep; [|done].
  apply (like_files s m Hl) in Ep as (key & Hk & ->). by apply path_for_no_dir in Hin.
Qed.

Lemma fs_put_simulates s m key b :
  fs_like s m -> simulates (filesystem_put root key b) (memory_put key b) s m.
Proof.
  intros Hl. unfold simulates, filesystem_put, memory_put. unfold bind at 1 5, lift.
  destruct (validate_content_addressed_bytes key b) as [[]|e|] eqn:Ev; [|done|done].
  apply validate_iff in Ev as [t ->]. rewrite path_for_parent. unfold io, bind.
  rewrite (create_dir_like s m) by done. unfold fs_create, fs_write.
  set (s1 := mkFileSystem _ _ _). assert (Hl1 : fs_like s1 m) by (by apply like_dir).
  assert (Hk : addressed (content_addressed_key t b)) by (by eexists _, _).
  rewrite (syscall_run _ s1 m Hl1), (not_dir s1 m _ Hl1 Hk), path_for_parent.
  change (default [] (Some (type_dir t))) with (type_dir t).
  assert (is_dir s1 (type_dir t) = true) as ->.
  { unfold is_dir. apply orb_true_iff. right. apply bool_decide_eq_true. simpl.
    apply elem_of_union. left. apply elem_of_list_to_set, list_elem_of_In.
    apply (path_prefixes_self (type_dir t) []). }
  set (p := path_for root (content_addressed_key t b)).
  assert (Hw : syscall (modify (set_file p b)) (set_file p [] s1) = (set_file p b s1, Ok tt)).
  { unfold syscall, modify. cbn [set_file fs_faults]. rewrite (like_faults s1 m Hl1).
    unfold set_file. cbn [fs_files fs_dirs fs_faults]. by rewrite insert_insert_eq. }
  rewrite Hw. split; [done|]. apply like_insert; [done|]. by eexists.
Qed.

(** C34 The file system store and the memory store are interchangeable: without
    I/O errors, from related states and on the content addresses the program
    uses as keys, every operation answers the same, errors and panics included,
    and leaves related states. *)
Theorem filesystem_store_is_memory_store s m key b start end_ :
  fs_like s m -> addressed key ->
  simulates (filesystem_put root key b) (memory_put key b) s m /\
  simulates (filesystem_get root key) (memory_get key) s m /\
  simulates (filesystem_get_range root key start end_) (memory_get_range key start end_) s m /\
  simulates (filesystem_delete root key) (memory_delete key) s m /\
  simulates (filesystem_exists root key) (memory_exists key) s m.
Proof.
  intros Hl Hk. split_and!; [by apply fs_put_simulates|by apply fs_get_simulates
    |by apply fs_get_range_simulates|by apply fs_delete_simulates|by apply fs_exists_simulates].
Qed.
End Filesystem.

(** ** S3

    The documented behaviour of the requests when the service is well: an object
    is what was put last, HEAD and GET of a missing one say so, a Range header
    inside the object gives its bytes, one behind its end is an error. *)
Class S3Laws (S : Type) `{S3Client S} : Type := {
  s3_objects : S -> str -> gmap str bytes;
  law_put_object : forall bucket key b s, exists s',
    put_object bucket key b s = (s', Ok tt) /\ s3_objects s' bucket = <[key := b]> (s3_objects s bucket);
  law_head_found : forall bucket key b s,
    s3_objects s bucket !! key = Some b -> head_object bucket key s = (s, Ok tt);
  law_head_missing : forall bucket key s,
    s3_objects s bucket !! key = None ->
    exists e, head_object bucket key s = (s, Err e) /\ io_not_found e = true;
  law_get_object : forall bucket key b s,
    s3_objects s bucket !! key = Some b -> get_object bucket key s = (s, Ok (inl b));
  law_range : forall bucket key b s start last,
    s3_objects s bucket !! key = Some b -> 0 <= start < Z.of_nat (length b) ->
    (forall n, last = Some n -> start <= n <= u64_max) -> start <= u64_max ->
    get_object_range bucket key (range_header start last) s =
    (s, Ok (inl (take (Z.to_nat (match last with Some n => n - start + 1
                                 | None => Z.of_nat (length b) end)) (drop (Z.to_nat start) b))));
  law_range_behind : forall bucket key b s start last,
    s3_objects s bucket !! key = Some b -> Z.of_nat (length b) <= start <= u64_max ->
    (forall n, last = Some n -> start <= n <= u64_max) ->
    exists e, get_object_range bucket key (range_header start last) s = (s, Err e);
  law_delete_object : forall bucket key s, exists s',
    delete_object bucket key s = (s', Ok tt) /\ s3_objects s' bucket = delete key (s3_objects s bucket)
}.

Section S3.
Context {S : Type} `{S3Laws S}.
Variable bucket : str.

Definition s3_like (s : S) (m : MemoryObjectStore) : Prop :=
  s3_objects s bucket = blobs m /\ memory_ok m.

Definition s3_simulates {A} (f : M Error S A) (g : M Error MemoryObjectStore A) (s : S)
  (m : MemoryObjectStore) : Prop :=
  snd (f s) = snd (g m) /\ s3_like (fst (f s)) (fst (g m)).

Lemma s3_head s m key :
  s3_like s m ->
  s3_found (lit "S3 head_object") (head_object bucket key) s =
  (s, Ok (const tt <$> blobs m !! key)).
Proof.
  intros [Ho _]. unfold s3_found. destruct (blobs m !! key) as [b|] eqn:E; rewrite <- Ho in E.
  - by rewrite (law_head_found bucket key b).
  - destruct (law_head_missing bucket key s E) as (e & -> & ->). done.
Qed.

Lemma s3_put_simulates s m key b :
  s3_like s m -> s3_simulates (s3_put bucket key b) (memory_put key b) s m.
Proof.
  intros [Ho Hok]. unfold s3_simulates, s3_put, memory_put, s3, bind, lift.
  destruct (validate_content_addressed_bytes key b) as [[]|e|] eqn:Ev; [|done|done].
  destruct (law_put_object bucket key b s) as (s' & -> & Hs'). split; [done|]. split.
  - simpl. by rewrite Hs', Ho.
  - intros k b'. simpl. rewrite lookup_insert. case_decide; [|apply Hok].
    intros [= <-]. subst. by apply validate_iff in Ev.
Qed.

Lemma s3_get_simulates s m key :
  s3_like s m -> s3_simulates (s3_get bucket key) (memory_get key) s m.
Proof.
  intros Hl. unfold s3_simulates, s3_get, memory_get.
  rewrite (bind_Ok _ _ _ _ _ (s3_head s m key Hl)). unfold gets, bind.
  destruct (blobs m !! key) as [b|] eqn:E; [|done].
  destruct Hl as [Ho Hok]. simpl. unfold s3_found. rewrite (law_get_object bucket key b) by (by rewrite Ho).
  simpl. unfold lift. by destruct (validate_content_addressed_bytes key b).
Qed.

Lemma s3_delete_simulates s m key :
  s3_like s m -> s3_simulates (s3_delete bucket key) (memory_delete key) s m.
Proof.
  intros [Ho Hok]. unfold s3_simulates, s3_delete, memory_delete, s3.
  destruct (law_delete_object bucket key s) as (s' & -> & Hs'). split; [done|]. split.
  - simpl. by rewrite Hs', Ho.
  - intros k b. simpl. rewrite lookup_delete. case_decide; [done|apply Hok].
Qed.

Lemma s3_exists_simulates s m key :
  s3_like s m -> s3_simulates (s3_exists bucket key) (memory_exists key) s m.
Proof.
  intros Hl. unfold s3_simulates, s3_exists, memory_exists, bind, gets.
  rewrite (s3_head s m key Hl). by destruct (blobs m !! key).
Qed.

(** The range starts inside the blob and does not end before it starts. *)
Definition range_inside (m : MemoryObjectStore) (key : str) (start : Z) (end_ : option Z) : Prop :=
  0 <= start <= u64_max /\ (forall b, blobs m !! key = Some b -> start < Z.of_nat (length b)) /\
  (forall n, end_ = Some n -> start <= n <= u64_max).

Lemma s3_get_range_simulates s m key start end_ :
  s3_like s m -> range_inside m key start end_ ->
  s3_simulates (s3_get_range bucket key start end_) (memory_get_range key start end_) s m.
Proof.
  intros Hl ([Hs0 Hmax] & Hlen & Hend). unfold s3_simulates, s3_get_range, memory_get_range.
  rewrite (bind_Ok _ _ _ _ _ (s3_head s m key Hl)).
  rewrite (bind_Ok (gets (fun m => blobs m !! key)) _ m m (blobs m !! key) eq_refl).
  destruct (blobs m !! key) as [b|] eqn:E; [|done]. specialize (Hlen b eq_refl).
  destruct Hl as [Ho Hok]. pose proof E as E'. rewrite <- Ho in E'.
  simpl. unfold bind, lift. rewrite slice_range_ok; [|done|intros n Hn; by apply Hend].
  destruct end_ as [n|].
  - specialize (Hend n eq_refl). destruct ((0 <? n) && (start <? n)) eqn:Hn.
    + apply andb_prop in Hn as [_ Hn%Z.ltb_lt]. unfold s3.
      rewrite (law_range bucket key b s start (Some (n - 1))); [|done|done| |done].
      * simpl. split; [|done]. by replace (n - 1 - start + 1) with (n - start) by lia.
      * intros k [= <-]. lia.
    + assert (n = start) as -> by (apply andb_false_iff in Hn as [Hn|Hn]; apply Z.ltb_ge in Hn; lia).
      split; [|done]. simpl. by rewrite Z.sub_diag.
  - unfold s3. rewrite (law_range bucket key b s start None); [|done|done|done|done].
    simpl. split; [|done]. do 2 f_equal. rewrite !take_ge; [done| |]; rewrite length_drop; lia.
Qed.

(** C35 The S3 store and the memory store are interchangeable where the service
    keeps its documented behaviour: from related states every operation answers
    the same and leaves related states, ranged reads as long as the range starts
    inside the blob and is not inverted. *)
Theorem s3_store_is_memory_store s m key b start end_ :
  s3_like s m -> range_inside m key start end_ ->
  s3_simulates (s3_put bucket key b) (memory_put key b) s m /\
  s3_simulates (s3_get bucket key) (memory_get key) s m /\
  s3_simulates (s3_get_range bucket key start end_) (memory_get_range key start end_) s m /\
  s3_simulates (s3_delete bucket key) (memory_delete key) s m /\
  s3_simulates (s3_exists bucket key) (memory_exists key) s m.
Proof.
  intros Hl Hr. split_and!; [by apply s3_put_simulates|by apply s3_get_simulates
    |by apply s3_get_range_simulates|by apply s3_delete_simulates|by apply s3_exists_simulates].
Qed.

(** A range that starts behind the blob is an error here and empty bytes in the
    other stores. *)
Lemma s3_range_behind s m key b start end_ :
  s3_like s m -> blobs m !! key = Some b -> Z.of_nat (length b) <= start <= u64_max ->
  (forall n, end_ = Some n -> start < n <= u64_max) ->
  (exists e, s3_get_range bucket key start end_ s = (s, Err (EStorage e))) /\
  memory_get_range key start end_ m = (m, Ok (Some [])).
Proof.
  intros Hl E Hs Hend. split.
  - unfold s3_get_range. rewrite (bind_Ok _ _ _ _ _ (s3_head s m key Hl)), E.
    change (const tt <$> Some b) with (Some tt). destruct Hl as [Ho _].
    rewrite <- Ho in E.
    assert (Hr : forall last, (forall n, last = Some n -> start <= n <= u64_max) -> exists e,
      s3 (lit "S3 ranged get_object") (get_object_range bucket key (range_header start last)) s =
      (s, Err (EStorage e))).
    { intros last Hlast. destruct (law_range_behind bucket key b s start last E Hs Hlast) as [e He].
      unfold s3. rewrite He. by eexists. }
    destruct end_ as [n|]; [specialize (Hend n eq_refl)|].
    + rewrite (proj2 (Z.ltb_lt 0 n)), (proj2 (Z.ltb_lt start n)) by lia. cbn [andb].
      destruct (Hr (Some (n - 1))) as [e He]; [intros k [= <-]; lia|]. exists e. unfold bind. by rewrite He.
    + destruct (Hr None) as [e He]; [done|]. exists e. unfold bind. by rewrite He.
  - unfold memory_get_range, bind, gets, lift. rewrite E. unfold slice_range.
    by rewrite (proj2 (Z.leb_le _ start)) by lia.
Qed.
End S3.
End Simulation.

(** ** Concrete stores *)
Module StoresWitness.
#[local] Instance sha : Sha256 := { sha256_hex := fun b => fmt_u (Z.of_nat (length b)) }.
Lemma digest_no_slash b : ~ In 47 (sha256_hex b).
Proof. intros Hin. apply fmt_u_char in Hin. lia. Qed.

Definition blob : bytes := lit "hello".
Definition blob_key : str := content_addressed_key Rfc822 blob.
Definition root : str := lit "./data/blob".
Definition no_files : FileSystem := mkFileSystem ∅ ∅ [].
Definition disk : FileSystem := fst (filesystem_put root blob_key blob no_files).
Definition memory : MemoryObjectStore := fst (memory_put blob_key blob (mkMemoryObjectStore ∅)).

Lemma blob_addressed : addressed blob_key.
Proof. by exists Rfc822, blob. Qed.
Lemma disk_like_memory : fs_like root disk memory.
Proof.
  refine (proj2 (fs_put_simulates digest_no_slash root no_files (mkMemoryObjectStore ∅) blob_key blob _)).
  split; done.
Qed.

Lemma filesystem_store_is_memory_store_witness :
  simulates root (filesystem_put root blob_key blob) (memory_put blob_key blob) disk memory /\
  simulates root (filesystem_get root blob_key) (memory_get blob_key) disk memory /\
  simulates root (filesystem_get_range root blob_key 1 (Some 3)) (memory_get_range blob_key 1 (Some 3))
    disk memory /\
  simulates root (filesystem_delete root blob_key) (memory_delete blob_key) disk memory /\
  simulates root (filesystem_exists root blob_key) (memory_exists blob_key) disk memory.
Proof.
  apply (filesystem_store_is_memory_store digest_no_slash root disk memory blob_key blob 1 (Some 3)
           disk_like_memory blob_addressed).
Defined.

(** A write that fails leaves an empty file under the key: from then on [get] is
    an error, not a miss, and [get_range] answers empty bytes without one. *)
Definition torn : FileSystem :=
  fst (filesystem_put root blob_key blob (mkFileSystem ∅ ∅ [None; None; Some (lit "disk full")])).
Example torn_write :
  snd (filesystem_put root blob_key blob (mkFileSystem ∅ ∅ [None; None; Some (lit "disk full")])) =
    Err (EIo (lit "disk full")) /\
  snd (filesystem_get root blob_key torn) =
    Err (EStorage (lit "content hash mismatch for Rfc822/5: expected 5, got 0")) /\
  snd (filesystem_get_range root blob_key 0 (Some 5) torn) = Ok (Some []).
Proof. vm_compute. split_and!; reflexivity. Qed.

(** An S3 service: the objects by bucket and key. *)
Abbreviation Buckets := (gmap str (gmap str bytes)).
Definition objects (s : Buckets) (bucket : str) : gmap str bytes := default ∅ (s !! bucket).
Definition no_such_key : IoError := mkIoError true (lit "NoSuchKey").

(** A Range header, as its first byte and its last. *)
Definition parse_range (header : str) : option (Z * option Z) :=
  text ← strip_prefix (lit "bytes=") header;
  '(first, last) ← split_once 45 text;
  start ← parse_u64 first;
  match last with [] => Some (start, None) | _ => (fun n => (start, Some n)) <$> parse_u64 last end.

Definition on_object {A} (bucket key : str) (k : bytes -> outcome IoError A) : M IoError Buckets A :=
  fun s => (s, match objects s bucket !! key with Some b => k b | None => Err no_such_key end).

#[local] Instance service : S3Client Buckets := {
  put_object := fun bucket key b s => (<[bucket := <[key := b]> (objects s bucket)]> s, Ok tt);
  head_object := fun bucket key => on_object bucket key (fun _ => Ok tt);
  get_object := fun bucket key => on_object bucket key (fun b => Ok (inl b));
  get_object_range := fun bucket key header => on_object bucket key (fun b =>
    match parse_range header with
    | Some (start, last) =>
        if Z.of_nat (length b) <=? start then Err (mkIoError false (lit "InvalidRange"))
        else Ok (inl (take (Z.to_nat (match last with Some n => n - start + 1
                                      | None => Z.of_nat (length b) end)) (drop (Z.to_nat start) b)))
    | None => Ok (inl b)
    end);
  delete_object := fun bucket key s => (<[bucket := delete key (objects s bucket)]> s, Ok tt)
}.

Lemma parse_range_header start last :
  0 <= start <= u64_max -> (forall n, last = Some n -> 0 <= n <= u64_max) ->
  parse_range (range_header start last) = Some (start, last).
Proof.
  intros Hs Hl. unfold parse_range, range_header. rewrite strip_prefix_app. cbn [mbind option_bind].
  change (lit "-") with [45]. cbn [app].
  rewrite split_once_app by (intros Hin; apply fmt_u_char in Hin; lia). cbn [mbind option_bind].
  rewrite parse_u64_fmt_u by done. cbn [mbind option_bind]. destruct last as [n|]; [|done].
  specialize (Hl n eq_refl). pose proof (parse_u64_fmt_u n Hl) as Hn.
  destruct (fmt_u n); [done|]. by rewrite Hn.
Qed.

#[local] Instance service_laws : S3Laws Buckets.
Proof.
  refine {| s3_objects := objects |}.
  - intros bucket key b s. eexists. split; [done|]. cbn [fst]. unfold objects. by rewrite lookup_insert_eq.
  - intros bucket key b s E. simpl. unfold on_object. by rewrite E.
  - intros bucket key s E. exists no_such_key. simpl. unfold on_object. by rewrite E.
  - intros bucket key b s E. simpl. unfold on_object. by rewrite E.
  - intros bucket key b s start last E Hs Hl Hm. simpl. unfold on_object.
    rewrite E, parse_range_header; [|lia|intros n Hn; specialize (Hl n Hn); lia].
    by rewrite (proj2 (Z.leb_gt _ start)) by lia.
  - intros bucket key b s start last E Hs Hl. eexists. simpl. unfold on_object.
    rewrite E, parse_range_header; [|lia|intros n Hn; specialize (Hl n Hn); lia].
    by rewrite (proj2 (Z.leb_le _ start)) by lia.
  - intros bucket key s. eexists. split; [done|]. cbn [fst]. unfold objects. by rewrite lookup_insert_eq.
Defined.

Definition mail : str := lit "mail".
Definition cloud : Buckets := fst (s3_put mail blob_key blob ∅).

Lemma cloud_like_memory : s3_like mail cloud memory.
Proof. refine (proj2 (s3_put_simulates mail ∅ (mkMemoryObjectStore ∅) blob_key blob _)). by split. Qed.

Lemma blob_range_inside : range_inside memory blob_key 1 (Some 3).
Proof.
  split; [vm_compute; split; discriminate|]. split.
  - intros b. vm_compute. by intros [= <-].
  - intros n [= <-]. vm_compute. split; discriminate.
Qed.

Lemma s3_store_is_memory_store_witness :
  s3_simulates mail (s3_put mail blob_key blob) (memory_put blob_key blob) cloud memory /\
  s3_simulates mail (s3_get mail blob_key) (memory_get blob_key) cloud memory /\
  s3_simulates mail (s3_get_range mail blob_key 1 (Some 3)) (memory_get_range blob_key 1 (Some 3))
    cloud memory /\
  s3_simulates mail (s3_delete mail blob_key) (memory_delete blob_key) cloud memory /\
  s3_simulates mail (s3_exists mail blob_key) (memory_exists blob_key) cloud memory.
Proof.
  exact (s3_store_is_memory_store mail cloud memory blob_key blob 1 (Some 3) cloud_like_memory
           blob_range_inside).
Defined.
End StoresWitness.
