(* ===== verification/Config.v ===== *)
(** * Configuration

    Models crates/config/src/lib.rs: the defaults, the configuration file and the
    environment, one over the other, with their errors.  The environment, the
    file system, TOML and the parser of socket addresses are the class [System];
    a socket address is its text, a path the text or the bytes it is given by. *)

From stdpp Require Import base strings list.
From Stdlib Require Import ZArith Lia.
From S2P Require Import Prelude RustStr Domain.

Local Open Scope Z_scope.

(** An [OsString]: text, or bytes that are not UTF-8. *)
Definition OsString : Type := str + bytes.
Definition SocketAddr : Type := str.

Record FileConfig : Type := mkFileConfig {
  FileConfig_app_env : option str;
  FileConfig_app_base_url : option str;
  FileConfig_log_level : option str;
  FileConfig_encryption_master_key : option str;
  FileConfig_imap_plaintext_bind : option str;
  FileConfig_imap_tls_bind : option str;
  FileConfig_imap_tls_cert_path : option str;
  FileConfig_imap_tls_key_path : option str;
  FileConfig_http_bind : option str;
  FileConfig_metrics_bind : option str;
  FileConfig_database_url : option str;
  FileConfig_redis_url : option str;
  FileConfig_r2_endpoint : option str;
  FileConfig_r2_bucket : option str;
  FileConfig_r2_access_key_id : option str;
  FileConfig_r2_secret_access_key : option str;
  FileConfig_r2_region : option str;
  FileConfig_object_store_path : option str;
  FileConfig_search_index_path : option str;
  FileConfig_max_literal_size_bytes : option Z;
  FileConfig_max_message_size_bytes : option Z;
  FileConfig_default_account_quota_bytes : option Z;
  FileConfig_cache_eviction_keep_latest_objects : option Z;
  FileConfig_sync_concurrency : option Z;
  FileConfig_idle_timeout_seconds : option Z;
  FileConfig_upstream_connection_limit_per_account : option Z;
  FileConfig_login_rate_limit_failures : option Z;
  FileConfig_login_rate_limit_lockout_seconds : option Z;
  FileConfig_bootstrap_imap_username : option str;
  FileConfig_bootstrap_imap_password_hash : option str;
  FileConfig_bootstrap_imap_password : option str
}.

Record Config : Type := mkConfig {
  Config_app_env : str;
  Config_app_base_url : str;
  Config_log_level : str;
  Config_encryption_master_key : str;
  Config_imap_plaintext_bind : option SocketAddr;
  Config_imap_tls_bind : option SocketAddr;
  Config_imap_tls_cert_path : option OsString;
  Config_imap_tls_key_path : option OsString;
  Config_http_bind : option SocketAddr;
  Config_metrics_bind : option SocketAddr;
  Config_database_url : option str;
  Config_redis_url : option str;
  Config_r2_endpoint : option str;
  Config_r2_bucket : option str;
  Config_r2_access_key_id : option str;
  Config_r2_secret_access_key : option str;
  Config_r2_region : str;
  Config_object_store_path : option OsString;
  Config_search_index_path : option OsString;
  Config_max_literal_size_bytes : Z;
  Config_max_message_size_bytes : Z;
  Config_default_account_quota_bytes : Z;
  Config_cache_eviction_keep_latest_objects : Z;
  Config_sync_concurrency : Z;
  Config_idle_timeout_seconds : Z;
  Config_upstream_connection_limit_per_account : Z;
  Config_login_rate_limit_failures : Z;
  Config_login_rate_limit_lockout_seconds : Z;
  Config_bootstrap_imap_username : option str;
  Config_bootstrap_imap_password_hash : option str;
  Config_bootstrap_imap_password : option str
}.

(** [env::var_os], [SocketAddr::from_str], [Path::exists], [fs::read_to_string]
    and [toml::from_str]; a parser gives its result or the text of its error. *)
Class System : Type := {
  var_os : str -> option OsString;
  parse_addr : str -> SocketAddr + str;
  path_exists : OsString -> bool;
  read_to_string : OsString -> str + str;
  toml_from_str : str -> FileConfig + str
}.

Section Load.
Context `{System}.

(** ** Layers *)

(** [env::var(name).ok()]: a value that is not UTF-8 counts as none. *)
Definition env_var (name : str) : option str :=
  match var_os name with Some (inl value) => Some value | _ => None end.

(** [value.or_else(|| lower)], for texts, optional texts and paths. *)
Definition over {A} (upper : option A) (lower : A) : A := default lower upper.
Definition over_opt {A} (upper lower : option A) : option A :=
  match upper with Some _ => upper | None => lower end.

Definition env_or (name default_ : str) : str := over (env_var name) default_.

Definition parse_or {A} (parse : str -> A + str) (name : str) (text : option str) (lower : A)
  : Result A :=
  match text with
  | Some value =>
      match parse value with
      | inl a => Ok a
      | inr e => Err (EConfig (lit "invalid " ++ name ++ lit ": " ++ e))
      end
  | None => Ok lower
  end.

(** [env_num::<T>] of an unsigned type with the maximum [max]. *)
Definition env_num (max : Z) (name : str) (default_ : Z) : Result Z :=
  parse_or (parse_uint max) name (env_var name) default_.

Definition parse_bind (value : str) : option SocketAddr + str :=
  match parse_addr value with inl a => inl (Some a) | inr e => inr e end.

Definition parse_socket (name : str) (default_ : option SocketAddr) : Result (option SocketAddr) :=
  parse_or parse_bind name (env_var name) default_.

(** ** The defaults *)
Definition default_bind (text : str) : option SocketAddr :=
  match parse_addr text with inl a => Some a | inr _ => None end.
Definition path (text : str) : OsString := inl text.

Definition Config_default : Config :=
  mkConfig (lit "development") (lit "http://localhost:8080") (lit "debug")
    (lit "change-me-32-bytes-minimum")
    (default_bind (lit "0.0.0.0:1143")) (default_bind (lit "0.0.0.0:1993"))
    (Some (path (lit "/certs/imap.crt"))) (Some (path (lit "/certs/imap.key")))
    (default_bind (lit "0.0.0.0:8080")) None
    None None None None None None (lit "auto")
    (Some (path (lit "./data/blob"))) (Some (path (lit "./data/search")))
    (50 * 1024 * 1024) (100 * 1024 * 1024) (10 * 1024 * 1024 * 1024) 0 4 1740 2 5 60
    None None None.

(** ** The file *)
Definition file_bind (name : str) (value : option str) (lower : option SocketAddr)
  : Result (option SocketAddr) :=
  parse_or parse_bind name value lower.

Definition apply_file_config (c : Config) (f : FileConfig) : Result Config :=
  try! imap_plaintext_bind <- file_bind (lit "imap_plaintext_bind")
    (FileConfig_imap_plaintext_bind f) (Config_imap_plaintext_bind c) ;;
  try! imap_tls_bind <- file_bind (lit "imap_tls_bind")
    (FileConfig_imap_tls_bind f) (Config_imap_tls_bind c) ;;
  try! http_bind <- file_bind (lit "http_bind") (FileConfig_http_bind f) (Config_http_bind c) ;;
  try! metrics_bind <- file_bind (lit "metrics_bind")
    (FileConfig_metrics_bind f) (Config_metrics_bind c) ;;
  Ok (mkConfig
    (over (FileConfig_app_env f) (Config_app_env c))
    (over (FileConfig_app_base_url f) (Config_app_base_url c))
    (over (FileConfig_log_level f) (Config_log_level c))
    (over (FileConfig_encryption_master_key f) (Config_encryption_master_key c))
    imap_plaintext_bind imap_tls_bind
    (over_opt (path <$> FileConfig_imap_tls_cert_path f) (Config_imap_tls_cert_path c))
    (over_opt (path <$> FileConfig_imap_tls_key_path f) (Config_imap_tls_key_path c))
    http_bind metrics_bind
    (over_opt (FileConfig_database_url f) (Config_database_url c))
    (over_opt (FileConfig_redis_url f) (Config_redis_url c))
    (over_opt (FileConfig_r2_endpoint f) (Config_r2_endpoint c))
    (over_opt (FileConfig_r2_bucket f) (Config_r2_bucket c))
    (over_opt (FileConfig_r2_access_key_id f) (Config_r2_access_key_id c))
    (over_opt (FileConfig_r2_secret_access_key f) (Config_r2_secret_access_key c))
    (over (FileConfig_r2_region f) (Config_r2_region c))
    (over_opt (path <$> FileConfig_object_store_path f) (Config_object_store_path c))
    (over_opt (path <$> FileConfig_search_index_path f) (Config_search_index_path c))
    (over (FileConfig_max_literal_size_bytes f) (Config_max_literal_size_bytes c))
    (over (FileConfig_max_message_size_bytes f) (Config_max_message_size_bytes c))
    (over (FileConfig_default_account_quota_bytes f) (Config_default_account_quota_bytes c))
    (over (FileConfig_cache_eviction_keep_latest_objects f)
       (Config_cache_eviction_keep_latest_objects c))
    (over (FileConfig_sync_concurrency f) (Config_sync_concurrency c))
    (over (FileConfig_idle_timeout_seconds f) (Config_idle_timeout_seconds c))
    (over (FileConfig_upstream_connection_limit_per_account f)
       (Config_upstream_connection_limit_per_account c))
    (over (FileConfig_login_rate_limit_failures f) (Config_login_rate_limit_failures c))
    (over (FileConfig_login_rate_limit_lockout_seconds f)
       (Config_login_rate_limit_lockout_seconds c))
    (over_opt (FileConfig_bootstrap_imap_username f) (Config_bootstrap_imap_username c))
    (over_opt (FileConfig_bootstrap_imap_password_hash f) (Config_bootstrap_imap_password_hash c))
    (over_opt (FileConfig_bootstrap_imap_password f) (Config_bootstrap_imap_password c))).

(** ** The environment *)
Definition apply_env (c : Config) : Result Config :=
  try! imap_plaintext_bind <- parse_socket (lit "IMAP_PLAINTEXT_BIND") (Config_imap_plaintext_bind c) ;;
  try! imap_tls_bind <- parse_socket (lit "IMAP_TLS_BIND") (Config_imap_tls_bind c) ;;
  try! http_bind <- parse_socket (lit "HTTP_BIND") (Config_http_bind c) ;;
  try! metrics_bind <- parse_socket (lit "METRICS_BIND") (Config_metrics_bind c) ;;
  try! max_literal <- env_num u64_max (lit "MAX_LITERAL_SIZE_BYTES") (Config_max_literal_size_bytes c) ;;
  try! max_message <- env_num u64_max (lit "MAX_MESSAGE_SIZE_BYTES") (Config_max_message_size_bytes c) ;;
  try! quota <- env_num u64_max (lit "DEFAULT_ACCOUNT_QUOTA_BYTES")
    (Config_default_account_quota_bytes c) ;;
  try! keep_latest <- env_num u64_max (lit "CACHE_EVICTION_KEEP_LATEST_OBJECTS")
    (Config_cache_eviction_keep_latest_objects c) ;;
  try! concurrency <- env_num u64_max (lit "SYNC_CONCURRENCY") (Config_sync_concurrency c) ;;
  try! idle_timeout <- env_num u64_max (lit "IDLE_TIMEOUT_SECONDS") (Config_idle_timeout_seconds c) ;;
  try! connection_limit <- env_num u64_max (lit "UPSTREAM_CONNECTION_LIMIT_PER_ACCOUNT")
    (Config_upstream_connection_limit_per_account c) ;;
  try! failures <- env_num u32_max (lit "LOGIN_RATE_LIMIT_FAILURES")
    (Config_login_rate_limit_failures c) ;;
  try! lockout <- env_num u64_max (lit "LOGIN_RATE_LIMIT_LOCKOUT_SECONDS")
    (Config_login_rate_limit_lockout_seconds c) ;;
  Ok (mkConfig
    (env_or (lit "APP_ENV") (Config_app_env c))
    (env_or (lit "APP_BASE_URL") (Config_app_base_url c))
    (env_or (lit "LOG_LEVEL") (Config_log_level c))
    (env_or (lit "ENCRYPTION_MASTER_KEY") (Config_encryption_master_key c))
    imap_plaintext_bind imap_tls_bind
    (over_opt (var_os (lit "IMAP_TLS_CERT_PATH")) (Config_imap_tls_cert_path c))
    (over_opt (var_os (lit "IMAP_TLS_KEY_PATH")) (Config_imap_tls_key_path c))
    http_bind metrics_bind
    (over_opt (env_var (lit "DATABASE_URL")) (Config_database_url c))
    (over_opt (env_var (lit "REDIS_URL")) (Config_redis_url c))
    (over_opt (env_var (lit "R2_ENDPOINT")) (Config_r2_endpoint c))
    (over_opt (env_var (lit "R2_BUCKET")) (Config_r2_bucket c))
    (over_opt (env_var (lit "R2_ACCESS_KEY_ID")) (Config_r2_access_key_id c))
    (over_opt (env_var (lit "R2_SECRET_ACCESS_KEY")) (Config_r2_secret_access_key c))
    (env_or (lit "R2_REGION") (Config_r2_region c))
    (over_opt (var_os (lit "OBJECT_STORE_PATH")) (Config_object_store_path c))
    (over_opt (var_os (lit "SEARCH_INDEX_PATH")) (Config_search_index_path c))
    max_literal max_message quota keep_latest concurrency idle_timeout connection_limit failures lockout
    (over_opt (env_var (lit "BOOTSTRAP_IMAP_USERNAME")) (Config_bootstrap_imap_username c))
    (over_opt (env_var (lit "BOOTSTRAP_IMAP_PASSWORD_HASH")) (Config_bootstrap_imap_password_hash c))
    (over_opt (env_var (lit "BOOTSTRAP_IMAP_PASSWORD")) (Config_bootstrap_imap_password c))).

(** ** Loading *)
Definition read_file_config (path : OsString) : Result FileConfig :=
  match read_to_string path with
  | inr e => Err (EIo e)
  | inl text => match toml_from_str text with inl f => Ok f | inr e => Err (ETomlDe e) end
  end.

Definition load (config_path : option OsString) : Result Config :=
  let config := Config_default in
  let config_path := over_opt config_path (var_os (lit "APP_CONFIG_PATH")) in
  try! config <- match config_path with
                 | Some path =>
                     if path_exists path then
                       try! file_config <- read_file_config path ;;
                       apply_file_config config file_config
                     else Ok config
                 | None => Ok config
                 end ;;
  apply_env config.

Definition tls_material_configured (c : Config) : bool :=
  let there p := match p with Some path => path_exists path | None => false end in
  there (Config_imap_tls_cert_path c) && there (Config_imap_tls_key_path c).

(** ** The layers, setting by setting *)
Definition no_file : FileConfig :=
  mkFileConfig None None None None None None None None None None None None None None None None
    None None None None None None None None None None None None None None None.

(** The settings of the file in use: none when no file is named or it is not there. *)
Definition file_settings (config_path : option OsString) : Result FileConfig :=
  match over_opt config_path (var_os (lit "APP_CONFIG_PATH")) with
  | Some path => if path_exists path then read_file_config path else Ok no_file
  | None => Ok no_file
  end.

(** A value parsed from the text that is there, else the lower layer's. *)
Definition parsed {A} (parse : str -> A + str) (text : option str) (lower : A) : option A :=
  match text with
  | Some value => match parse value with inl a => Some a | inr _ => None end
  | None => Some lower
  end.

(** The variable of the environment, the field of the file and the field of the
    configuration of every setting, by the way its value is read. *)
Definition text_settings : list (str * (FileConfig -> option str) * (Config -> str)) :=
  [(lit "APP_ENV", FileConfig_app_env, Config_app_env);
   (lit "APP_BASE_URL", FileConfig_app_base_url, Config_app_base_url);
   (lit "LOG_LEVEL", FileConfig_log_level, Config_log_level);
   (lit "ENCRYPTION_MASTER_KEY", FileConfig_encryption_master_key, Config_encryption_master_key);
   (lit "R2_REGION", FileConfig_r2_region, Config_r2_region)].

Definition optional_settings : list (str * (FileConfig -> option str) * (Config -> option str)) :=
  [(lit "DATABASE_URL", FileConfig_database_url, Config_database_url);
   (lit "REDIS_URL", FileConfig_redis_url, Config_redis_url);
   (lit "R2_ENDPOINT", FileConfig_r2_endpoint, Config_r2_endpoint);
   (lit "R2_BUCKET", FileConfig_r2_bucket, Config_r2_bucket);
   (lit "R2_ACCESS_KEY_ID", FileConfig_r2_access_key_id, Config_r2_access_key_id);
   (lit "R2_SECRET_ACCESS_KEY", FileConfig_r2_secret_access_key, Config_r2_secret_access_key);
   (lit "BOOTSTRAP_IMAP_USERNAME", FileConfig_bootstrap_imap_username,
    Config_bootstrap_imap_username);
   (lit "BOOTSTRAP_IMAP_PASSWORD_HASH", FileConfig_bootstrap_imap_password_hash,
    Config_bootstrap_imap_password_hash);
   (lit "BOOTSTRAP_IMAP_PASSWORD", FileConfig_bootstrap_imap_password,
    Config_bootstrap_imap_password)].

Definition path_settings : list (str * (FileConfig -> option str) * (Config -> option OsString)) :=
  [(lit "IMAP_TLS_CERT_PATH", FileConfig_imap_tls_cert_path, Config_imap_tls_cert_path);
   (lit "IMAP_TLS_KEY_PATH", FileConfig_imap_tls_key_path, Config_imap_tls_key_path);
   (lit "OBJECT_STORE_PATH", FileConfig_object_store_path, Config_object_store_path);
   (lit "SEARCH_INDEX_PATH", FileConfig_search_index_path, Config_search_index_path)].

Definition bind_settings : list (str * (FileConfig -> option str) * (Config -> option SocketAddr)) :=
  [(lit "IMAP_PLAINTEXT_BIND", FileConfig_imap_plaintext_bind, Config_imap_plaintext_bind);
   (lit "IMAP_TLS_BIND", FileConfig_imap_tls_bind, Config_imap_tls_bind);
   (lit "HTTP_BIND", FileConfig_http_bind, Config_http_bind);
   (lit "METRICS_BIND", FileConfig_metrics_bind, Config_metrics_bind)].

Definition number_settings : list (Z * str * (FileConfig -> option Z) * (Config -> Z)) :=
  [(u64_max, lit "MAX_LITERAL_SIZE_BYTES", FileConfig_max_literal_size_bytes,
    Config_max_literal_size_bytes);
   (u64_max, lit "MAX_MESSAGE_SIZE_BYTES", FileConfig_max_message_size_bytes,
    Config_max_message_size_bytes);
   (u64_max, lit "DEFAULT_ACCOUNT_QUOTA_BYTES", FileConfig_default_account_quota_bytes,
    Config_default_account_quota_bytes);
   (u64_max, lit "CACHE_EVICTION_KEEP_LATEST_OBJECTS",
    FileConfig_cache_eviction_keep_latest_objects, Config_cache_eviction_keep_latest_objects);
   (u64_max, lit "SYNC_CONCURRENCY", FileConfig_sync_concurrency, Config_sync_concurrency);
   (u64_max, lit "IDLE_TIMEOUT_SECONDS", FileConfig_idle_timeout_seconds,
    Config_idle_timeout_seconds);
   (u64_max, lit "UPSTREAM_CONNECTION_LIMIT_PER_ACCOUNT",
    FileConfig_upstream_connection_limit_per_account, Config_upstream_connection_limit_per_account);
   (u32_max, lit "LOGIN_RATE_LIMIT_FAILURES", FileConfig_login_rate_limit_failures,
    Config_login_rate_limit_failures);
   (u64_max, lit "LOGIN_RATE_LIMIT_LOCKOUT_SECONDS", FileConfig_login_rate_limit_lockout_seconds,
    Config_login_rate_limit_lockout_seconds)].

(** [c] has every setting from the environment, else from [f], else from the
    defaults; an address is read in both layers that give it. *)
Definition layered (f : FileConfig) (c : Config) : Prop :=
  Forall (fun '(name, file, get) =>
    get c = over (env_var name) (over (file f) (get Config_default))) text_settings /\
  Forall (fun '(name, file, get) =>
    get c = over_opt (env_var name) (over_opt (file f) (get Config_default))) optional_settings /\
  Forall (fun '(name, file, get) =>
    get c = over_opt (var_os name) (over_opt (path <$> file f) (get Config_default)))
    path_settings /\
  Forall (fun '(name, file, get) =>
    exists lower, parsed parse_bind (file f) (get Config_default) = Some lower /\
                  parsed parse_bind (env_var name) lower = Some (get c)) bind_settings /\
  Forall (fun '(max, name, file, get) =>
    parsed (parse_uint max) (env_var name) (over (file f) (get Config_default)) = Some (get c))
    number_settings.

Lemma parse_or_Ok {A} (parse : str -> A + str) name text lower a :
  parse_or parse name text lower = Ok a <-> parsed parse text lower = Some a.
Proof.
  unfold parse_or, parsed. destruct text as [v|]; [destruct (parse v)|]; split; congruence.
Qed.

Ltac obind_inv H1 :=
  repeat (let a := fresh "a" in let Ha := fresh "Ha" in
          apply obind_Ok in H1 as (a & Ha & H1); apply parse_or_Ok in Ha).

Lemma load_file p c :
  load p = Ok c <->
  exists f c1, file_settings p = Ok f /\ apply_file_config Config_default f = Ok c1 /\
               apply_env c1 = Ok c.
Proof.
  assert (apply_file_config Config_default no_file = Ok Config_default) as E0 by done.
  unfold load, file_settings. rewrite obind_Ok.
  destruct (over_opt p _) as [path|]; [destruct (path_exists path)|]; split.
  - intros (c1 & H1 & H2). apply obind_Ok in H1 as (f & H1 & H3). eauto 10.
  - intros (f & c1 & H1 & H2 & H3). exists c1. split; [|done]. apply obind_Ok. eauto.
  - intros (c1 & [= <-] & H2). eauto 10.
  - intros (f & c1 & [= <-] & H2 & H3). rewrite E0 in H2. injection H2 as <-. eauto.
  - intros (c1 & [= <-] & H2). eauto 10.
  - intros (f & c1 & [= <-] & H2 & H3). rewrite E0 in H2. injection H2 as <-. eauto.
Qed.

Lemma layered_sound f c1 c :
  apply_file_config Config_default f = Ok c1 -> apply_env c1 = Ok c -> layered f c.
Proof.
  unfold apply_file_config, apply_env, file_bind, parse_socket, env_num. intros H1 H2.
  obind_inv H1. injection H1 as <-. obind_inv H2. injection H2 as <-.
  unfold layered, text_settings, optional_settings, path_settings, bind_settings, number_settings.
  repeat first [split | constructor]; simpl; eauto.
Qed.

Lemma layered_complete f c :
  layered f c -> exists c1, apply_file_config Config_default f = Ok c1 /\ apply_env c1 = Ok c.
Proof.
  unfold layered, text_settings, optional_settings, path_settings, bind_settings, number_settings.
  rewrite !Forall_cons, !Forall_nil. destruct c. cbn [fst snd].
  intros H1; decompose [and ex] H1; clear H1.
  unfold apply_file_config, apply_env, file_bind, parse_socket, env_num.
  eexists. split.
  - repeat (apply obind_Ok; eexists; split; [by apply parse_or_Ok|]). reflexivity.
  - repeat (apply obind_Ok; eexists; split; [by apply parse_or_Ok|]).
    f_equal. simpl in *. subst. reflexivity.
Qed.

(** C25 Loading succeeds exactly when the file in use can be read and every
    address and number given in it or in the environment is well formed, and then
    every setting comes from the environment, else from the file, else from the
    defaults. *)
Theorem load_layers (config_path : option OsString) (c : Config) :
  load config_path = Ok c <-> exists f, file_settings config_path = Ok f /\ layered f c.
Proof.
  rewrite load_file. split.
  - intros (f & c1 & Hf & H1 & H2). eauto using layered_sound.
  - intros (f & Hf & Hl). destruct (layered_complete f c Hl) as (c1 & H1 & H2). eauto.
Qed.

(** ** Widths *)

(** A deserialised number fits the type of its field. *)
Definition file_in_width (f : FileConfig) : Prop :=
  Forall (fun '(max, name, file, get) => forall n, file f = Some n -> 0 <= n <= max)
    number_settings.

Class SystemLaws : Prop := {
  toml_in_width : forall text f, toml_from_str text = inl f -> file_in_width f
}.

Lemma uint_loop_in_width max s : forall acc n,
  0 <= acc <= max -> uint_loop max acc s = inl n -> 0 <= n <= max.
Proof.
  induction s as [|ch s IH]; intros acc n Hacc; cbn [uint_loop]; [by intros [= <-]|].
  destruct (is_ascii_digit ch) eqn:Hc; [|done]. cbn [negb].
  destruct (Z.ltb_spec max (acc * 10 + (ch - 48))); [done|].
  apply IH. unfold is_ascii_digit in Hc. b2p. lia.
Qed.

Lemma parse_uint_in_width max s n : 9 <= max -> parse_uint max s = inl n -> 0 <= n <= max.
Proof.
  intros Hmax. destruct s as [|ch [|ch' s]]; cbn [parse_uint]; [done| |].
  - destruct (is_ascii_digit ch) eqn:Hc; [|done]. intros [= <-].
    unfold is_ascii_digit in Hc. b2p. lia.
  - destruct (ch =? 43); apply uint_loop_in_width; lia.
Qed.

Lemma file_settings_in_width `{!SystemLaws} p f : file_settings p = Ok f -> file_in_width f.
Proof.
  assert (file_in_width no_file) as Hno by (repeat constructor; done).
  unfold file_settings, read_file_config.
  destruct (over_opt p _) as [q|]; [destruct (path_exists q)|]; [|by intros [= <-]..].
  destruct (read_to_string q) as [text|]; [|done].
  destruct (toml_from_str text) as [f'|] eqn:E; [|done]. intros [= <-].
  exact (toml_in_width text f' E).
Qed.

Lemma default_in_width :
  Forall (fun '(max, name, file, get) => 9 <= max /\ 0 <= get Config_default <= max)
    number_settings.
Proof. repeat constructor; by apply Z.leb_le. Qed.

End Load.

(** ** A concrete system, for witnesses *)
Module ConfigScenario.

Definition env (name : str) : option OsString :=
  if str_eqb name (lit "APP_CONFIG_PATH") then Some (inl (lit "app.toml"))
  else if str_eqb name (lit "SYNC_CONCURRENCY") then Some (inl (lit "16"))
  else if str_eqb name (lit "DATABASE_URL") then Some (inl (lit "postgres://db/imap"))
  else if str_eqb name (lit "R2_BUCKET") then Some (inr [255])
  else None.

(** [http_bind] and [sync_concurrency] in the file. *)
Definition file : FileConfig :=
  mkFileConfig None None None None None None None None (Some (lit "127.0.0.1:80")) None None None
    None None None None None None None None None None None (Some 8) None None None None None None
    None.

#[export] Instance system : System := {
var_os := env;
parse_addr := fun text => match text with [] => inr (lit "invalid socket address syntax") | _ => inl text end;
path_exists := fun p => bool_decide (p = inl (lit "app.toml"));
read_to_string := fun _ => inl [];
toml_from_str := fun _ => inl file
}.

#[export] Instance system_laws : SystemLaws.
Proof.
split. intros text f [= <-]. unfold file_in_width, number_settings. rewrite !Forall_cons.
repeat split_and; [intros n Hn; try done..|apply Forall_nil; done].
all: injection Hn as <-; try split; by apply Z.leb_le.
Qed.

Definition loaded : Config :=
  mkConfig (lit "development") (lit "http://localhost:8080") (lit "debug")
    (lit "change-me-32-bytes-minimum")
    (Some (lit "0.0.0.0:1143")) (Some (lit "0.0.0.0:1993"))
    (Some (inl (lit "/certs/imap.crt"))) (Some (inl (lit "/certs/imap.key")))
    (Some (lit "127.0.0.1:80")) None
    (Some (lit "postgres://db/imap")) None None None None None (lit "auto")
    (Some (inl (lit "./data/blob"))) (Some (inl (lit "./data/search")))
    52428800 104857600 10737418240 0 16 1740 2 5 60 None None None.

Lemma load_loaded : load None = Ok loaded.
Proof. vm_compute. reflexivity. Qed.


End ConfigScenario.
