(* ===== verification/Services.v ===== *)
(** * Process start-up

    Models [AppServices::new] and [build_object_store] of
    crates/imap-server/src/lib.rs, [bootstrap_authenticator] of
    crates/auth/src/lib.rs, [tls_acceptor] of crates/imap-server/src/imap.rs and
    [run] of src/lib.rs up to the wait for the first task: from a configuration
    to the backends the process runs on and the listeners it starts.  A service
    is the choice of its implementation with what it is made of; connecting,
    opening, binding and the PEM readers are the class [Platform]. *)

From stdpp Require Import base strings list.
From Stdlib Require Import ZArith Lia.
From S2P Require Import Prelude RustStr Domain Storage Security Config Schema RepoCore RepoAccounts Auth Engine Stores ImapSession Scenario ImapScenario.

Local Open Scope Z_scope.

(** ** The atomics of crates/config *)
Record Globals : Type := mkGlobals {
  g_upstream_connection_limit_per_account : Z;
  g_idle_timeout_seconds : Z
}.
Definition initial_globals : Globals := mkGlobals 2 1740.

Definition set_upstream_connection_limit_per_account (limit : Z) (g : Globals) : Globals :=
  mkGlobals limit (g_idle_timeout_seconds g).
Definition set_idle_timeout_seconds (timeout_seconds : Z) (g : Globals) : Globals :=
  mkGlobals (g_upstream_connection_limit_per_account g) timeout_seconds.

(** ** The choices *)
Inductive StoreChoice : Type :=
  | S3Store (bucket : str) (config : R2Config)
  | FilesystemStore (root : OsString)
  | MemoryStore.

Inductive SinkChoice : Type := HubSink | RedisSink (url : str).
Inductive LockChoice : Type := RedisLocks (url : str) | MemoryLocks.
Inductive SearchChoice : Type := PersistentSearch (root : OsString) | MemorySearch.

Record ThrottleChoice : Type := mkThrottleChoice {
  throttle_redis : option str;
  throttle_max_failures : Z;
  throttle_lockout_seconds : Z
}.

Inductive AuthenticatorChoice : Type :=
  | ChooseStatic (self : StaticAuthenticator) (throttle : ThrottleChoice)
  | ChoosePostgres (throttle : ThrottleChoice)
  | ChooseDenyAll.

Record RepositoryChoice : Type := mkRepositoryChoice {
  repository_url : str;
  repository_secrets : SecretBox;
  repository_sinks : list SinkChoice
}.

Record SyncEngineChoice : Type := mkSyncEngineChoice {
  engine_sync_limit : option Z;
  engine_locks : LockChoice
}.

Record AppServices : Type := mkAppServices {
  AppServices_authenticator : AuthenticatorChoice;
  AppServices_repository : option RepositoryChoice;
  AppServices_object_store : StoreChoice;
  AppServices_search : SearchChoice;
  AppServices_sync_engine : option SyncEngineChoice;
  AppServices_mutation_engine : bool
}.

Inductive PrivateKey : Type := Pkcs8 (der : bytes) | Pkcs1 (der : bytes).
Definition TlsAcceptor : Type := list bytes * PrivateKey.

(** What start-up asks of PostgreSQL, Redis, the operating system and rustls; a
    failure is the text of its error. *)
Class Platform : Type := {
  pg_connect : str -> unit + str;
  sqlx_migrate : str -> unit + str;
  redis_client_open : str -> unit + str;
  create_dir_all : OsString -> unit + str;
  path_display : OsString -> str;
  tcp_bind : SocketAddr -> unit + str;
  file_open : OsString -> bytes + str;
  pem_certs : bytes -> list bytes + str;
  pem_pkcs8_keys : bytes -> list bytes + str;
  pem_rsa_keys : bytes -> list bytes + str;
  with_single_cert : list bytes -> PrivateKey -> unit + str
}.

(** [map_err(|e| ..)?]. *)
Definition or_else {A} (r : A + str) (err : str -> Error) : Result A :=
  match r with inl a => Ok a | inr e => Err (err e) end.

Section Services.
Context `{System} `{Platform} `{Crypto} `{Texts}.

Definition run_migrations (url : str) : Result unit := or_else (sqlx_migrate url) EMigrate.

Definition redis_url_open (url : str) : Result unit :=
  or_else (redis_client_open url)
    (fun e => EStorage (lit "connecting to redis at " ++ url ++ lit ": " ++ e)).

(** ** The object store *)
Definition from_app_config (config : Config) : option R2Config :=
  endpoint ← Config_r2_endpoint config;
  bucket ← Config_r2_bucket config;
  access_key_id ← Config_r2_access_key_id config;
  secret_access_key ← Config_r2_secret_access_key config;
  Some (mkR2Config endpoint bucket access_key_id secret_access_key (Config_r2_region config)).

Definition build_object_store (config : Config) : Result StoreChoice :=
  let fallback := Ok (match Config_object_store_path config with
                      | Some path => FilesystemStore path
                      | None => MemoryStore
                      end) in
  match from_app_config config with
  | Some r2_config =>
      if is_complete r2_config
      then try! bucket <- from_config r2_config ;; Ok (S3Store bucket r2_config)
      else fallback
  | None => fallback
  end.

(** ** The authenticator *)

(** [salt] is what the generator gives [hash_password]. *)
Definition bootstrap_authenticator (salt : str) (config : Config)
  (repository : option RepositoryChoice) : Result AuthenticatorChoice :=
  try! _ <- match Config_redis_url config with
            | Some redis_url => redis_url_open redis_url
            | None => Ok tt
            end ;;
  let throttle := mkThrottleChoice (Config_redis_url config)
    (Config_login_rate_limit_failures config) (Config_login_rate_limit_lockout_seconds config) in
  match Config_bootstrap_imap_username config, Config_bootstrap_imap_password_hash config,
        Config_bootstrap_imap_password config with
  | Some username, Some password_hash, _ =>
      Ok (ChooseStatic (mkStaticAuthenticator username password_hash 1) throttle)
  | Some username, None, Some password =>
      try! password_hash <- hash_password salt password ;;
      Ok (ChooseStatic (mkStaticAuthenticator username password_hash 1) throttle)
  | _, _, _ =>
      match repository with
      | Some _ => Ok (ChoosePostgres throttle)
      | None => Ok ChooseDenyAll
      end
  end.

(** The authenticator that was chosen, over any throttle. *)
Definition chosen_authenticator {T} `{LoginThrottle T, PgText} (choice : AuthenticatorChoice)
  : Authenticator T :=
  match choice with
  | ChooseStatic self _ => StaticAuthenticatorInstance self
  | ChoosePostgres _ => PostgresAuthenticator
  | ChooseDenyAll => DenyAllAuthenticator
  end.

(** ** The services *)

(** [anyhow]: an error is the text it displays. *)
Abbreviation AnyResult := (outcome str).
Definition any {A} (r : Result A) : AnyResult A :=
  match r with
  | Ok a => Ok a
  | Err e => Err (Error_to_string foreign_error e)
  | Panic => Panic
  end.

(** [.with_context(|| text)?]: the context hides the cause. *)
Definition with_context {A} (r : A + str) (text : str) : AnyResult A :=
  match r with inl a => Ok a | inr _ => Err text end.

Definition new_repository (config : Config) : AnyResult (option RepositoryChoice) :=
  match Config_database_url config with
  | None => Ok None
  | Some url =>
      try! _ <- with_context (pg_connect url) (lit "connecting to database at " ++ url) ;;
      try! _ <- any (run_migrations url) ;;
      try! sinks <- match Config_redis_url config with
                    | Some redis_url =>
                        try! _ <- any (redis_url_open redis_url) ;;
                        Ok [HubSink; RedisSink redis_url]
                    | None => Ok [HubSink]
                    end ;;
      Ok (Some (mkRepositoryChoice url
                  (SecretBox_from_passphrase (Config_encryption_master_key config)) sinks))
  end.

(** [TantivySearchEngine::persistent] and [::memory]. *)
Definition new_search (config : Config) : Result SearchChoice :=
  match Config_search_index_path config with
  | Some root =>
      try! _ <- or_else (create_dir_all root)
        (fun e => EStorage (lit "failed to create search index directory " ++ path_display root ++
                            lit ": " ++ e)) ;;
      Ok (PersistentSearch root)
  | None => Ok MemorySearch
  end.

Definition with_sync_limit (limit : Z) : option Z := if limit =? 0 then None else Some limit.

Definition new_sync_engine (config : Config) : Result SyncEngineChoice :=
  try! locks <- match Config_redis_url config with
                | Some redis_url => try! _ <- redis_url_open redis_url ;; Ok (RedisLocks redis_url)
                | None => Ok MemoryLocks
                end ;;
  Ok (mkSyncEngineChoice (with_sync_limit (Config_sync_concurrency config)) locks).

Definition AppServices_new (salt : str) (config : Config) : M str Globals AppServices :=
  modify (set_upstream_connection_limit_per_account
            (Config_upstream_connection_limit_per_account config)) ;;;
  modify (set_idle_timeout_seconds (Config_idle_timeout_seconds config)) ;;;
  do repository <- lift (new_repository config) ;;
  do object_store <- lift (any (build_object_store config)) ;;
  do search <- lift (any (new_search config)) ;;
  do sync_engine <- match repository with
                    | Some _ => do e <- lift (any (new_sync_engine config)) ;; ret (Some e)
                    | None => ret None
                    end ;;
  do authenticator <- lift (any (bootstrap_authenticator salt config repository)) ;;
  ret (mkAppServices authenticator repository object_store search sync_engine
         (is_some repository)).

(** ** TLS *)
Definition load_certs (path : OsString) : Result (list bytes) :=
  try! text <- or_else (file_open path) EIo ;;
  or_else (pem_certs text)
    (fun e => EConfig (lit "failed to read TLS certificate chain: " ++ e)).

Definition load_private_key (path : OsString) : Result PrivateKey :=
  try! text <- or_else (file_open path) EIo ;;
  try! keys <- or_else (pem_pkcs8_keys text)
    (fun e => EConfig (lit "failed to read PKCS#8 private key: " ++ e)) ;;
  match last keys with
  | Some key => Ok (Pkcs8 key)
  | None =>
      try! keys <- or_else (pem_rsa_keys text)
        (fun e => EConfig (lit "failed to read RSA private key: " ++ e)) ;;
      match last keys with
      | Some key => Ok (Pkcs1 key)
      | None => Err (EConfig (lit "no supported private key found"))
      end
  end.

Definition tls_acceptor (config : Config) : Result (option TlsAcceptor) :=
  match Config_imap_tls_cert_path config, Config_imap_tls_key_path config with
  | Some cert_path, Some key_path =>
      if negb (path_exists cert_path) || negb (path_exists key_path) then Ok None
      else
        try! certs <- load_certs cert_path ;;
        try! key <- load_private_key key_path ;;
        try! _ <- or_else (with_single_cert certs key)
          (fun e => EConfig (lit "failed to build TLS config: " ++ e)) ;;
        Ok (Some (certs, key))
  | _, _ => Ok None
  end.

(** ** [run]: what is started *)
Inductive ListenerTask : Type :=
  | RedisRelay (url : str)
  | PlaintextImap (addr : SocketAddr) (starttls : option TlsAcceptor)
  | TlsImap (addr : SocketAddr) (acceptor : TlsAcceptor)
  | Http (addr : SocketAddr).

Record Started : Type := mkStarted {
  started_services : AppServices;
  started_worker : bool;
  started_tasks : list ListenerTask
}.

Definition listen (what : str) (bind_addr : option SocketAddr) (task : SocketAddr -> ListenerTask)
  : AnyResult (list ListenerTask) :=
  match bind_addr with
  | Some addr =>
      try! _ <- with_context (tcp_bind addr)
        (lit "binding " ++ what ++ lit " listener at " ++ addr) ;;
      Ok [task addr]
  | None => Ok []
  end.

Definition start_tasks (config : Config) : AnyResult (list ListenerTask) :=
  let starttls_acceptor := match tls_acceptor config with Ok a => a | _ => None end in
  try! relay <- match Config_redis_url config with
                | Some redis_url => try! _ <- any (redis_url_open redis_url) ;; Ok [RedisRelay redis_url]
                | None => Ok []
                end ;;
  try! plaintext <- listen (lit "plaintext IMAP") (Config_imap_plaintext_bind config)
    (fun addr => PlaintextImap addr starttls_acceptor) ;;
  try! tls <- match starttls_acceptor with
              | Some acceptor => listen (lit "TLS IMAP") (Config_imap_tls_bind config)
                                   (fun addr => TlsImap addr acceptor)
              | None => Ok []
              end ;;
  try! http <- listen (lit "HTTP") (Config_http_bind config) Http ;;
  try! metrics <- listen (lit "metrics") (Config_metrics_bind config) Http ;;
  Ok (relay ++ plaintext ++ tls ++ http ++ metrics).

(** [run] up to [tokio::select!]. *)
Definition run (salt : str) (config : Config) : M str Globals Started :=
  do services <- AppServices_new salt config ;;
  let worker := is_some (AppServices_repository services) && AppServices_mutation_engine services in
  do tasks <- lift (start_tasks config) ;;
  match tasks with
  | [] => fail (lit "no listeners were configured")
  | _ => ret (mkStarted services worker tasks)
  end.
End Services.

(** ** Who can log in *)
Section Login.
Context `{System} `{Platform} `{Crypto} `{Texts}.

(** The user of the configuration, with the hash its password is checked
    against. *)
Definition bootstrap_user (salt : str) (config : Config) : option (str * Result str) :=
  match Config_bootstrap_imap_username config, Config_bootstrap_imap_password_hash config,
        Config_bootstrap_imap_password config with
  | Some username, Some password_hash, _ => Some (username, Ok password_hash)
  | Some username, None, Some password => Some (username, hash_password salt password)
  | _, _, _ => None
  end.

Lemma bootstrap_authenticator_choice salt config repository choice :
  bootstrap_authenticator salt config repository = Ok choice ->
  exists throttle,
    choice = match bootstrap_user salt config with
             | Some (username, Ok password_hash) =>
                 ChooseStatic (mkStaticAuthenticator username password_hash 1) throttle
             | _ => if is_some repository then ChoosePostgres throttle else ChooseDenyAll
             end /\
    (forall username r, bootstrap_user salt config = Some (username, r) -> exists h, r = Ok h).
Proof.
  unfold bootstrap_authenticator, bootstrap_user. intros Hb.
  apply obind_Ok in Hb as ([] & _ & Hb). eexists.
  destruct (Config_bootstrap_imap_username config) as [u|],
    (Config_bootstrap_imap_password_hash config) as [h|],
    (Config_bootstrap_imap_password config) as [p|];
    try (destruct (hash_password salt p) as [h'|?|] eqn:Eh; simpl in Hb; try done);
    destruct repository; injection Hb as <-; split; try done;
    intros username r0 [= <- <-]; eauto.
Qed.

Lemma AppServices_new_Ok salt config g g' s :
  AppServices_new salt config g = (g', Ok s) ->
  new_repository config = Ok (AppServices_repository s) /\
  build_object_store config = Ok (AppServices_object_store s) /\
  new_search config = Ok (AppServices_search s) /\
  bootstrap_authenticator salt config (AppServices_repository s) =
    Ok (AppServices_authenticator s) /\
  AppServices_mutation_engine s = is_some (AppServices_repository s) /\
  is_some (AppServices_sync_engine s) = is_some (AppServices_repository s) /\
  g' = mkGlobals (Config_upstream_connection_limit_per_account config)
         (Config_idle_timeout_seconds config).
Proof.
  assert (forall A (r : Result A) a, any r = Ok a -> r = Ok a) as Hany.
  { intros A [] ?; simpl; congruence. }
  unfold AppServices_new. intros Hn.
  inv_bind Hn. inv_bind Hn. inv_bind Hn. inv_bind Hn. inv_bind Hn. inv_bind Hn. inv_bind Hn.
  unfold lift, ret, modify in *. simplify_eq.
  repeat match goal with E : any _ = Ok _ |- _ => apply Hany in E end.
  destruct x1; [inv_bind Hstep4; unfold lift, ret in *; simplify_eq|unfold ret in *; simplify_eq];
    done.
Qed.

Lemma new_repository_needs_url config r :
  new_repository config = Ok r -> is_some r = is_some (Config_database_url config).
Proof.
  unfold new_repository. destruct (Config_database_url config); [|by intros [= <-]].
  destruct (with_context _ _); [|done..]. simpl. destruct (any _); [|done..]. simpl.
  intros Hr. apply obind_Ok in Hr as (sinks & _ & [= <-]). done.
Qed.

End Login.

(** ** A bootstrap user beside a database, for witnesses *)
Module ServicesWitness.

#[local] Existing Instances ConfigScenario.system.
#[export] Instance platform : Platform := {
pg_connect := fun _ => inl tt; sqlx_migrate := fun _ => inl tt; redis_client_open := fun _ => inl tt;
create_dir_all := fun _ => inl tt;
path_display := fun p => match p with inl s => s | inr b => from_utf8_lossy b end;
tcp_bind := fun _ => inl tt; file_open := fun _ => inr (lit "No such file or directory");
pem_certs := fun _ => inl []; pem_pkcs8_keys := fun _ => inl []; pem_rsa_keys := fun _ => inl [];
with_single_cert := fun _ _ => inl tt
}.

Definition config : Config :=
mkConfig (lit "development") (lit "http://localhost:8080") (lit "debug") (lit "key")
  (Some (lit "0.0.0.0:1143")) None None None None None
  (Some (lit "postgres://db/imap")) None None None None None (lit "auto") None None
  52428800 104857600 10737418240 0 4 1740 2 5 60 (Some (lit "boss")) None (Some (lit "pw")).

Definition services : AppServices :=
mkAppServices
  (ChooseStatic (mkStaticAuthenticator (lit "boss") (lit "pw") 1) (mkThrottleChoice None 5 60))
  (Some (mkRepositoryChoice (lit "postgres://db/imap") (SecretBox_from_passphrase (lit "key"))
           [HubSink]))
  MemoryStore MemorySearch (Some (mkSyncEngineChoice (Some 4) MemoryLocks)) true.

Lemma services_new : AppServices_new (lit "salt") config initial_globals =
(mkGlobals 2 1740, Ok services).
Proof. vm_compute. reflexivity. Qed.

Definition state0 : @AuthState MemoryLoginThrottle := mkAuthState Scenario.world (with_limits 5 60 0).

Lemma boss_logs_in :
@authenticate _ (chosen_authenticator (AppServices_authenticator services)) (lit "boss") (lit "pw")
  state0 = (state0, Ok (Some (mkAuthContext 1 None (lit "boss")))).
Proof. vm_compute. reflexivity. Qed.


End ServicesWitness.
