(* ===== verification/Http.v ===== *)
(** * Metrics over HTTP

    Models [AppMetrics::render] of crates/metrics/src/lib.rs, the part of the
    exposition that is read from the database, and [handle_connection] of
    crates/imap-server/src/http.rs. *)

From stdpp Require Import base strings list gmap.
From Stdlib Require Import ZArith Lia.
From S2P Require Import Prelude RustStr Metrics Domain Schema RepoCore RepoAccounts RepoQueue.

Local Open Scope Z_scope.

(** ** The exposition *)
Record AccountSyncMetricRow : Type := mkAccountSyncMetricRow {
  sync_email_address : str;
  sync_last_sync_at : option Z;
  sync_last_sync_error : option str
}.

Record AccountCacheMetricRow : Type := mkAccountCacheMetricRow {
  cache_email_address : str;
  object_count : Z;
  object_bytes : Z
}.

(** [COALESCE(SUM(..), 0)::bigint]: out of range is an error of the query. *)
Definition sum_bigint (sizes : list Z) : option Z :=
  let sum := foldr Z.add 0 sizes in if in_i64 sum then Some sum else None.

Definition account_label (name email rest value : str) : str :=
  name ++ lit "{account=" ++ [34] ++ escape_metric_label email ++ [34] ++ rest ++ lit "} " ++ value.

Section Render.
Context `{Floats} `{PgText}.

Definition cache_sizes (rows : list CacheObjectRow) : list Z := map CacheObjectRow_size_octets rows.

(** The join of [cache_objects] with [mail_accounts]: email address and size. *)
Definition account_objects (db : Database) : list (str * Z) :=
  flat_map (fun c =>
    map (fun m => (MailAccountRow_email_address m, CacheObjectRow_size_octets c))
      (select (fun m => sql_eq (CacheObjectRow_account_id c) (MailAccountRow_id m))
         (mail_accounts db))) (cache_objects db).

Definition account_cache_row (objects : list (str * Z)) (email : str)
  : option AccountCacheMetricRow :=
  let own := List.filter (fun o => str_eqb (fst o) email) objects in
  bytes ← sum_bigint (map snd own);
  Some (mkAccountCacheMetricRow email (Z.of_nat (length own)) bytes).

(** [GROUP BY email_address ORDER BY email_address]; one sum out of range fails
    the query, and [unwrap_or_default] makes that no rows. *)
Definition account_cache_rows (db : Database) : list AccountCacheMetricRow :=
  let objects := account_objects db in
  default [] (mapM (account_cache_row objects)
                (sort_by pg_text_leb (remove_dups (map fst objects)))).

Definition account_sync_rows (db : Database) : list AccountSyncMetricRow :=
  map (fun m => mkAccountSyncMetricRow (MailAccountRow_email_address m)
                  (MailAccountRow_last_sync_at m) (MailAccountRow_last_sync_error m))
    (order_by MailAccountRow_id
       (select (fun m => negb (is_some (MailAccountRow_disabled_at m))) (mail_accounts db))).

Definition account_cache_lines (rows : list AccountCacheMetricRow) : list str :=
  match rows with
  | [] => []
  | _ =>
      [lit "# HELP imap_account_cache_objects Per-account cache object count";
       lit "# TYPE imap_account_cache_objects gauge";
       lit "# HELP imap_account_cache_object_bytes Per-account cache object bytes";
       lit "# TYPE imap_account_cache_object_bytes gauge"] ++
      flat_map (fun row =>
        [account_label (lit "imap_account_cache_objects") (cache_email_address row) []
           (fmt_i (object_count row));
         account_label (lit "imap_account_cache_object_bytes") (cache_email_address row) []
           (fmt_i (object_bytes row))]) rows
  end.

Definition sync_status (account : AccountSyncMetricRow) : str :=
  if is_some (sync_last_sync_error account) then lit "error"
  else if is_some (sync_last_sync_at account) then lit "ok"
  else lit "never".

(** [DateTime::timestamp]: whole seconds, rounded down. *)
Definition timestamp (micros : Z) : Z := micros / 1000000.

Definition account_sync_lines (accounts : list AccountSyncMetricRow) : list str :=
  match accounts with
  | [] => []
  | _ =>
      [lit "# HELP imap_account_last_sync_status Per-account last sync status";
       lit "# TYPE imap_account_last_sync_status gauge"] ++
      flat_map (fun account =>
        account_label (lit "imap_account_last_sync_status") (sync_email_address account)
          (lit ",status=" ++ [34] ++ sync_status account ++ [34]) (lit "1") ::
        match sync_last_sync_at account with
        | Some last_sync_at =>
            [account_label (lit "imap_account_last_sync_timestamp_seconds")
               (sync_email_address account) [] (fmt_i (timestamp last_sync_at))]
        | None => []
        end) accounts
  end.

Definition render (m : AppMetrics) (has_repository : bool) : Repo str :=
  if negb has_repository then ret (render_static m)
  else
    do pending <- count_pending_mutations ;;
    do db <- query (fun db => db) ;;
    let lines :=
      metric (lit "imap_pending_mutations") (lit "Pending mutation queue depth") gauge
        (fmt_i pending) ++
      metric (lit "imap_cache_objects") (lit "Total cache objects tracked") gauge
        (fmt_i (Z.of_nat (length (cache_objects db)))) ++
      metric (lit "imap_cache_object_bytes") (lit "Total bytes tracked in cache objects") gauge
        (fmt_i (default 0 (sum_bigint (cache_sizes (cache_objects db))))) ++
      account_cache_lines (account_cache_rows db) ++
      account_sync_lines (account_sync_rows db) in
    ret (render_static m ++ flat_map (fun line => line ++ [10]) lines).

(** ** One HTTP connection *)

(** [request.lines().next().unwrap_or_default()]. *)
Definition first_line (request : str) : str :=
  match split_once 10 request with
  | Some (line, _) => default line (strip_suffix [13] line)
  | None => request
  end.

Definition request_path (request : str) : str :=
  default (lit "/") (split_whitespace (first_line request) !! 1%nat).

Definition http_route (m : AppMetrics) (has_repository : bool) (path : str)
  : Repo (str * str * str) :=
  if str_eqb path (lit "/metrics") then
    do body <- render m has_repository ;;
    ret (lit "HTTP/1.1 200 OK", lit "text/plain; version=0.0.4; charset=utf-8", body)
  else if str_eqb path (lit "/health") then
    ret (lit "HTTP/1.1 200 OK", lit "text/plain; charset=utf-8", lit "ok")
  else ret (lit "HTTP/1.1 404 Not Found", lit "text/plain; charset=utf-8", lit "not found").

Definition http_response (status_line content_type body : str) : str :=
  status_line ++ [13; 10] ++ lit "Content-Type: " ++ content_type ++ [13; 10] ++
  lit "Content-Length: " ++ fmt_u (Z.of_nat (length (as_bytes body))) ++ [13; 10] ++
  lit "Connection: close" ++ [13; 10; 13; 10] ++ body.

(** [read] is what the one read of at most 4096 bytes gave, or the text of its
    error; the result is what is written. *)
Definition http_handle_connection (m : AppMetrics) (has_repository : bool) (read : bytes + str)
  : Repo bytes :=
  match read with
  | inr e => fail (EIo e)
  | inl [] => ret []
  | inl buffer =>
      do ' (status_line, content_type, body) <-
        http_route m has_repository (request_path (from_utf8_lossy buffer)) ;;
      ret (as_bytes (http_response status_line content_type body))
  end.
End Render.

(** ** A client of the endpoint

    It reads the header lines up to the empty one and then as many bytes as
    Content-Length says. *)
Fixpoint read_head (line b : bytes) : option (list bytes * bytes) :=
  match b with
  | [] => None
  | c :: b' =>
      if c =? 10 then
        match default line (strip_suffix [13] line) with
        | [] => Some ([], b')
        | header => '(headers, rest) ← read_head [] b'; Some (header :: headers, rest)
        end
      else read_head (line ++ [c]) b'
  end.

(** The status line, the body and what is left. *)
Definition read_response (b : bytes) : option (bytes * bytes * bytes) :=
  '(headers, rest) ← read_head [] b;
  status ← head headers;
  text ← head (omap (strip_prefix (lit "Content-Length: ")) headers);
  n ← parse_digits text;
  if n <=? Z.of_nat (length rest) then Some (status, take (Z.to_nat n) rest, drop (Z.to_nat n) rest)
  else None.

Definition line_char (c : Z) : bool := (32 <=? c) && (c <? 127).

Lemma strip_suffix_snoc (p s : str) : strip_suffix p (s ++ p) = Some s.
Proof.
  unfold strip_suffix. rewrite rev_app_distr.
  assert (forall a b, strip_prefix a (a ++ b) = Some b) as Hp.
  { induction a as [|x a IH]; intros b; simpl; [done|]. by rewrite Z.eqb_refl. }
  rewrite Hp. simpl. by rewrite rev_involutive.
Qed.

Lemma read_head_line (h rest cur : bytes) :
  Forall (fun c => line_char c = true) h -> cur ++ h <> [] ->
  read_head cur (h ++ [13; 10] ++ rest) =
  ('(headers, rest') ← read_head [] rest; Some ((cur ++ h) :: headers, rest')).
Proof.
  revert cur. induction h as [|c h IH]; intros cur Hh Hne.
  - rewrite app_nil_r in *. change ([] ++ [13; 10] ++ rest) with (13 :: 10 :: rest).
    cbn [read_head Z.eqb Pos.eqb]. rewrite strip_suffix_snoc. simpl. by destruct cur.
  - inversion_clear Hh as [|?? Hc Hh']. unfold line_char in Hc. b2p.
    change ((c :: h) ++ [13; 10] ++ rest) with (c :: (h ++ [13; 10] ++ rest)). cbn [read_head].
    destruct (Z.eqb_spec c 10); [lia|]. rewrite IH by (done || by destruct cur).
    by rewrite <- app_assoc.
Qed.

Lemma as_bytes_line (s : str) : Forall (fun c => line_char c = true) s -> as_bytes s = s.
Proof.
  induction 1 as [|c s Hc _ IH]; [done|]. change (utf8_char c ++ as_bytes s = c :: s).
  rewrite IH. unfold utf8_char, line_char in *. b2p. by destruct (Z.ltb_spec c 128); [|lia].
Qed.

Lemma fmt_u_line n : Forall (fun c => line_char c = true) (fmt_u n).
Proof.
  eapply List.Forall_impl; [|apply fmt_u_digits]. intros c Hc.
  unfold is_ascii_digit, line_char in *. b2p. apply andb_true_intro. rewrite Z.leb_le, Z.ltb_lt. lia.
Qed.

Lemma as_bytes_header (h rest : str) :
  Forall (fun c => line_char c = true) h ->
  as_bytes (h ++ [13; 10] ++ rest) = h ++ [13; 10] ++ as_bytes rest.
Proof.
  intros Hh. unfold as_bytes. rewrite !flat_map_app. fold (as_bytes h).
  by rewrite as_bytes_line.
Qed.

Definition header_lines (status content_type body : str) : list str :=
  [status; lit "Content-Type: " ++ content_type;
   lit "Content-Length: " ++ fmt_u (Z.of_nat (length (as_bytes body))); lit "Connection: close"].

Lemma read_head_response (status content_type body : str) :
  Forall (fun c => line_char c = true) status -> status <> [] ->
  Forall (fun c => line_char c = true) content_type ->
  read_head [] (as_bytes (http_response status content_type body)) =
  Some (header_lines status content_type body, as_bytes body).
Proof.
  intros Hs Hne Hc. unfold http_response, header_lines.
  set (n := Z.of_nat (length (as_bytes body))). pose proof (fmt_u_line n) as Hn.
  assert (forall name k, Forall (fun c => line_char c = true) name ->
          Forall (fun c => line_char c = true) k ->
          Forall (fun c => line_char c = true) (name ++ k)) as Happ.
  { intros name k H1 H2. by apply Forall_app. }
  rewrite (app_assoc (lit "Content-Type: ")), (app_assoc (lit "Content-Length: ")).
  change ([13; 10; 13; 10] ++ body) with ([13; 10] ++ [13; 10] ++ body).
  rewrite !as_bytes_header by (auto || apply Happ; auto; repeat constructor).
  rewrite !read_head_line by (auto || apply Happ; auto; repeat constructor).
  change (as_bytes ([13; 10] ++ body)) with ([13; 10] ++ as_bytes body).
  reflexivity.
Qed.

(** The client reads what the server framed, whatever the body. *)
Lemma read_http_response (status content_type body : str) :
  Forall (fun c => line_char c = true) status -> status <> [] ->
  strip_prefix (lit "Content-Length: ") status = None ->
  Forall (fun c => line_char c = true) content_type ->
  read_response (as_bytes (http_response status content_type body)) =
  Some (status, as_bytes body, []).
Proof.
  intros Hs Hne Hp Hc. unfold read_response. rewrite read_head_response by done.
  unfold header_lines. cbn [mbind option_bind head omap list_omap].
  rewrite Hp. cbn [omap list_omap].
  change (strip_prefix (lit "Content-Length: ") (lit "Content-Type: " ++ content_type))
    with (@None str).
  change (strip_prefix (lit "Content-Length: ") (lit "Content-Length: " ++ ?t)) with (Some t).
  cbn [head mbind option_bind]. rewrite parse_digits_fmt_u by lia. cbn [mbind option_bind].
  rewrite Z.leb_refl, Nat2Z.id, take_ge, drop_ge by done. done.
Qed.

Section HttpSpecs.
Context `{Floats} `{PgText}.

Lemma render_total m has_repository w :
  exists body, render m has_repository w = (w, Ok body).
Proof. unfold render. destruct has_repository; simpl; eauto. Qed.

(** The answer to a path. *)
Definition http_answer (m : AppMetrics) (has_repository : bool) (w : World) (path : str)
  : str * Result str :=
  if str_eqb path (lit "/metrics") then (lit "HTTP/1.1 200 OK", snd (render m has_repository w))
  else if str_eqb path (lit "/health") then (lit "HTTP/1.1 200 OK", Ok (lit "ok"))
  else (lit "HTTP/1.1 404 Not Found", Ok (lit "not found")).

End HttpSpecs.

(** ** The label of a command is not escaped

    A client chooses the name that is counted; a quote in it ends the label. *)
Example command_label_is_raw `{Floats} :
  existsb (str_eqb (lit "imap_commands_total{command=" ++ [34; 65; 34; 66; 34] ++ lit "} 1"))
    (render_lines (record_command [65; 34; 66] AppMetrics_new)) = true.
Proof.
  unfold render_lines. rewrite !existsb_app.
  assert (sorted_entries (command_counts (record_command [65; 34; 66] AppMetrics_new)) =
          [([65; 34; 66], 1)]) as -> by (vm_compute; reflexivity).
  assert (existsb (str_eqb (lit "imap_commands_total{command=" ++ [34; 65; 34; 66; 34] ++ lit "} 1"))
    (map (fun '(command, count) => command_sample (lit "imap_commands_total") command (fmt_u count))
       [([65; 34; 66], 1)]) = true) as -> by (vm_compute; reflexivity).
  rewrite !orb_true_r. reflexivity.
Qed.
