(* ===== verification/SearchIndex.v ===== *)
(** * The full-text index

    Models [TantivySearchEngine] of crates/search/src/lib.rs: an index per
    mailbox name, opened on first use, the document a message is indexed as, and
    the evaluation of a query on the index.  Tantivy itself (the writer, the
    reader, the query parser, the searcher) and the file system are the class
    [Tantivy]. *)

From stdpp Require Import base strings list gmap.
From Stdlib Require Import ZArith Lia Permutation Sorting.Sorted.
From S2P Require Import Prelude RustStr Domain SearchQuery Storage Search Config SearchEval.

Local Open Scope Z_scope.

(** A stored document: the value of its [uid] field and its text fields. *)
Record TantivyDocument : Type := mkTantivyDocument {
  document_uid : option Z;
  document_fields : list (str * str)
}.

(** An entry of a schema: is the field text, and its options. *)
Record FieldEntry : Type := mkFieldEntry {
  field_name : str;
  field_text : bool;
  field_indexed : bool;
  field_stored : bool;
  field_fast : bool
}.

(** [STORED | FAST] for the UID, [TEXT | STORED], which is indexed, for the rest. *)
Definition schema : list FieldEntry :=
  mkFieldEntry (lit "uid") false false true true ::
  map (fun name => mkFieldEntry (lit name) true true true false)
    ["subject"; "from"; "to"; "cc"; "bcc"; "message_id"; "reply_to"; "body"]%string.

(** [Index], [IndexWriter] and [IndexReader] of one mailbox as one state; a
    foreign failure is the text of its error.  The query parser is made with the
    fields it searches by default. *)
Class Tantivy (I : Type) : Type := {
  TQuery : Type;
  DocAddress : Type;
  all_query : TQuery;
  create_in_ram : list FieldEntry -> I;
  mmap_directory_open : OsString -> unit + str;
  index_open_or_create : OsString -> list FieldEntry -> I + str;
  index_writer : I -> unit + str;
  index_reader : I -> unit + str;
  delete_term : str -> Z -> I -> I;
  add_document : TantivyDocument -> M str I unit;
  commit : M str I unit;
  reload : M str I unit;
  parse_query : I -> list str -> str -> TQuery + str;
  searcher_search : I -> TQuery -> nat -> list DocAddress + str;
  searcher_doc : I -> DocAddress -> TantivyDocument + str;
  make_directories : OsString -> unit + str;
  join_path : OsString -> str -> OsString;
  display_path : OsString -> str
}.

Definition mailbox_directory_name `{Sha256} (mailbox : str) : str := sha256_hex (as_bytes mailbox).

Definition normalize_boolean_query (query_string : str) : str := trim query_string.

(** [while starts_with('(') && ends_with(')') && len > 1]; every turn drops two
    characters, so the length is enough fuel. *)
Fixpoint strip_parens_loop (fuel : nat) (trimmed : str) : str :=
  match fuel with
  | O => trimmed
  | S fuel' =>
      if starts_with [40] trimmed && ends_with [41] trimmed && Nat.ltb 1 (length trimmed)
      then strip_parens_loop fuel' (trim (take (length trimmed - 2) (drop 1 trimmed)))
      else trimmed
  end.
Definition strip_outer_parens (value : str) : str :=
  strip_parens_loop (length value) (trim value).

(** [collect::<BTreeSet<_>>()] of integers, in order. *)
Definition btree_set (l : list Z) : list Z := dedup (sort_by Z.leb l).

Section Index.
Context {I : Type} `{Tantivy I}.

Definition storage_err {A} (what : str) (r : A + str) : Result A :=
  match r with inl a => Ok a | inr e => Err (EStorage (what ++ lit ": " ++ e)) end.

Definition searchable_fields : list str :=
  map lit ["subject"; "from"; "to"; "cc"; "bcc"; "message_id"; "reply_to"; "body"]%string.

(** ** Opening *)
Definition from_index (index : I) : Result I :=
  try! _ <- storage_err (lit "failed to create search writer") (index_writer index) ;;
  try! _ <- storage_err (lit "failed to create search reader") (index_reader index) ;;
  Ok index.

Definition new_in_memory : Result I := from_index (create_in_ram schema).

Definition open_or_create (path : OsString) : Result I :=
  try! _ <- storage_err (lit "failed to create search mailbox directory " ++ display_path path)
              (make_directories path) ;;
  try! _ <- storage_err (lit "failed to open search directory " ++ display_path path)
              (mmap_directory_open path) ;;
  try! index <- storage_err (lit "failed to open search index at " ++ display_path path)
                  (index_open_or_create path schema) ;;
  from_index index.

(** ** Indexing *)
Definition tantivy_document (document : SearchDocument) : TantivyDocument :=
  mkTantivyDocument (Some (SearchDocument_uid document))
    [(lit "subject", default [] (SearchDocument_subject document));
     (lit "from", join (lit " ") (SearchDocument_from document));
     (lit "to", join (lit " ") (SearchDocument_to document));
     (lit "cc", join (lit " ") (SearchDocument_cc document));
     (lit "bcc", join (lit " ") (SearchDocument_bcc document));
     (lit "message_id", default [] (SearchDocument_message_id document));
     (lit "reply_to", join (lit " ") (SearchDocument_reply_to document));
     (lit "body", SearchDocument_body document)].

Definition on_index {A} (what : str) (m : M str I A) : M Error I A := fun ix =>
  let '(ix', r) := m ix in
  (ix', match r with
        | Ok a => Ok a
        | Err e => Err (EStorage (what ++ lit ": " ++ e))
        | Panic => Panic
        end).

Definition mailbox_index_message (document : SearchDocument) : M Error I unit :=
  modify (delete_term (lit "uid") (SearchDocument_uid document)) ;;;
  on_index (lit "failed to add search document") (add_document (tantivy_document document)) ;;;
  on_index (lit "failed to commit search index") commit ;;;
  on_index (lit "failed to reload search index") reload.

(** ** Searching *)
Definition in_filter (filter : option UidSet) (uid : Z) : bool :=
  match filter with Some set => UidSet_contains set uid | None => true end.

Fixpoint read_uids (ix : I) (filter : option UidSet) (addresses : list DocAddress)
  : Result (list Z) :=
  match addresses with
  | [] => Ok []
  | address :: addresses' =>
      try! doc <- storage_err (lit "failed to read search result") (searcher_doc ix address) ;;
      try! rest <- read_uids ix filter addresses' ;;
      Ok (match document_uid doc with
          | Some uid => if in_filter filter uid then uid :: rest else rest
          | None => rest
          end)
  end.

Definition collect_query_uids (ix : I) (query : TQuery) (filter : option UidSet)
  : Result (list Z) :=
  try! top_docs <- storage_err (lit "search failed") (searcher_search ix query 1000) ;;
  try! uids <- read_uids ix filter top_docs ;;
  Ok (sort_by Z.leb uids).

Definition parse_text (ix : I) (text : str) : Result TQuery :=
  match parse_query ix searchable_fields text with
  | inl q => Ok q
  | inr e => Err (EParse (lit "failed to parse search query: " ++ e))
  end.

(** [strip_prefix("NOT ").or_else(|| strip_prefix("NOT("))]. *)
Definition negated (trimmed : str) : option str :=
  match strip_prefix (lit "NOT ") trimmed with
  | Some inner => Some inner
  | None => strip_prefix (lit "NOT(") trimmed
  end.

Definition search_flat (ix : I) (query : SearchQuery) : Result (list Z) :=
  match match_all query, query_string query with
  | true, _ | _, None | _, Some [] => collect_query_uids ix all_query (uid_filter query)
  | _, Some text =>
      match negated (trim text) with
      | Some inner =>
          try! q <- parse_text ix (strip_outer_parens (trim inner)) ;;
          try! excluded <- collect_query_uids ix q (uid_filter query) ;;
          try! all <- collect_query_uids ix all_query (uid_filter query) ;;
          Ok (List.filter (fun uid => negb (memZ uid excluded)) all)
      | None =>
          try! q <- parse_text ix (normalize_boolean_query text) ;;
          collect_query_uids ix q (uid_filter query)
      end
  end.

Fixpoint search_expr_uids (ix : I) (e : SearchExpr) : Result (list Z) :=
  match e with
  | Leaf query => search_flat ix query
  | And [] => Ok []
  | And (first :: children) =>
      try! acc <- search_expr_uids ix first ;;
      (fix narrow (acc : list Z) (children : list SearchExpr) : Result (list Z) :=
         match children with
         | [] => Ok acc
         | child :: children' =>
             try! child_uids <- search_expr_uids ix child ;;
             narrow (List.filter (fun uid => memZ uid child_uids) acc) children'
         end) (btree_set acc) children
  | Or e1 e2 =>
      try! l <- search_expr_uids ix e1 ;;
      try! r <- search_expr_uids ix e2 ;;
      Ok (dedup (sort_by Z.leb (l ++ r)))
  | Not inner =>
      try! all <- search_flat ix SearchQuery_all ;;
      try! excluded <- search_expr_uids ix inner ;;
      Ok (List.filter (fun uid => negb (memZ uid excluded)) all)
  end.

Definition mailbox_search (ix : I) (query : SearchQuery) : Result (list Z) :=
  try! uids <- match expr query with
               | Some e =>
                   try! base <- search_flat ix (set_expr None query) ;;
                   try! expr_uids <- search_expr_uids ix e ;;
                   Ok (List.filter (fun uid => memZ uid base) expr_uids)
               | None => search_flat ix query
               end ;;
  Ok (dedup (sort_by Z.leb uids)).
End Index.

(** ** The engine *)
Record TantivySearchEngine {I : Type} : Type := mkTantivySearchEngine {
  mailbox_root : option OsString;
  mailbox_indexes : gmap str I
}.
Arguments TantivySearchEngine : clear implicits.

Section Engine.
Context {I : Type} `{Tantivy I} `{Sha256}.

Definition memory : Result (TantivySearchEngine I) := Ok (mkTantivySearchEngine I None ∅).

Definition persistent (root : OsString) : Result (TantivySearchEngine I) :=
  try! _ <- storage_err (lit "failed to create search index directory " ++ display_path root)
              (make_directories root) ;;
  Ok (mkTantivySearchEngine I (Some root) ∅).

(** The index of a mailbox, opened when it is not there yet. *)
Definition mailbox_index (mailbox : str) : M Error (TantivySearchEngine I) I := fun s =>
  match mailbox_indexes s !! mailbox with
  | Some ix => (s, Ok ix)
  | None =>
      match match mailbox_root s with
            | Some root => open_or_create (join_path root (mailbox_directory_name mailbox))
            | None => new_in_memory
            end with
      | Ok ix => (mkTantivySearchEngine I (mailbox_root s) (<[mailbox := ix]> (mailbox_indexes s)),
                  Ok ix)
      | Err e => (s, Err e)
      | Panic => (s, Panic)
      end
  end.

Definition engine_index_message (mailbox : str) (document : SearchDocument)
  : M Error (TantivySearchEngine I) unit :=
  do ix <- mailbox_index mailbox ;;
  fun s =>
    let '(ix', r) := mailbox_index_message document ix in
    (mkTantivySearchEngine I (mailbox_root s) (<[mailbox := ix']> (mailbox_indexes s)), r).

Definition engine_search (mailbox : str) (query : SearchQuery)
  : M Error (TantivySearchEngine I) (list Z) :=
  do ix <- mailbox_index mailbox ;;
  lift (mailbox_search ix query).
End Engine.

(** The interface the ingestor and the server run on. *)
#[export] Instance tantivy_backend {I} `{Tantivy I, Sha256} : SearchBackend (TantivySearchEngine I) := {
  index_message := engine_index_message;
  backend_search := engine_search
}.
