(* ===== verification/SearchIndexSpecs.v ===== *)
(** * The full-text index, against its contract

    [TantivyLaws] is what Tantivy documents: a committed and reloaded index
    shows the documents added and not deleted, a deletion by term reaches the
    documents that have the term in an indexed field, and a search gives the best
    [n] of the documents a query matches.  After indexing at most 1000 messages,
    the limit the code asks for, with different UIDs a search is then exact: the
    result is the set of UIDs of the messages the query's boolean expression holds
    of. *)

From stdpp Require Import base strings list gmap.
From Stdlib Require Import ZArith Lia Permutation Sorting.Sorted.
From S2P Require Import Prelude RustStr Domain Protocol SearchQuery Storage Search Config SearchEval SearchIndex.

Local Open Scope Z_scope.

(** The UID is a term of the document only if its field is indexed. *)
Definition has_term (entries : list FieldEntry) (field : str) (uid : Z) (d : TantivyDocument) : bool :=
  existsb (fun e => str_eqb (field_name e) field && field_indexed e) entries &&
  bool_decide (document_uid d = Some uid).

Class TantivyLaws (I : Type) `{Tantivy I} : Type := {
  schema_of : I -> list FieldEntry;
  visible : I -> list TantivyDocument;
  quiet : I -> Prop;
  query_matches : TQuery -> TantivyDocument -> bool;
  all_query_matches : forall d, query_matches all_query d = true;
  search_top : forall ix q n, exists addresses docs rest,
    searcher_search ix q n = inl addresses /\
    map (searcher_doc ix) addresses = map inl docs /\
    Permutation (docs ++ rest) (List.filter (query_matches q) (visible ix)) /\
    length docs = Nat.min n (length (List.filter (query_matches q) (visible ix)));
  write_committed : forall ix ix1 ix2 ix3 field uid d,
    quiet ix -> add_document d (delete_term field uid ix) = (ix1, Ok tt) ->
    commit ix1 = (ix2, Ok tt) -> reload ix2 = (ix3, Ok tt) ->
    quiet ix3 /\ schema_of ix3 = schema_of ix /\
    Permutation (visible ix3)
      (d :: List.filter (fun d' => negb (has_term (schema_of ix) field uid d')) (visible ix));
  ram_is_empty : forall entries,
    quiet (create_in_ram entries) /\ schema_of (create_in_ram entries) = entries /\
    visible (create_in_ram entries) = []
}.

Lemma btree_set_In u l : In u (btree_set l) <-> In u l.
Proof. unfold btree_set. rewrite dedup_In. apply sort_by_In. Qed.

Lemma btree_set_ext l1 l2 : (forall u, In u l1 <-> In u l2) -> btree_set l1 = btree_set l2.
Proof.
  intros Hu. apply strictly_sorted_ext; [apply sorted_dedup_Z..|].
  intros z. by rewrite !btree_set_In.
Qed.

Lemma memZ_In z l : memZ z l = true <-> In z l.
Proof.
  unfold memZ. rewrite existsb_exists. split; [intros (x & Hx & ->%Z.eqb_eq); done|].
  intros Hin. exists z. by rewrite Z.eqb_refl.
Qed.

(** Structural induction through the list of a conjunction. *)
Lemma expr_nested_ind (P : SearchExpr -> Prop)
  (Hleaf : forall q, P (Leaf q)) (Hand : forall l, Forall P l -> P (And l))
  (Hor : forall a b, P a -> P b -> P (Or a b)) (Hnot : forall a, P a -> P (Not a)) :
  forall e, P e.
Proof.
  fix F 1. intros [q|l|a b|a].
  - apply Hleaf.
  - apply Hand. induction l as [|x l IH]; [constructor|]. constructor; [apply F|apply IH].
  - apply Hor; apply F.
  - apply Hnot, F.
Qed.

Section Exact.
Context {I : Type} `{TantivyLaws I}.

(** Every document has a UID, and no two have the same. *)
Definition index_ok (ix : I) : Prop :=
  quiet ix /\ NoDup (map document_uid (visible ix)) /\
  Forall (fun d => is_some (document_uid d) = true) (visible ix).

(** ** What a query asks of a document *)
Definition doc_in_filter (filter : option UidSet) (d : TantivyDocument) : bool :=
  match document_uid d with Some uid => in_filter filter uid | None => false end.

Definition flat_test (ix : I) (query : SearchQuery) : Result (TantivyDocument -> bool) :=
  let inside := doc_in_filter (uid_filter query) in
  match match_all query, query_string query with
  | true, _ | _, None | _, Some [] => Ok inside
  | _, Some text =>
      match negated (trim text) with
      | Some inner =>
          try! q <- parse_text ix (strip_outer_parens (trim inner)) ;;
          Ok (fun d => inside d && negb (query_matches q d))
      | None =>
          try! q <- parse_text ix (normalize_boolean_query text) ;;
          Ok (fun d => inside d && query_matches q d)
      end
  end.

Fixpoint expr_test (ix : I) (e : SearchExpr) : Result (TantivyDocument -> bool) :=
  match e with
  | Leaf query => flat_test ix query
  | And [] => Ok (fun _ => false)
  | And (first :: children) =>
      try! t <- expr_test ix first ;;
      (fix narrow (t : TantivyDocument -> bool) (children : list SearchExpr) :=
         match children with
         | [] => Ok t
         | child :: children' =>
             try! c <- expr_test ix child ;; narrow (fun d => t d && c d) children'
         end) t children
  | Or a b =>
      try! s <- expr_test ix a ;;
      try! t <- expr_test ix b ;;
      Ok (fun d => s d || t d)
  | Not inner => try! t <- expr_test ix inner ;; Ok (fun d => negb (t d))
  end.

Definition query_test (ix : I) (query : SearchQuery) : Result (TantivyDocument -> bool) :=
  match expr query with
  | Some e =>
      try! base <- flat_test ix (set_expr None query) ;;
      try! t <- expr_test ix e ;;
      Ok (fun d => base d && t d)
  | None => flat_test ix query
  end.

(** The UIDs of the documents a test holds of. *)
Definition uids_of (ix : I) (test : TantivyDocument -> bool) : list Z :=
  omap document_uid (List.filter test (visible ix)).

Lemma uids_of_In ix test u :
  In u (uids_of ix test) <->
  exists d, In d (visible ix) /\ document_uid d = Some u /\ test d = true.
Proof.
  unfold uids_of. rewrite <- list_elem_of_In, list_elem_of_omap. split.
  - intros (d & Hd & Hu). apply list_elem_of_In, filter_In in Hd as [Hd Ht]. eauto.
  - intros (d & Hd & Hu & Ht). exists d. split; [|done]. by apply list_elem_of_In, filter_In.
Qed.

(** A result list has exactly the UIDs a test selects; errors are the same. *)
Definition answers (ix : I) (r : Result (list Z)) (t : Result (TantivyDocument -> bool)) : Prop :=
  match r, t with
  | Ok l, Ok test => forall u, In u l <-> In u (uids_of ix test)
  | Err e, Err e' => e = e'
  | Panic, Panic => True
  | _, _ => False
  end.

Lemma answers_bind ix r t (k : list Z -> Result (list Z)) kt :
  answers ix r t ->
  (forall l test, (forall u, In u l <-> In u (uids_of ix test)) -> answers ix (k l) (kt test)) ->
  answers ix (obind r k) (obind t kt).
Proof. destruct r, t; simpl; try done; auto. Qed.

(** With distinct UIDs, a test is decided by the UID. *)
Lemma uids_of_uid ix s d u :
  index_ok ix -> In d (visible ix) -> document_uid d = Some u ->
  In u (uids_of ix s) <-> s d = true.
Proof.
  intros (_ & Hnd & _) Hd Hu. rewrite uids_of_In. split; [|eauto].
  intros (d' & Hd' & Hu' & Hs). assert (d' = d) as ->; [|done].
  apply list_elem_of_In, list_elem_of_lookup in Hd as [i Hi].
  apply list_elem_of_In, list_elem_of_lookup in Hd' as [j Hj].
  assert (i = j) as ->; [|congruence].
  eapply (NoDup_lookup _ _ _ (Some u) Hnd).
  - by rewrite list_lookup_fmap, Hi, <- Hu.
  - by rewrite list_lookup_fmap, Hj, <- Hu'.
Qed.

Lemma uids_of_and ix s t u :
  index_ok ix ->
  In u (uids_of ix (fun d => s d && t d)) <-> In u (uids_of ix s) /\ In u (uids_of ix t).
Proof.
  intros Hok. split.
  - rewrite !uids_of_In. intros (d & Hd & Hu & [Hs Ht]%andb_true_iff). eauto 10.
  - intros [Hs Ht]. apply uids_of_In in Hs as (d & Hd & Hu & Hs).
    apply (uids_of_uid ix t d u Hok Hd Hu) in Ht. apply uids_of_In. exists d. by rewrite Hs, Ht.
Qed.

Lemma uids_of_diff ix s t u :
  index_ok ix ->
  In u (uids_of ix (fun d => s d && negb (t d))) <-> In u (uids_of ix s) /\ ~ In u (uids_of ix t).
Proof.
  intros Hok. split.
  - rewrite (uids_of_In _ (fun d => s d && negb (t d))).
    intros (d & Hd & Hu & [Hs Ht]%andb_true_iff). split; [apply uids_of_In; eauto|].
    rewrite (uids_of_uid ix t d u) by done. by destruct (t d).
  - intros [Hs Ht]. apply uids_of_In in Hs as (d & Hd & Hu & Hs). apply uids_of_In. exists d.
    rewrite Hs. rewrite (uids_of_uid ix t d u) in Ht by done. by destruct (t d).
Qed.

Lemma filter_mem_In u l l' :
  In u (List.filter (fun uid => memZ uid l') l) <-> In u l /\ In u l'.
Proof. by rewrite filter_In, memZ_In. Qed.

Lemma filter_not_mem_In u l l' :
  In u (List.filter (fun uid => negb (memZ uid l')) l) <-> In u l /\ ~ In u l'.
Proof. rewrite filter_In, negb_true_iff, <- not_true_iff_false, memZ_In. done. Qed.

(** ** Collecting *)
Lemma read_uids_In ix filter addresses docs :
  map (searcher_doc ix) addresses = map inl docs ->
  exists l, read_uids ix filter addresses = Ok l /\
    forall u, In u l <-> exists d, In d docs /\ document_uid d = Some u /\ in_filter filter u = true.
Proof.
  revert docs. induction addresses as [|a addresses IH]; intros [|d docs] E; try done.
  - exists []. split; [done|]. intros u. split; [done|]. by intros (? & [] & _).
  - injection E as Ea E. destruct (IH docs E) as (l & Hl & Hin).
    cbn [read_uids]. rewrite Ea. cbn [storage_err obind]. rewrite Hl. cbn [obind].
    eexists. split; [reflexivity|]. intros u.
    destruct (document_uid d) as [v|] eqn:Ev; [destruct (in_filter filter v) eqn:Ef|];
      cbn [In]; rewrite Hin; split;
      try (intros (d' & [<-|Hd'] & Hu & Hf); [|right; eauto]; try congruence; left; congruence);
      try (intros [<-|(d' & Hd' & Hu & Hf)]; eauto 10);
      try (intros (d' & [<-|Hd'] & Hu & Hf); [congruence|eauto]);
      try (intros (d' & Hd' & Hu & Hf); eauto 10).
Qed.

Lemma collect_answers ix q filter :
  (length (visible ix) <= 1000)%nat ->
  answers ix (collect_query_uids ix q filter)
    (Ok (fun d => doc_in_filter filter d && query_matches q d)).
Proof.
  intros Hlen. destruct (search_top ix q 1000) as (addresses & docs & rest & Es & Em & Hp & Hl).
  unfold collect_query_uids. rewrite Es. cbn [storage_err obind].
  destruct (read_uids_In ix filter addresses docs Em) as (l & -> & Hin). cbn [obind answers].
  assert (rest = []) as ->.
  { apply Permutation_length in Hp. rewrite length_app in Hp.
    assert (length (List.filter (query_matches q) (visible ix)) <= length (visible ix))%nat
      by apply filter_length_le.
    destruct rest; [done|]. simpl in Hp. lia. }
  rewrite app_nil_r in Hp. intros u. rewrite sort_by_In, Hin, uids_of_In.
  assert (forall d, In d docs <-> In d (visible ix) /\ query_matches q d = true) as Hd.
  { intros d. rewrite <- filter_In. split; apply Permutation_in; [done|by symmetry]. }
  unfold doc_in_filter. split.
  - intros (d & [Hv Hq]%Hd & Hu & Hf). exists d. by rewrite Hu, Hf, Hq.
  - intros (d & Hv & Hu & Ht). rewrite Hu in Ht. apply andb_true_iff in Ht as [Hf Hq].
    exists d. rewrite Hd. done.
Qed.

Lemma answers_ext ix r s t :
  (forall d, In d (visible ix) -> s d = t d) -> answers ix r (Ok s) -> answers ix r (Ok t).
Proof.
  intros Hst. destruct r; simpl; try done. intros Hr u. rewrite Hr, !uids_of_In.
  split; intros (d & Hd & Hu & Ht); exists d; (split_and!; [done..|]); [by rewrite <- Hst|by rewrite Hst].
Qed.

Section Queries.
Context (ix : I) (Hok : index_ok ix) (Hlen : (length (visible ix) <= 1000)%nat).

Lemma collect_all_answers filter :
  answers ix (collect_query_uids ix all_query filter) (Ok (doc_in_filter filter)).
Proof using Hlen.
  eapply answers_ext; [|by apply collect_answers]. intros d _. simpl.
  by rewrite all_query_matches, andb_true_r.
Qed.

Lemma parse_answers (r : Result TQuery) k kt :
  (forall q, answers ix (k q) (kt q)) -> answers ix (obind r k) (obind r kt).
Proof. destruct r; simpl; auto. Qed.

Lemma flat_answers query : answers ix (search_flat ix query) (flat_test ix query).
Proof using Hok Hlen.
  unfold search_flat, flat_test.
  destruct (match_all query); [apply collect_all_answers|].
  destruct (query_string query) as [[|c text]|]; [apply collect_all_answers| |apply collect_all_answers].
  destruct (negated (trim (c :: text))) as [inner|].
  - apply parse_answers. intros q. pose proof (collect_answers ix q (uid_filter query) Hlen) as Hq.
    destruct (collect_query_uids ix q (uid_filter query)) as [excluded|?|]; [|done..].
    pose proof (collect_all_answers (uid_filter query)) as Ha.
    destruct (collect_query_uids ix all_query (uid_filter query)) as [all|?|]; [|done..].
    simpl in *. intros u. rewrite filter_not_mem_In, Ha, Hq.
    rewrite uids_of_and, uids_of_diff by done. tauto.
  - apply parse_answers. intros q. by apply collect_answers.
Qed.

Lemma and_answers (children : list SearchExpr) :
  Forall (fun e => answers ix (search_expr_uids ix e) (expr_test ix e)) children ->
  answers ix (search_expr_uids ix (And children)) (expr_test ix (And children)).
Proof using Hok.
  destruct 1 as [|first children Hf Hc]; [by simpl; intros u; rewrite uids_of_In; split; [|intros (d & _ & _ & [=])]|].
  cbn [search_expr_uids expr_test]. apply answers_bind; [done|].
  assert (forall children,
    Forall (fun e => answers ix (search_expr_uids ix e) (expr_test ix e)) children ->
    forall l test, (forall u, In u l <-> In u (uids_of ix test)) ->
    answers ix
      ((fix narrow (acc : list Z) (children : list SearchExpr) : Result (list Z) :=
          match children with
          | [] => Ok acc
          | child :: children' =>
              try! child_uids <- search_expr_uids ix child ;;
              narrow (List.filter (fun uid => memZ uid child_uids) acc) children'
          end) l children)
      ((fix narrow (t : TantivyDocument -> bool) (children : list SearchExpr) :=
          match children with
          | [] => Ok t
          | child :: children' =>
              try! c <- expr_test ix child ;; narrow (fun d => t d && c d) children'
          end) test children)) as Hnarrow.
  { clear first children Hf Hc. induction 1 as [|child children Hc _ IH]; intros l test Hl; [done|].
    apply answers_bind; [done|]. intros l' test' Hl'. apply IH. intros u.
    by rewrite filter_mem_In, uids_of_and, Hl, Hl'. }
  intros l test Hl. apply Hnarrow; [done|]. intros u. by rewrite btree_set_In.
Qed.

Lemma expr_answers e : answers ix (search_expr_uids ix e) (expr_test ix e).
Proof using Hok Hlen.
  induction e as [q|l IH|a b IHa IHb|a IH] using expr_nested_ind.
  - apply flat_answers.
  - by apply and_answers.
  - cbn [search_expr_uids expr_test]. apply answers_bind; [done|]. intros l test Hl.
    apply answers_bind; [done|]. intros l' test' Hl'. intros u.
    rewrite dedup_In, sort_by_In, in_app_iff, Hl, Hl', !uids_of_In. split.
    + intros [(d & Hd & Hu & Ht)|(d & Hd & Hu & Ht)]; exists d; rewrite Ht; by rewrite ?orb_true_r.
    + intros (d & Hd & Hu & [Ht|Ht]%orb_true_iff); eauto 10.
  - cbn [search_expr_uids expr_test]. pose proof (flat_answers SearchQuery_all) as Ha.
    destruct (search_flat ix SearchQuery_all) as [all|?|]; [|done..]. simpl in Ha. cbn [obind].
    apply answers_bind; [done|]. intros l test Hl u.
    rewrite filter_not_mem_In, Ha, Hl, <- uids_of_diff by done.
    rewrite !uids_of_In. split; intros (d & Hd & Hu & Ht); exists d; (split_and!; [done..|]);
      unfold doc_in_filter in *; rewrite Hu in *; done.
Qed.

Lemma answers_result r t :
  answers ix r t ->
  (try! uids <- r ;; Ok (dedup (sort_by Z.leb uids))) =
  (try! test <- t ;; Ok (btree_set (uids_of ix test))).
Proof.
  destruct r, t; simpl; try done; [|by intros ->]. intros Hu. f_equal. by apply btree_set_ext.
Qed.

Lemma search_answers query :
  mailbox_search ix query =
  (try! test <- query_test ix query ;; Ok (btree_set (uids_of ix test))).
Proof using Hok Hlen.
  apply answers_result. unfold query_test. destruct (expr query) as [e|]; [|apply flat_answers].
  apply answers_bind; [apply flat_answers|]. intros l test Hl.
  apply answers_bind; [apply expr_answers|]. intros l' test' Hl' u.
  rewrite filter_mem_In, uids_of_and, Hl, Hl' by done. tauto.
Qed.
End Queries.

End Exact.

(** ** Indexing *)
Section Indexing.
Context {I : Type} `{TantivyLaws I}.

(** The field of the UID is not indexed, so the deletion reaches nothing: the
    message is added to what is there. *)
Lemma index_message_adds ix ix' document :
  quiet ix -> schema_of ix = schema -> mailbox_index_message document ix = (ix', Ok tt) ->
  quiet ix' /\ schema_of ix' = schema /\
  Permutation (visible ix') (tantivy_document document :: visible ix).
Proof.
  intros Hq Hs Hm. unfold mailbox_index_message in Hm.
  inv_bind Hm. injection Hstep as <- <-. inv_bind Hm. inv_bind Hm.
  assert (forall A what (m : M str I A) i i' a,
            on_index what m i = (i', Ok a) -> m i = (i', Ok a)) as Hon.
  { intros A what m i i' a. unfold on_index. destruct (m i) as [? [?|?|]]; congruence. }
  apply Hon in Hstep, Hstep0, Hm. destruct x, x0.
  destruct (write_committed _ _ _ _ _ _ _ Hq Hstep Hstep0 Hm) as (Hq' & Hs' & Hp).
  split_and!; [done|congruence|]. rewrite Hp, Hs. f_equiv.
  assert (forall l uid, List.filter (fun d' => negb (has_term schema (lit "uid") uid d')) l = l) as ->;
    [|done].
  intros l uid. apply forallb_filter_id, forallb_forall. intros d _. unfold has_term.
  by replace (existsb _ schema) with false by (vm_compute; reflexivity).
Qed.

Lemma index_messages_add documents : forall ix ix',
  quiet ix -> schema_of ix = schema -> for_each documents mailbox_index_message ix = (ix', Ok tt) ->
  quiet ix' /\ Permutation (visible ix') (map tantivy_document documents ++ visible ix).
Proof.
  induction documents as [|document documents IH]; intros ix ix' Hq Hs Hm.
  { injection Hm as <-. done. }
  simpl in Hm. inv_bind Hm. destruct x.
  destruct (index_message_adds _ _ _ Hq Hs Hstep) as (Hq1 & Hs1 & Hp1).
  destruct (IH _ _ Hq1 Hs1 Hm) as [Hq' Hp]. split; [done|]. rewrite Hp, Hp1. simpl.
  by rewrite Permutation_middle.
Qed.

(** The index of some messages with different UIDs. *)
Lemma index_of_messages documents ix0 ix :
  new_in_memory = Ok ix0 -> for_each documents mailbox_index_message ix0 = (ix, Ok tt) ->
  NoDup (map SearchDocument_uid documents) ->
  index_ok ix /\ Permutation (visible ix) (map tantivy_document documents).
Proof.
  intros Hn Hm Hnd. unfold new_in_memory, from_index in Hn.
  apply obind_Ok in Hn as ([] & _ & Hn). apply obind_Ok in Hn as ([] & _ & [= <-]).
  destruct (ram_is_empty schema) as (Hq & Hs & Hv).
  destruct (index_messages_add documents _ _ Hq Hs Hm) as [Hq' Hp].
  rewrite Hv, app_nil_r in Hp. split; [|done]. split_and!; [done| |].
  - rewrite Hp, map_map. simpl. rewrite <- (map_map SearchDocument_uid Some).
    by apply NoDup_fmap_2; [apply _|].
  - rewrite Hp. apply List.Forall_forall. intros d (m & <- & _)%in_map_iff. done.
Qed.

End Indexing.

(** ** A concrete Tantivy, for witnesses

    Writes are pending until the reload; a query is a text that occurs in a
    field; a search gives the first documents that match. *)
Module ToyTantivy.

Record t : Type := mk {
entries : list FieldEntry;
shown : list TantivyDocument;
pending : list TantivyDocument
}.

Definition occurs (q : option str) (d : TantivyDocument) : bool :=
match q with
| None => true
| Some text => existsb (fun field => is_some (find_str text (snd field))) (document_fields d)
end.

#[export] Instance tantivy : Tantivy t := {
TQuery := option str;
DocAddress := TantivyDocument;
all_query := None;
create_in_ram := fun entries => mk entries [] [];
mmap_directory_open := fun _ => inl tt;
index_open_or_create := fun _ entries => inl (mk entries [] []);
index_writer := fun _ => inl tt;
index_reader := fun _ => inl tt;
delete_term := fun field uid ix =>
  mk (entries ix) (shown ix)
    (List.filter (fun d => negb (has_term (entries ix) field uid d)) (pending ix));
add_document := fun d => modify (fun ix => mk (entries ix) (shown ix) (d :: pending ix));
commit := ret tt;
reload := modify (fun ix => mk (entries ix) (pending ix) (pending ix));
parse_query := fun _ _ text => inl (Some text);
searcher_search := fun ix q n => inl (take n (List.filter (occurs q) (shown ix)));
searcher_doc := fun _ d => inl d;
make_directories := fun _ => inl tt;
join_path := fun root name => match root with
                              | inl s => inl (s ++ lit "/" ++ name)
                              | inr b => inr (b ++ [47] ++ as_bytes name)
                              end;
display_path := fun p => match p with inl s => s | inr b => from_utf8_lossy b end
}.

#[export] Instance laws : TantivyLaws t.
Proof.
refine {| schema_of := entries; visible := shown; quiet := fun ix => pending ix = shown ix; query_matches := occurs |}.
- done.
- intros ix q n.
  exists (take n (List.filter (occurs q) (shown ix))), (take n (List.filter (occurs q) (shown ix))),
    (drop n (List.filter (occurs q) (shown ix))).
  split_and!; [done|done|by rewrite take_drop|apply length_take].
- intros ix ix1 ix2 ix3 field uid d Hq [= <-] [= <-] [= <-]. simpl. by rewrite Hq.
- done.
Defined.

Definition message (uid : Z) (subject : str) : SearchDocument :=
mkSearchDocument uid (Some subject) [] [] [] [] None [] [].

Definition fresh : t := mk schema [] [].
Definition indexed (messages : list SearchDocument) : t :=
fst (for_each messages mailbox_index_message fresh).

Definition two : list SearchDocument := [message 1 (lit "invoice"); message 2 (lit "holiday")].

(** Everything but the invoice. *)
Definition not_invoice : SearchQuery :=
set_expr (Some (Not (Leaf (set_match_all false
  (set_query_string (Some (lit "invoice")) SearchQuery_all))))) SearchQuery_all.

Lemma two_indexed : for_each two mailbox_index_message fresh = (indexed two, Ok tt).
Proof. vm_compute. reflexivity. Qed.


Example not_invoice_finds : mailbox_search (indexed two) not_invoice = Ok [2].
Proof. vm_compute. reflexivity. Qed.

(** With more than 1000 documents a search for all of them misses some. *)
Definition many : list TantivyDocument :=
map (fun n => tantivy_document (message (Z.of_nat n) [])) (seq 1 1001).
Example search_stops_at_1000 :
match mailbox_search (mk schema many many) SearchQuery_all with
| Ok uids => length uids = 1000%nat
| _ => False
end.
Proof. vm_compute. reflexivity. Qed.

Definition asks (text : str) : SearchQuery :=
set_match_all false (set_query_string (Some text) SearchQuery_all).

(** A message that is indexed again under its UID is still found by its old
    text. *)
Example reindexed_message_keeps_old_text :
mailbox_search (indexed [message 7 (lit "draft"); message 7 (lit "final")]) (asks (lit "draft")) = Ok [7].
Proof. vm_compute. reflexivity. Qed.

#[local] Instance sha : Sha256 := { sha256_hex := fun b => b }.

(** The index is found by the name of the mailbox alone: the message with UID 1
    of a second account goes into the first account's INBOX, and a search for its
    text finds UID 1 there. *)
Definition engine : TantivySearchEngine t := mkTantivySearchEngine t None ∅.
Definition shared : TantivySearchEngine t :=
fst (engine_index_message (lit "INBOX") (message 1 (lit "of account two"))
  (fst (engine_index_message (lit "INBOX") (message 1 (lit "of account one")) engine))).

Example index_shared_by_accounts :
snd (engine_search (lit "INBOX") (asks (lit "account one")) shared) = Ok [1] /\
snd (engine_search (lit "INBOX") (asks (lit "account two")) shared) = Ok [1].
Proof. vm_compute. done. Qed.

End ToyTantivy.
