(* ===== verification/Admin.v ===== *)
(** * Admin commands

    Models src/admin.rs: the commands of the binary, each run by a process of
    its own.  A [Process] is what the command works on: the database, the object
    store, the search index and the locks the services were built on, and the
    standard input.  A connection to an upstream server is made by the command;
    the counters and the connection limits of such a process start empty and are
    gone with it.  Random salts and nonces, the duration of a sync pass and
    whether the lock manager answers in time are variables of the section. *)

From stdpp Require Import base strings list gmap.
From Stdlib Require Import ZArith Lia.
From S2P Require Import Prelude RustStr Metrics Domain SearchQuery Storage Schema RepoCore Security RepoAccounts RepoMailboxes RepoMessages RepoQueue Coordination Mime Search Engine SyncEngine ImapSession Upstream Config Services.

Local Open Scope Z_scope.

Inductive AdminCommand : Type :=
  | Run
  | RunMigrations
  | CreateUser (username_email : str) (password : option str) (password_stdin : bool)
  | DisableUser (username_email : str)
  | SetPassword (username_email : str) (password : option str) (password_stdin : bool)
  | AddAccount (user_email display_name email_address upstream_host : str) (upstream_port : Z)
      (upstream_tls_mode upstream_auth_method upstream_username : str)
      (upstream_secret : option str) (upstream_secret_stdin : bool)
  | DisableAccount (account_email : str)
  | PauseSync (account_email : str)
  | ResumeSync (account_email : str)
  | DeleteAccount (account_email : str)
  | TestUpstream (account_email : str)
  | ForceSync (account_email : str)
  | ResetMailboxState (account_email mailbox : str)
  | ClearCache (account_email : str)
  | ListAccounts (user_email : str)
  | ListMailboxes (account_email : str)
  | ShowSyncStatus (account_email : str) (mailbox : option str).

(** [{:?}] of a [DateTime<Utc>]. *)
Class DebugTime : Type := { debug_time : Z -> str }.

Record Process {O X L : Type} : Type := mkProcess {
  p_world : World;
  p_store : O;
  p_search : X;
  p_lock : L;
  p_stdin : bytes
}.
Arguments Process : clear implicits.
Arguments mkProcess {O X L}.

Section Parts.
Context {O X L : Type}.
Abbreviation Admin := (M Error (Process O X L)).

Definition p_repo {A} (m : Repo A) : Admin A :=
  zoom p_world (fun w s => mkProcess w (p_store s) (p_search s) (p_lock s) (p_stdin s)) m.
Definition p_objects {A} (m : M Error O A) : Admin A :=
  zoom p_store (fun o s => mkProcess (p_world s) o (p_search s) (p_lock s) (p_stdin s)) m.
Definition set_stdin (b : bytes) (s : Process O X L) : Process O X L :=
  mkProcess (p_world s) (p_store s) (p_search s) (p_lock s) b.

(** A computation of the sync engines on the parts of the process, with a
    connection [u] of its own and new counters. *)
Definition with_client {U A} (u : U) (m : M Error (Engine O U X L) A) : Admin A := fun s =>
  let '(e, r) := m (mkEngine (p_world s) (p_store s) u (p_search s) (p_lock s) AppMetrics_new) in
  (mkProcess (e_world e) (e_store e) (e_search e) (e_lock e) (p_stdin s), r).

(** Does the repository of the process have an event sink. *)
Definition set_sink (sink : bool) : Admin unit :=
  p_repo (modify (fun w => mkWorld (w_db w) (w_seq w) (w_now w) sink (w_events w))).

(** ** Secrets *)

(** [read_line] of tokio on the bytes of the reader, as the line with its end. *)
Fixpoint take_line (b : bytes) : bytes * bytes :=
  match b with
  | [] => ([], [])
  | c :: b' => if c =? 10 then ([10], b')
               else let '(line, rest) := take_line b' in (c :: line, rest)
  end.

Definition strip_line_end (input : str) : str :=
  match strip_suffix [10] input with
  | Some input => default input (strip_suffix [13] input)
  | None => input
  end.

Definition read_secret_line_from_reader (label : str) : Admin str :=
  do b <- gets p_stdin ;;
  let '(line, rest) := take_line b in
  modify (set_stdin rest) ;;;
  do input <- lift (ok_or (from_utf8 line) (EIo (lit "stream did not contain valid UTF-8"))) ;;
  match line with
  | [] => fail (EConfig (lit "stdin closed while reading " ++ label))
  | _ => ret (strip_line_end input)
  end.

Definition read_secret_line (label : str) : Admin str := read_secret_line_from_reader label.

Definition resolve_secret_input (value : option str) (from_stdin : bool) (label : str) : Admin str :=
  match value, from_stdin with
  | Some value, false => ret value
  | Some _, true =>
      fail (EConfig (label ++ lit " may be provided inline or via stdin, not both"))
  | None, true => read_secret_line label
  | None, false =>
      fail (EConfig (label ++ lit " is required unless the corresponding --*-stdin flag is used"))
  end.

Definition record_admin_audit (user_id account_id : option Z) (action : str) (metadata : Value)
  : Admin unit :=
  ignore (p_repo (record_audit_log user_id account_id action metadata)).

(** ** Objects *)
Section Objects.
Context `{ObjectStore O} `{PgText}.

Definition release_object (account_id : Z) (blob_key : str) : Admin bool :=
  do gone <- p_repo (delete_cache_object_for_account account_id blob_key) ;;
  (if gone : bool then p_objects (store_delete blob_key) else ret tt) ;;;
  ret gone.

Definition purge_pass (account_id : Z) (cache_keys : gset str) (objects : list CacheObject)
  : Admin (gset str) :=
  fold_each objects cache_keys (fun cache_keys object =>
    release_object account_id (CacheObject_blob_key object) ;;;
    ret ({[CacheObject_blob_key object]} ∪ cache_keys)).

(** The [loop]; without fuel left it panics. *)
Fixpoint purge_loop (fuel : nat) (account_id : Z) (cache_keys : gset str) : Admin (gset str) :=
  match fuel with
  | 0%nat => panic
  | S fuel' =>
      do cache_objects <- p_repo (list_cache_objects_for_account account_id) ;;
      match cache_objects with
      | [] => ret cache_keys
      | _ => do cache_keys <- purge_pass account_id cache_keys cache_objects ;;
             purge_loop fuel' account_id cache_keys
      end
  end.

(** Every call on a row takes one reference off it, or the row. *)
Definition purge_fuel (account_id : Z) (db : Database) : nat :=
  S (foldr (fun r n => (Z.to_nat (Z.max 1 (CacheObjectRow_ref_count r)) + n)%nat) 0%nat
       (select (fun r => sql_eq (CacheObjectRow_account_id r) account_id) (cache_objects db))).

Definition purge_account_objects_for_deletion (account_id : Z) : Admin unit :=
  do db <- gets (fun s => w_db (p_world s)) ;;
  do cache_keys <- purge_loop (purge_fuel account_id db) account_id ∅ ;;
  do object_keys <- p_repo (list_object_keys_for_account account_id) ;;
  for_each (List.filter (fun key => negb (bool_decide (key ∈ cache_keys))) object_keys) (fun key =>
    do elsewhere <- p_repo (count_blob_key_references_elsewhere key account_id) ;;
    if elsewhere =? 0 then p_objects (store_delete key) else ret tt).

(** [len.saturating_sub(keep)] objects from the front. *)
Definition prune_cache_objects_for_account (account_id keep_latest_objects : Z) : Admin Z :=
  do cache_objects <- p_repo (if keep_latest_objects =? 0
                              then list_cache_objects_for_account account_id
                              else list_cache_objects_for_account_by_recency account_id) ;;
  let to_delete :=
    if keep_latest_objects =? 0 then cache_objects
    else take (length cache_objects - Z.to_nat keep_latest_objects) cache_objects in
  fold_each to_delete 0 (fun deleted object =>
    do gone <- release_object account_id (CacheObject_blob_key object) ;;
    ret (if gone : bool then deleted + 1 else deleted)).
End Objects.
End Parts.

(** ** Commands on the services *)
Definition account_not_found (account_email : str) : Error :=
  EStorage (lit "account not found: " ++ account_email).

Section Commands.
Context {O P X L : Type} `{ObjectStore O} `{Peer P} `{SearchBackend X} `{SyncLockManager L}.
Context `{System} `{Platform} `{Sha256} `{Texts} `{MimeParser} `{PgText} `{UuidText} `{Crypto}.
Context `{Chrono} `{Base64Encode} `{DebugTime}.
Variable salt : str.
Variables nonce1 nonce2 : bytes.
Variable elapsed : Z.
Variable lock_times_out : bool.
Abbreviation Admin := (M Error (Process O X L)).

Definition box (config : Config) : SecretBox :=
  SecretBox_from_passphrase (Config_encryption_master_key config).

(** [AppServices::new(config).await.map_err(..)?]: its repository publishes. *)
Definition app_services (config : Config) : Admin AppServices :=
  set_sink true ;;;
  match snd (AppServices_new salt config initial_globals) with
  | Ok services => ret services
  | Err e => fail (EStorage (lit "building application services failed: " ++ e))
  | Panic => panic
  end.

(** [open_repository]: a repository without an event sink. *)
Definition open_repository (config : Config) : Admin unit :=
  unwrap database_url <- Config_database_url config
    or fail (EConfig (lit "database-backed admin commands require DATABASE_URL or database_url")) ;;
  do _ <- lift (or_else (pg_connect database_url)
                  (fun e => EStorage (lit "connecting to database failed: " ++ e))) ;;
  do _ <- lift (run_migrations database_url) ;;
  set_sink false.

Definition run_migrations_only (config : Config) : Result unit :=
  unwrap database_url <- Config_database_url config
    or Err (EConfig (lit "run-migrations requires DATABASE_URL or database_url in config")) ;;
  try! _ <- or_else (pg_connect database_url)
              (fun e => EStorage (lit "connecting to database failed: " ++ e)) ;;
  run_migrations database_url.

(** [with_account_connection_limit] of a process without other connections:
    there is a permit at once. *)
Definition limited (account_id limit : Z) (client : UpstreamConn P) : UpstreamConn P :=
  default client (snd (with_account_connection_limit account_id limit client ∅)).

Definition authenticate_upstream (config : UpstreamAccountConfig) : M Error (UpstreamConn P) unit :=
  authenticate_with_method (UpstreamAccountConfig_auth_method config)
    (UpstreamAccountConfig_username config) (UpstreamAccountConfig_secret config).

Definition run_force_sync_command (config : Config) (account_email : str) : Admin str :=
  do services <- app_services config ;;
  unwrap _repo <- AppServices_repository services
    or fail (EConfig (lit "force-sync requires a database-backed repository")) ;;
  unwrap _engine <- AppServices_sync_engine services
    or fail (EConfig (lit "force-sync requires sync engine support")) ;;
  do account <- p_repo (find_account_by_email_address_any_state account_email) ;;
  unwrap account <- account or fail (account_not_found account_email) ;;
  if is_some (MailAccount_disabled_at account)
  then fail (EStorage (lit "account is disabled: " ++ account_email))
  else
    do upstream_config <- p_repo (upstream_account_config (box config) account_email) ;;
    unwrap upstream_config <- upstream_config or fail (account_not_found account_email) ;;
    do client <- lift (connect upstream_config) ;;
    let client := limited (MailAccount_id account)
                    (Config_upstream_connection_limit_per_account config)
                    (with_metrics AppMetrics_new client) in
    do report <- with_client client (
      on_upstream (authenticate_upstream upstream_config) ;;;
      do report <- sync_account true true elapsed (MailAccount_id account) ;;
      on_upstream conn_logout ;;;
      ret report) ;;
    record_admin_audit (Some (MailAccount_user_id account)) (Some (MailAccount_id account))
      (lit "force_sync")
      (Object [(lit "account_email", VString account_email);
               (lit "mailboxes_synced", Number (mailboxes_synced report));
               (lit "messages_synced", Number (messages_synced report))]) ;;;
    ret (lit "synced " ++ fmt_u (mailboxes_synced report) ++ lit " mailbox(es), " ++
         fmt_u (messages_synced report) ++ lit " message(s) for " ++ account_email).

Definition run_clear_cache_command (config : Config) (account_email : str) : Admin str :=
  do services <- app_services config ;;
  unwrap _repo <- AppServices_repository services
    or fail (EConfig (lit "clear-cache requires a database-backed repository")) ;;
  do account <- p_repo (find_account_by_email_address_any_state account_email) ;;
  unwrap account <- account or fail (account_not_found account_email) ;;
  do rows <- prune_cache_objects_for_account (MailAccount_id account)
               (Config_cache_eviction_keep_latest_objects config) ;;
  record_admin_audit (Some (MailAccount_user_id account)) (Some (MailAccount_id account))
    (lit "clear_cache")
    (Object [(lit "account_email", VString account_email);
             (lit "removed_objects", Number rows)]) ;;;
  ret (lit "cleared " ++ fmt_u rows ++ lit " cache object(s) for " ++ account_email).

(** The lock of the account, for ten minutes, waited for at most thirty seconds. *)
Definition lock_for_deletion (account_id : Z) (account_email : str) : Admin SyncLockGuard :=
  if lock_times_out
  then fail (EStorage (lit "timed out waiting for account sync lock: " ++ account_email))
  else
    do lock <- with_client tt (acquire_account_lock true account_id 600000) ;;
    lift (ok_or lock (EStorage (lit "account sync is busy: " ++ account_email))).

Definition delete_locked_account (account : MailAccount) (account_email : str) : Admin str :=
  do _ <- p_repo (disable_mail_account (MailAccount_id account)) ;;
  record_admin_audit (Some (MailAccount_user_id account)) (Some (MailAccount_id account))
    (lit "delete_account") (Object [(lit "account_email", VString account_email)]) ;;;
  purge_account_objects_for_deletion (MailAccount_id account) ;;;
  do rows <- p_repo (delete_mail_account (MailAccount_id account)) ;;
  ret (lit "deleted " ++ fmt_u rows ++ lit " account(s) for " ++ account_email).

(** The guard is dropped at the end, whatever the outcome. *)
Definition holding (guard : SyncLockGuard) (body : Admin str) : Admin str := fun s =>
  let '(s1, r) := body s in
  (fst (with_client tt (on_lock (SyncLockGuard_drop true guard)) s1), r).

Definition run_delete_account_command (config : Config) (account_email : str) : Admin str :=
  do services <- app_services config ;;
  unwrap _repo <- AppServices_repository services
    or fail (EConfig (lit "delete-account requires a database-backed repository")) ;;
  do account <- p_repo (find_account_by_email_address_any_state account_email) ;;
  unwrap account <- account or fail (account_not_found account_email) ;;
  match AppServices_sync_engine services with
  | Some _ =>
      do guard <- lock_for_deletion (MailAccount_id account) account_email ;;
      holding guard (delete_locked_account account account_email)
  | None => delete_locked_account account account_email
  end.

Definition run_add_account_command (config : Config)
  (user_email display_name email_address upstream_host : str) (upstream_port : Z)
  (upstream_tls_mode upstream_auth_method upstream_username : str)
  (upstream_secret : option str) (upstream_secret_stdin : bool) : Admin str :=
  open_repository config ;;;
  do user <- p_repo (find_user_by_username user_email) ;;
  unwrap user <- user or fail (EStorage (lit "user not found: " ++ user_email)) ;;
  do tls_mode <- lift (or_else (UpstreamTlsMode_from_str upstream_tls_mode) EStorage) ;;
  do auth_method <- lift (or_else (UpstreamAuthMethod_from_str upstream_auth_method) EStorage) ;;
  do upstream_secret <- resolve_secret_input upstream_secret upstream_secret_stdin
                          (lit "upstream secret") ;;
  do account <- p_repo (create_mail_account (box config) nonce1 nonce2
    (mkNewMailAccount (User_id user) display_name email_address upstream_host upstream_port tls_mode
       auth_method upstream_username upstream_secret)) ;;
  do max_bytes <- lift (if Config_default_account_quota_bytes config <=? i64_max
                        then Ok (Config_default_account_quota_bytes config)
                        else Err (EConfig (lit "default_account_quota_bytes is too large: " ++
                                    lit "out of range integral type conversion attempted"))) ;;
  do quota <- p_repo (upsert_account_quota (MailAccount_id account) max_bytes) ;;
  record_admin_audit (Some (User_id user)) (Some (MailAccount_id account)) (lit "add_account")
    (Object [(lit "user_email", VString user_email);
             (lit "account_email", VString email_address);
             (lit "upstream_host", VString upstream_host);
             (lit "upstream_port", Number upstream_port);
             (lit "upstream_tls_mode", VString upstream_tls_mode);
             (lit "upstream_auth_method", VString upstream_auth_method)]) ;;;
  ret (lit "created account " ++ MailAccount_email_address account ++ lit " (id=" ++
       fmt_i (MailAccount_id account) ++ lit ") with quota " ++ fmt_i (Quota_max_bytes quota) ++
       lit " bytes").

(** ** Commands on the repository *)
Definition find_active_account (account_email : str) : Admin MailAccount :=
  do account <- p_repo (find_account_by_email_address account_email) ;;
  lift (ok_or account (account_not_found account_email)).

Definition find_any_account (account_email : str) : Admin MailAccount :=
  do account <- p_repo (find_account_by_email_address_any_state account_email) ;;
  lift (ok_or account (account_not_found account_email)).

Definition find_named_mailbox (account_id : Z) (mailbox : str) : Admin Mailbox :=
  do row <- p_repo (find_mailbox account_id mailbox) ;;
  lift (ok_or row (EStorage (lit "mailbox not found: " ++ mailbox))).

(** [if rows > 0 { record_admin_audit(..).await; }] for a change of an account. *)
Definition audit_changed (rows : Z) (account : MailAccount) (action : str) (metadata : Value)
  : Admin unit :=
  if 0 <? rows
  then record_admin_audit (Some (MailAccount_user_id account)) (Some (MailAccount_id account))
         action metadata
  else ret tt.

Definition email_json (key email : str) : Value := Object [(key, VString email)].

Definition test_upstream (limit : Z) (secrets : SecretBox) (account_email : str) : Admin str :=
  do account <- find_any_account account_email ;;
  do config <- p_repo (upstream_account_config secrets account_email) ;;
  unwrap config <- config or fail (account_not_found account_email) ;;
  do client <- lift (connect config) ;;
  with_client (limited (MailAccount_id account) limit client) (on_upstream (
    capability ;;;
    authenticate_upstream config ;;;
    do mailboxes <- conn_list_mailboxes ;;
    match List.find (fun mailbox => eq_ignore_ascii_case mailbox (lit "INBOX")) mailboxes with
    | Some mailbox => conn_select mailbox
    | None => ret tt
    end ;;;
    conn_noop ;;;
    conn_logout)) ;;;
  ret (lit "upstream ok for " ++ account_email).

Definition tab : str := [9].
Definition fmt_bool (b : bool) : str := if b then lit "true" else lit "false".
Definition trim_end (s : str) : str := trim_end_by is_whitespace s.
(** [writeln!] of every line, then [trim_end]. *)
Definition output_lines (lines : list str) : str := trim_end (flat_map (fun l => l ++ [10]) lines).

Definition debug_option {A} (debug : A -> str) (o : option A) : str :=
  match o with Some a => lit "Some(" ++ debug a ++ lit ")" | None => lit "None" end.

Definition show_sync_state (name : str) (sync_state : option SyncState) : str :=
  match sync_state with
  | Some sync_state =>
      lit "mailbox=" ++ name ++ lit " state=" ++ json_to_string (SyncState_state_json sync_state) ++
      lit " last_success_at=" ++ debug_option debug_time (SyncState_last_success_at sync_state) ++
      lit " last_attempt_at=" ++ debug_option debug_time (SyncState_last_attempt_at sync_state) ++
      lit " last_error=" ++ debug_option debug_str (SyncState_last_error sync_state)
  | None => lit "mailbox=" ++ name ++ lit " state=none"
  end.

Definition reset_mailbox_state (account_email mailbox : str) : Admin str :=
  do account <- find_any_account account_email ;;
  do mailbox_row <- find_named_mailbox (MailAccount_id account) mailbox ;;
  do rows <- p_repo (delete_sync_state (MailAccount_id account) (Some (Mailbox_id mailbox_row))) ;;
  audit_changed rows account (lit "reset_mailbox_state")
    (Object [(lit "account_email", VString account_email); (lit "mailbox", VString mailbox)]) ;;;
  ret (lit "reset " ++ fmt_u rows ++ lit " mailbox state row(s) for " ++ account_email ++
       lit "/" ++ mailbox).

Definition list_accounts (user_email : str) : Admin str :=
  do user <- p_repo (find_user_by_username user_email) ;;
  unwrap user <- user or fail (EStorage (lit "user not found: " ++ user_email)) ;;
  do accounts <- p_repo (list_accounts_for_user (User_id user)) ;;
  ret (output_lines (map (fun account =>
         fmt_i (MailAccount_id account) ++ tab ++ MailAccount_email_address account ++ tab ++
         MailAccount_display_name account) accounts)).

Definition show_mailboxes (account_email : str) : Admin str :=
  do account <- find_active_account account_email ;;
  do mailboxes <- p_repo (list_mailboxes (MailAccount_id account) None) ;;
  ret (output_lines (map (fun mailbox =>
         fmt_i (Mailbox_id mailbox) ++ tab ++ Mailbox_name mailbox ++ tab ++
         fmt_i (Mailbox_exists_count mailbox) ++ tab ++ fmt_bool (Mailbox_subscribed mailbox))
         mailboxes)).

Definition show_sync_status (account_email : str) (mailbox : option str) : Admin str :=
  do account <- find_active_account account_email ;;
  match mailbox with
  | Some mailbox_name =>
      do mailbox_row <- find_named_mailbox (MailAccount_id account) mailbox_name ;;
      do sync_state <- p_repo (load_sync_state (MailAccount_id account)
                                 (Some (Mailbox_id mailbox_row))) ;;
      ret (output_lines [show_sync_state (Mailbox_name mailbox_row) sync_state])
  | None =>
      ret (output_lines [lit "account=" ++ MailAccount_email_address account ++ lit " id=" ++
                         fmt_i (MailAccount_id account)])
  end.

(** [limit] is the connection limit, [secrets] the box of the repository. *)
Definition execute_repository_command (secrets : SecretBox) (limit : Z) (command : AdminCommand)
  : Admin str :=
  match command with
  | CreateUser username_email password password_stdin =>
      do password <- resolve_secret_input password password_stdin (lit "password") ;;
      do password_hash <- lift (hash_password salt password) ;;
      do user <- p_repo (create_user (mkNewUser username_email password_hash)) ;;
      record_admin_audit (Some (User_id user)) None (lit "create_user")
        (email_json (lit "username_email") (User_username_email user)) ;;;
      ret (lit "created user " ++ User_username_email user ++ lit " (id=" ++ fmt_i (User_id user) ++
           lit ")")
  | DisableUser username_email =>
      do rows <- p_repo (disable_user username_email) ;;
      (if 0 <? rows then
         do user <- p_repo (find_user_by_username username_email) ;;
         unwrap user <- user or ret tt ;;
         record_admin_audit (Some (User_id user)) None (lit "disable_user")
           (email_json (lit "username_email") username_email)
       else ret tt) ;;;
      ret (lit "disabled " ++ fmt_u rows ++ lit " user(s) for " ++ username_email)
  | SetPassword username_email password password_stdin =>
      do password <- resolve_secret_input password password_stdin (lit "password") ;;
      do password_hash <- lift (hash_password salt password) ;;
      do rows <- p_repo (set_user_password username_email password_hash) ;;
      do user <- p_repo (find_user_by_username username_email) ;;
      (unwrap user <- user or ret tt ;;
       record_admin_audit (Some (User_id user)) None (lit "set_password")
         (email_json (lit "username_email") username_email)) ;;;
      ret (lit "updated " ++ fmt_u rows ++ lit " user(s) for " ++ username_email)
  | DisableAccount account_email =>
      do account <- find_active_account account_email ;;
      do rows <- p_repo (disable_mail_account (MailAccount_id account)) ;;
      audit_changed rows account (lit "disable_account")
        (email_json (lit "account_email") account_email) ;;;
      ret (lit "disabled " ++ fmt_u rows ++ lit " account(s) for " ++ account_email)
  | PauseSync account_email =>
      do account <- find_active_account account_email ;;
      do rows <- p_repo (disable_mail_account (MailAccount_id account)) ;;
      audit_changed rows account (lit "pause_sync")
        (email_json (lit "account_email") account_email) ;;;
      ret (lit "paused " ++ fmt_u rows ++ lit " account(s) for " ++ account_email)
  | ResumeSync account_email =>
      do account <- find_any_account account_email ;;
      do rows <- p_repo (enable_mail_account (MailAccount_id account)) ;;
      audit_changed rows account (lit "resume_sync")
        (email_json (lit "account_email") account_email) ;;;
      ret (lit "resumed " ++ fmt_u rows ++ lit " account(s) for " ++ account_email)
  | TestUpstream account_email => test_upstream limit secrets account_email
  | ResetMailboxState account_email mailbox => reset_mailbox_state account_email mailbox
  | ListAccounts user_email => list_accounts user_email
  | ListMailboxes account_email => show_mailboxes account_email
  | ShowSyncStatus account_email mailbox => show_sync_status account_email mailbox
  (* [unreachable!()] *)
  | AddAccount _ _ _ _ _ _ _ _ _ _ | DeleteAccount _ | ForceSync _ | ClearCache _ | Run
  | RunMigrations => panic
  end.

(** ** The dispatcher *)
Definition run_admin_command (config : Config) (command : AdminCommand) : Admin str :=
  match command with
  | Run | RunMigrations =>
      fail (EImapCommand (lit "run and run-migrations are handled by the top-level dispatcher"))
  | ForceSync account_email => run_force_sync_command config account_email
  | ClearCache account_email => run_clear_cache_command config account_email
  | DeleteAccount account_email => run_delete_account_command config account_email
  | AddAccount user_email display_name email_address upstream_host upstream_port upstream_tls_mode
      upstream_auth_method upstream_username upstream_secret upstream_secret_stdin =>
      run_add_account_command config user_email display_name email_address upstream_host
        upstream_port upstream_tls_mode upstream_auth_method upstream_username upstream_secret
        upstream_secret_stdin
  | _ =>
      open_repository config ;;;
      execute_repository_command (box config) (Config_upstream_connection_limit_per_account config)
        command
  end.
End Commands.
