(* ===== verification/Main.v ===== *)
(** * The binary

    Models src/main.rs (the command line, after clap has parsed it), [run_cli]
    of src/admin.rs and the worker of src/lib.rs that replays queued changes
    upstream.  Waiting for a connection permit is a delay and is left out. *)

From stdpp Require Import base strings list gmap.
From Stdlib Require Import ZArith Lia.
From S2P Require Import Prelude RustStr Metrics Domain SearchQuery Storage Schema RepoCore Security RepoAccounts RepoMailboxes RepoMessages RepoQueue Coordination Mime Search Engine Mutations SyncEngine ImapSession Upstream Config Services Admin.

Local Open Scope Z_scope.

(** ** The worker *)
Section Worker.
Context {O P X L : Type} `{ObjectStore O} `{Peer P}.
Context `{Sha256} `{Texts} `{PgText} `{Crypto} `{Chrono} `{Base64Encode}.
Variable secrets : SecretBox.
Abbreviation Worker := (M Error (Engine O unit X L)).

(** The connection and the engine count into the same metrics; the connection
    writes the three upstream ones. *)
Definition merge_metrics (conn : option AppMetrics) (m : AppMetrics) : AppMetrics :=
  match conn with
  | None => m
  | Some c =>
      mkAppMetrics (active_connections m) (authenticated_sessions m) (commands_total m)
        (cache_hits m) (cache_misses m) (downstream_bytes_served m) (upstream_bytes_fetched c)
        (upstream_bytes_sent c) (upstream_connections c) (object_store_bytes_read m)
        (object_store_bytes_written m) (redis_pubsub_events_published m)
        (redis_pubsub_events_relayed m) (sync_runs_total m) (sync_runs_failed m)
        (sync_duration_seconds_total m) (command_duration_nanos_total m)
        (command_duration_count m) (command_error_counts m) (command_counts m)
  end.

(** A scope that owns a connection: it is dropped at the end. *)
Definition with_connection {A} (client : UpstreamConn P)
  (m : M Error (Engine O (UpstreamConn P) X L) A) : Worker A := fun e =>
  let client := with_metrics (e_metrics e) client in
  let '(e', r) := m (mkEngine (e_world e) (e_store e) client (e_search e) (e_lock e) (e_metrics e)) in
  let conn_metrics := snd (drop_conn (e_upstream e') ∅) in
  (mkEngine (e_world e') (e_store e') tt (e_search e') (e_lock e')
     (merge_metrics conn_metrics (e_metrics e')), r).

Definition flush_account (account : MailAccount) : Worker unit :=
  do upstream_config <- on_repo (upstream_account_config_by_id secrets (MailAccount_id account)) ;;
  unwrap upstream_config <- upstream_config or ret tt ;;
  do client <- lift (connect upstream_config) ;;
  with_connection client (
    on_upstream (authenticate_upstream upstream_config) ;;;
    do _ <- flush_pending_mutations (MailAccount_id account) ;;
    on_upstream conn_logout).

Definition flush_pending_mutations_once : Worker unit :=
  do accounts <- on_repo list_enabled_accounts ;;
  for_each accounts flush_account.

(** The task of [spawn_pending_mutation_worker]: at every tick of the interval a
    round, whose error is logged.  A tick is what the rest of the program has done
    since the last one. *)
Fixpoint pending_mutation_worker (ticks : list (Engine O unit X L -> Engine O unit X L))
  : Worker unit :=
  match ticks with
  | [] => ret tt
  | tick :: ticks' =>
      modify tick ;;;
      ignore flush_pending_mutations_once ;;;
      pending_mutation_worker ticks'
  end.
End Worker.

(** ** The command line *)
Module Cli.

Inductive Command : Type :=
| Run
| RunMigrations
| CreateUser (username_email : str) (password : option str) (password_stdin : bool)
| DisableUser (username_email : str)
| SetPassword (username_email : str) (password : option str) (password_stdin : bool)
| AddAccount (user_email display_name email_address upstream_host : str) (upstream_port : Z)
    (upstream_tls_mode upstream_auth_method upstream_username : str)
    (upstream_secret : option str) (upstream_secret_stdin : bool)
| DisableAccount (account_email : str)
| PauseSync (account_email : str)
| ResumeSync (account_email : str)
| DeleteAccount (account_email : str)
| TestUpstream (account_email : str)
| ForceSync (account_email : str)
| ResetMailboxState (account_email mailbox : str)
| ClearCache (account_email : str)
| ListAccounts (user_email : str)
| ListMailboxes (account_email : str)
| ShowSyncStatus (account_email : str) (mailbox : option str).

Record t : Type := mk { config_path : option OsString; command : option Command }.

End Cli.

(** [tracing::subscriber::set_global_default] with the filter of a log level. *)
Class Tracing : Type := { set_global_default : str -> unit + str }.

(** What [main] leaves running or prints. *)
Inductive Ending : Type :=
  | Serving (started : Started)
  | Finished (printed : option str).

Section Main.
Context {O P X L : Type} `{ObjectStore O} `{Peer P} `{SearchBackend X} `{SyncLockManager L}.
Context `{System} `{Platform} `{Sha256} `{Texts} `{MimeParser} `{PgText} `{UuidText} `{Crypto}.
Context `{Chrono} `{Base64Encode} `{DebugTime} `{Tracing}.
Variable salt : str.
Variables nonce1 nonce2 : bytes.
Variable elapsed : Z.
Variable lock_times_out : bool.
Abbreviation Any := (M str (Process O X L)).

(** [?] on a result of the crate's own error type. *)
Definition anyhow {A} (m : M Error (Process O X L) A) : Any A := fun s =>
  let '(s', r) := m s in (s', any r).

Definition init_tracing (level : str) : Result unit :=
  or_else (set_global_default level)
    (fun e => EConfig (lit "failed to install tracing subscriber: " ++ e)).

(** The first steps of every command. *)
Definition prepare (config_path : option OsString) : Any Config :=
  do config <- lift (any (load config_path)) ;;
  do _ <- lift (any (init_tracing (Config_log_level config))) ;;
  ret config.

(** [println!] of an output that is not empty. *)
Definition print_output (output : str) : Ending :=
  Finished (match output with [] => None | _ => Some output end).

Definition serve (config : Config) : Any Ending :=
  match snd (run salt config initial_globals) with
  | Ok started => ret (Serving started)
  | Err e => fail e
  | Panic => panic
  end.

Definition admin_command (config : Config) (command : AdminCommand) : Any Ending :=
  do output <- anyhow (run_admin_command (P := P) salt nonce1 nonce2 elapsed lock_times_out config
                         command) ;;
  ret (print_output output).

(** [run_admin] of src/main.rs. *)
Definition run_admin (config_path : option OsString) (command : AdminCommand) : Any Ending :=
  do config <- prepare config_path ;;
  admin_command config command.

Definition main (cli : Cli.t) : Any Ending :=
  let path := Cli.config_path cli in
  match Cli.command cli with
  | None | Some Cli.Run => do config <- prepare path ;; serve config
  | Some Cli.RunMigrations =>
      do config <- prepare path ;;
      do _ <- lift (any (run_migrations_only config)) ;;
      ret (Finished None)
  | Some (Cli.CreateUser username_email password password_stdin) =>
      run_admin path (CreateUser username_email password password_stdin)
  | Some (Cli.DisableUser username_email) => run_admin path (DisableUser username_email)
  | Some (Cli.SetPassword username_email password password_stdin) =>
      run_admin path (SetPassword username_email password password_stdin)
  | Some (Cli.AddAccount user_email display_name email_address upstream_host upstream_port
            upstream_tls_mode upstream_auth_method upstream_username upstream_secret
            upstream_secret_stdin) =>
      run_admin path (AddAccount user_email display_name email_address upstream_host upstream_port
                        upstream_tls_mode upstream_auth_method upstream_username upstream_secret
                        upstream_secret_stdin)
  | Some (Cli.DisableAccount account_email) => run_admin path (DisableAccount account_email)
  | Some (Cli.PauseSync account_email) => run_admin path (PauseSync account_email)
  | Some (Cli.ResumeSync account_email) => run_admin path (ResumeSync account_email)
  | Some (Cli.DeleteAccount account_email) => run_admin path (DeleteAccount account_email)
  | Some (Cli.TestUpstream account_email) => run_admin path (TestUpstream account_email)
  | Some (Cli.ForceSync account_email) => run_admin path (ForceSync account_email)
  | Some (Cli.ResetMailboxState account_email mailbox) =>
      run_admin path (ResetMailboxState account_email mailbox)
  | Some (Cli.ClearCache account_email) => run_admin path (ClearCache account_email)
  | Some (Cli.ListAccounts user_email) => run_admin path (ListAccounts user_email)
  | Some (Cli.ListMailboxes account_email) => run_admin path (ListMailboxes account_email)
  | Some (Cli.ShowSyncStatus account_email mailbox) =>
      run_admin path (ShowSyncStatus account_email mailbox)
  end.

(** [run_cli] of src/admin.rs, the same dispatch on an [AdminCommand]. *)
Definition run_cli (config_path : option OsString) (command : option AdminCommand) : Any Ending :=
  do config <- prepare config_path ;;
  match default Run command with
  | Run => serve config
  | RunMigrations =>
      do _ <- lift (any (run_migrations_only config)) ;;
      ret (Finished None)
  | other => admin_command config other
  end.
End Main.
