(* ===== verification/AdminSoundness.v ===== *)
(** * Admin commands and the worker keep the database sound

    The sync pass, the replay of queued changes, every admin command and the
    binary as a whole keep [db_ok], whatever their outcome. *)

From stdpp Require Import base strings list gmap.
From Stdlib Require Import ZArith Lia.
From S2P Require Import Prelude RustStr Metrics Domain SearchQuery Storage Schema RepoCore Security RepoAccounts RepoMailboxes RepoMessages RepoQueue Invariant Integrity Coordination Mime Search Engine Ingest Mutations QueueSpecs SyncEngine SyncSpecs Convergence ImapSession Upstream Config Services Admin Main.

Local Open Scope Z_scope.

#[local] Hint Resolve safe_find_mailbox safe_upsert_mailbox safe_delete_mailbox safe_update_flags
  safe_delete_mailbox_message safe_put_sync_state safe_delete_sync_state safe_set_sync_status
  safe_update_pending_mutation safe_set_upstream_uid safe_create_user safe_set_user_password
  safe_disable_user safe_record_audit_log safe_create_mail_account safe_disable_mail_account
  safe_enable_mail_account safe_delete_mail_account safe_upsert_account_quota
  safe_delete_cache_object safe_adjust_quota safe_refresh_mailbox_counts apply_mutation_safe preserves_on_search preserves_utc_now
  ingest_safe sync_uid_safe clear_safe metadata_safe : repo.

Ltac engine_steps :=
  repeat first
    [ solve [eauto 2 with repo]
    | apply preserves_on_repo; solve [safe_steps]
    | apply preserves_ignore
    | apply preserves_try
    | apply preserves_for_each; intros ?
    | apply preserves_fold_each; intros ? ?
    | apply preserves_bind; [|intros ?]
    | match goal with
      | |- preserves _ (match ?x with _ => _ end) => destruct x
      | |- preserves _ (let _ := ?x in _) => cbv zeta
      end ].

Section Engines.
Context {O U X L : Type} `{ObjectStore O} `{UpstreamClient U} `{SearchBackend X}
  `{SyncLockManager L}.
Context `{Sha256, Texts, MimeParser, PgText}.
Variables has_search has_lock_manager : bool.

Lemma preserves_on_lock {A} (m : M Error L A) :
  preserves engine_ok (on_lock (O := O) (U := U) (X := X) m).
Proof. intros e He. unfold on_lock, zoom. by destruct (m (e_lock e)). Qed.
Lemma preserves_finally {A} (body : M Error (Engine O U X L) A) cleanup :
  preserves engine_ok body -> preserves engine_ok cleanup ->
  preserves engine_ok (finally body cleanup).
Proof.
  intros Hb Hc e He. specialize (Hb e He). unfold finally.
  destruct (body e) as [e1 r]. by apply Hc.
Qed.
Hint Resolve preserves_on_lock preserves_finally : repo.

Lemma reconcile_safe mb uids :
  preserves engine_ok
    (reconcile_missing_upstream_messages_with_set (O := O) (U := U) (X := X) (L := L) mb uids).
Proof.
  unfold reconcile_missing_upstream_messages_with_set, list_mailbox_messages. engine_steps.
Qed.
Hint Resolve reconcile_safe : repo.

Lemma sync_inner_safe account_id name mailbox :
  preserves engine_ok
    (sync_mailbox_inner (O := O) (U := U) (X := X) (L := L) has_search account_id name mailbox).
Proof. unfold sync_mailbox_inner, load_sync_state, list_mailbox_messages. engine_steps. Qed.
Hint Resolve sync_inner_safe : repo.

Lemma remove_missing_safe account_id names :
  preserves engine_ok
    (remove_missing_mailboxes (O := O) (U := U) (X := X) (L := L) account_id names).
Proof. unfold remove_missing_mailboxes, list_mailboxes. engine_steps. Qed.
Hint Resolve remove_missing_safe : repo.

Lemma sync_account_safe elapsed account_id :
  preserves engine_ok
    (sync_account (O := O) (U := U) (X := X) (L := L) has_search has_lock_manager elapsed account_id).
Proof.
  unfold sync_account, sync_account_body, find_account_by_id_any_state, record_sync_run.
  assert (preserves engine_ok
    (sync_account_mailboxes (O := O) (U := U) (X := X) (L := L) has_search account_id)) as Hm.
  { unfold sync_account_mailboxes. engine_steps. }
  engine_steps.
Qed.

Lemma flush_safe account_id :
  preserves engine_ok (flush_pending_mutations (O := O) (U := U) (X := X) (L := L) account_id).
Proof.
  unfold flush_pending_mutations, list_due_pending_mutations, flush_one.
  engine_steps.
Qed.
End Engines.

(** ** Processes *)
Section Processes.
Context {O P X L : Type} `{ObjectStore O} `{Peer P} `{SearchBackend X} `{SyncLockManager L}.
Context `{System} `{Platform} `{Sha256} `{Texts} `{MimeParser} `{PgText} `{UuidText} `{Crypto}.
Context `{Chrono} `{Base64Encode} `{DebugTime} `{Tracing}.
Abbreviation Admin := (M Error (Process O X L)).

Definition process_ok (s : Process O X L) : Prop := db_ok (w_db (p_world s)) (w_seq (p_world s)).

Lemma process_repo {A} (m : Repo A) : safe m -> preserves process_ok (p_repo (O := O) m).
Proof.
  intros Hm s Hs. destruct (Hm (w_seq (p_world s)) (p_world s)) as [Hok _]; [by split|].
  unfold p_repo, zoom. by destruct (m (p_world s)).
Qed.
Lemma process_objects {A} (m : M Error O A) : preserves process_ok (p_objects m).
Proof. intros s Hs. unfold p_objects, zoom. by destruct (m (p_store s)). Qed.
Lemma process_client {U A} (u : U) (m : M Error (Engine O U X L) A) :
  preserves engine_ok m -> preserves process_ok (with_client u m).
Proof.
  intros Hm s Hs. unfold with_client.
  specialize (Hm (mkEngine (p_world s) (p_store s) u (p_search s) (p_lock s) AppMetrics_new) Hs).
  by destruct (m _).
Qed.
Lemma process_sink b : preserves process_ok (set_sink (O := O) (X := X) (L := L) b).
Proof. by intros s Hs. Qed.
Lemma process_stdin b : preserves process_ok (modify (E := Error) (set_stdin b)).
Proof. by intros s Hs. Qed.
Lemma process_panic {A} : preserves process_ok (panic (E := Error) (A := A)).
Proof. by intros s Hs. Qed.
Lemma process_holding (guard : SyncLockGuard) (body : Admin str) :
  preserves process_ok body -> preserves process_ok (holding guard body).
Proof.
  intros Hb s Hs. specialize (Hb s Hs). unfold holding. destruct (body s) as [s1 r].
  by apply (process_client tt); [apply preserves_on_lock|].
Qed.
Hint Resolve process_objects process_sink process_stdin process_panic preserves_on_lock
  sync_account_safe flush_safe : repo.

Ltac process_steps :=
  repeat first
    [ solve [eauto 2 with repo]
    | apply process_repo; solve [safe_steps]
    | apply process_client; engine_steps
    | apply process_holding
    | apply preserves_ignore
    | apply preserves_for_each; intros ?
    | apply preserves_fold_each; intros ? ?
    | apply preserves_bind; [|intros ?]
    | match goal with
      | |- preserves _ (match ?x with _ => _ end) => destruct x
      | |- preserves _ (let _ := ?x in _) => cbv zeta
      end ].

Lemma audit_process u a action v :
  preserves process_ok (record_admin_audit (O := O) (X := X) (L := L) u a action v).
Proof. unfold record_admin_audit. process_steps. Qed.
Lemma secret_process value from_stdin label :
  preserves process_ok (resolve_secret_input (O := O) (X := X) (L := L) value from_stdin label).
Proof.
  unfold resolve_secret_input, read_secret_line, read_secret_line_from_reader. process_steps.
Qed.
Lemma release_process account_id key :
  preserves process_ok (release_object (X := X) (L := L) account_id key).
Proof. unfold release_object. process_steps. Qed.
Hint Resolve audit_process secret_process release_process : repo.

Lemma purge_process account_id :
  preserves process_ok (purge_account_objects_for_deletion (X := X) (L := L) account_id).
Proof.
  assert (forall fuel keys, preserves process_ok
            (purge_loop (X := X) (L := L) fuel account_id keys)) as Hloop.
  { induction fuel as [|fuel IH]; intros keys; cbn [purge_loop];
      unfold list_cache_objects_for_account, purge_pass; process_steps. }
  unfold purge_account_objects_for_deletion, list_object_keys_for_account,
    count_blob_key_references_elsewhere. process_steps.
Qed.
Lemma prune_process account_id keep :
  preserves process_ok (prune_cache_objects_for_account (X := X) (L := L) account_id keep).
Proof.
  unfold prune_cache_objects_for_account, list_cache_objects_for_account,
    list_cache_objects_for_account_by_recency. process_steps.
Qed.
Hint Resolve purge_process prune_process : repo.

Variable salt : str.
Variables nonce1 nonce2 : bytes.
Variable elapsed : Z.
Variable lock_times_out : bool.

Lemma services_process config : preserves process_ok (app_services (O := O) (X := X) (L := L) salt config).
Proof. unfold app_services. process_steps. Qed.
Lemma open_process config : preserves process_ok (open_repository (O := O) (X := X) (L := L) config).
Proof. unfold open_repository. process_steps. Qed.
Hint Resolve services_process open_process : repo.

Lemma repository_command_process secrets limit command :
  preserves process_ok
    (execute_repository_command (O := O) (P := P) (X := X) (L := L) salt secrets limit command).
Proof.
  destruct command; cbn [execute_repository_command];
    unfold reset_mailbox_state, list_accounts, show_mailboxes, show_sync_status,
      find_active_account, find_any_account, find_named_mailbox, audit_changed, test_upstream,
      find_user_by_username, find_account_by_email_address, find_account_by_email_address_any_state,
      upstream_account_config, find_account_by_email_address_any_state, list_accounts_for_user,
      list_mailboxes, load_sync_state; process_steps.
Qed.

Lemma admin_command_process config command :
  preserves process_ok
    (run_admin_command (O := O) (P := P) (X := X) (L := L) salt nonce1 nonce2 elapsed lock_times_out
       config command).
Proof.
  assert (forall secrets limit command, preserves process_ok
    (execute_repository_command (O := O) (P := P) (X := X) (L := L) salt secrets limit command))
    as Hrepo by apply repository_command_process.
  destruct command; cbn [run_admin_command]; [process_steps..|];
  unfold run_force_sync_command, run_clear_cache_command, run_delete_account_command,
    run_add_account_command, lock_for_deletion, delete_locked_account, acquire_account_lock,
    find_account_by_email_address_any_state, upstream_account_config,
    find_account_by_email_address_any_state, find_user_by_username;
  process_steps.
Qed.

Lemma any_process {A} (r : Result A) : preserves process_ok (lift (E := str) (any r)).
Proof. by intros s Hs. Qed.
Lemma serve_process config : preserves process_ok (serve (O := O) (X := X) (L := L) salt config).
Proof. unfold serve. intros s Hs. by destruct (snd _). Qed.
Lemma prepare_process path : preserves process_ok (prepare (O := O) (X := X) (L := L) path).
Proof.
  unfold prepare. apply preserves_bind; [apply any_process|intros c].
  apply preserves_bind; [apply any_process|intros u]. apply preserves_ret.
Qed.
Lemma output_process config command :
  preserves process_ok
    (admin_command (O := O) (P := P) (X := X) (L := L) salt nonce1 nonce2 elapsed lock_times_out
       config command).
Proof.
  unfold admin_command. apply preserves_bind; [|intros; apply preserves_ret].
  intros s Hs. pose proof (admin_command_process config command s Hs) as Hok.
  unfold anyhow. by destruct (run_admin_command _ _ _ _ _ _ _ s).
Qed.

Lemma run_cli_process path command :
  preserves process_ok
    (run_cli (O := O) (P := P) (X := X) (L := L) salt nonce1 nonce2 elapsed lock_times_out path
       command).
Proof.
  unfold run_cli. apply preserves_bind; [apply prepare_process|intros config].
  destruct (default Run command);
    try apply output_process; [apply serve_process|].
  apply preserves_bind; [apply any_process|intros; apply preserves_ret].
Qed.

(** The command of the command line as an [AdminCommand]. *)
Definition to_admin (c : Cli.Command) : AdminCommand :=
  match c with
  | Cli.Run => Run
  | Cli.RunMigrations => RunMigrations
  | Cli.CreateUser a b c => CreateUser a b c
  | Cli.DisableUser a => DisableUser a
  | Cli.SetPassword a b c => SetPassword a b c
  | Cli.AddAccount a b c d e f g h i j => AddAccount a b c d e f g h i j
  | Cli.DisableAccount a => DisableAccount a
  | Cli.PauseSync a => PauseSync a
  | Cli.ResumeSync a => ResumeSync a
  | Cli.DeleteAccount a => DeleteAccount a
  | Cli.TestUpstream a => TestUpstream a
  | Cli.ForceSync a => ForceSync a
  | Cli.ResetMailboxState a b => ResetMailboxState a b
  | Cli.ClearCache a => ClearCache a
  | Cli.ListAccounts a => ListAccounts a
  | Cli.ListMailboxes a => ListMailboxes a
  | Cli.ShowSyncStatus a b => ShowSyncStatus a b
  end.

(** The two dispatchers of the repository, of the binary and of the library,
    agree. *)
Lemma main_is_run_cli cli :
  main (O := O) (P := P) (X := X) (L := L) salt nonce1 nonce2 elapsed lock_times_out cli =
  run_cli (P := P) salt nonce1 nonce2 elapsed lock_times_out (Cli.config_path cli)
    (to_admin <$> Cli.command cli).
Proof. destruct cli as [path [[]|]]; reflexivity. Qed.

Lemma worker_safe secrets :
  preserves engine_ok
    (flush_pending_mutations_once (O := O) (P := P) (X := X) (L := L) secrets).
Proof.
  assert (forall A client (m : M Error (Engine O (UpstreamConn P) X L) A),
            preserves engine_ok m -> preserves engine_ok (with_connection client m)) as Hc.
  { intros A client m Hm e He. unfold with_connection.
    specialize (Hm (mkEngine (e_world e) (e_store e) (with_metrics (e_metrics e) client) (e_search e)
                      (e_lock e) (e_metrics e)) He). by destruct (m _). }
  unfold flush_pending_mutations_once, flush_account, list_enabled_accounts,
    upstream_account_config_by_id, find_account_by_id_any_state.
  engine_steps. apply Hc. engine_steps.
Qed.

(** The task of the worker, as long as the rest of the program keeps the database
    sound between its rounds. *)
Lemma worker_task_safe secrets (ticks : list (Engine O unit X L -> Engine O unit X L)) :
  Forall (fun tick => forall e, engine_ok e -> engine_ok (tick e)) ticks ->
  preserves engine_ok (pending_mutation_worker (P := P) secrets ticks).
Proof.
  induction 1 as [|tick ticks Ht _ IH]; cbn [pending_mutation_worker]; [apply preserves_ret|].
  apply preserves_bind; [by intros e He; apply Ht|intros _].
  apply preserves_bind; [apply preserves_ignore, worker_safe|by intros _].
Qed.

(** Whatever command the binary is started with, and however it ends, it
    leaves the database sound; so does a round of the worker that replays queued
    changes on the upstream servers. *)
Theorem binary_keeps_database_sound (cli : Cli.t) (secrets : SecretBox) :
  preserves process_ok
    (main (O := O) (P := P) (X := X) (L := L) salt nonce1 nonce2 elapsed lock_times_out cli) /\
  preserves engine_ok (flush_pending_mutations_once (O := O) (P := P) (X := X) (L := L) secrets).
Proof.
  split; [|apply worker_safe]. rewrite main_is_run_cli. apply run_cli_process.
Qed.
End Processes.
