(* ===== verification/AdminSpecs.v ===== *)
(** * Deleting an account and clearing its cache

    What [purge_account_objects_for_deletion], [delete-account] and
    [clear-cache] of src/admin.rs leave in the database and in the object store,
    over any store that keeps [ObjectStoreLaws]. *)

From stdpp Require Import base strings list gmap.
From Stdlib Require Import ZArith Lia Permutation.
From S2P Require Import Prelude RustStr Metrics Domain SearchQuery Storage Schema RepoCore Security RepoAccounts RepoMailboxes RepoMessages RepoQueue Invariant Integrity Coordination Mime Search Scenario Engine Mutations QueueSpecs SyncEngine ImapSession ImapScenario Upstream Config Services Admin Main AdminSoundness.

Local Open Scope Z_scope.

(** ** One release, on the rows *)
Section Rows.
Variable account_id : Z.

Definition mine (r : CacheObjectRow) : bool := sql_eq (CacheObjectRow_account_id r) account_id.

Definition weight (rows : list CacheObjectRow) : nat :=
  foldr (fun r n => ((if mine r then Z.to_nat (Z.max 1 (CacheObjectRow_ref_count r)) else 0) + n)%nat)
    0%nat rows.

Definition release_rows (t : Z) (blob_key : str) (rows : list CacheObjectRow)
  : list CacheObjectRow * bool :=
  match head (select (cache_key account_id blob_key) rows) with
  | None => (rows, false)
  | Some row =>
      let by_id r := CacheObjectRow_id r =? CacheObjectRow_id row in
      if 1 <? CacheObjectRow_ref_count row
      then (update by_id (fun r => set_cache_counts (CacheObjectRow_ref_count r - 1) (Some t) r) rows,
            false)
      else (delete_where by_id rows, true)
  end.

Lemma delete_cache_object_rows blob_key w :
  delete_cache_object_for_account account_id blob_key w =
  (mkWorld (set_cache_objects (fst (release_rows (w_now w) blob_key (cache_objects (w_db w)))) (w_db w))
     (w_seq w) (w_now w) (w_sink w) (w_events w),
   Ok (snd (release_rows (w_now w) blob_key (cache_objects (w_db w))) &&
       (references_elsewhere blob_key account_id (w_db w) =? 0))).
Proof.
  unfold delete_cache_object_for_account, release_rows, transaction.
  erewrite bind_Ok by reflexivity.
  destruct (head (select (cache_key account_id blob_key) (cache_objects (w_db w)))) as [row|].
  - destruct (1 <? CacheObjectRow_ref_count row); repeat erewrite bind_Ok by reflexivity; reflexivity.
  - destruct w as [[] ? ? ? ?]. reflexivity.
Qed.

Lemma purge_fuel_weight db : purge_fuel account_id db = S (weight (cache_objects db)).
Proof.
  unfold purge_fuel, weight. f_equal. induction (cache_objects db) as [|r rows IH]; [done|].
  simpl. fold (mine r). destruct (mine r); simpl; by rewrite IH.
Qed.

Lemma cache_key_mine key r :
  cache_key account_id key r = true <-> mine r = true /\ CacheObjectRow_blob_key r = key.
Proof. unfold cache_key, mine. by rewrite andb_true_iff, str_eqb_eq. Qed.

Lemma head_select key rows :
  match head (select (cache_key account_id key) rows) with
  | Some row => In row rows /\ mine row = true /\ CacheObjectRow_blob_key row = key
  | None => forall r, In r rows -> mine r = true -> CacheObjectRow_blob_key r <> key
  end.
Proof.
  destruct (select (cache_key account_id key) rows) as [|row l] eqn:E; simpl.
  - intros r Hr Hm Hk. assert (In r []) as []. rewrite <- E. apply select_In.
    by rewrite cache_key_mine.
  - assert (In row (row :: l)) as Hin by (by left). rewrite <- E in Hin.
    apply select_In in Hin as [Hin Hk]. by apply cache_key_mine in Hk as [].
Qed.

Lemma split_by_id row rows f :
  NoDup (map CacheObjectRow_id rows) -> In row rows ->
  let by_id r := CacheObjectRow_id r =? CacheObjectRow_id row in
  exists l1 l2, rows = l1 ++ row :: l2 /\ update by_id f rows = l1 ++ f row :: l2 /\
                delete_where by_id rows = l1 ++ l2.
Proof.
  intros Hnd Hin by_id. apply in_split in Hin as (l1 & l2 & ->). exists l1, l2.
  rewrite map_app in Hnd. simpl in Hnd. apply NoDup_app in Hnd as (_ & Hdis & Hnd).
  apply NoDup_cons in Hnd as [Hrow _].
  assert (forall r, In r l1 \/ In r l2 -> by_id r = false) as Hne.
  { intros r Hr. apply Z.eqb_neq. intros E. destruct Hr as [Hr|Hr].
    - apply (Hdis (CacheObjectRow_id r)); [by apply list_elem_of_In, in_map|].
      rewrite E. by left.
    - apply Hrow. rewrite <- E. by apply list_elem_of_In, in_map. }
  assert (forall l, (forall r, In r l -> by_id r = false) ->
            update by_id f l = l /\ delete_where by_id l = l) as Hsame.
  { induction l as [|r l IH]; intros Hl; [done|]. simpl. rewrite Hl by (by left).
    destruct IH as [IH1 IH2]; [intros; apply Hl; by right|]. simpl. by rewrite IH1, IH2. }
  assert (by_id row = true) as Hself by apply Z.eqb_refl.
  destruct (Hsame l1) as [U1 D1]; [auto|]. destruct (Hsame l2) as [U2 D2]; [auto|].
  unfold update, delete_where in *. rewrite map_app, List.filter_app, U1, D1. simpl.
  rewrite Hself. simpl. by rewrite U2, D2.
Qed.

Definition cached (rows : list CacheObjectRow) (key : str) : Prop :=
  exists r, In r rows /\ mine r = true /\ CacheObjectRow_blob_key r = key.

(** A release changes one row, or takes it away. *)
Inductive released (t : Z) (key : str) : list CacheObjectRow -> list CacheObjectRow -> bool -> Prop :=
| released_none rows : ~ cached rows key -> released t key rows rows false
| released_one l1 l2 row :
    mine row = true -> CacheObjectRow_blob_key row = key -> 1 < CacheObjectRow_ref_count row ->
    released t key (l1 ++ row :: l2)
      (l1 ++ set_cache_counts (CacheObjectRow_ref_count row - 1) (Some t) row :: l2) false
| released_last l1 l2 row :
    mine row = true -> CacheObjectRow_blob_key row = key -> CacheObjectRow_ref_count row <= 1 ->
    released t key (l1 ++ row :: l2) (l1 ++ l2) true.

Lemma release_rows_released t key rows :
  NoDup (map CacheObjectRow_id rows) ->
  released t key rows (fst (release_rows t key rows)) (snd (release_rows t key rows)).
Proof.
  intros Hnd. unfold release_rows. pose proof (head_select key rows) as Hh.
  destruct (head (select (cache_key account_id key) rows)) as [row|].
  - destruct Hh as (Hin & Hm & Hk).
    destruct (split_by_id row rows
      (fun r => set_cache_counts (CacheObjectRow_ref_count r - 1) (Some t) r) Hnd Hin)
      as (l1 & l2 & E & Eu & Ed). cbv zeta in *.
    destruct (Z.ltb_spec 1 (CacheObjectRow_ref_count row)); simpl;
      [rewrite Eu|rewrite Ed]; rewrite E; constructor; done || lia.
  - simpl. constructor. intros (r & Hr & Hm & Hk). by apply (Hh r).
Qed.

Lemma released_weight t key rows rows' b :
  released t key rows rows' b ->
  (weight rows' <= weight rows)%nat /\ (cached rows key -> (weight rows' < weight rows)%nat).
Proof.
  assert (forall l1 l2, weight (l1 ++ l2) = (weight l1 + weight l2)%nat) as Happ.
  { intros l1 l2. unfold weight. induction l1 as [|r l1 IH]; simpl; [done|]. rewrite IH. lia. }
  destruct 1 as [rows Hn|l1 l2 row Hm Hk Hrc|l1 l2 row Hm Hk Hrc]; [split; [lia|by intros ?%Hn]| |];
    rewrite !Happ; simpl; rewrite Hm.
  - assert (mine (set_cache_counts (CacheObjectRow_ref_count row - 1) (Some t) row) = mine row) as ->
      by done. rewrite Hm. simpl. split; [|intros _]; lia.
  - split; [|intros _]; lia.
Qed.

(** ** Between the start of the purge and its end *)
Section Purged.
Variable lonely : str -> bool.
Variables (rows0 : list CacheObjectRow) (c0 : gmap str bytes).

Record purged (rows : list CacheObjectRow) (c : gmap str bytes) : Prop := mk_purged {
  pg_ids : NoDup (map CacheObjectRow_id rows);
  pg_others : delete_where mine rows = delete_where mine rows0;
  pg_cached : forall k, cached rows k -> cached rows0 k;
  pg_kept : forall k, c !! k = c0 !! k \/ (c !! k = None /\ lonely k = true /\ cached rows0 k);
  pg_gone : forall k, cached rows0 k -> lonely k = true -> cached rows k \/ c !! k = None
}.

Lemma purged_start : NoDup (map CacheObjectRow_id rows0) -> purged rows0 c0.
Proof. intros Hnd. by constructor; auto. Qed.

Lemma cached_split l1 l2 row row' k :
  mine row' = mine row -> CacheObjectRow_blob_key row' = CacheObjectRow_blob_key row ->
  cached (l1 ++ row :: l2) k -> cached (l1 ++ row' :: l2) k.
Proof.
  intros Em Ek (r & Hr & Hm & Hk). apply in_app_iff in Hr as [Hr|[<-|Hr]].
  - exists r. rewrite in_app_iff. auto.
  - exists row'. rewrite in_app_iff, Em, Ek. simpl. auto.
  - exists r. rewrite in_app_iff. simpl. auto.
Qed.

Lemma purged_step t key rows rows' b c :
  purged rows c -> released t key rows rows' b ->
  purged rows' (if b && lonely key then delete key c else c).
Proof.
  intros [Hids Ho Hc Hkept Hgone] Hr. destruct Hr as [rows Hn|l1 l2 row Hm Hk Hrc|l1 l2 row Hm Hk Hrc].
  - by constructor.
  - simpl. set (row' := set_cache_counts (CacheObjectRow_ref_count row - 1) (Some t) row).
    assert (mine row' = mine row) as Em by done.
    assert (forall k, cached (l1 ++ row' :: l2) k <-> cached (l1 ++ row :: l2) k) as Hiff.
    { intros k. split; by apply cached_split. }
    constructor.
    + by rewrite map_app in *.
    + rewrite <- Ho. unfold delete_where. rewrite !List.filter_app. simpl. by rewrite Em, Hm.
    + intros k Hk'. apply Hc. by apply Hiff.
    + done.
    + intros k Hk' Hl. destruct (Hgone k Hk' Hl); [left; by apply Hiff|by right].
  - assert (cached (l1 ++ row :: l2) key) as Hcur
      by (exists row; rewrite in_app_iff; simpl; auto).
    assert (forall k, cached (l1 ++ l2) k -> cached (l1 ++ row :: l2) k) as Hsub.
    { intros k (r & Hr & Hmr & Hkr). exists r. rewrite in_app_iff in *. simpl. tauto. }
    assert (forall k, cached (l1 ++ row :: l2) k -> k = key \/ cached (l1 ++ l2) k) as Hsup.
    { intros k (r & Hr & Hmr & Hkr). apply in_app_iff in Hr as [Hr|[<-|Hr]];
        [right|left; congruence|right]; exists r; rewrite in_app_iff; auto. }
    constructor.
    + rewrite map_app in *. simpl in Hids. eapply sublist_NoDup; [exact Hids|].
      apply sublist_app; [done|]. by apply sublist_cons.
    + rewrite <- Ho. unfold delete_where. rewrite !List.filter_app. simpl. by rewrite Hm.
    + auto.
    + intros k. simpl. destruct (lonely key) eqn:El; [|done].
      destruct (decide (k = key)) as [->|Hne]; [|by rewrite lookup_delete_ne].
      right. rewrite lookup_delete_eq. auto.
    + intros k Hk' Hl. simpl. destruct (Hgone k Hk' Hl) as [Hcu|Hnone].
      * apply Hsup in Hcu as [->|Hcu]; [|by left]. right. by rewrite Hl, lookup_delete_eq.
      * right. destruct (lonely key); [|done].
        destruct (decide (k = key)) as [->|Hne]; [by rewrite lookup_delete_eq|by rewrite lookup_delete_ne].
Qed.
End Purged.
End Rows.

(** ** The purge, on the process *)
Section Purge.
Context {O X L : Type} `{Sha256} `{ObjectStore O} `{!ObjectStoreLaws O} `{PgText}.
Variable account_id : Z.
Variable s0 : Process O X L.
Abbreviation Admin := (M Error (Process O X L)).
Abbreviation db0 := (w_db (p_world s0)).

(** No message or part of another account uses the blob. *)
Definition lonely (key : str) : bool := references_elsewhere key account_id db0 =? 0.

(** [s0] with other cache rows and another state of the store. *)
Definition at_ (rows : list CacheObjectRow) (store : O) : Process O X L :=
  mkProcess (mkWorld (set_cache_objects rows db0) (w_seq (p_world s0)) (w_now (p_world s0))
               (w_sink (p_world s0)) (w_events (p_world s0)))
    store (p_search s0) (p_lock s0) (p_stdin s0).

Definition purging (rows : list CacheObjectRow) (store : O) : Prop :=
  store_ok store /\
  purged account_id lonely (cache_objects db0) (store_contents (p_store s0)) rows
    (store_contents store).

Lemma at_start : at_ (cache_objects db0) (p_store s0) = s0.
Proof. unfold at_. by destruct s0 as [[[] ? ? ? ?] ? ? ? ?]. Qed.

Lemma release_at key rows store :
  purging rows store ->
  exists rows' store' b,
    release_object account_id key (at_ rows store) = (at_ rows' store', Ok b) /\
    purging rows' store' /\ (weight account_id rows' <= weight account_id rows)%nat /\
    (cached account_id rows key -> (weight account_id rows' < weight account_id rows)%nat).
Proof.
  intros [Hst Hp]. unfold release_object, p_repo, zoom, bind.
  cbn [p_world at_]. rewrite delete_cache_object_rows. cbn [w_db w_now cache_objects set_cache_objects].
  pose proof (release_rows_released account_id (w_now (p_world s0)) key rows (pg_ids _ _ _ _ _ _ Hp))
    as Hr.
  destruct (release_rows account_id (w_now (p_world s0)) key rows) as [rows' b]. simpl in Hr.
  pose proof (purged_step _ _ _ _ _ _ _ _ _ _ Hp Hr) as Hp'.
  destruct (released_weight _ _ _ _ _ _ Hr) as [Hw Hlt].
  cbn [fst snd]. change (references_elsewhere key account_id (set_cache_objects rows db0) =? 0)
    with (lonely key).
  destruct (b && lonely key).
  - unfold p_objects, zoom. cbn [p_store at_].
    destruct (law_delete key store Hst) as (store' & -> & Hst' & Ec).
    exists rows', store', true. split; [reflexivity|]. rewrite <- Ec in Hp'. done.
  - exists rows', store, false. by split.
Qed.

Lemma purge_pass_at objects : forall keys rows store,
  purging rows store ->
  exists rows' store',
    purge_pass account_id keys objects (at_ rows store) =
      (at_ rows' store', Ok (list_to_set (map CacheObject_blob_key objects) ∪ keys)) /\
    purging rows' store' /\ (weight account_id rows' <= weight account_id rows)%nat /\
    (match objects with
     | object :: _ => cached account_id rows (CacheObject_blob_key object)
     | [] => False
     end -> (weight account_id rows' < weight account_id rows)%nat).
Proof.
  induction objects as [|object objects IH]; intros keys rows store Hp.
  { exists rows, store. split_and!; [|done|done|done]. simpl. unfold purge_pass. simpl.
    by rewrite union_empty_l_L. }
  destruct (release_at (CacheObject_blob_key object) rows store Hp)
    as (rows1 & store1 & b & E1 & Hp1 & Hw1 & Hlt1).
  destruct (IH ({[CacheObject_blob_key object]} ∪ keys) rows1 store1 Hp1)
    as (rows2 & store2 & E2 & Hp2 & Hw2 & _).
  exists rows2, store2. split_and!; [|done|lia|intros Hc; specialize (Hlt1 Hc); lia].
  unfold purge_pass in *. cbn [fold_each]. rewrite bind_assoc, (bind_Ok _ _ _ _ _ E1).
  erewrite bind_Ok by reflexivity. rewrite E2. f_equal. f_equal. simpl.
  by rewrite (union_comm_L {[_]} (list_to_set _)), union_assoc_L.
Qed.

(** The rows of the account, in the order of the listing. *)
Lemma listed_objects rows store :
  exists objects,
    p_repo (list_cache_objects_for_account account_id) (at_ rows store) = (at_ rows store, Ok objects) /\
    (forall k, In k (map CacheObject_blob_key objects) <-> cached account_id rows k).
Proof.
  eexists. split; [reflexivity|]. intros k. cbn [w_db cache_objects set_cache_objects].
  rewrite map_map, in_map_iff. unfold cached, order_by. split.
  - intros (r & <- & Hr). apply sort_by_In, select_In in Hr as [Hr Hm]. by exists r.
  - intros (r & Hr & Hm & <-). exists r. split; [done|]. by apply sort_by_In, select_In.
Qed.

Lemma purge_loop_at fuel : forall keys rows store,
  purging rows store -> (weight account_id rows < fuel)%nat ->
  exists keys' rows' store',
    purge_loop fuel account_id keys (at_ rows store) = (at_ rows' store', Ok keys') /\
    purging rows' store' /\ (forall k, ~ cached account_id rows' k) /\
    (forall k, k ∈ keys \/ cached account_id rows k -> k ∈ keys') /\
    (forall k, k ∈ keys' -> k ∈ keys \/ cached account_id (cache_objects db0) k).
Proof.
  induction fuel as [|fuel IH]; intros keys rows store Hp Hw; [lia|].
  destruct (listed_objects rows store) as (objects & El & Hl). cbn [purge_loop].
  rewrite (bind_Ok _ _ _ _ _ El). destruct objects as [|object objects].
  { exists keys, rows, store. split_and!; [done|done| | |auto].
    - intros k Hk. by apply Hl in Hk.
    - intros k [Hk|Hk]; [done|]. by apply Hl in Hk. }
  destruct (purge_pass_at (object :: objects) keys rows store Hp)
    as (rows1 & store1 & E1 & Hp1 & _ & Hlt).
  rewrite (bind_Ok _ _ _ _ _ E1).
  destruct (IH (list_to_set (map CacheObject_blob_key (object :: objects)) ∪ keys) rows1 store1 Hp1)
    as (keys' & rows2 & store2 & E2 & Hp2 & Hnone & Hin & Hout).
  { assert (cached account_id rows (CacheObject_blob_key object)) as Hc
      by (apply Hl; by left). specialize (Hlt Hc). lia. }
  exists keys', rows2, store2. split_and!; [done|done|done| |].
  - intros k Hk. apply Hin. left. rewrite elem_of_union, elem_of_list_to_set, list_elem_of_In, Hl.
    tauto.
  - intros k Hk. apply Hout in Hk as [Hk|Hk]; [|by right].
    rewrite elem_of_union, elem_of_list_to_set, list_elem_of_In, Hl in Hk.
    destruct Hk as [Hk|Hk]; [right|by left]. by eapply pg_cached; [apply Hp|].
Qed.

(** The account's own keys: of its cache rows, its messages and their parts. *)
Definition account_uses (db : Database) (key : str) : bool :=
  existsb (fun r => mine account_id r && str_eqb (CacheObjectRow_blob_key r) key)
    (cache_objects db) ||
  existsb (fun m => (MessageRow_account_id m =? account_id) &&
                    str_eqb (MessageRow_rfc822_blob_key m) key) (messages db) ||
  existsb (fun mp => message_owned db account_id (MimePartRow_message_id mp) &&
                     str_eqb (MimePartRow_blob_key mp) key) (mime_parts db).

Lemma existsb_key {R} (p : R -> bool) (f : R -> str) rows key :
  existsb (fun r => p r && str_eqb (f r) key) rows = true <-> In key (map f (select p rows)).
Proof.
  rewrite existsb_exists, in_map_iff. split.
  - intros (r & Hr & [Hp Hk]%andb_true_iff). apply str_eqb_eq in Hk. exists r.
    by rewrite select_In.
  - intros (r & <- & Hr). apply select_In in Hr as [Hr Hp]. exists r. by rewrite Hp, str_eqb_refl.
Qed.

Lemma object_keys_at rows store :
  exists keys,
    p_repo (list_object_keys_for_account account_id) (at_ rows store) = (at_ rows store, Ok keys) /\
    forall k, In k keys <-> account_uses (set_cache_objects rows db0) k = true.
Proof.
  eexists. split; [reflexivity|]. intros k.
  rewrite dedup_In, sort_by_In, !in_app_iff. unfold account_uses.
  rewrite !orb_true_iff, !existsb_key. unfold mine. cbn [w_db]. tauto.
Qed.

Lemma sweep_at rows keys : forall store,
  store_ok store ->
  exists store',
    for_each keys (fun key =>
      do elsewhere <- p_repo (count_blob_key_references_elsewhere key account_id) ;;
      if elsewhere =? 0 then p_objects (store_delete key) else ret tt) (at_ rows store) =
      (at_ rows store', Ok tt) /\ store_ok store' /\
    forall k, store_contents store' !! k =
              if existsb (str_eqb k) keys && lonely k then None else store_contents store !! k.
Proof.
  induction keys as [|key keys IH]; intros store Hst; [by exists store|].
  cbn [for_each]. rewrite bind_assoc. erewrite bind_Ok by reflexivity. cbn [w_db at_ p_world].
  change (references_elsewhere key account_id (set_cache_objects rows db0) =? 0) with (lonely key).
  destruct (lonely key) eqn:El.
  - destruct (law_delete key store Hst) as (store1 & E1 & Hst1 & Ec1).
    destruct (IH store1 Hst1) as (store2 & E2 & Hst2 & Hc2). exists store2.
    assert (p_objects (store_delete key) (at_ rows store) = (at_ rows store1, Ok tt)) as Ed.
    { unfold p_objects, zoom. cbn [p_store at_]. by rewrite E1. }
    rewrite (bind_Ok _ _ _ _ _ Ed), E2. split_and!; [done|done|].
    intros k. rewrite Hc2, Ec1. cbn [existsb]. destruct (str_eqb k key) eqn:Ek; simpl.
    + apply str_eqb_eq in Ek as ->. rewrite El, lookup_delete_eq. by destruct (existsb _ _).
    + rewrite lookup_delete_ne; [done|]. intros ->. by rewrite str_eqb_refl in Ek.
  - erewrite bind_Ok by reflexivity. destruct (IH store Hst) as (store2 & E2 & Hst2 & Hc2).
    exists store2. split_and!; [done|done|]. intros k. rewrite Hc2. cbn [existsb].
    destruct (str_eqb k key) eqn:Ek; [|done]. apply str_eqb_eq in Ek as ->. simpl. rewrite El.
    by rewrite andb_false_r.
Qed.

Lemma others_only rows :
  delete_where (mine account_id) rows = delete_where (mine account_id) (cache_objects db0) ->
  (forall k, ~ cached account_id rows k) ->
  rows = delete_where (mine account_id) (cache_objects db0).
Proof.
  intros <- Hnone. unfold delete_where. symmetry. apply forallb_filter_id.
  apply forallb_forall. intros r Hr. destruct (mine account_id r) eqn:Em; [|done].
  destruct (Hnone (CacheObjectRow_blob_key r)). by exists r.
Qed.

(** What the account uses is what it has cached and what its messages use, once
    its cache rows are gone. *)
Lemma uses_split rows k :
  (forall k, ~ cached account_id rows k) ->
  account_uses db0 k = true <->
  cached account_id (cache_objects db0) k \/ account_uses (set_cache_objects rows db0) k = true.
Proof.
  intros Hnone. unfold account_uses. rewrite !orb_true_iff, !existsb_key.
  cbn [cache_objects set_cache_objects messages mime_parts].
  assert (forall rows, In k (map CacheObjectRow_blob_key (select (mine account_id) rows)) <->
            cached account_id rows k) as Hc.
  { intros rows'. rewrite in_map_iff. split.
    - intros (r & <- & Hr). apply select_In in Hr as [Hr Hm]. by exists r.
    - intros (r & Hr & Hm & <-). exists r. by rewrite select_In. }
  rewrite !Hc. specialize (Hnone k). tauto.
Qed.

(** The contents after the loop, [c], and the sweep over the other keys. *)
Lemma swept_contents (rows : list CacheObjectRow) (c : gmap str bytes) (keys : gset str)
  (okeys : list str) (k : str) :
  purged account_id lonely (cache_objects db0) (store_contents (p_store s0)) rows c ->
  (forall k, ~ cached account_id rows k) ->
  (k ∈ keys <-> cached account_id (cache_objects db0) k) ->
  (account_uses db0 k = true <-> k ∈ keys \/ In k okeys) ->
  (if existsb (str_eqb k) (List.filter (fun key => negb (bool_decide (key ∈ keys))) okeys) && lonely k
   then None else c !! k) =
  (if account_uses db0 k && lonely k then None else store_contents (p_store s0) !! k).
Proof.
  intros Hp Hnone Hkeys Huses.
  set (swept := existsb _ _).
  assert (swept = true <-> In k okeys /\ k ∉ keys) as Hsweep.
  { unfold swept. rewrite existsb_exists. split.
    - intros (k' & Hk' & E). apply str_eqb_eq in E as <-. apply filter_In in Hk' as [Hk' Hb].
      split; [done|]. by intros Hin; rewrite bool_decide_true in Hb.
    - intros [Hk' Hn]. exists k. rewrite str_eqb_refl, filter_In. by rewrite bool_decide_false. }
  destruct (decide (k ∈ keys)) as [Hyes|Hno].
  - rewrite (proj2 Huses) by auto.
    assert (swept = false) as -> by (apply not_true_iff_false; rewrite Hsweep; tauto). simpl.
    destruct (lonely k) eqn:El.
    + destruct (pg_gone _ _ _ _ _ _ Hp k) as [Hc|]; [by apply Hkeys|done| |done]. by apply Hnone in Hc.
    + destruct (pg_kept _ _ _ _ _ _ Hp k) as [|(_ & El' & _)]; [done|congruence].
  - destruct (pg_kept _ _ _ _ _ _ Hp k) as [->|(_ & _ & Hc)]; [|by apply Hkeys in Hc].
    assert (swept = account_uses db0 k) as ->; [|done].
    apply eq_true_iff_eq. rewrite Hsweep, Huses. tauto.
Qed.

(** The purge ends; it takes the account's cache rows and, from the store, every
    blob of the account that nobody else uses. *)
Lemma purge_spec :
  process_ok s0 -> store_ok (p_store s0) ->
  exists store',
    purge_account_objects_for_deletion account_id s0 =
      (at_ (delete_where (mine account_id) (cache_objects db0)) store', Ok tt) /\
    store_ok store' /\
    forall k, store_contents store' !! k =
              if account_uses db0 k && lonely k then None else store_contents (p_store s0) !! k.
Proof.
  intros Hok Hst. destruct (ok_cache _ _ Hok) as [[Hids _] _].
  destruct (purge_loop_at (purge_fuel account_id db0) ∅ (cache_objects db0) (p_store s0))
    as (keys & rows & store1 & E1 & [Hst1 Hp1] & Hnone & Hin & Hout).
  { split; [done|]. by apply purged_start. }
  { rewrite purge_fuel_weight. lia. }
  rewrite at_start in E1. unfold purge_account_objects_for_deletion.
  erewrite bind_Ok by reflexivity. rewrite (bind_Ok _ _ _ _ _ E1).
  rewrite <- (others_only rows (pg_others _ _ _ _ _ _ Hp1) Hnone).
  destruct (object_keys_at rows store1) as (okeys & Ek & Hk). rewrite (bind_Ok _ _ _ _ _ Ek).
  destruct (sweep_at rows (List.filter (fun key => negb (bool_decide (key ∈ keys))) okeys) store1 Hst1)
    as (store2 & E2 & Hst2 & Hc2).
  exists store2. split_and!; [exact E2|done|]. intros k.
  assert (k ∈ keys <-> cached account_id (cache_objects db0) k) as Hkeys.
  { split; [intros Hk'; apply Hout in Hk' as [Hk'|]; set_solver|auto]. }
  rewrite Hc2. apply (swept_contents rows); [done..|].
  by rewrite (uses_split rows k Hnone), Hkeys, Hk.
Qed.
End Purge.

(** ** clear-cache *)
Section Prune.
Context {O X L : Type} `{Sha256} `{ObjectStore O} `{!ObjectStoreLaws O}.
Variables account_id keep_latest_objects : Z.
Variable s0 : Process O X L.

(** Clearing the cache ends, and touches nothing of other accounts: a blob that
    goes was cached for the account and nobody else uses it. *)
Lemma prune_spares_others :
  process_ok s0 -> store_ok (p_store s0) ->
  exists rows store n,
    prune_cache_objects_for_account account_id keep_latest_objects s0 = (at_ s0 rows store, Ok n) /\
    store_ok store /\
    delete_where (mine account_id) rows =
      delete_where (mine account_id) (cache_objects (w_db (p_world s0))) /\
    forall k, store_contents store !! k = store_contents (p_store s0) !! k \/
              (lonely account_id s0 k = true /\ cached account_id (cache_objects (w_db (p_world s0))) k).
Proof.
  intros Hok Hst. destruct (ok_cache _ _ Hok) as [[Hids _] _].
  unfold prune_cache_objects_for_account.
  assert (forall objects n rows store, purging account_id s0 rows store ->
    exists rows' store' n',
      fold_each objects n (fun deleted object =>
        do gone <- release_object account_id (CacheObject_blob_key object) ;;
        ret (if gone : bool then deleted + 1 else deleted)) (at_ s0 rows store) =
      (at_ s0 rows' store', Ok n') /\ purging account_id s0 rows' store') as Hfold.
  { induction objects as [|object objects IH]; intros n rows store Hp; [by exists rows, store, n|].
    destruct (release_at account_id s0 (CacheObject_blob_key object) rows store Hp)
      as (rows1 & store1 & b & E1 & Hp1 & _).
    cbn [fold_each]. rewrite bind_assoc, (bind_Ok _ _ _ _ _ E1). erewrite bind_Ok by reflexivity.
    by apply IH. }
  assert (exists objects,
    p_repo (if keep_latest_objects =? 0 then list_cache_objects_for_account account_id
            else list_cache_objects_for_account_by_recency account_id) s0 = (s0, Ok objects))
    as [objects E0].
  { destruct (keep_latest_objects =? 0); eexists; unfold p_repo, zoom; simpl;
      destruct s0; reflexivity. }
  rewrite (bind_Ok _ _ _ _ _ E0).
  destruct (Hfold (if keep_latest_objects =? 0 then objects
                   else take (length objects - Z.to_nat keep_latest_objects) objects) 0
              (cache_objects (w_db (p_world s0))) (p_store s0))
    as (rows & store & n & E & Hst' & Hp).
  { split; [done|]. by apply purged_start. }
  rewrite at_start in E.
  exists rows, store, n. split_and!; [exact E|done|apply (pg_others _ _ _ _ _ _ Hp)|].
  intros k. destruct (pg_kept _ _ _ _ _ _ Hp k) as [|(_ & ?)]; auto.
Qed.
End Prune.

(** ** delete-account *)

(** What the purge and the cascade read: the identities of the accounts and the
    tables of their contents. *)
Definition holdings (db : Database) :=
  (map MailAccountRow_id (mail_accounts db), mailboxes db, messages db, mime_parts db,
   cache_objects db).

Lemma holdings_uses a db db' key :
  holdings db' = holdings db ->
  account_uses a db' key = account_uses a db key /\
  references_elsewhere key a db' = references_elsewhere key a db.
Proof.
  intros [= _ _ Hm Hp Hc]. unfold account_uses, references_elsewhere, message_owned.
  by rewrite Hm, Hp, Hc.
Qed.

Lemma disable_keeps_holdings a : keeps holdings (disable_mail_account a).
Proof.
  unfold disable_mail_account. keep_steps; apply keeps_execute; intros db; unfold holdings; simpl.
  f_equal. f_equal. f_equal. f_equal. unfold update. rewrite map_map. apply map_ext. intros r.
  by destruct (_ && _).
Qed.
Lemma audit_keeps_holdings u a action v : keeps holdings (record_audit_log u a action v).
Proof. unfold record_audit_log. keep_steps. Qed.

Section DeleteAccount.
Context {O P X L : Type} `{Sha256} `{ObjectStore O} `{!ObjectStoreLaws O} `{Peer P}
  `{SearchBackend X} `{SyncLockManager L}.
Context `{System} `{Platform} `{Texts} `{MimeParser} `{PgText} `{UuidText} `{Crypto}.
Context `{Chrono} `{Base64Encode} `{DebugTime}.

(** The account and everything of it is gone; the rest is as it was; a blob is
    gone exactly when the account used it and no other account does. *)
Record account_deleted (a : Z) (s s' : Process O X L) : Prop := mk_account_deleted {
  del_account : ~ In a (map MailAccountRow_id (mail_accounts (w_db (p_world s'))));
  del_accounts : forall i, i <> a ->
    In i (map MailAccountRow_id (mail_accounts (w_db (p_world s')))) <->
    In i (map MailAccountRow_id (mail_accounts (w_db (p_world s))));
  del_mailboxes : mailboxes (w_db (p_world s')) =
    delete_where (fun r => MailboxRow_account_id r =? a) (mailboxes (w_db (p_world s)));
  del_messages : messages (w_db (p_world s')) =
    delete_where (fun r => MessageRow_account_id r =? a) (messages (w_db (p_world s)));
  del_cache : cache_objects (w_db (p_world s')) =
    delete_where (mine a) (cache_objects (w_db (p_world s)));
  del_blobs : forall k, store_contents (p_store s') !! k =
    if account_uses a (w_db (p_world s)) k &&
       (references_elsewhere k a (w_db (p_world s)) =? 0)
    then None else store_contents (p_store s) !! k
}.

Lemma disable_runs a w : exists w' n, disable_mail_account a w = (w', Ok n).
Proof.
  unfold disable_mail_account. repeat erewrite bind_Ok by reflexivity.
  destruct (0 <? _); repeat erewrite bind_Ok by reflexivity; eexists _, _; reflexivity.
Qed.

Lemma audit_runs u a action v (s : Process O X L) :
  exists s', record_admin_audit u a action v s = (s', Ok tt) /\
             holdings (w_db (p_world s')) = holdings (w_db (p_world s)) /\
             p_store s' = p_store s /\ p_search s' = p_search s /\ p_lock s' = p_lock s /\
             p_stdin s' = p_stdin s.
Proof.
  pose proof (audit_keeps_holdings u a action v (p_world s)) as Hk.
  assert (snd (record_audit_log u a action v (p_world s)) <> Panic) as Hp.
  { unfold record_audit_log, nextval, bind, now, gets, query, require, execute, modify, ret, fail.
    cbn. repeat case_match; simpl; congruence. }
  unfold record_admin_audit, ignore, p_repo, zoom.
  destruct (record_audit_log u a action v (p_world s)) as [w' [x|e|]]; simpl in *;
    [eexists; split; [reflexivity|done]..|done].
Qed.

Lemma count_ids a (rows rows' : list MailAccountRow) :
  map MailAccountRow_id rows = map MailAccountRow_id rows' ->
  count (fun r => MailAccountRow_id r =? a) rows = count (fun r => MailAccountRow_id r =? a) rows'.
Proof.
  unfold count, select. revert rows'. induction rows as [|r rows IH]; intros [|r' rows'] E; try done.
  injection E as Er E. simpl. rewrite Er. specialize (IH rows' E).
  destruct (MailAccountRow_id r' =? a); simpl; lia.
Qed.

Lemma delete_rows a w :
  exists w', delete_mail_account a w =
    (w', Ok (count (fun r => MailAccountRow_id r =? a) (mail_accounts (w_db w)))) /\
    w_db w' = delete_account a (w_db w) /\ w_seq w' = w_seq w.
Proof.
  unfold delete_mail_account. repeat erewrite bind_Ok by reflexivity. cbn [w_db].
  destruct (0 <? _); repeat erewrite bind_Ok by reflexivity; eexists; (split; [reflexivity|]);
    [|done]. unfold publish_event, modify. cbn [fst]. by destruct (w_sink _).
Qed.

Lemma In_delete_where_id a i (rows : list MailAccountRow) :
  In i (map MailAccountRow_id (delete_where (fun r => MailAccountRow_id r =? a) rows)) <->
  i <> a /\ In i (map MailAccountRow_id rows).
Proof.
  rewrite !in_map_iff. split.
  - intros (r & <- & Hr). apply delete_where_In in Hr as [Hr Hne]. split; [by apply Z.eqb_neq|eauto].
  - intros (Hne & r & <- & Hr). exists r. split; [done|]. apply delete_where_In.
    split; [done|]. by apply Z.eqb_neq.
Qed.

Lemma delete_account_tables a db :
  mail_accounts (delete_account a db) =
    delete_where (fun r => MailAccountRow_id r =? a) (mail_accounts db) /\
  mailboxes (delete_account a db) =
    delete_where (fun r => MailboxRow_account_id r =? a) (mailboxes db) /\
  messages (delete_account a db) =
    delete_where (fun r => MessageRow_account_id r =? a) (messages db) /\
  cache_objects (delete_account a db) =
    delete_where (fun r => match CacheObjectRow_account_id r with
                           | Some i => i =? a | None => false end) (cache_objects db).
Proof. done. Qed.

(** The account is disabled and the deletion is on record before anything is
    removed. *)
Lemma before_purge (account : MailAccount) email (s : Process O X L) :
  process_ok s ->
  exists s2,
    (forall k : M Error (Process O X L) str,
       (do _ <- p_repo (disable_mail_account (MailAccount_id account)) ;;
        record_admin_audit (Some (MailAccount_user_id account)) (Some (MailAccount_id account))
          (lit "delete_account") (Object [(lit "account_email", VString email)]) ;;;
        k) s = k s2) /\
    process_ok s2 /\ holdings (w_db (p_world s2)) = holdings (w_db (p_world s)) /\
    p_store s2 = p_store s /\ p_lock s2 = p_lock s.
Proof.
  intros Hok. set (a := MailAccount_id account).
  destruct (disable_runs a (p_world s)) as (w1 & n & E1).
  pose proof (disable_keeps_holdings a (p_world s)) as K1. rewrite E1 in K1. simpl in K1.
  set (s1 := mkProcess w1 (p_store s) (p_search s) (p_lock s) (p_stdin s)).
  assert (p_repo (disable_mail_account a) s = (s1, Ok n)) as R1.
  { unfold p_repo, zoom. by rewrite E1. }
  pose proof (process_repo (disable_mail_account a) (safe_disable_mail_account a) s Hok) as Hok1.
  rewrite R1 in Hok1.
  set (audit := record_admin_audit _ _ _ _).
  destruct (audit_runs (Some (MailAccount_user_id account)) (Some a) (lit "delete_account")
              (Object [(lit "account_email", VString email)]) s1)
    as (s2 & E2 & K2 & Es & _ & El & _).
  pose proof (audit_process (Some (MailAccount_user_id account)) (Some a) (lit "delete_account")
                (Object [(lit "account_email", VString email)]) s1 Hok1) as Hok2.
  rewrite E2 in Hok2. exists s2. split; [|by rewrite K2].
  intros k. by rewrite (bind_Ok _ _ _ _ _ R1), (bind_Ok _ _ _ _ _ E2).
Qed.

(** The last statement, after the purge. *)
Lemma after_purge a (s s2 : Process O X L) store' :
  holdings (w_db (p_world s2)) = holdings (w_db (p_world s)) -> p_store s2 = p_store s ->
  (forall k, store_contents store' !! k =
     if account_uses a (w_db (p_world s2)) k && lonely a s2 k then None
     else store_contents (p_store s2) !! k) ->
  exists s',
    p_repo (delete_mail_account a)
      (at_ s2 (delete_where (mine a) (cache_objects (w_db (p_world s2)))) store') =
      (s', Ok (count (fun r => MailAccountRow_id r =? a) (mail_accounts (w_db (p_world s))))) /\
    account_deleted a s s' /\ p_lock s' = p_lock s2.
Proof.
  intros K Es Hc. set (s3 := at_ s2 _ store').
  destruct (delete_rows a (p_world s3)) as (w4 & E4 & Edb & _).
  pose proof K as [= Ka Kb Km _ Kc].
  rewrite (count_ids a _ (mail_accounts (w_db (p_world s)))) in E4 by exact Ka.
  exists (mkProcess w4 store' (p_search s3) (p_lock s3) (p_stdin s3)).
  split; [unfold p_repo, zoom; by rewrite E4|]. split; [|done].
  destruct (delete_account_tables a (w_db (p_world s3))) as (Ta & Tb & Tm & Tc).
  change (mail_accounts (w_db (p_world s3))) with (mail_accounts (w_db (p_world s2))) in Ta.
  change (mailboxes (w_db (p_world s3))) with (mailboxes (w_db (p_world s2))) in Tb.
  change (messages (w_db (p_world s3))) with (messages (w_db (p_world s2))) in Tm.
  change (cache_objects (w_db (p_world s3)))
    with (delete_where (mine a) (cache_objects (w_db (p_world s2)))) in Tc.
  constructor; cbn [p_world p_store]; rewrite ?Edb.
  - rewrite Ta, In_delete_where_id. tauto.
  - intros i Hi. rewrite Ta, In_delete_where_id, Ka. tauto.
  - by rewrite Tb, Kb.
  - by rewrite Tm, Km.
  - rewrite Tc, Kc. unfold delete_where at 1.
    apply forallb_filter_id, forallb_forall. intros r Hr.
    apply delete_where_In in Hr as [_ Hr]. unfold mine, sql_eq in Hr.
    destruct (CacheObjectRow_account_id r); [|done]. by rewrite Hr.
  - intros k. rewrite Hc. unfold lonely. rewrite Es.
    by destruct (holdings_uses a (w_db (p_world s)) (w_db (p_world s2)) k K) as [-> ->].
Qed.

Lemma delete_locked_spec (account : MailAccount) email (s : Process O X L) :
  let a := MailAccount_id account in
  process_ok s -> store_ok (p_store s) ->
  exists s', delete_locked_account account email s =
               (s', Ok (lit "deleted " ++
                    fmt_u (count (fun r => MailAccountRow_id r =? a) (mail_accounts (w_db (p_world s)))) ++
                    lit " account(s) for " ++ email)) /\
             account_deleted a s s' /\ p_lock s' = p_lock s.
Proof.
  intros a Hok Hst. unfold delete_locked_account.
  destruct (before_purge account email s Hok) as (s2 & -> & Hok2 & K & Es & El). fold a.
  destruct (purge_spec a s2 Hok2) as (store' & E3 & Hst' & Hc); [by rewrite Es|].
  rewrite (bind_Ok _ _ _ _ _ E3).
  destruct (after_purge a s s2 store' K Es Hc) as (s' & R4 & Hd & El').
  rewrite (bind_Ok _ _ _ _ _ R4). exists s'. split; [reflexivity|]. split; [done|congruence].
Qed.

(** A message that is left keeps its blob. *)
Lemma others_keep_blobs a s s' m :
  account_deleted a s s' -> In m (messages (w_db (p_world s'))) ->
  store_contents (p_store s') !! MessageRow_rfc822_blob_key m =
  store_contents (p_store s) !! MessageRow_rfc822_blob_key m.
Proof.
  intros Hd Hm. rewrite (del_messages _ _ _ Hd) in Hm. apply delete_where_In in Hm as [Hm Ha].
  rewrite (del_blobs _ _ _ Hd).
  assert ((references_elsewhere (MessageRow_rfc822_blob_key m) a (w_db (p_world s)) =? 0) = false)
    as ->; [|by rewrite andb_false_r].
  apply Z.eqb_neq. unfold references_elsewhere, count.
  assert (In m (select (fun m0 => str_eqb (MessageRow_rfc822_blob_key m0) (MessageRow_rfc822_blob_key m) &&
                          negb (MessageRow_account_id m0 =? a)) (messages (w_db (p_world s))))) as Hin.
  { apply select_In. by rewrite str_eqb_refl, Ha. }
  destruct (select _ (messages _)); [done|]. simpl. lia.
Qed.

(** C20 delete-account, given its lock, ends with the account, its mailboxes,
    messages and cache rows gone and those of the other accounts untouched; of
    the blobs exactly those go that the account used and no message or part of
    another account refers to, so no message that is left loses its blob. *)
Theorem delete_account_is_complete (salt : str) (config : Config) (email : str)
  (s : Process O X L) (account : MailAccount) (services : AppServices) (g : Globals) (lock' : L)
  (guard : SyncLockGuard) :
  process_ok s -> store_ok (p_store s) ->
  AppServices_new salt config initial_globals = (g, Ok services) ->
  is_some (Config_database_url config) = true ->
  snd (find_account_by_email_address_any_state email (p_world s)) = Ok (Some account) ->
  lock_acquire (account_lock_key (MailAccount_id account)) 600000 (p_lock s) =
    (lock', Ok (Some guard)) ->
  exists s',
    run_delete_account_command salt false config email s =
      (s', Ok (lit "deleted " ++
           fmt_u (count (fun r => MailAccountRow_id r =? MailAccount_id account)
                    (mail_accounts (w_db (p_world s)))) ++ lit " account(s) for " ++ email)) /\
    account_deleted (MailAccount_id account) s s' /\
    (forall m, In m (messages (w_db (p_world s'))) ->
       store_contents (p_store s') !! MessageRow_rfc822_blob_key m =
       store_contents (p_store s) !! MessageRow_rfc822_blob_key m).
Proof.
  intros Hok Hst Hn Hurl Hf Hl. pose proof (AppServices_new_Ok _ _ _ _ _ Hn) as
    (Hr & _ & _ & _ & _ & He & _). apply new_repository_needs_url in Hr. rewrite Hurl in Hr.
  rewrite Hr in He.
  destruct (AppServices_repository services) as [repo|] eqn:Er; [|done].
  destruct (AppServices_sync_engine services) as [engine|] eqn:Ee; [|done].
  unfold run_delete_account_command, app_services.
  set (s1 := fst (set_sink true s)).
  assert (set_sink true s = (s1, Ok tt)) as E1 by done.
  rewrite bind_assoc, (bind_Ok _ _ _ _ _ E1), Hn. cbn [snd].
  erewrite bind_Ok by reflexivity. rewrite Er, Ee.
  assert (p_repo (find_account_by_email_address_any_state email) s1 = (s1, Ok (Some account))) as E2.
  { rewrite <- Hf. reflexivity. }
  rewrite (bind_Ok _ _ _ _ _ E2).
  set (s3 := mkProcess (p_world s1) (p_store s1) (p_search s1) lock' (p_stdin s1)).
  assert (lock_for_deletion false (MailAccount_id account) email s1 = (s3, Ok guard)) as E3.
  { unfold lock_for_deletion. rewrite (bind_Ok _ _ _ s3 (Some guard)); [done|].
    unfold with_client, acquire_account_lock, on_lock, zoom. cbn [e_lock].
    change (p_lock s1) with (p_lock s). by rewrite Hl. }
  rewrite (bind_Ok _ _ _ _ _ E3).
  destruct (delete_locked_spec account email s3 Hok Hst) as (s4 & E4 & Hd & _).
  unfold holding. rewrite E4. eexists. split; [reflexivity|].
  assert (forall s5, p_world s5 = p_world s4 -> p_store s5 = p_store s4 ->
            account_deleted (MailAccount_id account) s s5) as Hd'.
  { intros s5 Ew Eo. destruct Hd. by constructor; rewrite ?Ew, ?Eo. }
  assert (account_deleted (MailAccount_id account) s
    (fst (with_client tt (on_lock (SyncLockGuard_drop true guard)) s4))) as Hfinal.
  { apply Hd'; unfold with_client, on_lock, zoom; cbn [e_lock]; by destruct (SyncLockGuard_drop _ _ _). }
  split; [done|]. intros m Hm. by eapply others_keep_blobs.
Qed.
End DeleteAccount.

(** ** The worker *)
Section Worker.
Context {O P X L : Type} `{ObjectStore O} `{Peer P}.
Context `{Sha256} `{Texts} `{PgText} `{Crypto} `{Chrono} `{Base64Encode}.

(** A round ends at the first account whose server cannot be reached; the
    changes queued for the accounts behind it are not tried, in this round or in
    any other while the server is away. *)
Lemma worker_stops_at_unreachable secrets (e : Engine O unit X L) account accounts config err :
  on_repo list_enabled_accounts e = (e, Ok (account :: accounts)) ->
  on_repo (upstream_account_config_by_id secrets (MailAccount_id account)) e = (e, Ok (Some config)) ->
  connect (P := P) config = Err err ->
  flush_pending_mutations_once (P := P) secrets e = (e, Err err).
Proof.
  intros Ha Hc He. unfold flush_pending_mutations_once. rewrite (bind_Ok _ _ _ _ _ Ha).
  cbn [for_each]. apply bind_Err. unfold flush_account. rewrite (bind_Ok _ _ _ _ _ Hc).
  apply bind_Err. by rewrite He.
Qed.
End Worker.

(** ** Witnesses *)
Module AdminWitness.

#[local] Existing Instances ConfigScenario.system ServicesWitness.platform.
#[local] Instance uuids : Uuids := { new_v4 := fun n => replicate n 97 }.

Definition process : Process MemoryObjectStore unit MemorySyncLockManager :=
mkProcess Scenario.world ImapScenario.store tt (mkMemorySyncLockManager ∅ 0) [].

Lemma process_sound : process_ok process.
Proof. exact Scenario.world_ok. Qed.

Definition alice : str := lit "alice@example.com".
Definition found : MailAccount :=
match snd (find_account_by_email_address_any_state alice Scenario.world) with
| Ok (Some account) => account
| _ => mkMailAccount 0 0 [] [] [] 0 Tls Login [] [] 0 None None None
end.

Lemma found_ok : snd (find_account_by_email_address_any_state alice (p_world process)) = Ok (Some found).
Proof. vm_compute. reflexivity. Qed.

Lemma lock_free :
lock_acquire (account_lock_key (MailAccount_id found)) 600000 (p_lock process) =
(fst (lock_acquire (account_lock_key (MailAccount_id found)) 600000 (p_lock process)),
 Ok (Some (mkSyncLockGuard (lit "imap-cache-rs:sync:account:1") []))).
Proof. vm_compute. reflexivity. Qed.

Lemma process_store_sound : store_ok (p_store process).
Proof.
intros key b Hb. unfold process, p_store, ImapScenario.store, blobs in Hb.
repeat (apply lookup_insert_Some in Hb as [[<- <-]|[_ Hb]]; [exists Rfc822; vm_compute; reflexivity|]).
by rewrite lookup_empty in Hb.
Qed.

Lemma delete_account_is_complete_witness :
exists s',
  run_delete_account_command (lit "salt") false ServicesWitness.config alice process =
    (s', Ok (lit "deleted " ++
         fmt_u (count (fun r => MailAccountRow_id r =? MailAccount_id found)
                  (mail_accounts (w_db (p_world process)))) ++ lit " account(s) for " ++ alice)) /\
  ~ In 1 (map MailAccountRow_id (mail_accounts (w_db (p_world s')))).
Proof.
destruct (delete_account_is_complete (lit "salt") ServicesWitness.config alice process found
            ServicesWitness.services (mkGlobals 2 1740) _ _ process_sound process_store_sound
            ServicesWitness.services_new eq_refl found_ok lock_free) as (s' & E & Hd & _).
exists s'. split; [exact E|]. exact (del_account _ _ _ Hd).
Defined.


(** The third message of the account was appended here and is not on the server
    yet; clearing the cache takes its only copy. *)
Example clear_cache_drops_unsynced :
let s' := fst (run_clear_cache_command (lit "salt") ServicesWitness.config alice process) in
existsb (fun r => (MailboxMessageRow_message_id r =? 3) &&
                  negb (is_some (MailboxMessageRow_upstream_uid r)))
  (mailbox_messages (w_db (p_world s'))) = true /\
existsb (fun m => str_eqb (MessageRow_rfc822_blob_key m) (blob 3)) (messages (w_db (p_world s'))) = true /\
store_contents (p_store process) !! blob 3 = Some (ImapScenario.raw 3) /\
store_contents (p_store s') !! blob 3 = None.
Proof. by vm_compute. Qed.

(** Pausing the sync of an account disables it: the account cannot be found by
    its address afterwards. *)
Example paused_account_is_disabled :
snd ((do _ <- p_repo (disable_mail_account (MailAccount_id found)) ;;
      p_repo (find_account_by_email_address alice)) process) = Ok None.
Proof. vm_compute. reflexivity. Qed.


(** A default quota above the largest bigint: the command fails, and leaves the
    account it has created behind. *)
Definition huge_quota : Config :=
mkConfig (lit "development") (lit "http://localhost:8080") (lit "debug") (lit "key")
  None None None None None None (Some (lit "postgres://db/imap")) None None None None None
  (lit "auto") None None 52428800 104857600 (2 ^ 63) 0 4 1740 2 5 60 None None None.

Example failed_add_account_leaves_account :
let r := run_add_account_command (repeat 1 24) (repeat 2 24) huge_quota alice (lit "Second")
           (lit "second@example.com") (lit "imap.example.com") 993 (lit "tls") (lit "login")
           (lit "second") (Some (lit "pw")) false process in
match snd r with Err (EConfig _) => True | _ => False end /\
length (mail_accounts (w_db (p_world process))) = 1%nat /\
length (mail_accounts (w_db (p_world (fst r)))) = 2%nat /\ quotas (w_db (p_world (fst r))) = [].
Proof. by vm_compute. Qed.

End AdminWitness.
