(* ===== verification/EventSpecs.v ===== *)
(** * Events, from the repository to the clients

    The sinks [AppServices::new] gives the repository (src of
    crates/imap-server/src/lib.rs) and the relay [run] starts, together: what the
    hub of a process gets for one change. *)

From stdpp Require Import base strings list gmap.
From Stdlib Require Import ZArith Lia.
From S2P Require Import Prelude RustStr Metrics Domain Protocol Storage Notifications Schema RepoCore Security RepoAccounts RepoMailboxes RepoMessages Auth Scenario Engine ImapText ImapSession ImapServer ImapScenario ImapFindings Config Services.

Local Open Scope Z_scope.

(** The hub of a process and the Redis channel it publishes to and listens on. *)
Record Bus : Type := mkBus { bus_hub : list MutationEvent; bus_channel : list str }.

Section FanOut.
Context `{System} `{Platform} `{Crypto} `{Texts}.
Variable serialize : MutationEvent -> str.
Variable deserialize : str -> option MutationEvent.
Hypothesis roundtrip : forall event, deserialize (serialize event) = Some event.

Definition hub_send (event : MutationEvent) : M Error Bus Z := fun b =>
  (mkBus (bus_hub b ++ [event]) (bus_channel b), Ok 1).
Definition channel_publish (channel payload : str) : M Error Bus Z := fun b =>
  (mkBus (bus_hub b) (bus_channel b ++ [payload]), Ok 1).

(** The sink a choice stands for, on a Redis server that answers. *)
Definition sink_of (choice : SinkChoice) : MutationEventSink (H := Bus) :=
  match choice with
  | HubSink => HubMutationEventSink hub_send
  | RedisSink _ =>
      RedisMutationEventSink (fun event => Ok (serialize event)) (ret tt) channel_publish None
  end.

(** One change published by the repository, and the relay of the process on what
    the channel then delivers, where one is started. *)
Definition publish_and_relay (repository : RepositoryChoice) (relay : bool) (event : MutationEvent)
  : M Error Bus unit :=
  CompositeMutationEventSink (map sink_of (repository_sinks repository)) event ;;;
  do payloads <- gets bus_channel ;;
  if relay
  then RedisMutationEventRelay_run deserialize (ret tt) (fun _ => ret tt) hub_send None
         (map inl payloads)
  else ret tt.

(** With Redis configured, the hub of the process that made a change gets the
    event twice: from its own sink and back through the relay.  Without Redis it
    gets it once. *)
Lemma redis_event_arrives_twice config repository event hub :
  new_repository config = Ok (Some repository) ->
  bus_hub (fst (publish_and_relay repository (is_some (Config_redis_url config)) event
                  (mkBus hub []))) =
  hub ++ (if is_some (Config_redis_url config) then [event; event] else [event]).
Proof.
  unfold new_repository. destruct (Config_database_url config) as [url|]; [|done].
  intros Hr. apply obind_Ok in Hr as ([] & _ & Hr). apply obind_Ok in Hr as ([] & _ & Hr).
  apply obind_Ok in Hr as (sinks & Hs & [= <-]).
  destruct (Config_redis_url config) as [redis_url|]; cbn [is_some].
  - apply obind_Ok in Hs as ([] & _ & [= <-]).
    unfold publish_and_relay. cbn. rewrite roundtrip. cbn. by rewrite <- app_assoc.
  - injection Hs as <-. reflexivity.
Qed.
End FanOut.

(** ** A client that idles *)

(** The event of deleting the first message. *)
Definition deletion : option MutationEvent :=
  last (w_events (fst (delete_mailbox_message 1 1 Scenario.world))).

Definition idle_run (wakes : list Wake) : option (list str) :=
  (fun c => transcript (sv_wire (snd c))) <$>
  run_connection ImapScenario.services secrets false 0 1000 wakes
    (Running, connect [login; "a2 SELECT INBOX"; "a3 IDLE"; "DONE"]%string).

(** The event that arrives twice is announced twice: one message is gone, the
    client takes away two. *)
Example duplicate_event_expunges_twice :
  match deletion with
  | Some event =>
      (fun t => List.filter non_empty (drop 10 t)) <$>
        idle_run [WakeEvent event; WakeEvent event; WakeLine] =
      Some (map lit ["+ idling"; "* 1 EXPUNGE"; "* 1 EXPUNGE"; "a3 OK IDLE terminated"]%string)
  | None => False
  end.
Proof. by vm_compute. Qed.
