(* ===== verification/AdminTotality.v ===== *)
(** * Admin commands return

    Every admin command that does not talk to an upstream server ends with a
    text or an error: the arms the code marks as unreachable are not reached, the
    purge loop does not run out of turns, and nothing on the way panics. *)

From stdpp Require Import base strings list gmap.
From Stdlib Require Import ZArith Lia.
From S2P Require Import Prelude RustStr Metrics Domain SearchQuery Storage Schema RepoCore Security RepoAccounts RepoMailboxes RepoMessages RepoQueue Invariant Integrity Coordination Mime Search Scenario Engine Mutations QueueSpecs SyncEngine ImapSession ImapScenario Upstream UpstreamSpecs Stores Config Services Admin Main AdminSoundness AdminSpecs.

Local Open Scope Z_scope.

(** ** Computations that do not panic *)
Definition calm {E S A} (I : S -> Prop) (m : M E S A) : Prop :=
  forall s, I s -> I (fst (m s)) /\ snd (m s) <> Panic.

Section Calm.
Context {E S : Type} (I : S -> Prop).

Lemma calm_ret {A} (a : A) : calm I (@ret E S A a).
Proof. by intros s Hs. Qed.
Lemma calm_fail {A} (e : E) : calm I (@fail E S A e).
Proof. by intros s Hs. Qed.
Lemma calm_gets {A} (f : S -> A) : calm I (@gets E S A f).
Proof. by intros s Hs. Qed.
Lemma calm_lift {A} (r : outcome E A) : r <> Panic -> calm I (@lift E S A r).
Proof. by intros Hr s Hs. Qed.
Lemma calm_bind {A B} (m : M E S A) (k : A -> M E S B) :
  calm I m -> (forall a, calm I (k a)) -> calm I (bind m k).
Proof.
  intros Hm Hk s Hs. destruct (Hm s Hs) as [Hi Hp]. unfold bind.
  destruct (m s) as [s' [a|e|]]; [by apply Hk|by split|done].
Qed.
Lemma calm_ignore {A} (m : M E S A) : calm I m -> calm I (ignore m).
Proof.
  intros Hm s Hs. destruct (Hm s Hs) as [Hi Hp]. unfold ignore.
  by destruct (m s) as [s' [a|e|]].
Qed.
Lemma calm_for_each {A} (xs : list A) (m : A -> M E S unit) :
  (forall x, calm I (m x)) -> calm I (for_each xs m).
Proof.
  intros Hm. induction xs as [|x xs IH]; simpl; [apply calm_ret|].
  by apply calm_bind; [|intros _].
Qed.
Lemma calm_fold_each {A B} (xs : list A) (m : B -> A -> M E S B) b :
  (forall b x, calm I (m b x)) -> calm I (fold_each xs b m).
Proof.
  intros Hm. revert b. induction xs as [|x xs IH]; intros b; simpl; [apply calm_ret|].
  by apply calm_bind; [|intros b'].
Qed.
End Calm.

Definition any_state {S} (_ : S) : Prop := True.

(** Of the repository. *)
Lemma calm_query {A} (f : Database -> A) : calm any_state (query f).
Proof. by intros w _. Qed.
Lemma calm_now : calm any_state now.
Proof. by intros w _. Qed.
Lemma calm_execute f : calm any_state (execute f).
Proof. by intros w _. Qed.
Lemma calm_nextval t : calm any_state (nextval t).
Proof. by intros w _. Qed.
Lemma calm_require b e : calm any_state (require b e).
Proof. intros w _. unfold require. by destruct b. Qed.
Lemma calm_publish event : calm any_state (publish_event event).
Proof. by intros w _. Qed.
Lemma calm_transaction {A} (m : Repo A) : calm any_state m -> calm any_state (transaction m).
Proof.
  intros Hm w _. destruct (Hm w I) as [_ Hp]. unfold transaction.
  by destruct (m w) as [w' [a|e|]].
Qed.

Create HintDb calm.
#[export] Hint Resolve calm_ret calm_fail calm_gets calm_query calm_now calm_execute calm_nextval
  calm_require calm_publish : calm.

Ltac calm_steps :=
  repeat first
    [ solve [eauto 2 with calm]
    | apply calm_transaction
    | apply calm_ignore
    | apply calm_for_each; intros ?
    | apply calm_fold_each; intros ? ?
    | apply calm_bind; [|intros ?]
    | match goal with
      | |- calm _ (match ?x with _ => _ end) => destruct x
      | |- calm _ (let _ := ?x in _) => cbv zeta
      end ].

Lemma collect_not_panic {A B} (f : A -> Result B) rows :
  (forall r, f r <> Panic) -> collect_results f rows <> Panic.
Proof.
  intros Hf. induction rows as [|r rows IH]; simpl; [done|].
  specialize (Hf r). destruct (f r); [|done..]. simpl. by destruct (collect_results f rows).
Qed.
Lemma account_not_panic r : MailAccount_try_from r <> Panic.
Proof.
  unfold MailAccount_try_from.
  by destruct (UpstreamTlsMode_from_str _), (UpstreamAuthMethod_from_str _).
Qed.
Lemma opt_not_panic {A B} (f : A -> Result B) o :
  (forall r, f r <> Panic) -> try_into_opt f o <> Panic.
Proof. intros Hf. destruct o as [r|]; [|done]. simpl. specialize (Hf r). by destruct (f r). Qed.

Section RepoCalm.
Context `{PgText, UuidText, Crypto}.

Ltac repo_calm :=
  calm_steps; apply calm_lift;
  first [by apply opt_not_panic, account_not_panic | by apply collect_not_panic, account_not_panic
        | done].

Lemma calm_find_active email : calm any_state (find_account_by_email_address email).
Proof. unfold find_account_by_email_address. repo_calm. Qed.
Lemma calm_find_any email : calm any_state (find_account_by_email_address_any_state email).
Proof. unfold find_account_by_email_address_any_state. repo_calm. Qed.
Lemma calm_list_accounts u : calm any_state (list_accounts_for_user u).
Proof. unfold list_accounts_for_user. repo_calm. Qed.
Lemma calm_create_mail_account box n1 n2 input : calm any_state (create_mail_account box n1 n2 input).
Proof.
  unfold create_mail_account, SecretBox_encrypt.
  apply calm_bind; [apply calm_lift; by destruct (aead_encrypt _ _ _)|intros c1].
  apply calm_bind; [apply calm_lift; by destruct (aead_encrypt _ _ _)|intros c2].
  calm_steps. apply calm_lift, account_not_panic.
Qed.
Lemma calm_delete_cache_object a k : calm any_state (delete_cache_object_for_account a k).
Proof. unfold delete_cache_object_for_account. calm_steps. Qed.
Lemma calm_audit u a action v : calm any_state (record_audit_log u a action v).
Proof. unfold record_audit_log. calm_steps. Qed.
Lemma calm_create_user input : calm any_state (create_user input).
Proof. unfold create_user. calm_steps. Qed.
Lemma calm_set_password u h : calm any_state (set_user_password u h).
Proof. unfold set_user_password. calm_steps. Qed.
Lemma calm_disable_user u : calm any_state (disable_user u).
Proof. unfold disable_user. calm_steps. Qed.
Lemma calm_disable_account a : calm any_state (disable_mail_account a).
Proof. unfold disable_mail_account. calm_steps. Qed.
Lemma calm_enable_account a : calm any_state (enable_mail_account a).
Proof. unfold enable_mail_account. calm_steps. Qed.
Lemma calm_delete_account a : calm any_state (delete_mail_account a).
Proof. unfold delete_mail_account. calm_steps. Qed.
Lemma calm_upsert_quota a n : calm any_state (upsert_account_quota a n).
Proof. unfold upsert_account_quota. calm_steps. Qed.
Lemma calm_delete_sync_state a m : calm any_state (delete_sync_state a m).
Proof. unfold delete_sync_state. calm_steps. Qed.
End RepoCalm.

#[export] Hint Resolve calm_find_active calm_find_any calm_list_accounts calm_create_mail_account
  calm_delete_cache_object calm_audit calm_create_user calm_set_password calm_disable_user
  calm_disable_account calm_enable_account calm_delete_account calm_upsert_quota
  calm_delete_sync_state : calm.
#[export] Hint Resolve safe_find_mailbox safe_delete_sync_state safe_create_user
  safe_set_user_password safe_disable_user safe_record_audit_log safe_create_mail_account
  safe_disable_mail_account safe_enable_mail_account safe_delete_mail_account
  safe_upsert_account_quota safe_delete_cache_object : repo.

(** Start-up does not panic either. *)
Section Startup.
Context `{System} `{Platform} `{Crypto} `{Texts}.

Lemma obind_not_panic {E A B} (r : outcome E A) (k : A -> outcome E B) :
  r <> Panic -> (forall a, k a <> Panic) -> obind r k <> Panic.
Proof. destruct r; simpl; auto. Qed.
Lemma any_not_panic {A} (r : Result A) : r <> Panic -> any r <> Panic.
Proof. by destruct r. Qed.
Lemma or_else_not_panic {A} (r : A + str) err : or_else r err <> Panic.
Proof. by destruct r. Qed.

Lemma ok_or_not_panic {E A} (o : option A) (e : E) : ok_or o e <> Panic.
Proof. by destruct o. Qed.
Lemma with_context_not_panic {A} (r : A + str) text : with_context r text <> Panic.
Proof. by destruct r. Qed.

Lemma AppServices_new_returns salt config g : snd (AppServices_new salt config g) <> Panic.
Proof.
  assert (calm any_state (AppServices_new salt config)) as Hc; [|by apply (Hc g)].
  unfold AppServices_new. repeat (apply calm_bind; [by intros g' _|intros _]).
  unfold new_repository, build_object_store, new_search, new_sync_engine, bootstrap_authenticator,
    run_migrations, redis_url_open, from_config, hash_password.
  repeat first
    [ apply calm_ret | done | apply or_else_not_panic | apply any_not_panic
    | apply with_context_not_panic
    | apply obind_not_panic; [|intros ?]
    | apply calm_bind; [|intros ?] | apply calm_lift | case_match ].
Qed.
End Startup.

(** ** Commands *)
Section Commands.
Context {O P X L : Type} `{ObjectStore O} `{!ObjectStoreLaws O} `{Peer P} `{SearchBackend X}
  `{SyncLockManager L}.
Context `{System} `{Platform} `{Sha256} `{Texts} `{MimeParser} `{PgText} `{UuidText} `{Crypto}.
Context `{Chrono} `{Base64Encode} `{DebugTime}.
Abbreviation Admin := (M Error (Process O X L)).

Definition process_good (s : Process O X L) : Prop := process_ok s /\ store_ok (p_store s).

Lemma good_repo {A} (m : Repo A) : safe m -> calm any_state m -> calm process_good (p_repo m).
Proof.
  intros Hs Hc s [Hok Hst]. pose proof (process_repo (X := X) (L := L) m Hs s Hok) as Hok'.
  destruct (Hc (p_world s) I) as [_ Hp]. unfold p_repo, zoom in *.
  by destruct (m (p_world s)) as [w r].
Qed.
Lemma good_delete key : calm process_good (p_objects (X := X) (L := L) (store_delete key)).
Proof.
  intros s [Hok Hst]. unfold p_objects, zoom.
  destruct (law_delete key (p_store s) Hst) as (store' & E & Hst' & _). rewrite E. done.
Qed.
Lemma good_sink b : calm process_good (set_sink (O := O) (X := X) (L := L) b).
Proof. by intros s [Hok Hst]. Qed.
Lemma good_stdin b : calm process_good (modify (E := Error) (set_stdin b)).
Proof. by intros s [Hok Hst]. Qed.
Lemma good_purge account_id :
  calm process_good (purge_account_objects_for_deletion (X := X) (L := L) account_id).
Proof.
  intros s [Hok Hst]. pose proof (purge_process (X := X) (L := L) account_id s Hok) as Hok'.
  destruct (purge_spec account_id s Hok Hst) as (store' & E & Hst' & _). rewrite E in *. done.
Qed.
Hint Resolve good_delete good_sink good_stdin good_purge : calm.

Ltac good_steps :=
  repeat first
    [ solve [eauto 2 with calm]
    | apply good_repo; [solve [safe_steps] | solve [calm_steps]]
    | apply calm_lift; first [apply ok_or_not_panic | apply or_else_not_panic | solve [case_match; done]]
    | apply calm_ignore
    | apply calm_fold_each; intros ? ?
    | apply calm_bind; [|intros ?]
    | match goal with
      | |- calm _ (match ?x with _ => _ end) => destruct x
      | |- calm _ (let _ := ?x in _) => cbv zeta
      end ].

Lemma good_audit u a action v :
  calm process_good (record_admin_audit (O := O) (X := X) (L := L) u a action v).
Proof. unfold record_admin_audit. good_steps. Qed.
Lemma good_find_active email :
  calm process_good (find_active_account (O := O) (X := X) (L := L) email).
Proof.
  unfold find_active_account. apply calm_bind; [|intros [a|]; by apply calm_lift].
  apply good_repo; [unfold find_account_by_email_address; safe_steps|auto with calm].
Qed.
Lemma good_find_any_repo email :
  calm process_good (p_repo (O := O) (X := X) (L := L) (find_account_by_email_address_any_state email)).
Proof.
  apply good_repo; [unfold find_account_by_email_address_any_state; safe_steps|auto with calm].
Qed.
Lemma good_find_any email : calm process_good (find_any_account (O := O) (X := X) (L := L) email).
Proof.
  unfold find_any_account. apply calm_bind; [apply good_find_any_repo|].
  intros [a|]; by apply calm_lift.
Qed.
Lemma good_find_mailbox a name :
  calm process_good (find_named_mailbox (O := O) (X := X) (L := L) a name).
Proof.
  unfold find_named_mailbox. apply calm_bind; [|intros [r|]; by apply calm_lift].
  apply good_repo; [auto with repo|unfold find_mailbox; calm_steps].
Qed.
Lemma good_secret value from_stdin label :
  calm process_good (resolve_secret_input (O := O) (X := X) (L := L) value from_stdin label).
Proof.
  unfold resolve_secret_input, read_secret_line, read_secret_line_from_reader. good_steps.
Qed.
Lemma good_release account_id key :
  calm process_good (release_object (X := X) (L := L) account_id key).
Proof. unfold release_object. good_steps. Qed.
Lemma good_services salt config :
  calm process_good (app_services (O := O) (X := X) (L := L) salt config).
Proof.
  unfold app_services. apply calm_bind; [apply good_sink|intros _].
  pose proof (AppServices_new_returns salt config initial_globals) as Hn.
  destruct (snd (AppServices_new salt config initial_globals)); [apply calm_ret|apply calm_fail|done].
Qed.
Lemma good_open config : calm process_good (open_repository (O := O) (X := X) (L := L) config).
Proof.
  unfold open_repository, run_migrations. destruct (Config_database_url config); [|apply calm_fail].
  good_steps.
Qed.
Hint Resolve good_audit good_find_active good_find_any good_find_any_repo good_find_mailbox good_secret
  good_release good_services good_open : calm.

Lemma good_prune account_id keep :
  calm process_good (prune_cache_objects_for_account (X := X) (L := L) account_id keep).
Proof.
  unfold prune_cache_objects_for_account, list_cache_objects_for_account,
    list_cache_objects_for_account_by_recency. good_steps.
Qed.
Hint Resolve good_prune : calm.

Variable salt : str.
Variables nonce1 nonce2 : bytes.
Variable elapsed : Z.
Variable lock_times_out : bool.

Lemma good_delete_locked account email :
  calm process_good (delete_locked_account (X := X) (L := L) account email).
Proof. unfold delete_locked_account. good_steps. Qed.

Lemma good_holding guard (body : Admin str) :
  calm process_good body -> calm process_good (holding guard body).
Proof.
  intros Hb s Hs. destruct (Hb s Hs) as [[Hok Hst] Hp]. unfold holding.
  destruct (body s) as [s1 r]. unfold with_client, on_lock, zoom. cbn [e_lock].
  by destruct (SyncLockGuard_drop _ _ _).
Qed.

Lemma good_add_account config a b c d e f g h i j :
  calm process_good
    (run_add_account_command (O := O) (X := X) (L := L) nonce1 nonce2 config a b c d e f g h i j).
Proof. unfold run_add_account_command, find_user_by_username. good_steps. Qed.
Lemma good_clear_cache config email :
  calm process_good (run_clear_cache_command (X := X) (L := L) salt config email).
Proof. unfold run_clear_cache_command. good_steps. Qed.

(** The commands that open a connection to an upstream server. *)
Definition goes_upstream (command : AdminCommand) : bool :=
  match command with ForceSync _ | TestUpstream _ => true | _ => false end.

(** The commands the dispatcher hands to the repository. *)
Definition on_repository (command : AdminCommand) : bool :=
  match command with
  | AddAccount _ _ _ _ _ _ _ _ _ _ | DeleteAccount _ | ForceSync _ | ClearCache _ | Run
  | RunMigrations => false
  | _ => true
  end.

Lemma good_repository_command secrets limit command :
  on_repository command = true -> goes_upstream command = false ->
  calm process_good
    (execute_repository_command (O := O) (P := P) (X := X) (L := L) salt secrets limit command).
Proof.
  intros Hr Hu. destruct command; try done; cbn [execute_repository_command];
    unfold reset_mailbox_state, list_accounts, show_mailboxes, show_sync_status, hash_password,
      audit_changed, find_user_by_username, list_mailboxes, load_sync_state;
    good_steps.
Qed.

(** The lock manager answers. *)
Hypothesis lock_answers : forall key ttl (l : L), snd (lock_acquire key ttl l) <> Panic.

Lemma good_lock account_id email :
  calm process_good (lock_for_deletion (O := O) (X := X) lock_times_out account_id email).
Proof.
  unfold lock_for_deletion. destruct lock_times_out; [apply calm_fail|].
  apply calm_bind; [|intros; apply calm_lift, ok_or_not_panic].
  intros s [Hok Hst]. unfold with_client, acquire_account_lock, on_lock, zoom. cbn [e_lock].
  pose proof (lock_answers (account_lock_key account_id) 600000 (p_lock s)) as Hl.
  by destruct (lock_acquire _ _ _).
Qed.
Lemma good_delete_account config email :
  calm process_good (run_delete_account_command (X := X) salt lock_times_out config email).
Proof.
  unfold run_delete_account_command.
  apply calm_bind; [apply good_services|intros services].
  destruct (AppServices_repository services); [|apply calm_fail].
  apply calm_bind; [apply good_find_any_repo|intros [account|]; [|apply calm_fail]].
  destruct (AppServices_sync_engine services); [|apply good_delete_locked].
  apply calm_bind; [apply good_lock|intros guard]. apply good_holding, good_delete_locked.
Qed.

(** C23 Every admin command that opens no upstream connection ends with a text or
    an error on every sound database and object store, and leaves both sound: the
    arms the code marks as unreachable are not reached, the loop that purges an
    account's objects ends, no start-up step panics. *)
Theorem admin_commands_return config command (s : Process O X L) :
  goes_upstream command = false -> process_good s ->
  let '(s', r) := run_admin_command (P := P) salt nonce1 nonce2 elapsed lock_times_out config command s in
  process_good s' /\ ((exists text, r = Ok text) \/ (exists error, r = Err error)).
Proof.
  intros Hu Hs.
  assert (calm process_good (run_admin_command (O := O) (P := P) (X := X) salt nonce1 nonce2 elapsed
    lock_times_out config command)) as Hc.
  { destruct command; try done; cbn [run_admin_command];
      first [apply calm_fail | apply good_clear_cache | apply good_delete_account
            | apply good_add_account
            | apply calm_bind; [apply good_open|intros _; by apply good_repository_command]]. }
  destruct (Hc s Hs) as [Hg Hp]. destruct (run_admin_command _ _ _ _ _ _ _ s) as [s' [text|error|]];
    [eauto 6|eauto 6|done].
Qed.
End Commands.

Module TotalityWitness.
Import AdminWitness.

#[local] Existing Instances ConfigScenario.system ServicesWitness.platform AdminWitness.uuids.
#[local] Instance debug : DebugTime := { debug_time := fmt_i }.
#[local] Instance base64 : Base64Encode := { base64_encode := fun b => b }.

(** Setting a password from the standard input. *)
Definition typed : Process MemoryObjectStore unit MemorySyncLockManager :=
set_stdin (lit "secret" ++ [13; 10]) process.

Lemma memory_answers key ttl (l : MemorySyncLockManager) : snd (lock_acquire key ttl l) <> Panic.
Proof. unfold lock_acquire. simpl. unfold memory_acquire. by destruct (decide _). Qed.

Lemma admin_commands_return_witness :
let r := snd (run_admin_command (P := Script) (lit "salt") [] [] 0 false ServicesWitness.config
                (SetPassword alice None true) typed) in
(exists text, r = Ok text) \/ (exists error, r = Err error).
Proof.
pose proof (admin_commands_return (P := Script) (lit "salt") [] [] 0 false memory_answers
  ServicesWitness.config (SetPassword alice None true) typed eq_refl (conj process_sound process_store_sound)) as H.
cbv zeta. destruct (run_admin_command _ _ _ _ _ _ _ typed) as [s' r]. simpl.
exact (proj2 H).
Defined.
End TotalityWitness.
