(* ===== verification/ImapGauges.v ===== *)
(** * The gauges of a connection

    A turn of a connection moves the gauge of authenticated sessions of the
    server exactly as it moves the one of its session, and does not move the
    number of active connections; only the end of the connection does. *)

From stdpp Require Import base strings list relations.
From Stdlib Require Import ZArith Lia.
From S2P Require Import Prelude RustStr Metrics Domain Protocol SearchQuery Storage Notifications Schema RepoCore Security RepoAccounts RepoMailboxes RepoMessages RepoQueue Auth Mime Search Engine SearchEval Threads ImapText Ingest Mutations ImapSession ImapFetch ImapCommands ImapServer ImapFrames ImapSessionSpecs.

Local Open Scope Z_scope.

(** ** Wrap-around *)
Lemma as_i64_shift a k : as_i64 (a + k * 2 ^ 64) = as_i64 a.
Proof.
  unfold as_i64. f_equal. replace (a + k * 2 ^ 64 - i64_min) with (a - i64_min + k * 2 ^ 64) by lia.
  apply Z_mod_plus_full.
Qed.
Lemma as_i64_eq a : exists k, as_i64 a = a + k * 2 ^ 64.
Proof.
  exists (- ((a - i64_min) / 2 ^ 64)). unfold as_i64.
  pose proof (Z_div_mod_eq_full (a - i64_min) (2 ^ 64)). lia.
Qed.
Lemma as_i64_add a b : as_i64 (as_i64 a + b) = as_i64 (a + b).
Proof.
  destruct (as_i64_eq a) as [k ->]. rewrite <- (as_i64_shift (a + b) k). f_equal. lia.
Qed.
Lemma as_i64_idem a : as_i64 (as_i64 a) = as_i64 a.
Proof. pose proof (as_i64_add a 0) as Hz. by rewrite !Z.add_0_r in Hz. Qed.
(** The same step on both sides of a difference. *)
Lemma add_i64_diff a b n : as_i64 (add_i64 a n - add_i64 b n) = as_i64 (a - b).
Proof.
  unfold add_i64. destruct (as_i64_eq (a + n)) as [k ->], (as_i64_eq (b + n)) as [j ->].
  rewrite <- (as_i64_shift (a - b) (k - j)). f_equal. lia.
Qed.

Section Gauges.
Context {O U X L T : Type} `{ObjectStore O} `{UpstreamClient U} `{UpstreamConnector U}.
Context `{SearchBackend X} `{Authenticator T}.
Context `{Sha256} `{MimeParser} `{PgText} `{UuidText} `{Crypto} `{Texts} `{ChronoRange}.
Context `{MailHeaders} `{Base64} `{TlsAcceptor}.
Variable services : AppServices.
Variable secrets : SecretBox.
Variable has_acceptor : bool.
Variable elapsed : Z.
Abbreviation Imap := (M Error (Server O U X L T)).
Abbreviation Sync := (M Error (Engine O U X L)).

Definition engine_gauges (e : Engine O U X L) : Z * Z :=
  (active_connections (e_metrics e), authenticated_sessions (e_metrics e)).

(** The number of connections, and what the others add to the gauge. *)
Definition gauges (sv : Server O U X L T) : Z * Z :=
  (active_connections (e_metrics (sv_engine sv)),
   as_i64 (authenticated_sessions (e_metrics (sv_engine sv)) -
           authenticated_sessions (session_metrics (sv_session sv)))).

(** ** On the engine *)
Lemma eg_on_repo {A} (m : Repo A) : sframe engine_gauges (on_repo m).
Proof. intros e. unfold on_repo, zoom. by destruct (m (e_world e)). Qed.
Lemma eg_on_store {A} (m : M Error O A) : sframe engine_gauges (on_store m).
Proof. intros e. unfold on_store, zoom. by destruct (m (e_store e)). Qed.
Lemma eg_on_upstream {A} (m : M Error U A) : sframe engine_gauges (on_upstream m).
Proof. intros e. unfold on_upstream, zoom. by destruct (m (e_upstream e)). Qed.
Lemma eg_on_search {A} (m : M Error X A) : sframe engine_gauges (on_search m).
Proof. intros e. unfold on_search, zoom. by destruct (m (e_search e)). Qed.
Lemma eg_utc_now : sframe engine_gauges utc_now.
Proof. done. Qed.
Lemma eg_bytes_written n : sframe engine_gauges (record_object_store_bytes_written n).
Proof. done. Qed.
Lemma eg_bytes_read n : sframe engine_gauges (record_object_store_bytes_read n).
Proof. done. Qed.
Lemma eg_cache_hit : sframe engine_gauges (on_metrics record_cache_hit).
Proof. done. Qed.
Lemma eg_cache_miss : sframe engine_gauges (on_metrics record_cache_miss).
Proof. done. Qed.
Lemma eg_downstream n : sframe engine_gauges (on_metrics (record_downstream_bytes n)).
Proof. done. Qed.
Hint Resolve eg_on_repo eg_on_store eg_on_upstream eg_on_search eg_utc_now eg_bytes_written
  eg_bytes_read eg_cache_hit eg_cache_miss eg_downstream : imap.

Lemma eg_rehydrate account_id name view :
  sframe engine_gauges (rehydrate_missing_raw_blob services secrets account_id name view).
Proof. unfold rehydrate_missing_raw_blob, remember_blob. frame_steps. Qed.
Hint Resolve eg_rehydrate : imap.
Lemma eg_load_whole account_id name view :
  sframe engine_gauges (load_whole services secrets account_id name view).
Proof. unfold load_whole, touch_ignored. frame_steps. Qed.
Lemma eg_load_full_range account_id name view offset count :
  sframe engine_gauges (load_full_range services secrets account_id name view offset count).
Proof. unfold load_full_range, touch_ignored. frame_steps. Qed.
Lemma eg_load_part_from_message account_id name view part path :
  sframe engine_gauges (load_part_from_message services secrets account_id name view part path).
Proof. unfold load_part_from_message, remember_blob, touch_ignored. frame_steps. Qed.
Hint Resolve eg_load_whole eg_load_full_range eg_load_part_from_message : imap.
Lemma eg_load_part account_id name view path section partial :
  sframe engine_gauges (load_part services secrets account_id name view path section partial).
Proof. unfold load_part, touch_ignored. frame_steps. Qed.
Hint Resolve eg_load_part : imap.
Lemma eg_load_raw account_id name view section partial :
  sframe engine_gauges (load_raw_fetch_bytes services secrets account_id name view section partial).
Proof. unfold load_raw_fetch_bytes. frame_steps. Qed.
Lemma eg_execute_search account_id name query uid :
  sframe engine_gauges (execute_search services account_id name query uid).
Proof. unfold execute_search. frame_steps. Qed.
Hint Resolve eg_load_raw eg_execute_search : imap.
Lemma eg_execute_sort account_id name query keys reverse uid :
  sframe engine_gauges (execute_sort services account_id name query keys reverse uid).
Proof. unfold execute_sort, search_rows. frame_steps. Qed.
Lemma eg_execute_thread account_id name query algorithm uid :
  sframe engine_gauges (execute_thread services secrets account_id name query algorithm uid).
Proof. unfold execute_thread, search_rows, thread_message. frame_steps. Qed.
Lemma eg_ingest has_search account_id mb name uid up date raw flags :
  sframe engine_gauges
    (ingest_raw_message (O := O) (U := U) (X := X) (L := L) has_search account_id mb name uid up
       date raw flags).
Proof.
  unfold ingest_raw_message, ingest_parsed_message, check_quota, ingest_part. frame_steps.
Qed.
Hint Resolve eg_execute_sort eg_execute_thread eg_ingest : imap.

(** ** On the connection *)
Lemma gauges_on_engine {A} (m : Sync A) :
  sframe engine_gauges m -> sframe gauges (on_engine (T := T) m).
Proof.
  intros Hm sv. specialize (Hm (sv_engine sv)). unfold on_engine, zoom, gauges, engine_gauges in *.
  destruct (m (sv_engine sv)) as [e r]. simpl in *. by injection Hm as -> ->.
Qed.
Lemma gauges_on_db {A} (m : Repo A) : sframe gauges (on_db m).
Proof. apply gauges_on_engine, eg_on_repo. Qed.
Lemma gauges_on_auth {A} (m : M Error (@AuthState T) A) : sframe gauges (on_auth m).
Proof. intros sv. unfold on_auth. by destruct (m _). Qed.
Lemma gauges_write_all b : sframe gauges (write_all b).
Proof. done. Qed.
Lemma gauges_set_input b : sframe gauges (set_input b).
Proof. done. Qed.
(** A change of the session that leaves its metrics alone. *)
Lemma gauges_update_session f :
  (forall s, session_metrics (f s) = session_metrics s) -> sframe gauges (update_session f).
Proof. intros Hf sv. unfold update_session, gauges. simpl. by rewrite Hf. Qed.
Lemma gauges_both_metrics f n :
  (forall m, active_connections (f m) = active_connections m) ->
  (forall m, authenticated_sessions (f m) = add_i64 (authenticated_sessions m) n) ->
  sframe gauges (on_both_metrics f).
Proof.
  intros Ha Hs sv. unfold gauges. simpl. by rewrite Ha, !Hs, add_i64_diff.
Qed.
Lemma gauges_record f :
  (forall m, active_connections (f m) = active_connections m) ->
  (forall m, authenticated_sessions (f m) = authenticated_sessions m) ->
  sframe gauges (on_both_metrics f).
Proof. intros Ha Hs sv. unfold gauges. simpl. by rewrite Ha, !Hs. Qed.
Hint Resolve gauges_on_db gauges_on_auth gauges_write_all gauges_set_input : imap.
Hint Extern 1 (sframe gauges (update_session _)) => apply gauges_update_session; done : imap.
Hint Extern 1 (sframe gauges (on_both_metrics _)) =>
  first [ by apply gauges_record | by apply (gauges_both_metrics _ 1)
        | by apply (gauges_both_metrics _ (-1)) ] : imap.

Ltac gauge_steps := repeat first [progress frame_steps | apply gauges_on_engine].

(** The guards. *)
Lemma gauges_with_selected name tag (k : Z -> str -> Mailbox -> Imap (list str)) :
  (forall a m mailbox, sframe gauges (k a m mailbox)) ->
  sframe gauges (with_selected services name tag k).
Proof. intros Hk. unfold with_selected, get_session. gauge_steps. Qed.
Lemma gauges_unless_read_only name tag (k : Imap (list str)) :
  sframe gauges k -> sframe gauges (unless_read_only name tag k).
Proof. intros Hk. unfold unless_read_only, get_session. gauge_steps. Qed.

Lemma gauges_queue_flags account_id mailbox_id uid flags :
  sframe gauges (queue_flags (T := T) services account_id mailbox_id uid flags).
Proof. unfold queue_flags, queue_flag_update. gauge_steps. Qed.
Lemma gauges_expunge_targets mailbox_id targets :
  sframe gauges (expunge_targets (T := T) mailbox_id targets).
Proof. unfold expunge_targets, expunge_target. gauge_steps. Qed.
Lemma gauges_copy_one move account_id source destination copied message :
  sframe gauges (copy_one (T := T) services move account_id source destination copied message).
Proof. unfold copy_one, queue_move_message, queue_copy_message. destruct move; gauge_steps. Qed.
Lemma gauges_move_source move mailbox_id message :
  sframe gauges (move_source (T := T) move mailbox_id message).
Proof. unfold move_source. gauge_steps. Qed.
Hint Resolve gauges_queue_flags gauges_expunge_targets gauges_copy_one gauges_move_source : imap.

Lemma gauges_run_search account_id mailbox tag args uid completed :
  sframe gauges (run_search services account_id mailbox tag args uid completed).
Proof. unfold run_search. gauge_steps. Qed.
Lemma gauges_run_sort account_id mailbox tag args uid usage completed :
  sframe gauges (run_sort services account_id mailbox tag args uid usage completed).
Proof. unfold run_sort. gauge_steps. Qed.
Lemma gauges_run_thread account_id mailbox tag args uid usage completed :
  sframe gauges (run_thread services secrets account_id mailbox tag args uid usage completed).
Proof. unfold run_thread. gauge_steps. Qed.
Hint Resolve gauges_run_search gauges_run_sort gauges_run_thread : imap.

Lemma gauges_cmd_uid tag args : sframe gauges (cmd_uid services secrets tag args).
Proof.
  unfold cmd_uid. destruct args as [|sub rest]; [apply sframe_ret|].
  apply gauges_with_selected. intros.
  destruct (match_str _ _) eqn:Em; [|apply sframe_ret].
  revert Em. apply match_str_Forall. each_arm; eauto with imap;
    unfold uid_fetch, uid_copy, uid_copy_row, uid_expunge, uid_store, uid_store_row,
      resolve_uid_views, resolve_uid_targets, sequence_number_for_local_uid, get_session;
    try apply gauges_unless_read_only; gauge_steps.
Qed.

Lemma gauges_activate ctx : sframe gauges (activate_authenticated_session services ctx).
Proof. unfold activate_authenticated_session, get_session. gauge_steps. Qed.
Lemma gauges_rename a b : sframe gauges (update_session (rename_selected a b)).
Proof.
  apply gauges_update_session. intros s. unfold rename_selected.
  destruct (state s); try done. by case_match.
Qed.
Hint Resolve gauges_cmd_uid gauges_activate gauges_rename : imap.

Lemma gauges_handle command literal :
  sframe gauges (handle_parsed_command services secrets command literal).
Proof.
  unfold handle_parsed_command. cbv zeta. apply sframe_bind; [by apply gauges_record|]. intros _.
  destruct (match_str _ _) eqn:Em; [|apply sframe_ret]. revert Em. apply match_str_Forall.
  unfold command_arms. each_arm; try solve [eauto with imap];
    unfold cmd_fetch, cmd_store, cmd_expunge, cmd_copy, copy_row, cmd_append, cmd_close,
      close_expunge, store_row, queue_append, resolve_sequence_targets, resolve_sequence_views,
      cmd_capability, cmd_logout, cmd_login, cmd_starttls, cmd_select, cmd_list, cmd_status,
      cmd_idle, cmd_check, cmd_unselect, cmd_create, cmd_delete, cmd_rename, cmd_subscribe,
      cmd_namespace, cmd_id, cmd_enable, cmd_condstore, cmd_search, cmd_sort, cmd_thread,
      when_selected, deselect, get_session;
    try (apply gauges_with_selected; intros); try apply gauges_unless_read_only; gauge_steps.
Qed.
Hint Resolve gauges_handle : imap.

(** ** Turns *)
Lemma gauges_observation name errored :
  sframe gauges (record_command_observation elapsed name errored).
Proof. unfold record_command_observation. gauge_steps. Qed.
Lemma gauges_read_line : sframe gauges read_line.
Proof. unfold read_line. gauge_steps. Qed.
Lemma gauges_read_exact n : sframe gauges (read_exact n).
Proof. unfold read_exact. gauge_steps. Qed.
Lemma gauges_write_line l : sframe gauges (write_line l).
Proof. apply gauges_write_all. Qed.
Hint Resolve gauges_observation gauges_read_line gauges_read_exact gauges_write_line : imap.

Lemma gauges_write_raw_fetch command :
  sframe gauges (write_raw_fetch_response services secrets command).
Proof.
  unfold write_raw_fetch_response, write_raw_row, resolve_uid_views, resolve_sequence_views,
    queue_flag_update, get_session. gauge_steps.
Qed.
Lemma gauges_starttls name tag : sframe gauges (serve_starttls has_acceptor elapsed name tag).
Proof. unfold serve_starttls, get_session. gauge_steps. Qed.
Lemma gauges_authenticate name command : sframe gauges (serve_authenticate services elapsed name command).
Proof.
  unfold serve_authenticate, handle_authenticate_command, read_auth_blob, authenticate_with_blob,
    get_session. gauge_steps.
Qed.
Lemma gauges_plain name command literal :
  sframe gauges (serve_plain services secrets elapsed name command literal).
Proof. unfold serve_plain, answer_errors, get_session. gauge_steps. Qed.
Hint Resolve gauges_write_raw_fetch gauges_starttls gauges_authenticate gauges_plain : imap.

Lemma serve_command_gauges :
  sframe gauges (serve_command services secrets has_acceptor elapsed).
Proof. unfold serve_command, read_command_with_literal, serve_fetch. gauge_steps. Qed.
Lemma idle_turn_gauges tag wake : sframe gauges (idle_turn services elapsed tag wake).
Proof.
  unfold idle_turn, idle_on_wake, idle_on_line, idle_on_timeout, idle_on_event,
    idle_notification_for_event, expunge_notice, flags_notice, count_notice, count_messages,
    refresh_snapshot, sequence_number_for_local_uid, get_session. gauge_steps.
Qed.

(** ** The end of a connection *)
Definition metrics_of (sv : Server O U X L T) : AppMetrics := e_metrics (sv_engine sv).

Lemma mark_not_panic connection_id w : snd (mark_session_disconnected connection_id w) <> Panic.
Proof.
  unfold mark_session_disconnected, parse_connection_id. by destruct (uuid_parse connection_id).
Qed.

Lemma record_disconnected_runs sv :
  exists sv', record_disconnected services sv = (sv', Ok tt) /\
    metrics_of sv' = metrics_of sv /\ sv_session sv' = sv_session sv.
Proof.
  unfold record_disconnected, get_session. erewrite bind_Ok by reflexivity.
  destruct (session_record_created _ && _); [|by exists sv].
  pose proof (mark_not_panic (connection_id (sv_session sv)) (e_world (sv_engine sv))) as Hp.
  unfold ignore, on_db, on_engine, on_repo, zoom.
  destruct (mark_session_disconnected _ _) as [w' [?|?|]]; eauto. done.
Qed.

(** The session leaves the gauge when its connection ends. *)
Lemma close_session_gauges sv :
  metrics_of (fst (close_session services sv)) =
    (if auth_counted (sv_session sv) then dec_authenticated_sessions (metrics_of sv)
     else metrics_of sv).
Proof.
  unfold close_session. destruct (record_disconnected_runs sv) as (sv' & E & Hm & Hs).
  rewrite (bind_Ok _ _ _ _ _ E). unfold get_session. erewrite bind_Ok by reflexivity.
  rewrite Hs. destruct (auth_counted (sv_session sv)); [|done]. simpl. by rewrite <- Hm.
Qed.

(** What a connection adds to the gauges: while it runs one connection, and one
    session from its login on; a panic takes only the connection away. *)
Definition present (phase : Phase) : Z := match phase with Finished _ => 0 | _ => 1 end.
Definition logged_in (phase : Phase) (s : ImapSession) : Z :=
  match phase with
  | Finished (Ok _) | Finished (Err _) => 0
  | _ => if auth_counted s then 1 else 0
  end.

Lemma dec_active_gauges m :
  as_i64 (active_connections (dec_active_connections m) - 0) = as_i64 (active_connections m - 1).
Proof. simpl. unfold add_i64. rewrite Z.sub_0_r, as_i64_idem. f_equal. Qed.

(** The session closed and the guard dropped. *)
Lemma end_gauges sv :
  let m := metrics_of (fst (drop_guard (fst (close_session services sv)))) in
  as_i64 (active_connections m - 0) = as_i64 (active_connections (metrics_of sv) - 1) /\
  as_i64 (authenticated_sessions m - 0) =
    as_i64 (authenticated_sessions (metrics_of sv) - logged_in Running (sv_session sv)).
Proof.
  intros m. assert (m = dec_active_connections (metrics_of (fst (close_session services sv)))) as -> by done.
  rewrite dec_active_gauges, close_session_gauges. simpl.
  destruct (auth_counted (sv_session sv)); [|done]. simpl. split; [done|].
  unfold add_i64. by rewrite Z.sub_0_r, as_i64_idem.
Qed.

Lemma turn_gauges (m : Imap Turn) sv phase sv' :
  sframe gauges m -> preserves conn_ok m -> conn_ok sv -> turn services m sv = (phase, sv') ->
  as_i64 (active_connections (metrics_of sv') - present phase) =
    as_i64 (active_connections (metrics_of sv) - 1) /\
  as_i64 (authenticated_sessions (metrics_of sv') - logged_in phase (sv_session sv')) =
    as_i64 (authenticated_sessions (metrics_of sv) - logged_in Running (sv_session sv)).
Proof.
  intros Hf Hc Hok Ht. specialize (Hf sv). specialize (Hc sv Hok). unfold turn in Ht.
  destruct (m sv) as [sv1 r]. simpl in Hc. unfold gauges in Hf. simpl in Hf.
  rewrite (ok_gauge _ Hok), (ok_gauge _ Hc) in Hf. injection Hf as Ha Hs.
  change (e_metrics (sv_engine ?x)) with (metrics_of x) in *.
  destruct (end_gauges sv1) as [Ea Es]. rewrite Ha in Ea. simpl in Es.
  pose proof (dec_active_gauges (metrics_of sv1)) as Ed. rewrite Ha in Ed.
  destruct r as [[]|err|]; injection Ht as <- <-; cbn [present logged_in];
    (split; [first [by rewrite Ha | exact Ea | exact Ed]|]);
    first [exact Hs | (etransitivity; [exact Es|exact Hs])].
Qed.
End Gauges.
