(* ===== verification/Deployment.v ===== *)
(** * The running server

    What [run] of src/lib.rs has started, as one state: the services every task
    shares and the connections that were accepted.  The accept loops of
    crates/imap-server/src/imap.rs and http.rs, the turns of the connections, the
    worker and the commands of other processes are steps; a run is a sequence of
    them in any order.  A step is one turn of a task: the repository's own steps
    within it, which are transactions, are treated one by one in [Integrity]. *)

From stdpp Require Import base strings list gmap.
From Stdlib Require Import ZArith Lia.
From S2P Require Import Prelude RustStr Metrics Domain Protocol SearchQuery Storage Notifications Schema RepoCore Security RepoAccounts RepoMailboxes RepoMessages RepoQueue Coordination Auth Mime Search Engine SearchEval Threads ImapText Ingest Mutations SyncEngine ImapSession ImapFetch ImapCommands ImapServer Upstream Config Services Http Admin Main.

Local Open Scope Z_scope.

(** A connection: whether it can start TLS, its session, the bytes it sends and
    those written to it. *)
Record Client : Type := mkClient {
  client_phase : Phase;
  client_acceptor : bool;
  client_session : ImapSession;
  client_input : bytes;
  client_wire : bytes
}.

Record Deployment {O U X L T : Type} : Type := mkDeployment {
  dp_engine : Engine O U X L;
  dp_auth : T;
  dp_clients : list Client
}.
Arguments Deployment : clear implicits.
Arguments mkDeployment {O U X L T}.

(** What the machine of another process has of its own: the random values it
    draws, how long its sync pass takes, whether its lock comes in time, its
    search index and its standard input; and a lock manager unless it shares the
    one of the server. *)
Record OtherProcess {X L : Type} : Type := mkOtherProcess {
  op_salt : str;
  op_nonce1 : bytes;
  op_nonce2 : bytes;
  op_elapsed : Z;
  op_lock_times_out : bool;
  op_search : X;
  op_lock : option L;
  op_stdin : bytes;
  op_cli : Cli.t
}.
Arguments OtherProcess : clear implicits.

Inductive Happening {X L : Type} : Type :=
| AcceptPlaintext (uuid peer : str) (input : bytes)
| AcceptTls (uuid peer : str) (stream : bytes)
| ClientTurn (client : nat) (elapsed : Z)
| ClientWake (client : nat) (wake : Wake) (elapsed : Z)
| HttpRequest (read : bytes + str)
| WorkerTick
| ProcessRuns (process : OtherProcess X L)
| ClockMoves (now : Z).
Arguments Happening : clear implicits.

Section Deployment.
Context {O U P X L T : Type} `{ObjectStore O} `{UpstreamClient U} `{UpstreamConnector U} `{Peer P}.
Context `{SearchBackend X} `{SyncLockManager L} `{Authenticator T}.
Context `{System} `{Platform} `{Sha256} `{MimeParser} `{PgText} `{UuidText} `{Crypto} `{Texts}.
Context `{ChronoRange} `{MailHeaders} `{Base64} `{Base64Encode} `{DebugTime} `{Tracing}.
Context `{Floats} `{ImapServer.TlsAcceptor}.
Variable services : ImapSession.AppServices.
Variable secrets : SecretBox.
(** [starttls_acceptor.is_some()]. *)
Variable has_acceptor : bool.
Abbreviation Server := (Server O U X L T).
Abbreviation Deployment := (Deployment O U X L T).

Definition as_server (c : Client) (s : Deployment) : Server :=
  mkServer (client_session c) (dp_engine s) (dp_auth s) (client_input c) (client_wire c).
Definition as_client (acceptor : bool) (phase : Phase) (sv : Server) : Client :=
  mkClient phase acceptor (sv_session sv) (sv_input sv) (sv_wire sv).

(** [handle_connection] up to its loop, as a task of its own. *)
Definition spawn (acceptor tls : bool) (uuid peer : str) (input : bytes) (s : Deployment)
  : Deployment :=
  let sv := open_connection acceptor uuid (Some peer) tls (dp_engine s) (dp_auth s) input in
  mkDeployment (sv_engine sv) (sv_auth sv) (dp_clients s ++ [as_client acceptor Running sv]).

(** One turn of the loops of [serve_plaintext] and [serve_tls]. *)
Definition serve_plaintext (uuid peer : str) (input : bytes) : Deployment -> Deployment :=
  spawn has_acceptor false uuid peer input.
Definition serve_tls (uuid peer : str) (stream : bytes) (s : Deployment) : Deployment :=
  match tls_accept stream with
  | inl input => spawn false true uuid peer input s
  | inr _ => s
  end.

(** The task of a connection goes on. *)
Definition resume (i : nat) (m : Client -> M Error Server Turn) (s : Deployment) : Deployment :=
  match dp_clients s !! i with
  | Some c =>
      let '(phase, sv) := turn services (m c) (as_server c s) in
      mkDeployment (sv_engine sv) (sv_auth sv)
        (<[i := as_client (client_acceptor c) phase sv]> (dp_clients s))
  | None => s
  end.

Definition client_turn (i : nat) (elapsed : Z) (s : Deployment) : Deployment :=
  match client_phase <$> dp_clients s !! i with
  | Some Running =>
      resume i (fun c => serve_command services secrets (client_acceptor c) elapsed) s
  | _ => s
  end.
Definition client_wake (i : nat) (wake : Wake) (elapsed : Z) (s : Deployment) : Deployment :=
  match client_phase <$> dp_clients s !! i with
  | Some (Idling tag) => resume i (fun _ => idle_turn services elapsed tag wake) s
  | _ => s
  end.

Definition with_engine (e : Engine O U X L) (s : Deployment) : Deployment :=
  mkDeployment e (dp_auth s) (dp_clients s).

(** One turn of the loop of [http::serve]. *)
Definition http_serve (read : bytes + str) (s : Deployment) : Deployment :=
  with_engine (fst (on_repo (http_handle_connection (e_metrics (dp_engine s))
                               (has_repository services) read) (dp_engine s))) s.

(** A round of the worker, where [run] has started it; its error is logged and its
    connections are its own. *)
Definition worker_tick (s : Deployment) : Deployment :=
  if has_repository services && has_mutation_engine services then
  let e := dp_engine s in
  let e' := fst (flush_pending_mutations_once (P := P) secrets
    (mkEngine (e_world e) (e_store e) tt (e_search e) (e_lock e) (e_metrics e))) in
  with_engine (mkEngine (e_world e') (e_store e') (e_upstream e) (e_search e') (e_lock e')
                 (e_metrics e')) s
  else s.

(** A process started beside the server: it shares the database, the blobs and
    possibly the locks. *)
Definition process_runs (op : OtherProcess X L) (s : Deployment) : Deployment :=
  let e := dp_engine s in
  let w := e_world e in
  let start := mkProcess (mkWorld (w_db w) (w_seq w) (w_now w) false []) (e_store e) (op_search op)
    (default (e_lock e) (op_lock op)) (op_stdin op) in
  let '(p, _) := main (P := P) (op_salt op) (op_nonce1 op) (op_nonce2 op) (op_elapsed op)
                   (op_lock_times_out op) (op_cli op) start in
  with_engine (mkEngine
    (mkWorld (w_db (p_world p)) (w_seq (p_world p)) (w_now w) (w_sink w) (w_events w))
    (p_store p) (e_upstream e) (e_search e)
    (match op_lock op with Some _ => e_lock e | None => p_lock p end) (e_metrics e)) s.

Definition clock_moves (now : Z) (s : Deployment) : Deployment :=
  let e := dp_engine s in
  let w := e_world e in
  with_engine (mkEngine (mkWorld (w_db w) (w_seq w) (Z.max now (w_now w)) (w_sink w) (w_events w))
    (e_store e) (e_upstream e) (e_search e) (e_lock e) (e_metrics e)) s.

Definition happen (h : Happening X L) : Deployment -> Deployment :=
  match h with
  | AcceptPlaintext uuid peer input => serve_plaintext uuid peer input
  | AcceptTls uuid peer stream => serve_tls uuid peer stream
  | ClientTurn i elapsed => client_turn i elapsed
  | ClientWake i wake elapsed => client_wake i wake elapsed
  | HttpRequest read => http_serve read
  | WorkerTick => worker_tick
  | ProcessRuns op => process_runs op
  | ClockMoves now => clock_moves now
  end.

Definition history (hs : list (Happening X L)) (s : Deployment) : Deployment :=
  fold_left (fun s h => happen h s) hs s.
End Deployment.
