(* ===== verification/DeploymentSpecs.v ===== *)
(** * The running server keeps its promises

    Over every history of a deployment, in any order of its steps: the database
    stays sound, the sessions of the connections stay well formed, and the two
    gauges count the connections and the sessions that are logged in. *)

From stdpp Require Import base strings list gmap.
From Stdlib Require Import ZArith Lia.
From S2P Require Import Prelude RustStr Metrics Domain Protocol SearchQuery Storage Notifications Schema RepoCore Security RepoAccounts RepoMailboxes RepoMessages RepoQueue Invariant Integrity Coordination Auth Mime Search Scenario Engine SearchEval Threads ImapText Ingest Mutations QueueSpecs SyncEngine ImapSession ImapFetch ImapCommands ImapServer ImapScenario ImapFrames ImapSessionSpecs ImapSoundness ImapGauges Upstream UpstreamSpecs Config Services Http Admin Main AdminSoundness Deployment.

Local Open Scope Z_scope.

(** ** Sums over the connections *)
Definition total (f : Client -> Z) (cs : list Client) : Z := foldr (fun c n => f c + n) 0 cs.

Lemma total_app f cs cs' : total f (cs ++ cs') = total f cs + total f cs'.
Proof. induction cs as [|c cs IH]; simpl; [done|]. rewrite IH. lia. Qed.

Lemma total_insert f cs i c c' :
  cs !! i = Some c -> total f (<[i := c']> cs) = total f cs - f c + f c'.
Proof.
  revert i. induction cs as [|d cs IH]; intros [|i] Hi; simpl; try done.
  - injection Hi as ->. lia.
  - rewrite IH by done. lia.
Qed.

(** ** The worker does not move the gauges *)
Section Worker.
Context {O P X L : Type} `{ObjectStore O} `{Peer P}.
Context `{Sha256} `{Texts} `{PgText} `{Crypto} `{Chrono} `{Base64Encode}.

#[local] Hint Resolve eg_on_repo eg_on_store eg_on_upstream eg_on_search eg_utc_now eg_bytes_written
  eg_bytes_read : imap.

Lemma eg_apply_mutation {U} `{UpstreamClient U} mutation :
  sframe engine_gauges (apply_mutation (O := O) (U := U) (X := X) (L := L) mutation).
Proof.
  unfold apply_mutation, match_str.
  repeat (destruct (str_eqb _ _); [|]); [| | | |apply sframe_fail];
    unfold apply_append, apply_flag_update, apply_copy_message, apply_move_message, copy_upstream;
    frame_steps.
Qed.
#[local] Hint Resolve eg_apply_mutation : imap.

Lemma eg_flush {U} `{UpstreamClient U} account_id :
  sframe engine_gauges (flush_pending_mutations (O := O) (U := U) (X := X) (L := L) account_id).
Proof. unfold flush_pending_mutations, flush_one. frame_steps. Qed.
#[local] Hint Resolve eg_flush : imap.

Lemma eg_with_connection {A} client (m : M Error (Engine O (UpstreamConn P) X L) A) :
  sframe engine_gauges m -> sframe engine_gauges (with_connection client m).
Proof.
  intros Hm e. unfold with_connection.
  specialize (Hm (mkEngine (e_world e) (e_store e) (with_metrics (e_metrics e) client) (e_search e)
                    (e_lock e) (e_metrics e))).
  destruct (m _) as [e' r]. unfold engine_gauges in *. simpl in *.
  unfold merge_metrics. case_match; simpl; congruence.
Qed.

Lemma worker_gauges secrets :
  sframe engine_gauges (flush_pending_mutations_once (O := O) (P := P) (X := X) (L := L) secrets).
Proof.
  unfold flush_pending_mutations_once, flush_account. frame_steps.
  apply eg_with_connection. frame_steps.
Qed.
End Worker.

Section Deployment.
Context {O U P X L T : Type} `{ObjectStore O} `{UpstreamClient U} `{UpstreamConnector U} `{Peer P}.
Context `{SearchBackend X} `{SyncLockManager L} `{AuthenticatorLaws T}.
Context `{System} `{Platform} `{Sha256} `{MimeParser} `{PgText} `{UuidText} `{Crypto} `{Texts}.
Context `{ChronoRange} `{MailHeaders} `{Base64} `{Base64Encode} `{DebugTime} `{Tracing}.
Context `{Floats} `{ImapServer.TlsAcceptor}.
Variable services : ImapSession.AppServices.
Variable secrets : SecretBox.
Variable has_acceptor : bool.
Abbreviation Deployment := (Deployment O U X L T).

Definition dp_metrics (s : Deployment) : AppMetrics := e_metrics (dp_engine s).
Definition client_ok (c : Client) : Prop :=
  match client_phase c with ImapServer.Finished _ => True | _ => session_ok (client_session c) end.

(** The connections that are open, and the sessions in the gauge: those logged in
    and those a panic took away with its connection. *)
Definition open_connections (s : Deployment) : Z :=
  total (fun c => present (client_phase c)) (dp_clients s).
Definition counted_sessions (s : Deployment) : Z :=
  total (fun c => logged_in (client_phase c) (client_session c)) (dp_clients s).

Record deployment_ok (s : Deployment) : Prop := mkDeploymentOk {
  dp_database : db_ok (w_db (e_world (dp_engine s))) (w_seq (e_world (dp_engine s)));
  dp_sessions : List.Forall client_ok (dp_clients s);
  dp_active : as_i64 (active_connections (dp_metrics s)) = as_i64 (open_connections s);
  dp_authenticated : as_i64 (authenticated_sessions (dp_metrics s)) = as_i64 (counted_sessions s)
}.

(** Moving a gauge and a sum by the same amount. *)
Lemma as_i64_step g g' a b n :
  as_i64 g = as_i64 n -> as_i64 (g' - b) = as_i64 (g - a) -> as_i64 g' = as_i64 (n - a + b).
Proof.
  intros Hg Hs. destruct (as_i64_eq g) as [k Hk], (as_i64_eq n) as [j Hj].
  destruct (as_i64_eq (g' - b)) as [k' Hk'], (as_i64_eq (g - a)) as [j' Hj'].
  rewrite <- (as_i64_shift (n - a + b) (j - k + j' - k')). f_equal. lia.
Qed.

(** A step that keeps the connections and the gauges. *)
Lemma ok_with_engine e s :
  deployment_ok s -> db_ok (w_db (e_world e)) (w_seq (e_world e)) ->
  engine_gauges e = engine_gauges (dp_engine s) -> deployment_ok (with_engine e s).
Proof.
  intros [Hd Hs Ha Hg] Hdb [= Ea Eg]. unfold dp_metrics in *.
  split; unfold dp_metrics; simpl; rewrite ?Ea, ?Eg; done.
Qed.

Lemma ok_spawn acceptor tls uuid peer input s :
  deployment_ok s -> deployment_ok (spawn acceptor tls uuid peer input s).
Proof.
  intros [Hd Hs Ha Hg]. split; [done| | |].
  - simpl. apply Forall_app. split; [done|]. constructor; [|done]. by split.
  - unfold dp_metrics, open_connections, spawn in *. simpl. rewrite total_app. simpl.
    unfold add_i64. rewrite as_i64_idem.
    rewrite (as_i64_step _ (active_connections (e_metrics (dp_engine s)) + 1) 0 1 _ Ha);
      f_equal; lia.
  - unfold dp_metrics, counted_sessions, spawn in *. simpl. rewrite total_app. simpl.
    rewrite Hg. f_equal. lia.
Qed.

(** A turn of one connection. *)
Lemma ok_resume i c (m : Client -> M Error (Server O U X L T) Turn) s :
  deployment_ok s -> dp_clients s !! i = Some c -> present (client_phase c) = 1 ->
  preserves server_ok (m c) -> preserves conn_ok (m c) -> sframe gauges (m c) ->
  deployment_ok (resume services i m s).
Proof.
  intros [Hd Hs Ha Hg] Hi Hph Hsound Hok Hframe. unfold resume. rewrite Hi.
  assert (conn_ok (as_server c s)) as Hc.
  { pose proof (proj1 (List.Forall_forall _ _) Hs c) as Hcl.
    unfold client_ok in Hcl. destruct (client_phase c); [| |done];
      apply Hcl, list_elem_of_In; by eapply list_elem_of_lookup_2. }
  assert (logged_in (client_phase c) (client_session c) = logged_in Running (client_session c)) as Hlog.
  { by destruct (client_phase c). }
  pose proof (turn_sound services (m c) (as_server c s) Hsound Hd) as Hdb.
  pose proof (turn_ok services (m c) (as_server c s) Hok Hc) as Hph'.
  destruct (turn services (m c) (as_server c s)) as [phase sv] eqn:Et.
  destruct (turn_gauges services (m c) (as_server c s) phase sv Hframe Hok Hc Et) as [Ga Gs].
  split; [done| | |].
  - simpl. apply Forall_insert; [done|]. unfold client_ok. simpl. by destruct phase.
  - unfold dp_metrics, open_connections in *. simpl. rewrite (total_insert _ _ _ _ _ Hi), Hph. simpl.
    by apply (as_i64_step _ _ _ _ _ Ha).
  - unfold dp_metrics, counted_sessions in *. simpl. rewrite (total_insert _ _ _ _ _ Hi), Hlog. simpl.
    by apply (as_i64_step _ _ _ _ _ Hg).
Qed.

Lemma ok_client_turn i elapsed s :
  deployment_ok s -> deployment_ok (client_turn services secrets i elapsed s).
Proof.
  intros Hok. unfold client_turn. destruct (dp_clients s !! i) as [c|] eqn:Hi; simpl; [|done].
  destruct (client_phase c) eqn:Hp; [|done..]. eapply ok_resume; [done|done|by rewrite Hp| | |].
  - apply serve_command_sound.
  - apply serve_command_ok.
  - apply serve_command_gauges.
Qed.
Lemma ok_client_wake i wake elapsed s :
  deployment_ok s -> deployment_ok (client_wake services i wake elapsed s).
Proof.
  intros Hok. unfold client_wake. destruct (dp_clients s !! i) as [c|] eqn:Hi; simpl; [|done].
  destruct (client_phase c) eqn:Hp; [done| |done]. eapply ok_resume; [done|done|by rewrite Hp| | |].
  - apply idle_turn_sound.
  - apply idle_turn_ok.
  - apply idle_turn_gauges.
Qed.
Lemma ok_http read s : deployment_ok s -> deployment_ok (http_serve services read s).
Proof.
  intros Hok. apply ok_with_engine; [done| |apply eg_on_repo].
  apply (preserves_on_repo (http_handle_connection _ _ read)); [|apply Hok].
  unfold http_handle_connection, http_route, render, count_pending_mutations. safe_steps.
Qed.
Lemma ok_worker s : deployment_ok s -> deployment_ok (worker_tick (P := P) services secrets s).
Proof.
  intros Hok. unfold worker_tick. destruct (_ && _); [|done]. set (e := dp_engine s).
  set (e0 := mkEngine (e_world e) (e_store e) tt (e_search e) (e_lock e) (e_metrics e)).
  apply ok_with_engine; [done| |].
  - exact (worker_safe (P := P) secrets e0 (dp_database _ Hok)).
  - exact (worker_gauges (P := P) secrets e0).
Qed.
Lemma ok_process op s : deployment_ok s -> deployment_ok (process_runs (P := P) op s).
Proof.
  intros Hok. unfold process_runs. cbv zeta.
  match goal with |- context [main ?a ?b ?c ?d ?e ?f ?x] =>
    pose proof (run_cli_process (P := P) a b c d e (Cli.config_path f) (to_admin <$> Cli.command f) x
                  (dp_database _ Hok)) as Hp;
    rewrite <- main_is_run_cli in Hp; destruct (main a b c d e f x) as [p r] end.
  by apply ok_with_engine.
Qed.
Lemma ok_clock now s : deployment_ok s -> deployment_ok (clock_moves now s).
Proof. intros Hok. apply ok_with_engine; [done|apply Hok|done]. Qed.

Lemma ok_happen h s :
  deployment_ok s -> deployment_ok (happen (P := P) services secrets has_acceptor h s).
Proof.
  intros Hok. destruct h; simpl; auto using ok_spawn, ok_client_turn, ok_client_wake, ok_http,
    ok_worker, ok_process, ok_clock.
  - by apply ok_spawn.
  - unfold serve_tls. destruct (tls_accept stream); [by apply ok_spawn|done].
Qed.

Lemma ok_history hs : forall s,
  deployment_ok s -> deployment_ok (history (P := P) services secrets has_acceptor hs s).
Proof. induction hs as [|h hs IH]; intros s Hok; [done|]. apply IH, ok_happen, Hok. Qed.

(** The server just started. *)
Definition fresh (s : Deployment) : Prop :=
  dp_clients s = [] /\ active_connections (dp_metrics s) = 0 /\
  authenticated_sessions (dp_metrics s) = 0.

Lemma fresh_ok s :
  fresh s -> db_ok (w_db (e_world (dp_engine s))) (w_seq (e_world (dp_engine s))) -> deployment_ok s.
Proof.
  intros (Hc & Ha & Hs) Hd. split; [done| | |]; unfold open_connections, counted_sessions;
    rewrite ?Hc, ?Ha, ?Hs; done.
Qed.

(** C4 Whatever happens to a running server, in whatever order (connections
    accepted and served, requests for its metrics, rounds of the worker, commands
    of other processes on the same database), the database stays sound and every
    open connection has a well-formed session. *)
Theorem deployment_stays_sound (hs : list (Happening X L)) (s : Deployment) :
  fresh s -> db_ok (w_db (e_world (dp_engine s))) (w_seq (e_world (dp_engine s))) ->
  let s' := history (P := P) services secrets has_acceptor hs s in
  db_ok (w_db (e_world (dp_engine s'))) (w_seq (e_world (dp_engine s'))) /\
  (forall i c, dp_clients s' !! i = Some c -> present (client_phase c) = 1 ->
     session_ok (client_session c)).
Proof.
  intros Hf Hd s'. destruct (ok_history hs s (fresh_ok s Hf Hd)) as [Hd' Hs _ _].
  split; [done|]. intros i c Hi Hp.
  pose proof (proj1 (List.Forall_forall _ _) Hs c) as Hc. unfold client_ok in Hc.
  destruct (client_phase c); [| |done]; apply Hc, list_elem_of_In; by eapply list_elem_of_lookup_2.
Qed.

(** C22 Modulo the width of the counters, the gauge of active connections shows
    the number of open connections and the gauge of authenticated sessions the
    number of connections that are logged in, plus those whose task panicked while
    it was logged in, which are never taken off. *)
Theorem gauges_count_connections (hs : list (Happening X L)) (s : Deployment) :
  fresh s -> db_ok (w_db (e_world (dp_engine s))) (w_seq (e_world (dp_engine s))) ->
  let s' := history (P := P) services secrets has_acceptor hs s in
  as_i64 (active_connections (dp_metrics s')) = as_i64 (open_connections s') /\
  as_i64 (authenticated_sessions (dp_metrics s')) = as_i64 (counted_sessions s').
Proof. intros Hf Hd s'. by destruct (ok_history hs s (fresh_ok s Hf Hd)). Qed.
End Deployment.

(** ** A history, for witnesses *)
Module DeploymentWitness.

#[local] Existing Instances ConfigScenario.system ServicesWitness.platform.
#[local] Instance debug : DebugTime := { debug_time := fmt_i }.
#[local] Instance encode : Base64Encode := { base64_encode := fun b => b }.
#[local] Instance tracing : Tracing := { set_global_default := fun _ => inl tt }.
#[local] Instance floats : Floats := { fmt_quotient := fun a _ => fmt_i a }.

Definition start : Deployment MemoryObjectStore unit unit unit MemoryLoginThrottle :=
mkDeployment engine (with_limits 5 900 0) [].

(** Two clients log in; the task of the second panics on a STATUS without
    arguments. *)
Definition two_logins : list (Happening unit unit) :=
[AcceptPlaintext (lit "conn-1") (lit "10.0.0.1:1024") (crlf_lines [ImapScenario.login]);
 AcceptPlaintext (lit "conn-2") (lit "10.0.0.2:1024")
   (crlf_lines [ImapScenario.login; "a2 STATUS"%string]);
 ClientTurn 0 0; ClientTurn 1 0; ClientTurn 1 0].

Definition later := history (P := Script) services secrets false two_logins start.

Example panicked_login_stays_counted :
open_connections later = 1 /\ active_connections (dp_metrics later) = 1 /\
authenticated_sessions (dp_metrics later) = 2.
Proof. vm_compute. done. Qed.

Lemma gauges_count_connections_witness :
as_i64 (active_connections (dp_metrics later)) = as_i64 (open_connections later) /\
as_i64 (authenticated_sessions (dp_metrics later)) = as_i64 (counted_sessions later).
Proof.
apply (gauges_count_connections (P := Script) services secrets false two_logins start).
- done.
- exact world_ok.
Defined.

Lemma deployment_stays_sound_witness :
db_ok (w_db (e_world (dp_engine later))) (w_seq (e_world (dp_engine later))).
Proof.
apply (deployment_stays_sound (P := Script) services secrets false two_logins start).
- done.
- exact world_ok.
Defined.
End DeploymentWitness.
