(* ===== verification/Serving.v ===== *)
(** * What a sync pass serves

    A successful pass over a mailbox (crates/sync/src/lib.rs) makes the mailbox
    serve every message the upstream server listed above the resume point: its
    row is there, the message row it points to has the content address of the
    server's message, and the object store holds bytes of that digest.  The
    invariant is kept through ingestion, the loop over the UIDs and the
    reconciliation. *)

From stdpp Require Import base strings list gmap.
From Stdlib Require Import ZArith Lia Permutation Sorting.Sorted.
From S2P Require Import Prelude RustStr Metrics Domain Protocol Storage Notifications Schema RepoCore Security RepoAccounts RepoMailboxes RepoMessages RepoQueue Invariant Integrity Scenario MessageSpecs Coordination Mime Search Engine Ingest Mutations QueueSpecs SyncEngine SyncSpecs Convergence.

Local Open Scope Z_scope.

(** ** The server's promise

    What a pass relies on of the upstream server: once a mailbox is open the
    commands of the pass leave it open, and the message a UID stands for does not
    change (RFC 3501, 2.3.1.1: a UID is never used for another message, and a
    message is immutable). *)
Class UpstreamMail (U : Type) `{UpstreamClient U} : Type := {
  mail : str -> Z -> bytes;
  mailbox_open : str -> U -> Prop;
  law_select : forall name u u' sel,
    upstream_select_mailbox name u = (u', Ok sel) -> mailbox_open name u';
  law_search_all : forall name, preserves (mailbox_open name) uid_search_all;
  law_fetch_flags : forall name uid, preserves (mailbox_open name) (uid_fetch_flags uid);
  law_fetch_rfc822 : forall name uid, preserves (mailbox_open name) (uid_fetch_rfc822 uid);
  law_mail : forall name uid u u' raw,
    mailbox_open name u -> uid_fetch_rfc822 uid u = (u', Ok raw) -> raw = mail name uid
}.

(** ** Rows *)

(** The message row [id] points to the blob [key]. *)
Definition has_blob (key : str) (msgs : list MessageRow) (id : Z) : Prop :=
  exists m, In m msgs /\ MessageRow_id m = id /\ MessageRow_rfc822_blob_key m = key.

(** The two tables a row and its blob key are read from. *)
Definition Mail : Type := list MailboxMessageRow * list MessageRow.
Definition mail_tables (db : Database) : Mail := (mailbox_messages db, messages db).

(** The mailbox has the upstream message [u], and its message row points to
    [key]. *)
Definition points_to (mb u : Z) (key : str) (t : Mail) : Prop :=
  holds_message (has_blob key (snd t)) mb u (fst t).

(** The mailbox lists, under the UID [u], a message whose row points to [key]. *)
Definition lists (mb u : Z) (key : str) (t : Mail) : Prop :=
  exists r, In r (fst t) /\ live_in mb r = true /\ MailboxMessageRow_local_uid r = u /\
            has_blob key (snd t) (MailboxMessageRow_message_id r).

Lemma points_to_lists mb u key t : points_to mb u key t -> lists mb u key t.
Proof. intros (r & Hr & Hl & Hu & _ & Hb). by exists r. Qed.

Lemma holds_message_mono (P Q : Z -> Prop) mb u rows :
  (forall id, P id -> Q id) -> holds_message P mb u rows -> holds_message Q mb u rows.
Proof. intros HPQ (r & ? & ? & ? & ? & ?). exists r. split_and!; auto. Qed.

(** The new message row points to its blob; the others are still there. *)
Lemma upsert_message_run input w w' r :
  upsert_message input w = (w', r) ->
  mailbox_messages (w_db w') = mailbox_messages (w_db w) /\
  (forall m, In m (messages (w_db w)) -> In m (messages (w_db w'))) /\
  (forall m, r = Ok m ->
     has_blob (NewMessage_rfc822_blob_key input) (messages (w_db w')) (Message_id m)).
Proof.
  intros E. pose proof (keeps_run _ _ _ _ _ (keeps_upsert_message input) E) as Hk.
  split; [exact Hk|]. clear Hk. unfold upsert_message in E.
  erewrite bind_Ok in E by reflexivity. erewrite bind_Ok in E by reflexivity. cbv zeta in E.
  erewrite bind_Ok in E by reflexivity. unfold require at 1 in E.
  destruct (has_account _ _); [|injection E as <- <-; done].
  erewrite bind_Ok in E by reflexivity. erewrite bind_Ok in E by reflexivity.
  erewrite bind_Ok in E by apply publish_event_spec. injection E as <- <-. simpl. split.
  - intros m Hm. apply in_app_iff. by left.
  - intros m [= <-]. eexists. split; [apply in_app_iff; right; by left|done].
Qed.

Lemma upsert_message_points_to mb u key input w w' r :
  upsert_message input w = (w', r) ->
  points_to mb u key (mail_tables (w_db w)) -> points_to mb u key (mail_tables (w_db w')).
Proof.
  intros (Hrows & Hin & _)%upsert_message_run Hw. unfold points_to. simpl. rewrite Hrows.
  eapply holds_message_mono; [|exact Hw]. intros id (m & Hm & ?). exists m. split; [by apply Hin|done].
Qed.

Lemma keeps_messages_assign_modseq mb requested :
  keeps messages (assign_mailbox_modseq mb requested).
Proof. unfold assign_mailbox_modseq. keep_steps. Qed.

Lemma keeps_messages_upsert_row uid modseq input :
  keeps messages (upsert_mailbox_message_row uid modseq input).
Proof.
  intros w. unfold upsert_mailbox_message_row.
  do 3 (erewrite bind_Ok by reflexivity). cbv zeta. cbn [w_db].
  destruct (select _ _); cbv beta iota; (erewrite bind_Ok by reflexivity); unfold require;
    (destruct (unique_by _ _); [|done]); (erewrite bind_Ok by reflexivity);
    (destruct (has_mailbox _ _); [|done]); (erewrite bind_Ok by reflexivity);
    (destruct (has_message _ _); [|done]); done.
Qed.

Lemma keeps_messages_uid_mapping mb uid up uv :
  keeps messages (upsert_uid_mapping mb uid up uv).
Proof. by apply keeps_upsert_uid_mapping. Qed.

#[export] Hint Resolve keeps_messages_assign_modseq keeps_messages_upsert_row
  keeps_messages_uid_mapping : repo.

Lemma keeps_messages_upsert input : keeps messages (upsert_mailbox_message input).
Proof.
  unfold upsert_mailbox_message, upsert_tx, mailbox_sequence_number_in_tx,
    assign_mailbox_local_uid.
  keep_steps.
Qed.

Lemma keeps_messages_flags mb uid flags :
  keeps messages (update_mailbox_message_flags mb uid flags).
Proof.
  unfold update_mailbox_message_flags, flags_tx, mailbox_sequence_number_in_tx,
    account_id_for_mailbox.
  keep_steps.
Qed.

(** The repository calls of an ingestion that write other tables. *)
Lemma mail_cache_object input : keeps mail_tables (upsert_cache_object input).
Proof. unfold upsert_cache_object. keep_steps. Qed.
Lemma mail_delete_parts id : keeps mail_tables (delete_mime_parts_for_message id).
Proof. unfold delete_mime_parts_for_message. keep_steps. Qed.
Lemma mail_insert_part input : keeps mail_tables (insert_mime_part input).
Proof. unfold insert_mime_part. keep_steps. Qed.
Lemma mail_adjust_quota a n : keeps mail_tables (adjust_account_quota_usage a n).
Proof. unfold adjust_account_quota_usage. keep_steps. Qed.
Lemma mail_refresh mb : keeps mail_tables (refresh_mailbox_counts mb).
Proof. unfold refresh_mailbox_counts, account_id_for_mailbox. keep_steps. Qed.
Lemma mail_enqueue input : keeps mail_tables (enqueue_mutation input).
Proof.
  intros w. unfold enqueue_mutation. do 2 (erewrite bind_Ok by reflexivity). cbv zeta.
  erewrite bind_Ok by reflexivity. unfold require.
  repeat (match goal with |- context [if ?b then _ else _] => destruct b end;
          [erewrite bind_Ok by reflexivity|done]).
  erewrite bind_Ok by reflexivity. erewrite bind_Ok by apply publish_event_spec. done.
Qed.
#[export] Hint Resolve mail_cache_object mail_delete_parts mail_insert_part mail_adjust_quota
  mail_refresh mail_enqueue : repo.

(** ** Steps with a result *)
Section Steps.
Context {S A B : Type}.

(** What holds with the result of a step is kept by the rest. *)
Lemma preserves_bind_post (I : S -> Prop) (J : A -> S -> Prop) (m : M Error S A)
  (k : A -> M Error S B) :
  preserves I m -> (forall s s' a, I s -> m s = (s', Ok a) -> J a s') ->
  (forall a, preserves (J a) (k a)) -> (forall a s, J a s -> I s) -> preserves I (bind m k).
Proof.
  intros Hm Hpost Hk HJ s Hs. specialize (Hm s Hs). unfold bind.
  destruct (m s) as [s' [a|err|]] eqn:E; [|done..]. eapply HJ, Hk, Hpost; done.
Qed.

(** The result satisfies [F]. *)
Lemma preserves_bind_fact (I : S -> Prop) (F : A -> Prop) (m : M Error S A)
  (k : A -> M Error S B) :
  preserves I m -> (forall s s' a, I s -> m s = (s', Ok a) -> F a) ->
  (forall a, F a -> preserves I (k a)) -> preserves I (bind m k).
Proof.
  intros Hm HF Hk. apply preserves_bind_post with (J := fun a s => I s /\ F a); [done| | |tauto].
  - intros s s' a Hs E. pose proof (Hm s Hs) as Hs'. rewrite E in Hs'.
    split; [done|]. exact (HF s s' a Hs E).
  - intros a s [Hs HFa]. split; [|done]. by apply Hk.
Qed.

Lemma run_keeps (I : S -> Prop) (m : M Error S A) s s' r :
  m s = (s', r) -> I s -> preserves I m -> I s'.
Proof. intros E Hs Hm. specialize (Hm s Hs). by rewrite E in Hm. Qed.
End Steps.

(** ** One message *)
Section Served.
Context {O U X L : Type} `{ObjectStore O} `{UpstreamClient U} `{SearchBackend X}.
Context `{Sha256, MimeParser, PgText} `{!ObjectStoreLaws O}.
Variable has_search : bool.
Implicit Types e : Engine O U X L.
Local Abbreviation mail_of e := (mail_tables (w_db (e_world e))).

(** The blob of [raw] is in the store, and the two tables satisfy [Q]. *)
Definition with_blob (Q : Mail -> Prop) (raw : bytes) (e : Engine O U X L) : Prop :=
  Q (mail_of e) /\ stored (content_addressed_key Rfc822 raw) raw e.

(** The mailbox serves [raw] as the upstream message [u]: it has the message, and
    the blob its row points to has the digest of [raw]. *)
Definition served (mb u : Z) (raw : bytes) : Engine O U X L -> Prop :=
  with_blob (points_to mb u (content_addressed_key Rfc822 raw)) raw.

(** What leaves the two tables alone and does not lose the blob. *)
Lemma ekeeps_with_blob {A} Q raw (m : M Error (Engine O U X L) A) :
  ekeeps mail_tables m -> preserves (stored (content_addressed_key Rfc822 raw) raw) m ->
  preserves (with_blob Q raw) m.
Proof. intros Hm Hs e [HQ Hst]. split; [by rewrite Hm|by apply Hs]. Qed.

Lemma repo_with_blob {A} Q raw (m : Repo A) :
  preserves (fun w => Q (mail_tables (w_db w))) m -> preserves (with_blob Q raw) (on_repo m).
Proof.
  intros Hm e [HQ Hst]. split; [|by apply repo_keeps_stored].
  specialize (Hm _ HQ). unfold on_repo, zoom. by destruct (m (e_world e)).
Qed.

Lemma mail_with_blob {A} Q raw (m : Repo A) :
  keeps mail_tables m -> preserves (with_blob Q raw) (on_repo m).
Proof. intros Hm. apply repo_with_blob. intros w Hw. by rewrite Hm. Qed.

Lemma put_with_blob Q raw k b : preserves (with_blob Q raw) (on_store (store_put k b)).
Proof. apply ekeeps_with_blob; [apply ekeeps_on_store|apply put_keeps_stored]. Qed.
Lemma metrics_with_blob Q raw f : preserves (with_blob Q raw) (on_metrics f).
Proof. apply ekeeps_with_blob; [done|apply metrics_keeps_stored]. Qed.
Lemma now_with_blob Q raw : preserves (with_blob Q raw) utc_now.
Proof. by intros e He. Qed.
Lemma search_with_blob {A} Q raw (m : M Error X A) : preserves (with_blob Q raw) (on_search m).
Proof. apply ekeeps_with_blob; [apply ekeeps_on_search|apply search_keeps_stored]. Qed.
Hint Resolve put_with_blob metrics_with_blob now_with_blob search_with_blob : repo.

Ltac blob_steps :=
  repeat first
    [ apply preserves_bind; [|intros ?]
    | apply mail_with_blob; solve [eauto with repo]
    | apply preserves_fold_each; intros
    | solve [eauto with repo]
    | match goal with |- preserves _ (if ?b then _ else _) => destruct b end ].

Lemma ingest_part_with_blob Q raw account_id message_id n part :
  preserves (with_blob Q raw)
    (ingest_part (U := U) (X := X) (L := L) account_id message_id n part).
Proof. unfold ingest_part, record_object_store_bytes_written. blob_steps. Qed.
Hint Resolve ingest_part_with_blob : repo.

Lemma check_quota_same account_id n e e' r :
  check_quota (O := O) (U := U) (X := X) (L := L) account_id n e = (e', r) -> e' = e.
Proof.
  unfold check_quota, get_account_quota. erewrite bind_Ok by apply on_repo_query.
  destruct (Quota_from <$> _) as [q|]; [|by intros [= <-]].
  unfold bind, lift. destruct (ok_or _ _); [|by intros [= <-]..].
  destruct (_ <? _); by intros [= <-].
Qed.

(** A put under the content address answers that key. *)
Lemma put_answers_key t raw e e' md :
  store_ok (e_store e) ->
  on_store (store_put (content_addressed_key t raw) raw) e = (e', Ok md) ->
  ObjectMetadata_key md = content_addressed_key t raw /\
  stored (content_addressed_key t raw) raw e'.
Proof.
  intros Hok E. apply on_store_inv in E as (E & _).
  destruct (law_put_ok (content_addressed_key t raw) raw (e_store e) Hok) as (s' & Hp & Hok' & Hc);
    [by exists t|].
  rewrite Hp in E. injection E as Hs' <-. split; [done|]. unfold stored. rewrite <- Hs'.
  split; [done|]. exists raw. by rewrite Hc, lookup_insert_eq.
Qed.

(** The message served before, and, when it is the one being stored again, the
    new message row with the blob. *)
Definition storing (again : Prop) (mb u : Z) (key : str) (id : Z) (t : Mail) : Prop :=
  points_to mb u key t /\ (again -> has_blob key (snd t) id).

Lemma upsert_keeps_storing again mb u key input w :
  synced_row input -> (NewMailboxMessage_local_uid input = u -> again) ->
  let Q := storing again mb u key (NewMailboxMessage_message_id input) in
  Q (mail_tables (w_db w)) -> Q (mail_tables (w_db (fst (upsert_mailbox_message input w)))).
Proof.
  intros Hin Hag Q [Hp Hb]. unfold Q, storing, points_to. simpl. rewrite keeps_messages_upsert.
  split; [|done]. refine (upsert_keeps_copy _ mb u input Hin _ w Hp). intros Hu. apply Hb, Hag, Hu.
Qed.

(** Ingesting a synced message keeps what is served; also when it is the same
    message again. *)
Lemma ingest_keeps_served mb u raw account_id mb' name uid date raw' flags :
  (uid = u -> raw' = raw) ->
  preserves (served mb u raw)
    (ingest_raw_message (U := U) (L := L) has_search account_id mb' name uid (Some uid) date raw'
       flags).
Proof.
  intros Hraw. unfold ingest_raw_message, ingest_parsed_message, record_object_store_bytes_written,
    served.
  apply preserves_bind; [apply preserves_lift|intros parsed].
  apply preserves_bind; [apply preserves_lift|intros n].
  apply preserves_bind; [|intros _; cbv zeta].
  { intros e He. destruct (check_quota _ _ e) eqn:E. by apply check_quota_same in E as ->. }
  apply preserves_bind_fact with
    (F := fun md => ObjectMetadata_key md = content_addressed_key Rfc822 raw');
    [eauto with repo| |intros md Hkey].
  { intros e e' md [_ [Hok _]] E. by eapply put_answers_key in E as [? _]. }
  apply preserves_bind; [eauto with repo|intros _].
  set (key := content_addressed_key Rfc822 raw) in *.
  apply preserves_bind_post with
    (J := fun m => with_blob (storing (uid = u) mb u key (Message_id m)) raw).
  - apply repo_with_blob. intros w Hw. destruct (upsert_message _ w) eqn:E.
    by eapply upsert_message_points_to.
  - intros e e' m [Hp Hst] E. apply (run_keeps _ _ _ _ _ E) in Hst; [|apply repo_keeps_stored].
    apply on_repo_inv in E as [E _]. split; [|done]. split; [by eapply upsert_message_points_to|].
    intros Hu. apply upsert_message_run in E as (_ & _ & Hb). specialize (Hb m eq_refl).
    cbn [NewMessage_rfc822_blob_key] in Hb. by rewrite Hkey, Hraw in Hb.
  - intros m. blob_steps. apply repo_with_blob. intros w Hw.
    by apply (upsert_keeps_storing _ _ _ _ (mkNewMailboxMessage _ _ _ _ _ _ _ _ _)).
  - by intros m e [[Hp _] Hst].
Qed.

(** A successful ingestion, taken apart at the upsert of the mailbox row: before
    it the blob and the message row are in place and the mailbox rows as they
    were; after it the two tables and the blob stay. *)
Lemma ingest_inv account_id mb name uid up date raw flags e e' im :
  store_ok (e_store e) ->
  ingest_raw_message has_search account_id mb name uid up date raw flags e = (e', Ok im) ->
  let key := content_addressed_key Rfc822 raw in
  exists id e1 e2 m,
    mailbox_messages (w_db (e_world e1)) = mailbox_messages (w_db (e_world e)) /\
    with_blob (fun t => has_blob key (snd t) id) raw e1 /\
    on_repo (upsert_mailbox_message (mkNewMailboxMessage mb id uid up None flags [] false None)) e1 =
      (e2, Ok m) /\
    IngestedMessage_local_uid im = MailboxMessage_local_uid m /\
    forall Q, with_blob Q raw e2 -> with_blob Q raw e'.
Proof.
  intros Hok E key. unfold ingest_raw_message, ingest_parsed_message in E.
  inv_bind E. injection Hstep as <- _. inv_bind E. injection Hstep as <- _.
  inv_bind E. apply check_quota_same in Hstep as ->. cbv zeta in E.
  inv_bind E. pose proof (ekeeps_run _ _ _ _ _ (ekeeps_on_store mailbox_messages _) Hstep) as Hk1.
  apply put_answers_key in Hstep as [Hkey Hst]; [|done].
  inv_bind E. apply (run_keeps _ _ _ _ _ Hstep) in Hst; [|apply metrics_keeps_stored].
  apply (ekeeps_run mailbox_messages) in Hstep as Hk0; [|done]. clear Hstep. inv_bind E.
  apply (ekeeps_run mailbox_messages) in Hstep as Hk2; [|apply ekeeps_on_repo, keeps_upsert_message].
  apply (run_keeps _ _ _ _ _ Hstep) in Hst; [|apply repo_keeps_stored].
  apply on_repo_inv in Hstep as [Hmsg _]. apply upsert_message_run in Hmsg as (_ & _ & Hb).
  specialize (Hb _ eq_refl). cbn [NewMessage_rfc822_blob_key] in Hb. rewrite Hkey in Hb. fold key in Hb, Hst.
  assert (Hw : with_blob (fun t => has_blob key (snd t) (Message_id x4)) raw w1) by done.
  inv_bind E. apply (run_keeps _ _ _ _ _ Hstep) in Hw; [|blob_steps].
  apply (ekeeps_run mailbox_messages) in Hstep as Hk3; [|ekeep_steps; apply keeps_delete_mime_parts].
  clear Hstep.
  inv_bind E. apply (run_keeps _ _ _ _ _ Hstep) in Hw; [|blob_steps].
  apply (ekeeps_run mailbox_messages) in Hstep as Hk4;
    [|apply ekeeps_fold_each; intros; apply ingest_part_keeps_rows].
  clear Hstep. inv_bind E.
  match type of E with ?m _ = _ =>
    assert (Htail : forall Q, preserves (with_blob Q raw) m) by (intros Q; blob_steps) end.
  exists (Message_id x4), w3, w4, x7.
  split; [rewrite Hk4, Hk3, Hk2, Hk0; exact Hk1|]. split; [done|]. split; [exact Hstep|].
  split; [|intros Q HQ; by apply (run_keeps _ _ _ _ _ E HQ)].
  clear Hstep Htail. do 4 (inv_bind E; clear Hstep). by injection E as _ <-.
Qed.

(** Ingesting a message makes the mailbox serve it. *)
Lemma ingest_serves account_id mb name uid date raw flags e e' im :
  store_ok (e_store e) -> uid <> 0 ->
  ingest_raw_message has_search account_id mb name uid (Some uid) date raw flags e =
    (e', Ok im) ->
  served mb uid raw e'.
Proof.
  intros Hok Hz E. apply ingest_inv in E as (id & e1 & e2 & m & _ & [Hb Hst] & Hup & _ & Htail); [|done].
  apply Htail. apply (run_keeps _ _ _ _ _ Hup) in Hst; [|apply repo_keeps_stored]. split; [|done].
  apply on_repo_inv in Hup as [Hup _].
  pose proof (keeps_run _ _ _ _ _ (keeps_messages_upsert _) Hup) as Hmsgs.
  apply (upsert_makes_copy (has_blob (content_addressed_key Rfc822 raw)
    (messages (w_db (e_world e1))))) in Hup; [|done..].
  unfold points_to, mail_tables. simpl. by rewrite Hmsgs.
Qed.

(** ** The loop *)
Context `{!UpstreamMail U}.

(** The mailbox is open upstream and the store is sound. *)
Definition ready (name : str) (e : Engine O U X L) : Prop :=
  mailbox_open name (e_upstream e) /\ store_ok (e_store e).

Lemma repo_ready {A} name (m : Repo A) : preserves (ready name) (on_repo m).
Proof. intros e He. unfold on_repo, zoom. by destruct (m (e_world e)). Qed.
Lemma search_ready {A} name (m : M Error X A) : preserves (ready name) (on_search m).
Proof. intros e He. unfold on_search, zoom. by destruct (m (e_search e)). Qed.
Lemma metrics_ready name f : preserves (ready name) (on_metrics f).
Proof. by intros e He. Qed.
Lemma now_ready name : preserves (ready name) utc_now.
Proof. by intros e He. Qed.
Lemma put_ready name k b : preserves (ready name) (on_store (store_put k b)).
Proof.
  intros e [Hopen Hok]. unfold on_store, zoom.
  destruct (validate_content_addressed_bytes k b) as [[]|err|] eqn:E.
  - apply validate_iff in E. destruct (law_put_ok k b (e_store e) Hok E) as (s' & -> & Hok' & _).
    done.
  - destruct (law_put_reject k b (e_store e)) as [err' ->]; [|done]. intros t ->.
    assert (validate_content_addressed_bytes (content_addressed_key t b) b = Ok tt)
      by (apply validate_iff; eauto). congruence.
  - by apply validate_not_panic in E.
Qed.
Hint Resolve repo_ready search_ready metrics_ready now_ready put_ready : repo.

Lemma ingest_ready name account_id mb mname uid up date raw flags :
  preserves (ready name)
    (ingest_raw_message (U := U) (L := L) has_search account_id mb mname uid up date raw flags).
Proof.
  unfold ingest_raw_message, ingest_parsed_message, ingest_part, record_object_store_bytes_written.
  repeat first
    [ apply preserves_bind; [|intros ?]
    | apply preserves_fold_each; intros
    | solve [eauto with repo]
    | match goal with |- preserves _ (match ?x with _ => _ end) => destruct x end ].
Qed.

(** ... and the upstream messages [us] are served. *)
Definition serving (name : str) (mb : Z) (us : list Z) (e : Engine O U X L) : Prop :=
  ready name e /\ forall u, In u us -> served mb u (mail name u) e.

Lemma serving_preserves {A} name mb us (m : M Error (Engine O U X L) A) :
  preserves (ready name) m -> (forall u, In u us -> preserves (served mb u (mail name u)) m) ->
  preserves (serving name mb us) m.
Proof. intros Hr Hs e [Hre Hse]. split; [by apply Hr|]. intros u Hu. by apply Hs, Hse. Qed.

Lemma upstream_serving {A} name mb us (m : M Error U A) :
  preserves (mailbox_open name) m -> preserves (serving name mb us) (on_upstream m).
Proof.
  intros Hm e [[Ho Hok] Hs]. specialize (Hm _ Ho). unfold on_upstream, zoom.
  by destruct (m (e_upstream e)).
Qed.

Lemma flags_serving name mb us mb' uid flags :
  preserves (serving name mb us) (on_repo (update_mailbox_message_flags mb' uid flags)).
Proof.
  apply serving_preserves; [apply repo_ready|]. intros u _. apply repo_with_blob. intros w Hw.
  unfold points_to, mail_tables. simpl. rewrite keeps_messages_flags.
  by apply (flags_keep_copy _ mb u mb' uid flags w).
Qed.

Lemma ingest_serving name mb us account_id mname uid flags :
  preserves (serving name mb us)
    (ingest_raw_message (U := U) (L := L) has_search account_id mb mname uid (Some uid) None
       (mail name uid) flags).
Proof.
  apply serving_preserves; [apply ingest_ready|]. intros u _. apply ingest_keeps_served.
  by intros ->.
Qed.

(** One turn keeps what is served, and adds the message of a new UID. *)
Lemma sync_uid_serving name mb us account_id last local acc uid :
  preserves (serving name mb us)
    (sync_uid (L := L) has_search account_id mb name last local acc uid).
Proof.
  unfold sync_uid. destruct acc as [n newest].
  apply preserves_bind_fact with (F := fun uid' => uid' = uid); [apply preserves_lift| |].
  { intros e e' uid' _ E. destruct (uid <=? i64_max); [by injection E|done]. }
  intros uid' ->. apply preserves_bind; [apply upstream_serving, law_fetch_flags|intros fetched].
  cbv zeta. apply preserves_bind; [|intros _].
  { destruct (local !! uid); [|apply preserves_ret]. destruct (bool_decide _); [apply preserves_ret|].
    apply preserves_bind; [apply flags_serving|intros; apply preserves_ret]. }
  destruct (uid <=? last); [apply preserves_ret|].
  apply preserves_bind_fact with (F := fun raw => raw = mail name uid).
  - apply upstream_serving, law_fetch_rfc822.
  - intros e e' raw [[Ho _] _] E. apply on_upstream_inv in E as [E _]. by eapply law_mail.
  - intros raw ->. apply preserves_bind; [apply ingest_serving|intros; apply preserves_ret].
Qed.

Lemma sync_uid_serves name mb us account_id last local acc uid e e' acc' :
  serving name mb us e -> last < uid -> uid <> 0 ->
  sync_uid has_search account_id mb name last local acc uid e = (e', Ok acc') ->
  serving name mb (uid :: us) e'.
Proof.
  intros Hs Hlt Hz E. pose proof (run_keeps _ _ _ _ _ E Hs (sync_uid_serving _ _ _ _ _ _ _ _))
    as [Hr Hus].
  split; [done|]. intros u [<-|Hu]; [|by apply Hus]. clear Hus Hr.
  unfold sync_uid in E. destruct acc as [n newest]. inv_bind E.
  destruct (uid <=? i64_max); [|done]. injection Hstep as <- <-.
  inv_bind E. eapply run_keeps in Hs; [|exact Hstep|apply upstream_serving, law_fetch_flags].
  cbv zeta in E. inv_bind E.
  eapply run_keeps in Hs; [|exact Hstep0|].
  2: { destruct (local !! uid); [|apply preserves_ret]. destruct (bool_decide _); [apply preserves_ret|].
       apply preserves_bind; [apply flags_serving|intros; apply preserves_ret]. }
  rewrite (proj2 (Z.leb_gt _ _)) in E by done.
  inv_bind E. pose proof (run_keeps _ _ _ _ _ Hstep1 Hs
    (upstream_serving _ _ _ _ (law_fetch_rfc822 _ _))) as [[_ Hok] _].
  destruct Hs as [[Ho _] _]. apply on_upstream_inv in Hstep1 as [Hraw _].
  apply (law_mail name) in Hraw as ->; [|done].
  inv_bind E. injection E as <- _. by eapply ingest_serves.
Qed.

Lemma sync_loop_serves name mb account_id last local uids acc e e' acc' us :
  serving name mb us e ->
  fold_each uids acc (sync_uid has_search account_id mb name last local) e = (e', Ok acc') ->
  serving name mb (List.filter (fun u => (last <? u) && negb (u =? 0)) uids ++ us) e'.
Proof.
  revert acc e us. induction uids as [|uid uids IH]; intros acc e us Hs E; simpl in E.
  { by injection E as <- _. }
  inv_bind E. cbn [List.filter]. destruct ((last <? uid) && negb (uid =? 0)) eqn:Eu.
  - apply andb_true_iff in Eu as [Hlt Hz%negb_true_iff]. apply Z.ltb_lt in Hlt. apply Z.eqb_neq in Hz.
    eapply sync_uid_serves in Hstep; [|done..]. eapply IH in E; [|exact Hstep].
    destruct E as [Hr Hus]. split; [done|]. intros u Hu. apply Hus.
    destruct Hu as [<-|Hu]; [|apply in_app_iff in Hu as [Hu|Hu]]; apply in_app_iff; simpl; tauto.
  - eapply IH; [|exact E]. eapply run_keeps; [exact Hstep|done|apply sync_uid_serving].
Qed.

(** ** The rest of the pass *)

(** Repository calls that leave the message rows alone. *)
Definition calm_messages {A} (m : M Error (Engine O U X L) A) : Prop :=
  forall key raw e, stored key raw e ->
    messages (w_db (e_world (fst (m e)))) = messages (w_db (e_world e)) /\
    stored key raw (fst (m e)).

Lemma repo_calm {A} (m : Repo A) : keeps messages m -> calm_messages (on_repo m).
Proof.
  intros Hm key raw e Hs. split; [by apply ekeeps_on_repo|by apply repo_keeps_stored].
Qed.

Lemma calm_then {A B} (m : M Error (Engine O U X L) A) (k : A -> M Error (Engine O U X L) B) :
  calm_messages m -> (forall a, calm_messages (k a)) -> calm_messages (bind m k).
Proof.
  intros Hm Hk key raw e Hs. destruct (Hm key raw e Hs) as [Hmsg Hs']. unfold bind.
  destruct (m e) as [e1 [a|err|]]; [|done..]. simpl in *.
  destruct (Hk a key raw e1 Hs') as [Hmsg' ?]. split; [congruence|done].
Qed.

Lemma calm_each {A} (xs : list A) (m : A -> M Error (Engine O U X L) unit) :
  (forall x, calm_messages (m x)) -> calm_messages (for_each xs m).
Proof.
  intros Hm. induction xs as [|x xs IH]; simpl; [by intros key raw e Hs|].
  apply calm_then; [apply Hm|intros; apply IH].
Qed.

Lemma keeps_messages_delete mb uid : keeps messages (delete_mailbox_message mb uid).
Proof.
  unfold delete_mailbox_message, delete_tx, mailbox_sequence_number_in_tx, account_id_for_mailbox,
    list_message_cache_objects, delete_cache_object_for_account.
  keep_steps.
Qed.

Lemma after_loop_calm account_id mb sel state uids t cnt :
  calm_messages (after_loop account_id mb sel state uids t cnt).
Proof.
  unfold after_loop, update_mailbox_sync_metadata, reconcile_missing_upstream_messages_with_set.
  apply calm_then; [apply repo_calm; unfold put_sync_state; keep_steps|intros _].
  apply calm_then; [apply repo_calm; keep_steps|intros _].
  apply calm_then.
  - apply calm_then; [apply repo_calm, keeps_query|intros ms]. apply calm_each. intros m.
    apply calm_then; [apply repo_calm, keeps_messages_delete|by intros n key raw e Hs].
  - intros _. apply calm_then; [|by intros n key raw e Hs].
    apply repo_calm. unfold refresh_mailbox_counts, account_id_for_mailbox. keep_steps.
Qed.

Lemma after_loop_serves account_id mb sel state uids t cnt e e' n u raw :
  engine_ok e -> u ∈ uids -> served mb u raw e ->
  after_loop account_id mb sel state uids t cnt e = (e', Ok n) -> served mb u raw e'.
Proof.
  intros Hok Hu [Hp Hst] E.
  destruct (after_loop_calm account_id mb sel state uids t cnt _ _ _ Hst) as [Hmsg Hst'].
  rewrite E in Hmsg, Hst'. simpl in Hmsg, Hst'. split; [|done].
  apply after_loop_rows in E as [_ Hrows]; [|done].
  unfold points_to, mail_tables in *. simpl in *. rewrite Hmsg.
  destruct Hp as (r & Hr & Hl & Hlu & Hru & Hb). exists r. split; [|done].
  apply Hrows. split; [done|]. intros _. by rewrite Hru.
Qed.

(** A successful pass serves every message the server listed above the resume
    point. *)
Lemma sync_mailbox_serves account_id name mailbox e e' n :
  engine_ok e -> store_ok (e_store e) ->
  sync_mailbox_inner has_search account_id name mailbox e = (e', Ok n) ->
  exists sel checkpoint uids u1 u2,
    upstream_select_mailbox name (e_upstream e) = (u1, Ok sel) /\
    uid_search_all u1 = (u2, Ok uids) /\
    load_sync_state account_id (Some (Mailbox_id mailbox)) (e_world e) =
      (e_world e, Ok checkpoint) /\
    forall u, In u uids -> resume_uid checkpoint sel < u -> u <> 0 ->
      u <= i64_max /\ served (Mailbox_id mailbox) u (mail name u) e'.
Proof.
  intros Hok Hso E. apply sync_mailbox_inv in E as
    (sel & cp & uids & u1 & local & e1 & e2 & cnt & newest & state & t & Hsel & Hcp & Hs & Hok1 &
     Hst & Hloop & Hok2 & Htail); [|done].
  exists sel, cp, uids, u1, (e_upstream e1). do 3 (split; [done|]). intros u Hu Hlt Hz.
  assert (Hmax : u <= i64_max) by (apply sync_loop_run in Hloop as [_ Hl]; by apply Hl).
  split; [done|].
  eapply (sync_loop_serves name _ _ _ _ _ _ _ _ _ []) in Hloop as [_ Hus].
  - eapply after_loop_serves; [exact Hok2| |apply Hus|exact Htail].
    + apply elem_of_list_to_set, list_elem_of_In, filter_In. split; [done|by apply Z.leb_le].
    + rewrite app_nil_r. apply filter_In. split; [done|]. apply andb_true_iff.
      split; [by apply Z.ltb_lt|by apply negb_true_iff, Z.eqb_neq].
  - split; [|done]. split; [|by rewrite Hst].
    apply law_select in Hsel. apply (law_search_all name) in Hsel. by rewrite Hs in Hsel.
Qed.
End Served.
