(* ===== verification/EndToEnd.v ===== *)
(** * From the upstream server to the client

    A message the upstream server holds, fetched by a client of this server: the
    sync pass of crates/sync/src/lib.rs, the repository, the object store and the
    UID FETCH of crates/imap-server/src/imap.rs, composed as the program composes
    them. *)

From stdpp Require Import base strings list gmap.
From Stdlib Require Import ZArith Lia Permutation Sorting.Sorted.
From S2P Require Import Prelude RustStr Metrics Domain Protocol SearchQuery Storage Notifications Schema RepoCore Security RepoAccounts RepoMailboxes RepoMessages RepoQueue Invariant Integrity Scenario MessageSpecs Auth Coordination Mime Search Engine SearchEval Threads ImapText Ingest Mutations QueueSpecs SyncEngine SyncSpecs Convergence Serving ImapSession ImapFetch ImapCommands ImapServer ImapTextSpecs ImapMailSpecs ImapScenario AdminSoundness.

Local Open Scope Z_scope.

(** ** The view of a served message *)
Lemma filter_unique {A} (f : A -> Z) (l : list A) v :
  NoDup (map f l) -> In v l -> List.filter (fun x => memZ (f x) [f v]) l = [v].
Proof.
  induction l as [|x l IH]; simpl; intros Hnd Hv; [done|].
  apply NoDup_cons in Hnd as [Hx Hnd].
  assert (Hnone : forall l', (forall y, In y l' -> f y <> f x) ->
    List.filter (fun y => memZ (f y) [f x]) l' = []).
  { induction l' as [|y l' IH']; simpl; intros Hne; [done|].
    rewrite (proj2 (Z.eqb_neq _ _)) by (intros E; by apply (Hne y (or_introl eq_refl))).
    apply IH'. intros z Hz. apply Hne. by right. }
  destruct Hv as [->|Hv]; simpl.
  - rewrite Z.eqb_refl. simpl. f_equal. apply Hnone. intros y Hy E. apply Hx.
    rewrite <- E. apply list_elem_of_In. by apply in_map.
  - rewrite (proj2 (Z.eqb_neq _ _)); [by apply IH|]. intros E. apply Hx. rewrite E.
    apply list_elem_of_In. by apply in_map.
Qed.

(** The rows of a mailbox and their views have the same UIDs, each once. *)
Lemma view_uids_nodup mb db seq :
  db_ok db seq -> NoDup (map MailboxMessageView_local_uid (view_listing mb db)).
Proof.
  intros Hok. pose proof (views_follow_rows mb db seq Hok) as Hv. fold (view_listing mb db) in Hv.
  assert (Hm : map MailboxMessageView_local_uid (view_listing mb db) =
               map MailboxMessageRow_local_uid (mailbox_rows mb db)).
  { revert Hv. generalize (mailbox_rows mb db) (view_listing mb db). intros rows views Hv.
    remember (map MailboxMessage_from rows) as ms eqn:Ems. revert rows Ems.
    induction Hv as [|m v ms views [Hu _] _ IH]; intros [|r rows] Ems; try done.
    injection Ems as -> ->. simpl. rewrite (IH rows eq_refl). by rewrite Hu. }
  rewrite Hm. clear Hm Hv. pose proof (mailbox_rows_strict mb db seq Hok) as Hs.
  induction Hs as [|r rows _ IH Hr]; simpl; [constructor|]. constructor; [|done].
  intros Hin%list_elem_of_In%in_map_iff. destruct Hin as (r' & E & Hin).
  rewrite List.Forall_forall in Hr. specialize (Hr r' Hin). unfold key_lt in Hr. lia.
Qed.

Lemma listed_view mb u key db seq :
  db_ok db seq -> lists mb u key (mail_tables db) ->
  exists v, In v (view_listing mb db) /\ MailboxMessageView_local_uid v = u /\
            MailboxMessageView_rfc822_blob_key v = key.
Proof.
  intros Hok (r & Hr & Hl & Hu & m & Hm & Hid & Hkey). simpl in *.
  exists (MailboxMessageView_from (view_row r m)). split; [|done].
  unfold view_listing. apply in_map.
  assert (Hin : In (view_row r m) (join_messages db (select (live_in mb) (mailbox_messages db)))).
  { unfold join_messages. apply in_flat_map. exists r. split; [by apply select_In|].
    apply in_map, select_In. split; [done|by apply Z.eqb_eq]. }
  revert Hin. apply Permutation_in, order_by_perm.
Qed.

Lemma one_uid_set u mx : 0 < u <= i64_max -> parse_number_set (fmt_u u) mx = [u].
Proof.
  intros Hu. pose proof (parse_format_number_set [u] mx) as Hp.
  unfold format_number_set in Hp. simpl in Hp. unfold format_range in Hp.
  rewrite Z.eqb_refl in Hp. apply Hp. by constructor.
Qed.

Section Client.
Context {O U X L T : Type} `{ObjectStore O} `{UpstreamClient U} `{UpstreamConnector U}.
Context `{SearchBackend X} `{Authenticator T}.
Context `{Sha256} `{MimeParser} `{PgText} `{UuidText} `{Crypto} `{Texts} `{ChronoRange}.
Context `{MailHeaders} `{Base64} `{!ObjectStoreLaws O}.
Variable services : AppServices.
Variable secrets : SecretBox.
Variable elapsed : Z.
Implicit Types e : Engine O U X L.

(** UID FETCH of the one UID finds the one view. *)
Lemma resolve_listed mb u key e :
  engine_ok e -> 0 < u <= i64_max -> lists mb u key (mail_tables (w_db (e_world e))) ->
  exists v, resolve_uid_views mb (fmt_u u) e = (e, Ok [v]) /\
    MailboxMessageView_local_uid v = u /\ MailboxMessageView_rfc822_blob_key v = key.
Proof.
  intros Hok Hu Hp. destruct (listed_view _ _ _ _ _ Hok Hp) as (v & Hv & Huid & Hkey).
  exists v. split; [|done]. unfold resolve_uid_views. erewrite bind_Ok by apply on_repo_query.
  fold (view_listing mb (w_db (e_world e))). unfold pick_uids. rewrite one_uid_set by done.
  rewrite <- Huid. rewrite filter_unique; [done|by eapply view_uids_nodup|done].
Qed.

(** ... and the bytes are read from the store. *)
Lemma load_stored account_id name v b e :
  store_ok (e_store e) -> store_contents (e_store e) !! MailboxMessageView_rfc822_blob_key v = Some b ->
  exists e', load_raw_fetch_bytes services secrets account_id name v (Whole SecFull) None e =
    (e', Ok (Some b)).
Proof.
  intros Hok Hb. cbn [load_raw_fetch_bytes]. unfold load_whole. cbv zeta.
  unfold bind at 1. erewrite (bind_Ok (on_store _)); [|apply on_store_read; rewrite law_get, Hb; done].
  cbv beta iota.
  match goal with |- context [?m e] => pose proof (after_hit services account_id
    (MailboxMessageView_rfc822_blob_key v) b e) as Ha; destruct (m e) as [e' r] end.
  simpl in Ha. subst r. exists e'. simpl. unfold raw_fetch_bytes. by destruct (split_rfc822 b).
Qed.

Implicit Types sv : Server O U X L T.

(** What a client reads for UID FETCH of BODY.PEEK[] of the message [u]; the number
    before FETCH is the UID there ([ImapFindings.uid_fetch_numbers_with_uid]). *)
Definition literal_response (u : Z) (b : bytes) : bytes :=
  as_bytes (lit "* " ++ fmt_i u ++ lit " FETCH (" ++ lit "BODY.PEEK[] {" ++ fmt_u (len b) ++
            lit "}" ++ crlf) ++ b ++ lit ")" ++ crlf.

Definition peek_request : RawFetchRequest :=
  mkRawFetchRequest (lit "BODY.PEEK[]") (Whole SecFull) None true.

Lemma write_peek_row account_id mb selected u v b sv :
  store_ok (e_store (sv_engine sv)) ->
  store_contents (e_store (sv_engine sv)) !! MailboxMessageView_rfc822_blob_key v = Some b ->
  exists sv', write_raw_row services secrets account_id mb selected peek_request [] [] u v sv =
    (sv', Ok tt) /\ sv_wire sv' = sv_wire sv ++ literal_response u b.
Proof.
  intros Hok Hb. destruct (load_stored account_id selected v b _ Hok Hb) as [e' Hl].
  unfold write_raw_row. cbn [RawFetchRequest_section RawFetchRequest_partial peek_request].
  erewrite bind_Ok by (apply on_engine_run; exact Hl). erewrite bind_Ok by reflexivity.
  erewrite bind_Ok by reflexivity. cbv zeta. cbn [omap list_omap app].
  erewrite bind_Ok by reflexivity. erewrite bind_Ok by reflexivity. erewrite bind_Ok by reflexivity.
  eexists. split; [reflexivity|]. cbn [sv_wire on_engine zoom on_metrics modify fst].
  unfold literal_response. by rewrite <- !app_assoc.
Qed.

(** The command of the client. *)
Definition uid_fetch_body (tag : str) (u : Z) : ParsedCommand :=
  mkParsedCommand tag (lit "UID") [lit "FETCH"; fmt_u u; lit "BODY.PEEK[]"].

Lemma body_items : parse_fetch_items [lit "BODY.PEEK[]"] = [lit "BODY.PEEK[]"].
Proof. by vm_compute. Qed.
Lemma body_request : parse_raw_fetch_request (lit "BODY.PEEK[]") = Some peek_request.
Proof. by vm_compute. Qed.

(** A client that has selected the mailbox fetches a message it lists. *)
Lemma fetch_listed tag account_id selected mailbox u raw sv :
  engine_ok (sv_engine sv) -> has_repository services = true -> 0 < u <= i64_max ->
  with_blob (lists (Mailbox_id mailbox) u (content_addressed_key Rfc822 raw)) raw (sv_engine sv) ->
  session_account (sv_session sv) = Some account_id ->
  selected_mailbox_name_ref (sv_session sv) = Some selected ->
  snd (find_mailbox account_id selected (e_world (sv_engine sv))) = Ok (Some mailbox) ->
  exists sv' b,
    serve_fetch services secrets elapsed (lit "UID") (uid_fetch_body tag u) None sv =
      (sv', Ok Continue) /\
    sha256_hex b = sha256_hex raw /\
    sv_wire sv' = sv_wire sv ++ literal_response u b ++
                  as_bytes (tag ++ lit " OK FETCH completed") ++ crlf.
Proof.
  intros Hok Hrepo Hu [Hp [Hso (b & Hb & Hd)]] Hacc Hsel Hf.
  destruct (resolve_listed _ _ _ _ Hok Hu Hp) as (v & Hv & Huid & Hkey).
  unfold find_mailbox in Hf. injection Hf as Hf.
  destruct (write_peek_row account_id (Mailbox_id mailbox) selected u v b sv Hso) as (sv1 & Hw & Hwire);
    [by rewrite Hkey|].
  assert (Hraw : write_raw_fetch_response services secrets (uid_fetch_body tag u) sv = (sv1, Ok true)).
  { unfold write_raw_fetch_response. erewrite bind_Ok by reflexivity. rewrite Hacc, Hsel, Hrepo.
    cbn [negb]. unfold find_mailbox, on_db.
    erewrite bind_Ok by (apply on_engine_run, on_repo_query). rewrite Hf.
    change (eq_ignore_ascii_case (ParsedCommand_name (uid_fetch_body tag u)) (lit "UID")) with true.
    cbv beta iota zeta. cbn [uid_fetch_body ParsedCommand_args lookup list_lookup drop].
    rewrite body_items. cbn [position]. rewrite body_request. cbn [is_some].
    erewrite bind_Ok.
    2: { erewrite bind_Ok by (apply on_engine_run; destruct sv; exact Hv). reflexivity. }
    cbn [lookup list_lookup mbind option_bind]. rewrite body_request. cbn [map for_each take drop].
    rewrite Huid. destruct sv as [sess eng auth input wire].
    erewrite bind_Ok; [reflexivity|]. erewrite bind_Ok by exact Hw. reflexivity. }
  unfold serve_fetch. rewrite (bind_Ok _ _ _ _ _ Hraw). cbv beta iota.
  eexists _, b. split; [reflexivity|]. split; [done|]. cbn [sv_wire]. simpl. rewrite Hwire.
  by rewrite <- app_assoc.
Qed.

(** C1 What the upstream server holds is what the client gets.  After a
    successful sync pass over a mailbox, take any message the server listed above
    the resume point.  A client of that account that has the mailbox selected and
    sends UID FETCH <uid> BODY.PEEK[] reads one FETCH response whose literal
    announces the length of, and is, a byte string with the digest of the server's
    message (the message itself, for a hash without collisions), and the tagged
    OK; for any object store that obeys its laws and any server that does not
    change its messages. *)
Theorem client_gets_upstream_message `{!UpstreamMail U} has_search account_id name selected mailbox
  current e e' n tag sv :
  engine_ok e -> store_ok (e_store e) -> has_repository services = true ->
  sync_mailbox_inner has_search account_id name mailbox e = (e', Ok n) ->
  sv_engine sv = e' ->
  session_account (sv_session sv) = Some account_id ->
  selected_mailbox_name_ref (sv_session sv) = Some selected ->
  snd (find_mailbox account_id selected (e_world e')) = Ok (Some current) ->
  Mailbox_id current = Mailbox_id mailbox ->
  exists sel checkpoint uids u1 u2,
    upstream_select_mailbox name (e_upstream e) = (u1, Ok sel) /\
    uid_search_all u1 = (u2, Ok uids) /\
    load_sync_state account_id (Some (Mailbox_id mailbox)) (e_world e) =
      (e_world e, Ok checkpoint) /\
    forall u, In u uids -> resume_uid checkpoint sel < u -> 0 < u ->
      exists sv' b,
        serve_fetch services secrets elapsed (lit "UID") (uid_fetch_body tag u) None sv =
          (sv', Ok Continue) /\
        sha256_hex b = sha256_hex (mail name u) /\
        sv_wire sv' = sv_wire sv ++ literal_response u b ++
                      as_bytes (tag ++ lit " OK FETCH completed") ++ crlf.
Proof.
  intros Hok Hso Hrepo E <- Hacc Hsel Hf Hid.
  pose proof (sync_inner_safe has_search account_id name mailbox e Hok) as Hok'.
  rewrite E in Hok'. simpl in Hok'.
  eapply sync_mailbox_serves in E as (sel & cp & uids & u1 & u2 & Hs & Hu & Hcp & Hall); [|done..].
  exists sel, cp, uids, u1, u2. do 3 (split; [done|]). intros u Hin Hlt Hpos.
  destruct (Hall u Hin Hlt) as [Hmax Hserved]; [lia|].
  apply (fetch_listed tag account_id selected current); try done. rewrite Hid.
  destruct Hserved as [Hp Hst]. split; [by apply points_to_lists|done].
Qed.
End Client.

(** ** A concrete server and client *)
Module EndToEndWitness.
(** A server with the messages 1, 2 and 5; its state is the mailbox selected. *)
#[local] Instance server : UpstreamClient (option str) := {
  upstream_select := fun name => modify (fun _ => Some name);
  upstream_select_mailbox := fun name =>
    modify (fun _ => Some name) ;;;
    ret (mkSelectedMailboxInfo [] (Some 3) None (Some 7) (Some 6) None None false);
  upstream_list_mailboxes := ret [lit "INBOX"];
  uid_search_all := ret [1; 2; 5];
  uid_fetch_flags := fun _ => ret [seen];
  uid_fetch_rfc822 := fun uid => ret (raw uid);
  append_with_internal_date := fun _ _ _ _ => ret None;
  uid_store_flags := fun _ _ => ret tt;
  uid_copy_message := fun _ _ => ret 1;
  expunge_selected := ret tt
}.
#[local] Instance no_connector : UpstreamConnector (option str) :=
  { upstream_open := fun _ _ => fail (EStorage []) }.
#[local] Instance server_mail : UpstreamMail (option str).
Proof.
  refine {| mail := fun _ uid => raw uid; mailbox_open := fun name u => u = Some name |}.
  - intros name u u' sel E. by injection E as <- _.
  - by intros name u.
  - by intros name uid u.
  - by intros name uid u.
  - intros name uid u u' b _ E. by injection E as _ <-.
Defined.

Definition start : Engine MemoryObjectStore (option str) unit unit :=
  mkEngine world (mkMemoryObjectStore ∅) None tt tt AppMetrics_new.
Definition inbox : Mailbox := Mailbox_from inbox_row.
Definition synced : Engine MemoryObjectStore (option str) unit unit :=
  fst (sync_mailbox_inner true 1 (lit "INBOX") inbox start).
Definition current : Mailbox :=
  match snd (find_mailbox 1 (lit "INBOX") (e_world synced)) with
  | Ok (Some mailbox) => mailbox
  | _ => inbox
  end.
Definition client : Server MemoryObjectStore (option str) unit unit MemoryLoginThrottle :=
  mkServer
    (set_state (SelectedMailbox false (lit "INBOX"))
       (set_authenticated (Some (mkAuthContext 1 (Some 1) (lit "alice"))) (ImapSession_new (lit "c"))))
    synced (with_limits 5 900 0) [] [].

Lemma empty_store_ok : store_ok (e_store start).
Proof. intros k b Hk. simpl in Hk. rewrite lookup_empty in Hk. discriminate Hk. Qed.
Lemma synced_run : sync_mailbox_inner true 1 (lit "INBOX") inbox start = (synced, Ok 3).
Proof. vm_compute. reflexivity. Qed.
Lemma current_found : snd (find_mailbox 1 (lit "INBOX") (e_world synced)) = Ok (Some current).
Proof. vm_compute. reflexivity. Qed.
Lemma current_id : Mailbox_id current = Mailbox_id inbox.
Proof. vm_compute. reflexivity. Qed.
Lemma start_checkpoint :
  snd (load_sync_state 1 (Some (Mailbox_id inbox)) (e_world start)) = Ok None.
Proof. vm_compute. reflexivity. Qed.

Lemma client_engine : sv_engine client = synced.
Proof. unfold client. cbn [sv_engine]. reflexivity. Qed.
Lemma client_account : session_account (sv_session client) = Some 1.
Proof. unfold client. cbn [sv_session]. reflexivity. Qed.
Lemma client_selected : selected_mailbox_name_ref (sv_session client) = Some (lit "INBOX").
Proof. unfold client. cbn [sv_session]. reflexivity. Qed.
Lemma client_wire : sv_wire client = [].
Proof. unfold client. cbn [sv_wire]. reflexivity. Qed.

(** The fifth message, as the client reads it. *)
Lemma client_gets_upstream_message_witness : exists sv' b,
  serve_fetch services secrets 0 (lit "UID") (uid_fetch_body (lit "a7") 5) None client =
    (sv', Ok Continue) /\
  sha256_hex b = sha256_hex (raw 5) /\
  sv_wire sv' = literal_response 5 b ++ lit "a7 OK FETCH completed" ++ crlf.
Proof.
  destruct (client_gets_upstream_message services secrets 0 true 1 (lit "INBOX") (lit "INBOX") inbox
              current start synced 3 (lit "a7") client world_ok empty_store_ok eq_refl synced_run
              client_engine client_account client_selected current_found current_id)
    as (sel & cp & uids & u1 & u2 & Hsel & Hu & Hcp & Hall).
  injection Hsel as <- <-. injection Hu as <- <-. apply (f_equal snd) in Hcp.
  rewrite start_checkpoint in Hcp. cbn [snd] in Hcp. injection Hcp as <-.
  destruct (Hall 5) as (sv' & b & Hrun & Hd & Hw); [simpl; tauto|reflexivity|reflexivity|].
  exists sv', b. split; [exact Hrun|]. split; [exact Hd|]. rewrite client_wire in Hw. exact Hw.
Defined.
End EndToEndWitness.
