(* ===== verification/IdleChanges.v ===== *)
(** * Changes of a mailbox and their events

    The three changes another session makes to a mailbox (new flags, a deletion,
    an addition; crates/db/src/repository.rs), with the event each publishes and
    what it does to the numbered listing of the mailbox. *)

From stdpp Require Import base strings list.
From Stdlib Require Import ZArith Lia Permutation Sorting.Sorted.
From S2P Require Import Prelude RustStr Domain Notifications Schema RepoCore RepoAccounts RepoMailboxes RepoMessages Invariant Integrity MessageSpecs ImapMailSpecs.

Local Open Scope Z_scope.

(** ** Statements that publish nothing *)
Definition silent {A} (m : Repo A) : Prop :=
  forall w, w_events (fst (m w)) = w_events w /\ w_sink (fst (m w)) = w_sink w.

Lemma silent_same {A} (m : Repo A) : (forall w, fst (m w) = w) -> silent m.
Proof. intros Hm w. by rewrite Hm. Qed.
Lemma silent_ret {A} (a : A) : silent (ret a).
Proof. done. Qed.
Lemma silent_fail {A} e : silent (fail (A := A) e).
Proof. done. Qed.
Lemma silent_query {A} (f : Database -> A) : silent (query f).
Proof. done. Qed.
Lemma silent_now : silent now.
Proof. done. Qed.
Lemma silent_nextval t : silent (nextval t).
Proof. done. Qed.
Lemma silent_execute f : silent (execute f).
Proof. done. Qed.
Lemma silent_require b e : silent (require b e).
Proof. by destruct b. Qed.
Lemma silent_fetch_one {R} (rows : list R) : silent (fetch_one rows).
Proof. by destruct rows. Qed.
Lemma silent_bigint z : silent (bigint z).
Proof. unfold bigint. by destruct (in_i64 z). Qed.
Lemma silent_bind {A B} (m : Repo A) (k : A -> Repo B) :
  silent m -> (forall a, silent (k a)) -> silent (bind m k).
Proof.
  intros Hm Hk w. specialize (Hm w). unfold bind. destruct (m w) as [w' [a|e|]]; [|done..].
  simpl in *. destruct Hm as [<- <-]. apply Hk.
Qed.
Lemma silent_transaction {A} (m : Repo A) : silent m -> silent (transaction m).
Proof. intros Hm w. specialize (Hm w). unfold transaction. by destruct (m w) as [w' [a|e|]]. Qed.
Lemma silent_for_each {A} (xs : list A) (m : A -> Repo unit) :
  (forall x, silent (m x)) -> silent (for_each xs m).
Proof.
  intros Hm. induction xs as [|x xs IH]; simpl; [apply silent_ret|].
  apply silent_bind; [apply Hm|intros _; apply IH].
Qed.

#[export] Hint Resolve silent_ret silent_fail silent_query silent_now silent_nextval silent_execute
  silent_require silent_fetch_one silent_bigint : repo.

Ltac silent_steps :=
  repeat first
    [ solve [eauto 2 with repo]
    | apply silent_transaction
    | apply silent_bind; [|intros ?]
    | apply silent_for_each; intros ?
    | match goal with
      | |- silent (match ?x with _ => _ end) => destruct x
      | |- silent (let _ := ?x in _) => cbv zeta
      end ].

Lemma silent_run {A} (m : Repo A) w w' r :
  silent m -> m w = (w', r) -> w_events w' = w_events w /\ w_sink w' = w_sink w.
Proof. intros Hm E. specialize (Hm w). by rewrite E in Hm. Qed.

Lemma silent_assign_modseq mb requested : silent (assign_mailbox_modseq mb requested).
Proof. unfold assign_mailbox_modseq. silent_steps. Qed.
#[export] Hint Resolve silent_assign_modseq : repo.

(** ** The account of a mailbox *)
Definition owner (mb : Z) (db : Database) : option Z :=
  match select (mailbox_by_id mb) (mailboxes db) with
  | r :: _ => Some (MailboxRow_account_id r)
  | [] => None
  end.

Lemma owner_modseq mb mb' requested : keeps (owner mb) (assign_mailbox_modseq mb' requested).
Proof.
  unfold assign_mailbox_modseq. keep_steps. apply keeps_execute. intros db. unfold owner. simpl.
  rewrite select_update by done. destruct (select (mailbox_by_id mb) (mailboxes db)) as [|r l]; [done|].
  simpl. by destruct (mailbox_by_id mb' r).
Qed.
#[export] Hint Resolve owner_modseq : repo.

(** ** One event *)

(** What the sink is told by a change of the message [uid] of [mb]. *)
Record Told (mb uid : Z) (w : World) (n : Z) (flags : list str) (detail : str) (event : MutationEvent)
  : Prop := mkTold {
  told_account : MutationEvent_account_id event = owner mb (w_db w);
  told_mailbox : MutationEvent_mailbox_id event = Some mb;
  told_uid : MutationEvent_local_uid event = Some uid;
  told_number : MutationEvent_sequence_number event = Some n;
  told_flags : MutationEvent_flags event = flags;
  told_detail : MutationEvent_detail event = detail
}.

(** The events of [w] and one more. *)
Definition one_more (event : MutationEvent) (w w' : World) : Prop :=
  w_events w' = (if w_sink w then w_events w ++ [event] else w_events w) /\ w_sink w' = w_sink w.

Lemma publish_one_more event w w0 w' r :
  w_events w0 = w_events w -> w_sink w0 = w_sink w -> publish_event event w0 = (w', r) ->
  one_more event w w' /\ w_db w' = w_db w0.
Proof.
  intros He Hs E. rewrite publish_event_spec in E. injection E as <- <-. unfold one_more. simpl.
  by rewrite He, Hs.
Qed.

(** The 1-based position a row with this UID has among the live ones. *)
Definition rank (mb uid : Z) (db : Database) : Z :=
  count (fun r => live_in mb r && (MailboxMessageRow_local_uid r <? uid)) (mailbox_messages db) + 1.

Definition none_live (mb uid : Z) (db : Database) : Prop :=
  select (live_uid mb uid) (mailbox_messages db) = [].
Definition some_live (mb uid : Z) (db : Database) : Prop :=
  exists row, In row (mailbox_messages db) /\ live_uid mb uid row = true.

Lemma select_some_live mb uid db row l :
  select (live_uid mb uid) (mailbox_messages db) = row :: l ->
  In row (mailbox_messages db) /\ live_uid mb uid row = true.
Proof. intros Es. apply select_In. rewrite Es. by left. Qed.

(** ** New flags *)
Lemma flags_change mb uid flags w w' r :
  update_mailbox_message_flags mb uid flags w = (w', Ok r) ->
  owner mb (w_db w') = owner mb (w_db w) /\
  (exists v t, mailbox_messages (w_db w') =
     update (live_uid mb uid) (set_row_flags flags v t) (mailbox_messages (w_db w))) /\
  ((none_live mb uid (w_db w) /\ w_events w' = w_events w /\ w_sink w' = w_sink w) \/
   some_live mb uid (w_db w) /\ exists event, one_more event w w' /\
     Told mb uid w (rank mb uid (w_db w)) flags (lit "update_mailbox_message_flags") event).
Proof.
  intros E. unfold update_mailbox_message_flags in E. inv_bind E.
  apply transaction_inv_Ok in Hstep. unfold flags_tx in Hstep. inv_bind Hstep.
  pose proof (keeps_run _ _ _ _ _ (owner_modseq mb mb None) Hstep0) as Ho.
  pose proof (keeps_run _ _ _ _ _ (keeps_assign_modseq mb None) Hstep0) as Hrows.
  pose proof (silent_run _ _ _ _ (silent_assign_modseq mb None) Hstep0) as [He Hs].
  inv_bind Hstep. injection Hstep1 as <- <-. inv_bind Hstep. injection Hstep1 as <- <-.
  inv_bind Hstep. injection Hstep1 as <- <-. rewrite Hrows in Hstep.
  destruct (select (live_uid mb uid) (mailbox_messages (w_db w))) as [|row l] eqn:Es;
    cbn [map head] in Hstep.
  - injection Hstep as <- <-. injection E as <- <-.
    split; [exact Ho|]. split; [by do 2 eexists|]. left. done.
  - apply select_some_live in Es as [Hin Hl]. pose proof (live_uid_key _ _ _ Hl) as Hrow. injection Hrow as Hmb Huid.
    inv_bind Hstep. injection Hstep as <- <-.
    unfold mailbox_sequence_number_in_tx in Hstep1. inv_bind Hstep1.
    injection Hstep as <- <-. injection Hstep1 as <- <-. inv_bind E. injection Hstep as <- <-.
    inv_bind E. injection Hstep as <- <-. inv_bind E. injection E as <- <-.
    eapply publish_one_more in Hstep as [Hone Hdb]; [|exact He|exact Hs].
    rewrite Hdb. split; [exact Ho|]. split; [by do 2 eexists|]. right.
    split; [by exists row|]. eexists. split; [exact Hone|].
    constructor; cbn [message_changed_with_context MutationEvent_new MutationEvent_account_id
      MutationEvent_mailbox_id MutationEvent_local_uid MutationEvent_sequence_number
      MutationEvent_flags MutationEvent_detail set_row_flags MailboxMessageRow_mailbox_id
      MailboxMessageRow_local_uid MailboxMessageRow_flags]; rewrite ?Hmb, ?Huid; try done.
    f_equal. unfold rank. f_equal. cbn [w_db set_db set_mailbox_messages mailbox_messages].
    by rewrite count_update.
Qed.

(** ** Deletion *)
Section Removal.
Context `{PgText}.

Lemma silent_delete_cache account_id key : silent (delete_cache_object_for_account account_id key).
Proof. unfold delete_cache_object_for_account. silent_steps. Qed.
Hint Resolve silent_delete_cache : repo.

Lemma delete_change mb uid w w' n :
  delete_mailbox_message mb uid w = (w', Ok n) ->
  owner mb (w_db w') = owner mb (w_db w) /\
  mailbox_messages (w_db w') = delete_where (live_uid mb uid) (mailbox_messages (w_db w)) /\
  ((none_live mb uid (w_db w) /\ w_events w' = w_events w /\ w_sink w' = w_sink w) \/
   some_live mb uid (w_db w) /\ exists event, one_more event w w' /\
     Told mb uid w (rank mb uid (w_db w)) [] (lit "delete_mailbox_message:" ++ fmt_i uid) event).
Proof.
  intros E. pose proof (delete_message_rows _ _ _ _ _ E) as (Hrows & _ & _).
  assert (Howner : keeps (owner mb) (delete_mailbox_message mb uid)).
  { unfold delete_mailbox_message, delete_tx, mailbox_sequence_number_in_tx, account_id_for_mailbox,
      list_message_cache_objects, delete_cache_object_for_account. keep_steps. }
  split; [by rewrite <- (keeps_run _ _ _ _ _ Howner E)|]. split; [done|]. clear Howner Hrows.
  unfold delete_mailbox_message in E. inv_bind E. apply transaction_inv_Ok in Hstep.
  unfold delete_tx in Hstep. inv_bind Hstep. injection Hstep0 as <- <-.
  destruct (select (live_uid mb uid) (mailbox_messages (w_db w))) as [|row l] eqn:Es;
    cbn [head] in Hstep.
  { injection Hstep as <- <-. injection E as <- <-. left. done. }
  right. inv_bind Hstep. unfold mailbox_sequence_number_in_tx in Hstep0. inv_bind Hstep0.
  injection Hstep1 as <- <-. injection Hstep0 as <- <-. inv_bind Hstep.
  pose proof (keeps_run _ _ _ _ _ (owner_modseq mb mb None) Hstep0) as Ho.
  pose proof (keeps_run _ _ _ _ _ (keeps_assign_modseq mb None) Hstep0) as Hrows.
  pose proof (silent_run _ _ _ _ (silent_assign_modseq mb None) Hstep0) as [He Hs].
  inv_bind Hstep. injection Hstep1 as <- <-. inv_bind Hstep. injection Hstep1 as <- <-.
  injection Hstep as <- <-.
  assert (Hn : (0 <? count (live_uid mb uid) (mailbox_messages (w_db w1))) = true)
    by (rewrite Hrows; unfold count; rewrite Es; simpl; apply Z.ltb_lt; lia).
  rewrite Hn in E. inv_bind E. injection E as <- <-. inv_bind Hstep. injection Hstep1 as <- Hacc.
  set (w2 := set_db _ w1) in *.
  assert (Hacc' : x1 = owner mb (w_db w)) by (rewrite <- Ho, <- Hacc; reflexivity).
  destruct x1 as [account|]; [|done].
  inv_bind Hstep. injection Hstep1 as <- <-. inv_bind Hstep.
  match type of Hstep1 with ?m _ = _ => assert (Hsil : silent m) by silent_steps end.
  apply (silent_run _ _ _ _ Hsil) in Hstep1 as [He' Hs']. clear Hsil.
  inv_bind Hstep. injection Hstep1 as <- <-.
  eapply publish_one_more in Hstep as [Hone _]; [|by rewrite He'|by rewrite Hs'].
  split; [exists row; by eapply select_some_live|].
  eexists. split; [exact Hone|]. constructor; try done.
Qed.
End Removal.

(** ** Addition *)

(** A row of the new table that is not under the UID written was there before. *)
Lemma upsert_row_back uid modseq input w w' row r :
  upsert_mailbox_message_row uid modseq input w = (w', Ok row) ->
  In r (mailbox_messages (w_db w')) ->
  has_uid (NewMailboxMessage_mailbox_id input) uid r = false ->
  In r (mailbox_messages (w_db w)).
Proof.
  intros E Hr Hne. unfold upsert_mailbox_message_row in E.
  inv_bind E. injection Hstep as <- <-. inv_bind E. injection Hstep as <- <-.
  inv_bind E. injection Hstep as <- <-. cbn [w_db] in E.
  set (p := has_uid (NewMailboxMessage_mailbox_id input) uid) in *.
  destruct (select p (mailbox_messages (w_db w))) as [|r0 l] eqn:Es.
  all: inv_bind E; injection Hstep as <- <-; do 3 (inv_bind E;
    apply require_inv in Hstep as [-> _]); inv_bind E; injection Hstep as <- <-;
    injection E as <- <-; simpl in Hr.
  - apply in_app_iff in Hr as [Hr|[<-|[]]]; [done|]. unfold p, has_uid in Hne. simpl in Hne.
    by rewrite !Z.eqb_refl in Hne.
  - apply update_In in Hr as (r1 & Hr1 & ->). destruct (p r1) eqn:Ep; [|done].
    unfold p, has_uid in Hne, Ep. simpl in Hne. congruence.
Qed.

Lemma silent_upsert_row uid modseq input : silent (upsert_mailbox_message_row uid modseq input).
Proof. unfold upsert_mailbox_message_row. silent_steps. Qed.
Lemma owner_upsert_row mb uid modseq input :
  keeps (owner mb) (upsert_mailbox_message_row uid modseq input).
Proof.
  intros w. unfold upsert_mailbox_message_row.
  do 3 (erewrite bind_Ok by reflexivity). cbv zeta. cbn [w_db].
  destruct (select _ _); cbv beta iota; (erewrite bind_Ok by reflexivity); unfold require;
    (destruct (unique_by _ _); [|done]); (erewrite bind_Ok by reflexivity);
    (destruct (has_mailbox _ _); [|done]); (erewrite bind_Ok by reflexivity);
    (destruct (has_message _ _); [|done]); done.
Qed.

(** A message added with UID 0, as APPEND and COPY add it. *)
Definition added (mb message_id : Z) (flags : list str) : NewMailboxMessage :=
  mkNewMailboxMessage mb message_id 0 None None flags [] false None.

Lemma add_change mb message_id flags w w' m :
  upsert_mailbox_message (added mb message_id flags) w = (w', Ok m) ->
  owner mb (w_db w') = owner mb (w_db w) /\
  (exists row, m = MailboxMessage_from row /\ In row (mailbox_messages (w_db w')) /\
     live_in mb row = true /\ MailboxMessageRow_message_id row = message_id /\
     MailboxMessageRow_flags row = flags /\
     (forall r, In r (mailbox_messages (w_db w)) -> live_in mb r = true ->
        MailboxMessageRow_local_uid r < MailboxMessageRow_local_uid row /\
        In r (mailbox_messages (w_db w'))) /\
     (forall r, In r (mailbox_messages (w_db w')) -> live_in mb r = true ->
        MailboxMessageRow_local_uid r = MailboxMessageRow_local_uid row \/
        In r (mailbox_messages (w_db w)))) /\
  exists event uid n, one_more event w w' /\
    Told mb uid w n flags (lit "upsert_mailbox_message") event.
Proof.
  intros E. unfold upsert_mailbox_message in E. inv_bind E. destruct x as [row n].
  apply transaction_inv_Ok in Hstep. unfold upsert_tx in Hstep.
  cbn [NewMailboxMessage_local_uid NewMailboxMessage_mailbox_id NewMailboxMessage_modseq added
    Z.eqb] in Hstep.
  inv_bind Hstep. apply assign_uid_inv in Hstep0 as [-> Hfresh].
  inv_bind Hstep. pose proof (keeps_run _ _ _ _ _ (owner_modseq mb mb None) Hstep0) as Ho.
  pose proof (keeps_run _ _ _ _ _ (keeps_assign_modseq mb None) Hstep0) as Hrows.
  apply (silent_run _ _ _ _ (silent_assign_modseq mb None)) in Hstep0 as [He Hs].
  inv_bind Hstep. pose proof (keeps_run _ _ _ _ _ (owner_upsert_row mb _ _ _) Hstep0) as Ho'.
  pose proof (silent_run _ _ _ _ (silent_upsert_row _ _ _) Hstep0) as [He' Hs'].
  pose proof (fun r => upsert_row_back _ _ _ _ _ _ r Hstep0) as Hback.
  apply upsert_row_inv in Hstep0 as (Hin & Hkeep & Hmb & Huid & Hfl & Hmsg & Hup & Hex).
  cbn [NewMailboxMessage_mailbox_id NewMailboxMessage_message_id NewMailboxMessage_flags NewMailboxMessage_upstream_uid
    NewMailboxMessage_is_expunged added] in *.
  inv_bind Hstep. injection Hstep as -> -> ->.
  unfold mailbox_sequence_number_in_tx in Hstep0. inv_bind Hstep0. injection Hstep as <- <-.
  injection Hstep0 as <- Hn. inv_bind E. injection Hstep as <- Hacc. rewrite Hmb in Hacc.
  rewrite Hup in E. inv_bind E. injection Hstep as <- _. inv_bind E. injection Hstep as <- <-.
  inv_bind E. injection E as <- <-.
  apply (publish_one_more _ w) in Hstep as [Hone Hdb]; [|by rewrite He', He|by rewrite Hs', Hs].
  rewrite Hdb. split; [congruence|]. split.
  - exists row. split; [done|]. split; [done|].
    split; [unfold live_in; by rewrite Hmb, Hex, Z.eqb_refl|]. do 2 (split; [done|]).
    rewrite Huid. split.
    + intros r Hr Hl. pose proof (Hfresh r Hr Hl) as Hlt. split; [done|]. apply Hkeep; [by rewrite Hrows|].
      unfold has_uid. by rewrite (proj2 (Z.eqb_neq (MailboxMessageRow_local_uid r) _)), andb_false_r by lia.
    + intros r Hr Hl. destruct (Z.eq_dec (MailboxMessageRow_local_uid r) x) as [->|Hne]; [by left|].
      right. rewrite <- Hrows. apply Hback; [done|]. unfold has_uid.
      by rewrite (proj2 (Z.eqb_neq (MailboxMessageRow_local_uid r) _)), andb_false_r by lia.
  - eexists _, _, _. split; [exact Hone|].
    constructor; cbn [message_changed_with_context MutationEvent_new MutationEvent_account_id
      MutationEvent_mailbox_id MutationEvent_local_uid MutationEvent_sequence_number
      MutationEvent_flags MutationEvent_detail]; rewrite ?Hmb; try done.
    rewrite <- Hacc. unfold owner in *. congruence.
Qed.
