(* ===== verification/IdleSpecs.v ===== *)
(** * A client that idles stays in step

    The changes another session makes to the selected mailbox, the events the
    repository publishes for them and the lines the idling connection writes
    (crates/db/src/repository.rs, crates/imap-server/src/imap.rs), together: a
    client that follows the lines knows the number of messages and the flags it
    was told. *)

From stdpp Require Import base strings list.
From Stdlib Require Import ZArith Lia Permutation Sorting.Sorted.
From S2P Require Import Prelude RustStr Metrics Domain Protocol SearchQuery Storage Notifications Schema RepoCore Security RepoAccounts RepoMailboxes RepoMessages Invariant Integrity Scenario MessageSpecs Auth Mime Search Engine SearchEval Threads ImapText Ingest Mutations QueueSpecs ImapSession ImapFetch ImapCommands ImapServer ImapFrames ImapSoundness ImapScenario ImapSessionSpecs ImapSafetySpecs ImapMailSpecs IdleChanges.

Local Open Scope Z_scope.

(** ** What the changes do to the listing *)
Lemma order_by_map {A} (key : A -> Z) (g : A -> A) l :
  (forall x, key (g x) = key x) -> order_by key (map g l) = map g (order_by key l).
Proof.
  intros Hk. unfold order_by. induction l as [|x l IH]; simpl; [done|]. rewrite IH.
  generalize (sort_by (fun a b => key a <=? key b) l). intros s.
  induction s as [|y s IHs]; simpl; [done|]. rewrite !Hk. destruct (key x <=? key y); simpl; [done|].
  by rewrite IHs.
Qed.

Lemma rows_reflagged mb uid flags v t db db' :
  mailbox_messages db' = update (live_uid mb uid) (set_row_flags flags v t) (mailbox_messages db) ->
  mailbox_rows mb db' =
    map (fun r => if live_uid mb uid r then set_row_flags flags v t r else r) (mailbox_rows mb db).
Proof.
  intros E. unfold mailbox_rows. rewrite E, select_update by done. unfold update.
  apply order_by_map. intros r. by destruct (live_uid mb uid r).
Qed.

Lemma rows_deleted mb uid db seq db' seq' :
  db_ok db seq -> db_ok db' seq' ->
  mailbox_messages db' = delete_where (live_uid mb uid) (mailbox_messages db) ->
  mailbox_rows mb db' =
    List.filter (fun r => negb (MailboxMessageRow_local_uid r =? uid)) (mailbox_rows mb db).
Proof.
  intros Hok Hok' E. apply (strict_sorted_ext MailboxMessageRow_local_uid).
  - by eapply mailbox_rows_strict.
  - apply filter_strict_sorted. by eapply mailbox_rows_strict.
  - intros r. rewrite filter_In, !mailbox_rows_In, E, delete_where_In, negb_true_iff.
    unfold live_uid. destruct (live_in mb r); simpl; [tauto|]. intuition discriminate.
Qed.

Lemma rows_added mb row db seq db' seq' :
  db_ok db seq -> db_ok db' seq' -> In row (mailbox_messages db') -> live_in mb row = true ->
  (forall r, In r (mailbox_messages db) -> live_in mb r = true ->
     MailboxMessageRow_local_uid r < MailboxMessageRow_local_uid row /\ In r (mailbox_messages db')) ->
  (forall r, In r (mailbox_messages db') -> live_in mb r = true ->
     MailboxMessageRow_local_uid r = MailboxMessageRow_local_uid row \/ In r (mailbox_messages db)) ->
  mailbox_rows mb db' = mailbox_rows mb db ++ [row].
Proof.
  intros Hok Hok' Hin Hl Hold Hnew. apply (strict_sorted_ext MailboxMessageRow_local_uid).
  - by eapply mailbox_rows_strict.
  - assert (Hlt : forall r, In r (mailbox_rows mb db) ->
      MailboxMessageRow_local_uid r < MailboxMessageRow_local_uid row).
    { intros r Hr. apply mailbox_rows_In in Hr as [Hr Hlr]. by apply Hold. }
    pose proof (mailbox_rows_strict mb _ _ Hok) as Hs. revert Hlt.
    induction Hs as [|r l Hs IH Hr]; intros Hlt; simpl; [by repeat constructor|].
    constructor; [apply IH; intros; apply Hlt; by right|].
    rewrite List.Forall_forall in *. intros r' Hr'. apply in_app_iff in Hr' as [Hr'|[<-|[]]];
      [by apply Hr|]. unfold key_lt. apply Hlt. by left.
  - intros r. rewrite in_app_iff, !mailbox_rows_In. split.
    + intros [Hr Hlr]. destruct (Hnew r Hr Hlr) as [Hu|Hr0]; [|tauto]. right. left.
      destruct (ok_mailbox_messages _ _ Hok') as (_ & Hk & _).
      eapply (keys_ok_inj key_local_uid _ _ _ _ Hk Hin Hr); [reflexivity|].
      unfold live_in in *. b2p. unfold key_local_uid. congruence.
    + intros [[Hr Hlr]|[<-|[]]]; [|done]. split; [by apply Hold|done].
Qed.

Lemma filter_other {A} (key : A -> Z) l1 x l2 :
  StronglySorted (key_lt key) (l1 ++ x :: l2) ->
  List.filter (fun y => negb (key y =? key x)) (l1 ++ x :: l2) = l1 ++ l2.
Proof.
  intros Hs.
  assert (Hne : forall y, In y (l1 ++ l2) -> key y <> key x).
  { revert Hs. induction l1 as [|y l1 IH]; simpl; intros Hs z;
      apply StronglySorted_inv in Hs as [Hs Hx]; rewrite List.Forall_forall in Hx; unfold key_lt in Hx.
    - intros Hz. specialize (Hx z Hz). lia.
    - intros [<-|Hz]; [|by apply IH]. specialize (Hx x). rewrite in_app_iff in Hx.
      specialize (Hx (or_intror (or_introl eq_refl))). lia. }
  assert (Hall : forall l, (forall y, In y l -> key y <> key x) ->
    List.filter (fun y => negb (key y =? key x)) l = l).
  { induction l as [|y l IH]; simpl; intros Hl; [done|].
    rewrite (proj2 (Z.eqb_neq _ _)) by (by apply Hl; left). simpl. f_equal. apply IH. intros. apply Hl. by right. }
  rewrite List.filter_app. simpl. rewrite Z.eqb_refl. simpl.
  rewrite !Hall; [done| |]; intros y Hy; apply Hne, in_app_iff; tauto.
Qed.

Lemma position_map {A B} (f : A -> B) (p : B -> bool) l :
  position p (map f l) = position (fun x => p (f x)) l.
Proof. induction l as [|x l IH]; simpl; [done|]. by rewrite IH. Qed.

(** The row of a UID and its number. *)
Lemma row_position mb uid db seq row :
  db_ok db seq -> In row (mailbox_rows mb db) -> MailboxMessageRow_local_uid row = uid ->
  exists k, mailbox_rows mb db !! k = Some row /\ rank mb uid db = Z.of_nat k + 1 /\
    List.filter (fun r => negb (MailboxMessageRow_local_uid r =? uid)) (mailbox_rows mb db) =
      delete k (mailbox_rows mb db) /\
    position (fun m => MailboxMessage_local_uid m =? uid)
      (map MailboxMessage_from (mailbox_rows mb db)) = Some k.
Proof.
  intros Hok Hr <-. pose proof (mailbox_rows_strict mb _ _ Hok) as Hs.
  pose proof (lookup_rank _ _ _ Hs Hr) as Hk. eexists. split; [exact Hk|].
  split; [unfold rank; by rewrite sequence_number_rank|].
  set (k := length _) in *. assert (Hlen : length (take k (mailbox_rows mb db)) = k).
  { apply lookup_lt_Some in Hk. rewrite length_take. lia. }
  pose proof (take_drop_middle _ _ _ Hk) as Hsplit. rewrite position_map.
  rewrite <- Hsplit in Hs |- *. rewrite filter_other by done.
  destruct (filter_key _ _ _ _ Hs) as [_ Hp]. rewrite Hlen in Hp.
  split; [|exact Hp]. rewrite <- Hlen at 3. by rewrite delete_middle.
Qed.

Lemma strict_index {A} (key : A -> Z) l i j x y :
  StronglySorted (key_lt key) l -> l !! i = Some x -> l !! j = Some y -> key x = key y -> i = j.
Proof.
  intros Hs. revert i j. induction Hs as [|z l Hs IH Hz]; intros i j Hi Hj Hk; [done|].
  rewrite List.Forall_forall in Hz. unfold key_lt in Hz.
  assert (Hin : forall i x, l !! i = Some x -> key z < key x).
  { intros i' x' Hi'. apply Hz, list_elem_of_In. by eapply list_elem_of_lookup_2. }
  destruct i as [|i], j as [|j]; simpl in Hi, Hj; simplify_eq; [done| | |].
  - apply Hin in Hj. lia.
  - apply Hin in Hi. lia.
  - f_equal. by eapply IH.
Qed.

Lemma none_live_rows mb uid db r :
  none_live mb uid db -> In r (mailbox_rows mb db) -> live_uid mb uid r = false.
Proof.
  intros Hn Hr. apply mailbox_rows_In in Hr as [Hr _]. destruct (live_uid mb uid r) eqn:E; [|done].
  assert (Hin : In r []) by (rewrite <- Hn; by apply select_In). done.
Qed.

(** ** The client's view *)

(** What the connection tells the client. *)
Inductive Notice : Type :=
| NExpunge (n : Z)
| NFlags (n : Z) (flags : list str)
| NExists (n : Z).

Definition notice_line (notice : Notice) : str :=
  match notice with
  | NExpunge n => lit "* " ++ fmt_i n ++ lit " EXPUNGE"
  | NFlags n flags =>
      lit "* " ++ fmt_i n ++ lit " FETCH (FLAGS (" ++ join (lit " ") flags ++ lit "))"
  | NExists n => lit "* " ++ fmt_i n ++ lit " EXISTS"
  end.

(** The client's record of the mailbox: an entry per message, with the flags it
    knows. *)
Abbreviation Mirror := (list (option (list str))).

(** RFC 3501, 7.3 and 7.4: EXPUNGE takes an entry away, FETCH tells its flags,
    EXISTS tells how many there are. *)
Definition follow (mirror : Mirror) (notice : Notice) : Mirror :=
  match notice with
  | NExpunge n => remove_at n mirror
  | NFlags n flags => <[Z.to_nat (n - 1) := Some flags]> mirror
  | NExists n => mirror ++ replicate (Z.to_nat n - length mirror) None
  end.

Definition knows (known : option (list str)) (m : MailboxMessage) : Prop :=
  forall flags, known = Some flags -> flags = MailboxMessage_flags m.

(** As many entries as messages, and the known flags are right. *)
Definition in_step (mirror : Mirror) (ms : list MailboxMessage) : Prop := Forall2 knows mirror ms.

Lemma remove_at_delete {A} k (l : list A) : remove_at (Z.of_nat k + 1) l = delete k l.
Proof.
  unfold remove_at. rewrite delete_take_drop. f_equal; f_equal; lia.
Qed.

Lemma step_expunge mirror ms k : in_step mirror ms ->
  in_step (follow mirror (NExpunge (Z.of_nat k + 1))) (delete k ms).
Proof. intros Hs. simpl. rewrite remove_at_delete. by apply Forall2_delete. Qed.

Lemma step_exists mirror ms m : in_step mirror ms ->
  in_step (follow mirror (NExists (Z.of_nat (length (ms ++ [m]))))) (ms ++ [m]).
Proof.
  intros Hs. simpl. rewrite length_app, (Forall2_length _ _ _ Hs). simpl.
  replace (Z.to_nat _ - length ms)%nat with 1%nat by lia. simpl.
  apply Forall2_app; [done|]. constructor; [|constructor]. by intros flags [=].
Qed.

(** New flags of the message at [k]; the others are as they were. *)
Lemma step_flags mirror ms ms' k flags m' :
  in_step mirror ms -> length ms' = length ms ->
  ms' !! k = Some m' -> MailboxMessage_flags m' = flags ->
  (forall i m, i <> k -> ms' !! i = Some m -> exists m0, ms !! i = Some m0 /\
     MailboxMessage_flags m0 = MailboxMessage_flags m) ->
  in_step (follow mirror (NFlags (Z.of_nat k + 1) flags)) ms'.
Proof.
  intros Hs Hlen Hk Hf Hoth. simpl. replace (Z.to_nat (Z.of_nat k + 1 - 1)) with k by lia.
  apply Forall2_same_length_lookup. rewrite length_insert.
  apply Forall2_same_length_lookup in Hs as [Hl Hs]. split; [congruence|].
  intros i o m Ho Hm. destruct (decide (i = k)) as [->|Hne].
  - rewrite Hk in Hm. injection Hm as <-. apply list_lookup_insert_Some in Ho as [(_ & <- & _)|[]]; [|done].
    by intros f [= <-].
  - rewrite list_lookup_insert_ne in Ho by done. destruct (Hoth i m Hne Hm) as (m0 & Hm0 & Hf0).
    unfold knows. rewrite <- Hf0. by apply (Hs i).
Qed.

(** ** The idling connection *)
Section Idle.
Context {O U X L T : Type} `{ObjectStore O} `{UpstreamClient U} `{SearchBackend X} `{Authenticator T}.
Context `{PgText}.
Variable services : AppServices.
Hypothesis repository : has_repository services = true.
Abbreviation Sv := (Server O U X L T).
Implicit Types sv : Sv.

(** A change another session makes to the mailbox. *)
Inductive Change : Type :=
| Reflag (uid : Z) (flags : list str)
| Remove (uid : Z)
| Add (message_id : Z) (flags : list str).

Definition change_call (mb : Z) (change : Change) : Repo unit :=
  match change with
  | Reflag uid flags => update_mailbox_message_flags mb uid flags ;;; ret tt
  | Remove uid => delete_mailbox_message mb uid ;;; ret tt
  | Add message_id flags => upsert_mailbox_message (added mb message_id flags) ;;; ret tt
  end.

(** The connection is woken by each event; [false] when it stops idling. *)
Fixpoint deliver (tag : str) (events : list MutationEvent) : M Error Sv bool :=
  match events with
  | [] => ret true
  | event :: events' =>
      do more <- idle_on_wake services tag (WakeEvent event) ;;
      if more : bool then deliver tag events' else ret false
  end.

(** One change on the shared database, then the events it published. *)
Definition observe (tag : str) (mb : Z) (change : Change) : M Error Sv bool :=
  do before <- gets (fun sv => length (w_events (sv_world sv))) ;;
  on_db (change_call mb change) ;;;
  do events <- gets (fun sv => drop before (w_events (sv_world sv))) ;;
  deliver tag events.

Fixpoint observe_all (tag : str) (mb : Z) (changes : list Change) : M Error Sv bool :=
  match changes with
  | [] => ret true
  | change :: changes' =>
      do more <- observe tag mb change ;;
      if more : bool then observe_all tag mb changes' else ret false
  end.

(** The selected mailbox of the connection is [mb] of the account [a], the
    repository tells its sink, and the client's mirror is right. *)
Definition idling (mb a : Z) (mirror : Mirror) (sv : Sv) : Prop :=
  engine_ok (sv_engine sv) /\ w_sink (sv_world sv) = true /\
  owner mb (w_db (sv_world sv)) = Some a /\
  selected_mailbox_snapshot (sv_session sv) =
    Some (mkSelectedMailboxSnapshot a mb (Z.of_nat (length mirror))) /\
  in_step mirror (listing mb sv).

(** Hearing one notice: the line is written, the snapshot counts the messages,
    and nothing else changes. *)
Definition heard (mb a : Z) (notices : list Notice) (sv sv' : Sv) : Prop :=
  sv_engine sv' = sv_engine sv /\
  sv_wire sv' = sv_wire sv ++ flat_map (fun n => as_bytes (notice_line n) ++ crlf) notices /\
  selected_mailbox_snapshot (sv_session sv') =
    Some (mkSelectedMailboxSnapshot a mb (Z.of_nat (length (listing mb sv)))).

Lemma count_messages_run mb sv :
  count_messages mb sv = (sv, Ok (Z.of_nat (length (listing mb sv)))).
Proof.
  unfold count_messages, list_mailbox_messages. by erewrite bind_Ok by apply on_db_query.
Qed.

Section Hear.
Variables (tag : str) (mb a uid n : Z) (w : World) (flags : list str) (cnt : Z).
Variable event : MutationEvent.
Variable sv : Sv.
Hypothesis Hsnap : selected_mailbox_snapshot (sv_session sv) = Some (mkSelectedMailboxSnapshot a mb cnt).
Hypothesis Howner : owner mb (w_db w) = Some a.

Lemma told_concerns detail :
  Told mb uid w n flags detail event ->
  concerns (mkSelectedMailboxSnapshot a mb cnt) event = true.
Proof using Howner.
  intros [Ha Hmb _ _ _ _]. unfold concerns. cbn [snapshot_account_id snapshot_mailbox_id].
  rewrite Ha, Hmb, Howner. by rewrite !bool_decide_true.
Qed.

Lemma hear_expunge :
  Told mb uid w n flags (lit "delete_mailbox_message:" ++ fmt_i uid) event ->
  exists sv', idle_on_wake services tag (WakeEvent event) sv = (sv', Ok true) /\
    heard mb a [NExpunge n] sv sv'.
Proof using All.
  intros Ht. pose proof (told_concerns _ Ht) as Hc. destruct Ht as [_ _ _ Hn _ Hd].
  unfold idle_on_wake, idle_on_event, idle_notification_for_event.
  assert (Hdel : str_contains (MutationEvent_detail event) (lit "delete_mailbox_message") = true)
    by (rewrite Hd; reflexivity).
  erewrite bind_Ok.
  2: { erewrite bind_Ok by reflexivity. rewrite Hsnap, Hc, repository. cbn [negb orb].
       unfold expunge_notice. rewrite Hdel, Hn.
       erewrite bind_Ok by (erewrite bind_Ok by apply count_messages_run; reflexivity). reflexivity. }
  eexists. split; [reflexivity|]. unfold heard. cbn [flat_map]. by rewrite app_nil_r.
Qed.

(** The line about the flags of the message at [k]. *)
Lemma flags_line k :
  position (fun m => MailboxMessage_local_uid m =? uid) (listing mb sv) = Some k ->
  (do sequence_number <- on_engine (sequence_number_for_local_uid mb uid) ;;
   match sequence_number with
   | Some sequence_number =>
       do exists_count <- count_messages mb ;;
       refresh_snapshot (mkSelectedMailboxSnapshot a mb cnt) exists_count ;;;
       ret (Some (lit "* " ++ fmt_i sequence_number ++ lit " FETCH (FLAGS (" ++
                  join (lit " ") flags ++ lit "))"))
   | None => ret None
   end) sv =
  (mkServer (set_selected_mailbox_snapshot
       (Some (mkSelectedMailboxSnapshot a mb (Z.of_nat (length (listing mb sv))))) (sv_session sv))
     (sv_engine sv) (sv_auth sv) (sv_input sv) (sv_wire sv),
   Ok (Some (notice_line (NFlags (Z.of_nat k + 1) flags)))).
Proof.
  intros Hk. erewrite bind_Ok.
  2: { apply on_engine_run. unfold sequence_number_for_local_uid, list_mailbox_messages.
       erewrite bind_Ok by apply on_repo_query. reflexivity. }
  unfold listing, sv_world in *. rewrite Hk. cbn [fmap option_fmap option_map].
  destruct sv as [session engine auth input wire].
  erewrite bind_Ok by apply count_messages_run. reflexivity.
Qed.

Lemma hear_flags k :
  Told mb uid w n flags (lit "update_mailbox_message_flags") event ->
  position (fun m => MailboxMessage_local_uid m =? uid) (listing mb sv) = Some k ->
  exists sv', idle_on_wake services tag (WakeEvent event) sv = (sv', Ok true) /\
    heard mb a [NFlags (Z.of_nat k + 1) flags] sv sv'.
Proof using All.
  intros Ht Hk. pose proof (told_concerns _ Ht) as Hc. destruct Ht as [_ _ Hu _ Hf Hd].
  unfold idle_on_wake, idle_on_event, idle_notification_for_event.
  erewrite bind_Ok.
  2: { erewrite bind_Ok by reflexivity. rewrite Hsnap, Hc, repository. cbn [negb orb].
       unfold expunge_notice. rewrite Hd.
       change (str_contains (lit "update_mailbox_message_flags") (lit "delete_mailbox_message"))
         with false. cbv iota.
       erewrite bind_Ok by reflexivity. unfold flags_notice. rewrite Hd, Hu, Hf.
       change (str_contains (lit "update_mailbox_message_flags") (lit "update_mailbox_message_flags"))
         with true. cbn [orb snapshot_mailbox_id]. cbv zeta.
       rewrite (bind_Ok _ _ _ _ _ (flags_line k Hk)). reflexivity. }
  eexists. split; [reflexivity|]. unfold heard. destruct sv as [session engine auth input wire].
  cbn [flat_map]. by rewrite app_nil_r.
Qed.

Lemma hear_exists :
  Told mb uid w n flags (lit "upsert_mailbox_message") event ->
  cnt < Z.of_nat (length (listing mb sv)) ->
  exists sv', idle_on_wake services tag (WakeEvent event) sv = (sv', Ok true) /\
    heard mb a [NExists (Z.of_nat (length (listing mb sv)))] sv sv'.
Proof using All.
  intros Ht Hlt. pose proof (told_concerns _ Ht) as Hc. destruct Ht as [_ _ Hu _ Hf Hd].
  unfold idle_on_wake, idle_on_event, idle_notification_for_event.
  erewrite bind_Ok.
  2: { erewrite bind_Ok by reflexivity. rewrite Hsnap, Hc, repository. cbn [negb orb].
       unfold expunge_notice, flags_notice. rewrite Hd.
       change (str_contains (lit "upsert_mailbox_message") (lit "delete_mailbox_message"))
         with false.
       change (str_contains (lit "upsert_mailbox_message") (lit "update_mailbox_message_flags") ||
               str_contains (lit "upsert_mailbox_message") (lit "store_flags")) with false.
       cbv iota zeta. erewrite bind_Ok by reflexivity. cbv iota. erewrite bind_Ok by reflexivity.
       cbv iota. unfold count_notice. erewrite bind_Ok by apply count_messages_run. cbv zeta.
       cbn [snapshot_exists_count]. rewrite (proj2 (Z.ltb_lt _ _)) by done. reflexivity. }
  eexists. split; [reflexivity|]. unfold heard. cbn [flat_map]. by rewrite app_nil_r.
Qed.
End Hear.

(** The state after a change, before the connection hears of it. *)
Definition changed (w' : World) (sv : Sv) : Sv :=
  mkServer (sv_session sv)
    (mkEngine w' (e_store (sv_engine sv)) (e_upstream (sv_engine sv)) (e_search (sv_engine sv))
       (e_lock (sv_engine sv)) (e_metrics (sv_engine sv)))
    (sv_auth sv) (sv_input sv) (sv_wire sv).

Lemma observe_run tag mb change w' events sv sv' :
  change_call mb change (sv_world sv) = (w', Ok tt) ->
  w_events w' = w_events (sv_world sv) ++ events ->
  deliver tag events (changed w' sv) = (sv', Ok true) ->
  observe tag mb change sv = (sv', Ok true).
Proof.
  intros Hc He Hd. unfold observe. erewrite bind_Ok by reflexivity.
  erewrite bind_Ok by (apply on_engine_run, on_repo_spec; exact Hc). erewrite bind_Ok by reflexivity.
  fold (changed w' sv). change (sv_world (changed w' sv)) with w'. rewrite He.
  by rewrite drop_app_length.
Qed.

Lemma silent_observe tag mb a mirror change w' sv :
  idling mb a mirror sv -> change_call mb change (sv_world sv) = (w', Ok tt) ->
  db_ok (w_db w') (w_seq w') -> owner mb (w_db w') = owner mb (w_db (sv_world sv)) ->
  mailbox_rows mb (w_db w') = mailbox_rows mb (w_db (sv_world sv)) ->
  w_events w' = w_events (sv_world sv) -> w_sink w' = w_sink (sv_world sv) ->
  exists sv', observe tag mb change sv = (sv', Ok true) /\ sv_world sv' = w' /\
    sv_wire sv' = sv_wire sv /\ idling mb a mirror sv'.
Proof.
  intros (Hok & Hsink & Ho & Hsnap & Hstep) Hc Hok' Ho' Hrows He Hs. exists (changed w' sv).
  split; [|split; [done|split; [done|]]].
  - eapply (observe_run _ _ _ _ []); [exact Hc|by rewrite app_nil_r|done].
  - unfold idling. change (sv_world (changed w' sv)) with w'. rewrite Ho', Hs.
    split_and!; try done. unfold listing in *. change (sv_world (changed w' sv)) with w'.
    by rewrite Hrows.
Qed.

(** A change the connection hears of with one line. *)
Lemma heard_observe tag mb a mirror change w' sv event notice :
  idling mb a mirror sv -> change_call mb change (sv_world sv) = (w', Ok tt) ->
  db_ok (w_db w') (w_seq w') -> owner mb (w_db w') = owner mb (w_db (sv_world sv)) ->
  one_more event (sv_world sv) w' ->
  (exists sv', idle_on_wake services tag (WakeEvent event) (changed w' sv) = (sv', Ok true) /\
     heard mb a [notice] (changed w' sv) sv') ->
  in_step (follow mirror notice) (map MailboxMessage_from (mailbox_rows mb (w_db w'))) ->
  exists sv', observe tag mb change sv = (sv', Ok true) /\ sv_world sv' = w' /\
    sv_wire sv' = sv_wire sv ++ as_bytes (notice_line notice) ++ crlf /\
    idling mb a (follow mirror notice) sv'.
Proof.
  intros (Hok & Hsink & Ho & _ & _) Hc Hok' Ho' [He Hs] (sv' & Hw & Hen & Hwire & Hsn) Hstep.
  rewrite Hsink in He, Hs. exists sv'.
  assert (Hworld : sv_world sv' = w') by (unfold sv_world; by rewrite Hen).
  assert (Hlist : listing mb sv' = map MailboxMessage_from (mailbox_rows mb (w_db w')))
    by (unfold listing; by rewrite Hworld).
  split; [|split; [done|split]].
  - eapply observe_run; [exact Hc|exact He|]. simpl deliver. by rewrite (bind_Ok _ _ _ _ _ Hw).
  - rewrite Hwire. simpl flat_map. by rewrite app_nil_r.
  - unfold idling. rewrite Hworld, Hsn, Hlist. unfold engine_ok, sv_world in *. rewrite Hworld.
    split_and!; try done; [by rewrite Ho'|]. rewrite (Forall2_length _ _ _ Hstep). done.
Qed.

Lemma change_safe mb change w :
  db_ok (w_db w) (w_seq w) ->
  db_ok (w_db (fst (change_call mb change w))) (w_seq (fst (change_call mb change w))).
Proof.
  intros Hok. assert (Hs : safe (change_call mb change)).
  { destruct change; (apply safe_bind; [|intros; apply safe_ret]);
      [apply safe_update_flags|apply safe_delete_mailbox_message|apply safe_upsert_mailbox_message]. }
  by destruct (Hs (w_seq w) w) as [Hok' _].
Qed.

(** What each change comes to. *)
Lemma reflag_in_step mb uid flags w w' r mirror event :
  db_ok (w_db w') (w_seq w') ->
  update_mailbox_message_flags mb uid flags w = (w', Ok r) -> some_live mb uid (w_db w) ->
  one_more event w w' ->
  in_step mirror (map MailboxMessage_from (mailbox_rows mb (w_db w))) ->
  exists k, position (fun m => MailboxMessage_local_uid m =? uid)
      (map MailboxMessage_from (mailbox_rows mb (w_db w'))) = Some k /\
    in_step (follow mirror (NFlags (Z.of_nat k + 1) flags))
      (map MailboxMessage_from (mailbox_rows mb (w_db w'))).
Proof.
  intros Hok' E (row & Hrow & Hl) _ Hstep.
  apply flags_change in E as (_ & (v & t & Hrows) & _). apply rows_reflagged in Hrows.
  set (g := fun r => if live_uid mb uid r then set_row_flags flags v t r else r) in *.
  pose proof (live_uid_key _ _ _ Hl) as Hkey. injection Hkey as Hmb Huid.
  assert (Hin : In (g row) (mailbox_rows mb (w_db w'))).
  { rewrite Hrows. apply in_map, mailbox_rows_In. split; [done|].
    unfold live_uid in Hl. by apply andb_true_iff in Hl as [Hl _]. }
  assert (Hg : g row = set_row_flags flags v t row) by (unfold g; by rewrite Hl).
  destruct (row_position mb uid _ _ _ Hok' Hin) as (k & Hk & _ & _ & Hpos); [by rewrite Hg|].
  exists k. split; [done|].
  apply step_flags with (ms := map MailboxMessage_from (mailbox_rows mb (w_db w)))
    (m' := MailboxMessage_from (g row)); [done| | |by rewrite Hg|].
  - rewrite Hrows. by rewrite !length_map.
  - by rewrite list_lookup_fmap, Hk.
  - intros i m Hne Hi. apply list_lookup_fmap_Some in Hi as (r1 & -> & Hi). pose proof Hi as Hi'.
    rewrite Hrows in Hi'. apply list_lookup_fmap_Some in Hi' as (r0 & -> & Hi0).
    exists (MailboxMessage_from r0). split; [by rewrite list_lookup_fmap, Hi0|].
    unfold g in *. destruct (live_uid mb uid r0) eqn:E0; [|done]. exfalso. apply Hne.
    eapply (strict_index MailboxMessageRow_local_uid); [by eapply mailbox_rows_strict|exact Hi|exact Hk|].
    apply live_uid_key in E0. injection E0 as _ E0. rewrite Hl. simpl. congruence.
Qed.

Lemma remove_in_step mb uid w w' n mirror :
  db_ok (w_db w) (w_seq w) -> db_ok (w_db w') (w_seq w') ->
  delete_mailbox_message mb uid w = (w', Ok n) -> some_live mb uid (w_db w) ->
  in_step mirror (map MailboxMessage_from (mailbox_rows mb (w_db w))) ->
  in_step (follow mirror (NExpunge (rank mb uid (w_db w))))
    (map MailboxMessage_from (mailbox_rows mb (w_db w'))).
Proof.
  intros Hok Hok' E (row & Hrow & Hl) Hstep.
  apply delete_change in E as (_ & Hrows & _).
  rewrite (rows_deleted mb uid _ _ _ _ Hok Hok' Hrows).
  pose proof (live_uid_key _ _ _ Hl) as Hkey. injection Hkey as Hmb Huid.
  destruct (row_position mb uid _ _ row Hok) as (k & _ & -> & -> & _); [|done|].
  { apply mailbox_rows_In. unfold live_uid in Hl. by apply andb_true_iff in Hl as [Hl _]. }
  rewrite list_fmap_delete. by apply step_expunge.
Qed.

(** The connection observed a change: it still idles, wrote the lines of some
    notices, and the client that follows them is in step. *)
Definition observed (tag : str) (mb a : Z) (mirror : Mirror) (change : Change) (sv : Sv) (w' : World)
  : Prop :=
  exists notices sv', observe tag mb change sv = (sv', Ok true) /\ sv_world sv' = w' /\
    sv_wire sv' = sv_wire sv ++ flat_map (fun n => as_bytes (notice_line n) ++ crlf) notices /\
    idling mb a (fold_left follow notices mirror) sv'.

Section Cases.
Variables (tag : str) (mb a : Z) (mirror : Mirror) (sv : Sv) (w' : World).
Hypothesis Hid : idling mb a mirror sv.
Hypothesis Hok' : db_ok (w_db w') (w_seq w').

Lemma observed_quiet change :
  change_call mb change (sv_world sv) = (w', Ok tt) ->
  owner mb (w_db w') = owner mb (w_db (sv_world sv)) ->
  mailbox_rows mb (w_db w') = mailbox_rows mb (w_db (sv_world sv)) ->
  w_events w' = w_events (sv_world sv) -> w_sink w' = w_sink (sv_world sv) ->
  observed tag mb a mirror change sv w'.
Proof using All.
  intros. destruct (silent_observe tag mb a mirror change w' sv) as (sv' & ? & ? & ? & ?); try done.
  exists [], sv'. simpl flat_map. by rewrite app_nil_r.
Qed.

Lemma observed_loud change event notice :
  change_call mb change (sv_world sv) = (w', Ok tt) ->
  owner mb (w_db w') = owner mb (w_db (sv_world sv)) -> one_more event (sv_world sv) w' ->
  (exists sv', idle_on_wake services tag (WakeEvent event) (changed w' sv) = (sv', Ok true) /\
     heard mb a [notice] (changed w' sv) sv') ->
  in_step (follow mirror notice) (map MailboxMessage_from (mailbox_rows mb (w_db w'))) ->
  observed tag mb a mirror change sv w'.
Proof using All.
  intros. destruct (heard_observe tag mb a mirror change w' sv event notice)
    as (sv' & ? & ? & ? & ?); try done.
  exists [notice], sv'. simpl flat_map. by rewrite app_nil_r.
Qed.

Lemma observed_reflag uid flags :
  change_call mb (Reflag uid flags) (sv_world sv) = (w', Ok tt) ->
  observed tag mb a mirror (Reflag uid flags) sv w'.
Proof using All.
  intros Hc. pose proof Hid as (_ & _ & Ho & Hsnap & Hstep). pose proof Hc as Hrun.
  unfold change_call in Hrun. inv_bind Hrun. injection Hrun as ->.
  pose proof Hstep0 as Hrun. apply flags_change in Hrun as (Ho' & (v & t & Hrows) & Hev).
  destruct Hev as [(Hn & He & Hs)|(Hsome & event & Hone & Ht)].
  - apply observed_quiet; try done. rewrite (rows_reflagged _ _ _ _ _ _ _ Hrows).
    rewrite <- (map_id (mailbox_rows mb (w_db (sv_world sv)))) at 2. apply map_ext_in.
    intros r Hr. by rewrite (none_live_rows _ _ _ _ Hn Hr).
  - destruct (reflag_in_step _ _ _ _ _ _ mirror _ Hok' Hstep0 Hsome Hone Hstep) as (k & Hk & Hs).
    eapply observed_loud; [done|done|exact Hone| |exact Hs].
    by eapply (hear_flags tag mb a uid _ (sv_world sv) flags (Z.of_nat (length mirror)) event
                 (changed w' sv)).
Qed.

Lemma observed_remove uid :
  change_call mb (Remove uid) (sv_world sv) = (w', Ok tt) ->
  observed tag mb a mirror (Remove uid) sv w'.
Proof using All.
  intros Hc. pose proof Hid as (Hok & _ & Ho & Hsnap & Hstep). pose proof Hc as Hrun.
  unfold change_call in Hrun. inv_bind Hrun. injection Hrun as ->.
  pose proof Hstep0 as Hrun. apply delete_change in Hrun as (Ho' & Hrows & Hev).
  destruct Hev as [(Hn & He & Hs)|(Hsome & event & Hone & Ht)].
  - apply observed_quiet; try done. rewrite (rows_deleted mb uid _ _ _ _ Hok Hok' Hrows).
    apply List.forallb_filter_id, forallb_forall. intros r Hr.
    pose proof (none_live_rows _ _ _ _ Hn Hr) as Hl. unfold live_uid in Hl.
    apply mailbox_rows_In in Hr as [_ Hlr]. rewrite Hlr in Hl. simpl in Hl. by rewrite Hl.
  - apply (observed_loud _ event (NExpunge (rank mb uid (w_db (sv_world sv)))));
      [done|done|exact Hone| |exact (remove_in_step _ _ _ _ _ mirror Hok Hok' Hstep0 Hsome Hstep)].
    by eapply (hear_expunge tag mb a uid _ (sv_world sv) [] (Z.of_nat (length mirror)) event
                 (changed w' sv)).
Qed.

Lemma observed_add message_id flags :
  change_call mb (Add message_id flags) (sv_world sv) = (w', Ok tt) ->
  observed tag mb a mirror (Add message_id flags) sv w'.
Proof using All.
  intros Hc. pose proof Hid as (Hok & _ & Ho & Hsnap & Hstep). pose proof Hc as Hrun.
  unfold change_call in Hrun. inv_bind Hrun. injection Hrun as ->.
  apply add_change in Hstep0 as (Ho' & (row & -> & Hin & Hl & _ & _ & Hold & Hnew) & event & uid & n & Hone & Ht).
  pose proof (rows_added mb row _ _ _ _ Hok Hok' Hin Hl Hold Hnew) as Hrows.
  fold (sv_world sv) in Hrows.
  set (notice := NExists (Z.of_nat (length (map MailboxMessage_from (mailbox_rows mb (w_db w')))))).
  apply (observed_loud _ event notice); [done|done|done| |].
  - eapply (hear_exists tag mb a uid _ (sv_world sv) flags (Z.of_nat (length mirror)) event
              (changed w' sv)); [done|done|exact Ht|].
    rewrite (Forall2_length _ _ _ Hstep). unfold listing. change (sv_world (changed w' sv)) with w'.
    rewrite Hrows, map_app, length_app. simpl length. lia.
  - unfold notice. rewrite Hrows, map_app. by apply step_exists.
Qed.

Lemma observed_change change :
  change_call mb change (sv_world sv) = (w', Ok tt) -> observed tag mb a mirror change sv w'.
Proof using All.
  destruct change; [apply observed_reflag|apply observed_remove|apply observed_add].
Qed.
End Cases.

(** C5 An idling client stays in step with the mailbox.  Other sessions change the
    selected mailbox in any way (new flags, deletions, additions, in any order and
    any number), and the connection is woken by the event of each change before
    the next one.  Then it goes on idling, leaves the database alone, and what it
    writes are EXPUNGE, FETCH FLAGS and EXISTS lines such that a client that
    follows them, one after the other, has as many entries as the mailbox has
    messages, and every flag list it was told is that of the message at that
    number. *)
Theorem idle_client_stays_in_step tag mb a changes mirror sv w' :
  idling mb a mirror sv ->
  for_each changes (change_call mb) (sv_world sv) = (w', Ok tt) ->
  exists notices sv',
    observe_all tag mb changes sv = (sv', Ok true) /\ sv_world sv' = w' /\
    sv_wire sv' = sv_wire sv ++ flat_map (fun n => as_bytes (notice_line n) ++ crlf) notices /\
    in_step (fold_left follow notices mirror) (listing mb sv').
Proof.
  revert mirror sv. induction changes as [|change changes IH]; intros mirror sv Hid E; simpl in E.
  { injection E as <-. exists [], sv. simpl. rewrite app_nil_r. split_and!; try done. apply Hid. }
  inv_bind E. destruct x. pose proof (change_safe mb change _ (proj1 Hid)) as Hok.
  fold (sv_world sv) in Hok. rewrite Hstep in Hok. cbn [fst] in Hok.
  destruct (observed_change tag mb a mirror sv _ Hid Hok change Hstep) as
    (ns & sv1 & Hobs & Hw & Hwire & Hid1).
  rewrite <- Hw in E. destruct (IH _ sv1 Hid1 E) as (ns' & sv' & Hall & Hw' & Hwire' & Hstep').
  exists (ns ++ ns'), sv'. cbn [observe_all]. rewrite (bind_Ok _ _ _ _ _ Hobs).
  rewrite flat_map_app, app_assoc, <- Hwire, fold_left_app. done.
Qed.
End Idle.

(** After SELECT the client knows how many messages there are. *)
Lemma fresh_mirror ms : in_step (replicate (length ms) None) ms.
Proof. induction ms as [|m ms IH]; simpl; constructor; [by intros f [=]|done]. Qed.

(** ** A concrete history *)
Definition history : list Change := [Reflag 2 [lit "\Seen"]; Remove 1; Add 3 []].
(** A client that selected INBOX after its counts were refreshed. *)
Definition counted : Srv := fst (on_db (refresh_mailbox_counts 1) (snd login_turn)).
Definition watching : Srv := after (command "a2" "SELECT" ["INBOX"]) counted.
Definition history_world : World := fst (for_each history (change_call 1) (sv_world watching)).

Lemma watching_ok : engine_ok (sv_engine watching).
Proof.
  apply after_ok. unfold counted, on_db, on_engine, zoom.
  pose proof (preserves_on_repo _ (safe_refresh_mailbox_counts 1) _ login_ok) as Hok.
  by destruct (on_repo (refresh_mailbox_counts 1) (sv_engine (snd login_turn))).
Qed.
Lemma watching_facts :
  w_sink (sv_world watching) = true /\ owner 1 (w_db (sv_world watching)) = Some 1 /\
  selected_mailbox_snapshot (sv_session watching) = Some (mkSelectedMailboxSnapshot 1 1 3) /\
  length (listing 1 watching) = 3%nat.
Proof. by vm_compute. Qed.
Lemma history_run : for_each history (change_call 1) (sv_world watching) = (history_world, Ok tt).
Proof. by vm_compute. Qed.

Lemma watching_idling : idling 1 1 (replicate 3 None) watching.
Proof.
  destruct watching_facts as (Hs & Ho & Hsn & Hl). split; [apply watching_ok|].
  split; [exact Hs|]. split; [exact Ho|]. split; [exact Hsn|]. rewrite <- Hl. apply fresh_mirror.
Qed.

Lemma idle_client_stays_in_step_witness : exists notices sv',
  observe_all services (lit "a3") 1 history watching = (sv', Ok true) /\
  sv_world sv' = history_world /\
  sv_wire sv' = sv_wire watching ++ flat_map (fun n => as_bytes (notice_line n) ++ crlf) notices /\
  in_step (fold_left follow notices (replicate 3 None)) (listing 1 sv').
Proof.
  exact (idle_client_stays_in_step services eq_refl (lit "a3") 1 1 history (replicate 3 None) watching
           history_world watching_idling history_run).
Defined.

(** The lines the client reads. *)
Example history_lines :
  drop (length (sv_wire watching))
    (sv_wire (fst (observe_all services (lit "a3") 1 history watching))) =
  crlf_lines ["* 2 FETCH (FLAGS (\Seen))"; "* 1 EXPUNGE"; "* 3 EXISTS"]%string.
Proof. by vm_compute. Qed.
