(* ===== verification/QuotaSpecs.v ===== *)
(** * Quotas and ingestion

    The bytes [ingest_parsed_message] of crates/sync/src/lib.rs accounts for, and
    the quota it checks before it writes. *)

From stdpp Require Import base strings list gmap.
From Stdlib Require Import ZArith Lia.
From S2P Require Import Prelude RustStr Metrics Domain Storage Notifications Schema RepoCore RepoAccounts RepoMailboxes RepoMessages Invariant Integrity Scenario MessageSpecs Mime Search Engine Ingest QueueSpecs SyncEngine SyncSpecs Convergence Serving.

Local Open Scope Z_scope.

Lemma as_i64_small z : 0 <= z <= i64_max -> as_i64 z = z.
Proof. intros Hz. unfold as_i64, i64_min, i64_max in *. rewrite Z.mod_small; lia. Qed.

(** ** What is accounted for *)
Section Accounting.
Context {O U X L : Type} `{SearchBackend X} `{Sha256, MimeParser}
  `{ObjectStore O} `{!ObjectStoreLaws O}.
Variable has_search : bool.
Implicit Types e : Engine O U X L.
Local Abbreviation quotas_of e := (quotas (w_db (e_world e))).

(** A put that is accepted reports the length of the bytes. *)
Lemma put_reports key b e e' md :
  store_ok (e_store e) -> on_store (store_put key b) e = (e', Ok md) ->
  ObjectMetadata_size_octets md = Z.of_nat (length b) /\ store_ok (e_store e').
Proof.
  intros Hok E. apply on_store_inv in E as (E & _).
  destruct (validate_content_addressed_bytes key b) as [[]|err|] eqn:Ev.
  - apply validate_iff in Ev. destruct (law_put_ok key b (e_store e) Hok Ev) as (s' & Hp & Hok' & _).
    rewrite Hp in E. injection E as <- <-. done.
  - destruct (law_put_reject key b (e_store e)) as [err' Hr].
    + intros t ->. assert (validate_content_addressed_bytes (content_addressed_key t b) b = Ok tt)
        by (apply validate_iff; eauto). congruence.
    + by rewrite Hr in E.
  - by apply validate_not_panic in Ev.
Qed.

(** Repository calls leave the store alone. *)
Lemma repo_store {A} (m : Repo A) e e' r : on_repo m e = (e', r) -> e_store e' = e_store e.
Proof. by intros (_ & ? & _)%on_repo_inv. Qed.

(** One part adds its length, as the estimate does. *)
Lemma ingest_part_accounts account_id message_id acc part e e' acc' n total :
  store_ok (e_store e) -> 0 <= acc ->
  i64_of_len (lit "mime part") (MimePartRecord_raw_bytes part) = Ok n ->
  checked_add_i64 acc n = Some total ->
  ingest_part account_id message_id acc part e = (e', Ok acc') ->
  acc' = total /\ 0 <= total /\ store_ok (e_store e').
Proof.
  intros Hok Hacc Hn Ht E. unfold i64_of_len in Hn.
  destruct (Z.leb_spec (Z.of_nat (length (MimePartRecord_raw_bytes part))) i64_max) as [Hle|]; [|done].
  injection Hn as <-. unfold checked_add_i64 in Ht. destruct (in_i64 _) eqn:Hr; [|done].
  injection Ht as <-. unfold in_i64 in Hr. b2p.
  unfold ingest_part in E. inv_bind E. apply put_reports in Hstep as [Hsize Hok1]; [|done].
  inv_bind E. injection Hstep as <- _. cbv zeta in E. inv_bind E.
  apply repo_store in Hstep as Hst. inv_bind E. injection Hstep0 as <- _. inv_bind E.
  apply repo_store in Hstep0 as Hst'. injection E as <- <-.
  rewrite Hst', Hst. split; [|split; [lia|exact Hok1]].
  rewrite Hsize, (as_i64_small (Z.of_nat _)) by lia. apply as_i64_small. lia.
Qed.

Lemma parts_account account_id message_id parts : forall acc e e' acc' total,
  store_ok (e_store e) -> 0 <= acc -> estimate_loop acc parts = Ok total ->
  fold_each parts acc (ingest_part account_id message_id) e = (e', Ok acc') ->
  acc' = total /\ 0 <= total.
Proof.
  induction parts as [|part parts IH]; intros acc e e' acc' total Hok Hacc Ht E; simpl in Ht, E.
  { injection Ht as <-. injection E as _ <-. done. }
  apply obind_Ok in Ht as (n & Hn & Ht). apply obind_Ok in Ht as (t & Hadd & Ht).
  destruct (checked_add_i64 acc n) as [t'|] eqn:Ec; [|done]. injection Hadd as <-.
  inv_bind E. destruct (ingest_part_accounts _ _ _ _ _ _ _ _ _ Hok Hacc Hn Ec Hstep)
    as (-> & Ht0 & Hok1).
  exact (IH _ _ _ _ _ Hok1 Ht0 Ht E).
Qed.

(** ** Failures leave the quota alone *)
Definition is_ok {A} (r : Result A) : bool := match r with Ok _ => true | _ => false end.
Definition fails_quietly {A} (m : M Error (Engine O U X L) A) : Prop :=
  forall e e' r, m e = (e', r) -> is_ok r = false -> quotas_of e' = quotas_of e.

Lemma quiet_bind {A B} (m : M Error (Engine O U X L) A) (k : A -> M Error (Engine O U X L) B) :
  ekeeps quotas m -> (forall a, fails_quietly (k a)) -> fails_quietly (bind m k).
Proof.
  intros Hm Hk e e' r E Hr. specialize (Hm e). unfold bind in E.
  destruct (m e) as [e1 [a|err|]]; [|by injection E as <- <-..].
  simpl in Hm. rewrite (Hk a _ _ _ E Hr). done.
Qed.

Lemma quiet_adjust account_id n im :
  fails_quietly (on_repo (adjust_account_quota_usage account_id n) ;;; ret (A := IngestedMessage) im).
Proof.
  intros e e' r E Hr. unfold bind in E.
  destruct (on_repo (adjust_account_quota_usage account_id n) e) as [e1 r1] eqn:Ea.
  apply on_repo_inv in Ea as (Ea & _).
  assert (Hsame : is_ok r1 = false -> quotas_of e1 = quotas_of e).
  { intros Hr1. unfold adjust_account_quota_usage in Ea. erewrite bind_Ok in Ea by reflexivity.
    cbv zeta in Ea. erewrite bind_Ok in Ea by reflexivity. unfold require in Ea.
    destruct (forallb _ _).
    - erewrite bind_Ok in Ea by reflexivity. erewrite bind_Ok in Ea by reflexivity.
      by injection Ea as <- <-.
    - by injection Ea as <- <-. }
  destruct r1; [by injection E as <- <-|injection E as <- <-; by apply Hsame..].
Qed.

Lemma quotas_cache_object input : keeps quotas (upsert_cache_object input).
Proof. unfold upsert_cache_object. keep_steps. Qed.
Lemma quotas_upsert_message input : keeps quotas (upsert_message input).
Proof. unfold upsert_message. keep_steps. Qed.
Lemma quotas_delete_parts id : keeps quotas (delete_mime_parts_for_message id).
Proof. unfold delete_mime_parts_for_message. keep_steps. Qed.
Lemma quotas_insert_part input : keeps quotas (insert_mime_part input).
Proof. unfold insert_mime_part. keep_steps. Qed.
Lemma quotas_upsert_row uid modseq input : keeps quotas (upsert_mailbox_message_row uid modseq input).
Proof.
  intros w. unfold upsert_mailbox_message_row.
  do 3 (erewrite bind_Ok by reflexivity). cbv zeta. cbn [w_db].
  destruct (select _ _); cbv beta iota; (erewrite bind_Ok by reflexivity); unfold require;
    (destruct (unique_by _ _); [|done]); (erewrite bind_Ok by reflexivity);
    (destruct (has_mailbox _ _); [|done]); (erewrite bind_Ok by reflexivity);
    (destruct (has_message _ _); [|done]); done.
Qed.
Lemma quotas_uid_mapping mb uid up uv : keeps quotas (upsert_uid_mapping mb uid up uv).
Proof. by apply keeps_upsert_uid_mapping. Qed.
Hint Resolve quotas_cache_object quotas_upsert_message quotas_delete_parts quotas_insert_part
  quotas_upsert_row quotas_uid_mapping : repo.
Lemma quotas_upsert input : keeps quotas (upsert_mailbox_message input).
Proof.
  unfold upsert_mailbox_message, upsert_tx, mailbox_sequence_number_in_tx, assign_mailbox_local_uid,
    assign_mailbox_modseq.
  keep_steps.
Qed.
Hint Resolve quotas_upsert ekeeps_on_search : repo.
Lemma quotas_part account_id message_id n part :
  ekeeps quotas (ingest_part (O := O) (U := U) (X := X) (L := L) account_id message_id n part).
Proof. unfold ingest_part, record_object_store_bytes_written. ekeep_steps. Qed.
Lemma quotas_check account_id n :
  ekeeps quotas (check_quota (O := O) (U := U) (X := X) (L := L) account_id n).
Proof. unfold check_quota, get_account_quota. ekeep_steps. Qed.
Hint Resolve quotas_part quotas_check : repo.

Lemma ingest_quiet account_id mb name uid up date raw parsed flags :
  fails_quietly (ingest_parsed_message has_search account_id mb name uid up date raw parsed flags).
Proof.
  unfold ingest_parsed_message, record_object_store_bytes_written. cbv zeta.
  repeat (apply quiet_bind; [solve [ekeep_steps; apply ekeeps_fold_each; eauto with repo|ekeep_steps]|
                             intros ?]).
  apply quiet_adjust.
Qed.

(** The gate lets a message in only when it fits. *)
Lemma check_quota_fits account_id n e e' q :
  select (quota_of account_id) (quotas_of e) = [q] ->
  check_quota account_id n e = (e', Ok tt) ->
  QuotaRow_used_bytes q + n <= QuotaRow_max_bytes q.
Proof.
  intros Hq E. unfold check_quota, get_account_quota in E.
  erewrite bind_Ok in E by apply on_repo_query. rewrite Hq in E.
  change (Quota_from <$> head (order_by_desc QuotaRow_id [q])) with (Some (Quota_from q)) in E.
  cbv iota in E. inv_bind E. injection Hstep as <- Hx.
  unfold checked_add_i64 in Hx. destruct (in_i64 _); [|done]. injection Hx as <-.
  destruct (Z.ltb_spec (Quota_max_bytes (Quota_from q)) (QuotaRow_used_bytes q + n))
    as [|Hle]; [discriminate E|exact Hle].
Qed.

Lemma adjust_runs account_id n e e' q r :
  select (quota_of account_id) (quotas_of e) = [q] ->
  on_repo (adjust_account_quota_usage account_id n) e = (e', Ok r) ->
  exists t, select (quota_of account_id) (quotas_of e') =
    [set_quota_row (QuotaRow_max_bytes q) (QuotaRow_used_bytes q + n) t q].
Proof.
  intros Hq E. apply on_repo_inv in E as (E & _). unfold adjust_account_quota_usage in E.
  inv_bind E. injection Hstep as <- <-. cbv zeta in E. inv_bind E. injection Hstep as <- <-.
  inv_bind E. apply require_inv in Hstep as [-> _]. inv_bind E. injection Hstep as <- _.
  injection E as <- _. exists (w_now (e_world e)).
  cbn [w_db set_db quotas set_quotas].
  rewrite select_update by done. rewrite Hq. simpl.
  assert (Hin : In q (select (quota_of account_id) (quotas_of e))) by (rewrite Hq; by left).
  apply select_In in Hin as [_ ->]. done.
Qed.

(** C7 Ingestion respects the quota of the account and accounts for exactly the
    message.  When it succeeds, the bytes of the message and of its MIME parts fit
    into what the quota had left, and the quota's usage is higher by exactly that
    number, whatever the sizes; when it fails, at whatever point, the quotas are as
    they were. *)
Theorem ingestion_respects_quota account_id mb name uid up date raw parsed flags e e' r q :
  store_ok (e_store e) -> select (quota_of account_id) (quotas (w_db (e_world e))) = [q] ->
  ingest_parsed_message has_search account_id mb name uid up date raw parsed flags e = (e', r) ->
  match r with
  | Ok _ => exists n t,
      estimate_message_bytes raw parsed = Ok n /\
      QuotaRow_used_bytes q + n <= QuotaRow_max_bytes q /\
      select (quota_of account_id) (quotas (w_db (e_world e'))) =
        [set_quota_row (QuotaRow_max_bytes q) (QuotaRow_used_bytes q + n) t q]
  | _ => quotas (w_db (e_world e')) = quotas (w_db (e_world e))
  end.
Proof.
  intros Hok Hq E. destruct r as [im|err|]; [|exact (ingest_quiet _ _ _ _ _ _ _ _ _ _ _ _ E eq_refl)..].
  unfold ingest_parsed_message in E. inv_bind E. unfold lift in Hstep. injection Hstep as <- Hest.
  inv_bind E. destruct x0. pose proof (check_quota_fits _ _ _ _ _ Hq Hstep) as Hfit.
  apply check_quota_same in Hstep as ->. cbv zeta in E. inv_bind E.
  pose proof (ekeeps_run _ _ _ _ _ (ekeeps_on_store quotas _) Hstep) as Hk1.
  apply put_reports in Hstep as [Hsize Hok1]; [|done].
  inv_bind E. injection Hstep as <- _. inv_bind E.
  pose proof (repo_store _ _ _ _ Hstep) as Hst1.
  apply (ekeeps_run quotas) in Hstep as Hk2; [|apply ekeeps_on_repo; eauto with repo]. clear Hstep.
  inv_bind E. assert (e_store w1 = e_store w0 /\ quotas_of w1 = quotas_of w0) as [Hst2 Hk3].
  { destruct (negb _); [|by injection Hstep as <- _]. inv_bind Hstep. injection Hstep as <- _.
    split; [by eapply repo_store|].
    by eapply ekeeps_run; [apply ekeeps_on_repo, quotas_delete_parts|exact Hstep0]. }
  clear Hstep. inv_bind E.
  pose proof (ekeeps_run quotas _ _ _ _ (ekeeps_fold_each quotas _ _ _
    (fun n part => quotas_part account_id (Message_id x2) n part)) Hstep) as Hk4.
  apply obind_Ok in Hest as (len & Hlen & Hloop).
  assert (len = as_i64 (ObjectMetadata_size_octets x0) /\ 0 <= len) as [Hl Hl0].
  { unfold i64_of_len in Hlen. rewrite Hsize.
    destruct (Z.leb_spec (Z.of_nat (length raw)) i64_max); [|done]. injection Hlen as <-.
    rewrite as_i64_small by lia. split; [done|lia]. }
  rewrite <- Hl in Hstep. apply (parts_account _ _ _ _ _ _ _ x) in Hstep as [-> _];
    [|by rewrite Hst2, Hst1|done|done].
  inv_bind E. apply (ekeeps_run quotas) in Hstep as Hk5; [|apply ekeeps_on_repo, quotas_upsert].
  inv_bind E. injection Hstep0 as <- <-. inv_bind E.
  apply (ekeeps_run quotas) in Hstep0 as Hk6; [|apply ekeeps_on_repo, quotas_cache_object].
  inv_bind E. apply (ekeeps_run quotas) in Hstep1 as Hk7; [|ekeep_steps].
  inv_bind E. injection E as <- _.
  eapply adjust_runs in Hstep2 as [t Ht].
  - exists x, t. split; [|split; [exact Hfit|exact Ht]].
    unfold estimate_message_bytes. by rewrite Hlen.
  - rewrite Hk7, Hk6, Hk5, Hk4, Hk3, Hk2. cbn [e_world]. by rewrite Hk1.
Qed.
End Accounting.

(** ** A concrete message *)
Module QuotaWitness.
#[local] Instance sha : Sha256 := { sha256_hex := fun b => b }.
#[local] Instance mime : MimeParser := { parse_message := fun _ => Err (EParse []) }.
#[local] Instance index : SearchBackend unit :=
  { index_message := fun _ _ => ret tt; backend_search := fun _ _ => ret [] }.

Definition part : MimePartRecord :=
  mkMimePartRecord (lit "1") (lit "text/plain") None None None None 2
    (content_addressed_key MimePartObject (lit "hi")) (lit "hi") None Null (lit "hi").
Definition message : ParsedMessage :=
  mkParsedMessage (lit "hello") 5 None None Null Null Null Null Null Null Null None [part].
(** An account with room for ten bytes. *)
Definition start : Engine MemoryObjectStore unit unit unit :=
  mkEngine (run_calls [UpsertAccountQuota 1 10] world) (mkMemoryObjectStore ∅) tt tt tt
    AppMetrics_new.
Definition quota : QuotaRow := mkQuotaRow 1 None (Some 1) 10 0 1000.
Definition after : Engine MemoryObjectStore unit unit unit :=
  fst (ingest_parsed_message true 1 1 (lit "INBOX") 0 None None (lit "hello") message [] start).

Lemma start_store_ok : store_ok (e_store start).
Proof. intros k b Hk. simpl in Hk. rewrite lookup_empty in Hk. discriminate Hk. Qed.
Lemma start_quota : select (quota_of 1) (quotas (w_db (e_world start))) = [quota].
Proof. by vm_compute. Qed.
Lemma ingested_run :
  ingest_parsed_message true 1 1 (lit "INBOX") 0 None None (lit "hello") message [] start =
  (after, Ok (mkIngestedMessage 4 4 4 (lit "Rfc822/hello"))).
Proof. vm_compute. reflexivity. Qed.

Lemma ingestion_respects_quota_witness : exists n t,
  estimate_message_bytes (lit "hello") message = Ok n /\
  0 + n <= 10 /\
  select (quota_of 1) (quotas (w_db (e_world after))) = [set_quota_row 10 (0 + n) t quota].
Proof.
  exact (ingestion_respects_quota true 1 1 (lit "INBOX") 0 None None (lit "hello") message [] start
           after (Ok (mkIngestedMessage 4 4 4 (lit "Rfc822/hello"))) quota start_store_ok
           start_quota ingested_run).
Defined.

(** Seven of the ten bytes are used. *)
Example seven_bytes :
  map QuotaRow_used_bytes (quotas (w_db (e_world after))) = [7].
Proof. by vm_compute. Qed.
End QuotaWitness.
