(* ===== verification/AppendSpecs.v ===== *)
(** * APPEND and FETCH

    A message the client stores with APPEND and fetches under the UID it was told
    (crates/imap-server/src/imap.rs, with the ingestion of crates/sync/src/lib.rs
    and the repository). *)

From stdpp Require Import base strings list gmap.
From Stdlib Require Import ZArith Lia.
From S2P Require Import Prelude RustStr Metrics Domain Protocol SearchQuery Storage Notifications Schema RepoCore Security RepoAccounts RepoMailboxes RepoMessages RepoQueue Invariant Integrity Scenario MessageSpecs Auth Coordination Mime Search Engine SearchEval Threads ImapText Ingest Mutations QueueSpecs SyncEngine SyncSpecs Convergence Serving ImapSession ImapFetch ImapCommands ImapServer ImapFrames ImapSoundness ImapMailSpecs ImapScenario ImapSessionSpecs ImapSafetySpecs ImapTextSpecs EndToEnd IdleChanges.

Local Open Scope Z_scope.

(** ** The UID of an added message *)
Lemma assign_uid_range mb w w' u :
  (forall r, In r (mailbox_messages (w_db w)) -> live_in mb r = true ->
     0 <= MailboxMessageRow_local_uid r) ->
  assign_mailbox_local_uid mb w = (w', Ok u) -> 0 < u <= i64_max.
Proof.
  intros Hpos E. pose proof (assign_uid_inv _ _ _ _ E) as [_ Hfresh].
  unfold assign_mailbox_local_uid in E. inv_bind E. injection Hstep as <- <-. inv_bind E.
  apply fetch_one_inv in Hstep as [-> _]. inv_bind E. injection E as <- <-.
  unfold select_next_uid in Hstep. inv_bind Hstep. injection Hstep0 as <- <-.
  destruct (sql_max _ _) as [m|] eqn:Em.
  - unfold bigint in Hstep. destruct (in_i64 (m + 1)) eqn:Hr; [|done]. injection Hstep as _ <-.
    simpl. unfold in_i64 in Hr. b2p.
    destruct (sql_max_In _ _ _ Em) as (r & Hr & Hm). apply select_In in Hr as [Hr Hl].
    specialize (Hpos r Hr Hl). lia.
  - injection Hstep as _ <-. simpl. unfold i64_max. lia.
Qed.

Lemma add_uid_range mb message_id flags w w' m :
  (forall r, In r (mailbox_messages (w_db w)) -> live_in mb r = true ->
     0 <= MailboxMessageRow_local_uid r) ->
  upsert_mailbox_message (added mb message_id flags) w = (w', Ok m) ->
  0 < MailboxMessage_local_uid m <= i64_max.
Proof.
  intros Hpos E. apply upsert_message_inv in E as (w1 & row & n & Htx & -> & _).
  unfold upsert_tx in Htx.
  cbn [NewMailboxMessage_local_uid NewMailboxMessage_mailbox_id NewMailboxMessage_modseq added
    Z.eqb] in Htx.
  inv_bind Htx. apply assign_uid_range in Hstep; [|done]. inv_bind Htx. inv_bind Htx.
  apply upsert_row_inv in Hstep1 as (_ & _ & _ & Hu & _). inv_bind Htx. injection Htx as _ <- _.
  simpl. by rewrite Hu.
Qed.

Section Append.
Context {O U X L T : Type} `{ObjectStore O} `{UpstreamClient U} `{UpstreamConnector U}.
Context `{SearchBackend X} `{Authenticator T}.
Context `{Sha256} `{MimeParser} `{PgText} `{UuidText} `{Crypto} `{Texts} `{ChronoRange}.
Context `{MailHeaders} `{Base64} `{!ObjectStoreLaws O}.
Variable services : AppServices.
Variable secrets : SecretBox.
Variable elapsed : Z.
Implicit Types e : Engine O U X L.
Implicit Types sv : Server O U X L T.

(** The UIDs of the live messages of a mailbox are not negative. *)
Definition uids_ok (mb : Z) (db : Database) : Prop :=
  forall r, In r (mailbox_messages db) -> live_in mb r = true -> 0 <= MailboxMessageRow_local_uid r.

(** Ingesting an appended message lists it under the UID reported. *)
Lemma ingest_lists has_search account_id mb name date raw flags e e' im :
  store_ok (e_store e) -> uids_ok mb (w_db (e_world e)) ->
  ingest_raw_message has_search account_id mb name 0 None date raw flags e = (e', Ok im) ->
  let uid := IngestedMessage_local_uid im in
  0 < uid <= i64_max /\
  with_blob (lists mb uid (content_addressed_key Rfc822 raw)) raw e'.
Proof.
  intros Hok Hpos E uid.
  apply ingest_inv in E as (id & e1 & e2 & m & Hrows & [Hb Hst] & Hup & Hu & Htail); [|done].
  fold uid in Hu. rewrite Hu.
  apply (run_keeps _ _ _ _ _ Hup) in Hst; [|apply repo_keeps_stored].
  apply on_repo_inv in Hup as [Hup _]. split.
  - eapply (add_uid_range mb id flags); [|exact Hup]. by rewrite Hrows.
  - apply Htail. split; [|done].
    pose proof (keeps_run _ _ _ _ _ (keeps_messages_upsert _) Hup) as Hmsgs.
    apply (add_change mb id flags) in Hup as (_ & (row & -> & Hin & Hl & Hid & _) & _).
    exists row. split; [exact Hin|]. split; [done|]. split; [done|]. simpl. by rewrite Hid, Hmsgs.
Qed.

Lemma on_engine_inv {A} (m : M Error (Engine O U X L) A) sv sv' r :
  on_engine m sv = (sv', r) -> m (sv_engine sv) = (sv_engine sv', r).
Proof. unfold on_engine, zoom. destruct (m (sv_engine sv)). by intros [= <- <-]. Qed.

(** What APPEND does with the message. *)
Lemma append_run tag args account_id mailbox_name mailbox flags date raw sv sv' lines :
  has_repository services = true -> session_account (sv_session sv) = Some account_id ->
  head args = Some mailbox_name ->
  snd (find_mailbox account_id mailbox_name (sv_world sv)) = Ok (Some mailbox) ->
  parse_append_metadata args (default (length args - 1)%nat
    (rposition (fun value => starts_with (lit "{") value) args)) = Ok (flags, date) ->
  cmd_append services tag args (Some raw) sv = (sv', Ok lines) ->
  exists im e1 e2,
    ingest_raw_message (has_search_backend services) account_id (Mailbox_id mailbox) mailbox_name 0
      None date raw flags (sv_engine sv) = (e1, Ok im) /\
    (forall Q, with_blob Q raw e1 -> with_blob Q raw e2) /\ sv_engine sv' = e2 /\
    lines = [tag ++ lit " OK [APPENDUID " ++ fmt_i (default 1 (Mailbox_uidvalidity mailbox)) ++
             lit " " ++ fmt_i (IngestedMessage_local_uid im) ++ lit "] " ++
             queued_or_completed services (lit "APPEND")].
Proof.
  intros Hrepo Hacc Hargs Hf Hmeta E. unfold cmd_append in E. erewrite bind_Ok in E by reflexivity.
  rewrite Hacc, Hrepo, Hargs in E. cbn [negb] in E.
  assert (Hfind : on_db (find_mailbox account_id mailbox_name) sv = (sv, Ok (Some mailbox)))
    by (unfold find_mailbox in *; rewrite on_db_query; f_equal; exact Hf).
  rewrite (bind_Ok _ _ _ _ _ Hfind) in E. cbv zeta in E. rewrite Hmeta in E.
  inv_bind E. apply on_engine_inv in Hstep as Hin.
  exists x, (sv_engine w), (sv_engine sv'). split; [exact Hin|].
  inv_bind E. apply on_engine_inv in Hstep0. inv_bind E. injection E as <- <-.
  split; [|done]. intros Q HQ. apply (run_keeps _ _ _ _ _ Hstep0) in HQ;
    [|apply mail_with_blob; eauto with repo].
  destruct (has_mutation_engine services); [|by injection Hstep1 as <- _].
  inv_bind Hstep1. injection Hstep1 as <- _. apply on_engine_inv in Hstep2.
  apply (run_keeps _ _ _ _ _ Hstep2) in HQ; [done|].
  unfold queue_append, record_object_store_bytes_written. cbv zeta.
  apply preserves_bind; [apply put_with_blob|intros md].
  apply preserves_bind; [apply metrics_with_blob|intros _].
  apply mail_with_blob, mail_enqueue.
Qed.

End Append.

(** ** A concrete message *)
Definition append_args : list str := [lit "INBOX"; lit "(\Seen)"; lit "{33}"].
Definition appended : Srv := fst (cmd_append services (lit "a3") append_args (Some (raw 9)) selected).
Definition appended_line : str := lit "a3 OK [APPENDUID 7 4] APPEND queued".
Definition current : Mailbox :=
  match snd (find_mailbox 1 (lit "INBOX") (sv_world appended)) with
  | Ok (Some mailbox) => mailbox
  | _ => placeholder_mailbox (sv_session appended) [] 0
  end.

Lemma selected_sound : engine_ok (sv_engine selected).
Proof. apply after_ok, login_ok. Qed.
Lemma selected_store : store_ok (e_store (sv_engine selected)).
Proof.
  replace (e_store (sv_engine selected)) with store by (vm_compute; reflexivity).
  exact store_sound.
Qed.
Lemma selected_inbox : snd (find_mailbox 1 (lit "INBOX") (sv_world selected)) = Ok (Some inbox_mailbox).
Proof. by vm_compute. Qed.
Lemma selected_uids : uids_ok (Mailbox_id inbox_mailbox) (w_db (sv_world selected)).
Proof.
  intros r Hr _. assert (Hrows : mailbox_messages (w_db (sv_world selected)) = [r1; r2; r3])
    by (vm_compute; reflexivity).
  rewrite Hrows in Hr. destruct Hr as [<-|[<-|[<-|[]]]]; vm_compute; discriminate.
Qed.
Lemma append_metadata :
  parse_append_metadata append_args (default (length append_args - 1)%nat
    (rposition (fun value => starts_with (lit "{") value) append_args)) = Ok ([lit "\Seen"], None).
Proof. by vm_compute. Qed.
Lemma append_answer :
  cmd_append services (lit "a3") append_args (Some (raw 9)) selected = (appended, Ok [appended_line]).
Proof. vm_compute. reflexivity. Qed.
Lemma appended_session : session_account (sv_session appended) = Some 1 /\
  selected_mailbox_name_ref (sv_session appended) = Some (lit "INBOX") /\
  session_account (sv_session selected) = Some 1.
Proof. by vm_compute. Qed.
Lemma appended_inbox : snd (find_mailbox 1 (lit "INBOX") (sv_world appended)) = Ok (Some current) /\
  Mailbox_id current = Mailbox_id inbox_mailbox.
Proof. by vm_compute. Qed.

