(* ===== verification/Conformance.v ===== *)
(** * The repository's own tests, replayed

    The unit and integration tests of the repository that run without the network,
    on the model: each example is named after the test, performs its calls in its
    order and states what it asserts, and more where the whole answer is short.
    They tie the definitions to the behaviour the authors pinned down, on inputs
    they chose.  Texts are written with [']  for the double quote. *)

From stdpp Require Import base strings list gmap.
From Stdlib Require Import ZArith Lia.
From S2P Require Import Prelude RustStr Metrics Domain Protocol SearchQuery Storage Notifications Schema RepoCore Security RepoAccounts RepoMailboxes RepoMessages RepoQueue Integrity Scenario Auth Coordination Mime Search Engine SearchEval Threads ImapText Ingest Mutations ImapSession ImapFetch ImapCommands ImapServer ImapScenario Stores.

Local Open Scope Z_scope.

Definition txt (s : string) : str := map (fun c => if c =? 39 then 34 else c) (lit s).
Definition contains (line pattern : str) : bool := is_some (find_str pattern line).

(** ** crates/protocol *)
Module ProtocolTests.
Definition mailbox (highestmodseq : option Z) : Mailbox :=
  mkMailbox 1 1 (lit "INBOX") (lit "inbox") (Some (lit "/")) [] true None (Some 7) (Some 9)
    highestmodseq 4 0 2 0 0.

Example parse_status_items_accepts_highestmodseq :
  parse_status_items [lit "(MESSAGES HIGHESTMODSEQ UIDNEXT)"] =
  Ok [lit "MESSAGES"; lit "HIGHESTMODSEQ"; lit "UIDNEXT"].
Proof. by vm_compute. Qed.

Example format_status_response_includes_highestmodseq :
  format_status_response (mailbox (Some 17)) [lit "MESSAGES"; lit "HIGHESTMODSEQ"] =
  txt "* STATUS 'INBOX' (MESSAGES 4 HIGHESTMODSEQ 17)".
Proof. by vm_compute. Qed.

Example format_status_response_defaults_missing_highestmodseq_to_zero :
  format_status_response (mailbox None) [lit "HIGHESTMODSEQ"] =
  txt "* STATUS 'INBOX' (HIGHESTMODSEQ 0)".
Proof. by vm_compute. Qed.

Example parses_quoted_and_parenthesized_arguments :
  parse_command (txt "A1 LIST '' '*' ") =
  Ok (Some (mkParsedCommand (lit "A1") (lit "LIST") [[]; lit "*"])).
Proof. by vm_compute. Qed.
End ProtocolTests.

(** ** crates/search *)
Module SearchTests.
Definition query (args : list string) : SearchQuery :=
  match from_imap_args (map lit args) with Ok q => q | _ => SearchQuery_all end.

Example parses_simple_search_query :
  let q := query ["SUBJECT"; "hello"; "UID"; "1:3"] in
  match_all q = false /\ (fun s => UidSet_contains s 2) <$> uid_filter q = Some true /\
  (fun s => contains s (lit "subject:hello")) <$> query_string q = Some true.
Proof. by vm_compute. Qed.

Example all_does_not_override_other_search_terms :
  let q := query ["ALL"; "SEEN"] in match_all q = false /\ required_flags q = [lit "\Seen"].
Proof. by vm_compute. Qed.

Example parses_bcc_search_query :
  query_string (query ["BCC"; "hidden@example.com"]) = Some (lit "bcc:hidden@example.com").
Proof. by vm_compute. Qed.

Example parses_recency_search_queries :
  recent_only (query ["RECENT"]) = true /\ recent_only (query ["NEW"]) = true /\
  forbidden_flags (query ["NEW"]) = [lit "\Seen"] /\ old_only (query ["OLD"]) = true.
Proof. by vm_compute. Qed.

Example parses_boolean_search_queries :
  (exists a b, expr (query ["OR"; "SEEN"; "UNSEEN"]) = Some (Or a b)) /\
  (exists a, expr (query ["NOT"; "SEEN"]) = Some (Not a)).
Proof. split; repeat eexists; vm_compute; reflexivity. Qed.

Example parses_header_search_query :
  let q := query ["HEADER"; "Message-ID"; "abc@example.test"] in
  header_filters q = [(lit "message-id", lit "abc@example.test")] /\
  query_string q = Some (lit "message_id:abc@example.test").
Proof. by vm_compute. Qed.
End SearchTests.

(** ** tests/storage.rs *)
Module StorageTests.
Definition key : str := content_addressed_key Rfc822 (lit "message").
Definition store0 : MemoryObjectStore := mkMemoryObjectStore ∅.
Definition mismatch : Error :=
  EStorage (lit "content hash mismatch for " ++ key ++ lit ": expected message, got different").

Example content_addressed_keys_are_deterministic :
  content_addressed_key Rfc822 (lit "hello") <> content_addressed_key Rfc822 (lit "world").
Proof. by vm_compute. Qed.

Example memory_store_round_trips_blobs :
  snd ((do meta <- memory_put key (lit "message") ;;
        do there <- memory_exists key ;;
        do whole <- memory_get key ;;
        do range <- memory_get_range key 1 (Some 4) ;;
        memory_delete key ;;;
        do gone <- memory_exists key ;;
        ret (ObjectMetadata_size_octets meta, there, whole, range, gone)) store0) =
  Ok (7, true, Some (lit "message"), Some (lit "ess"), false).
Proof. by vm_compute. Qed.

Example memory_store_rejects_mismatched_content :
  memory_put key (lit "different") store0 = (store0, Err mismatch).
Proof. by vm_compute. Qed.

Example content_addressed_bytes_are_validated_against_keys :
  validate_content_addressed_bytes key (lit "message") = Ok tt /\
  validate_content_addressed_bytes key (lit "different") = Err mismatch.
Proof. by vm_compute. Qed.
End StorageTests.

(** ** crates/auth and crates/coordination *)
Module AccessTests.
#[local] Existing Instance CoordinationWitness.uuids.

Definition authenticator : StaticAuthenticator :=
  mkStaticAuthenticator (lit "user@example.test") (lit "secret-password") 1.
Definition attempt (password : string) : M Error MemoryLoginThrottle (option AuthContext) :=
  static_authenticate authenticator (lit "user@example.test") (lit password).

Example static_authenticator_rate_limits_repeated_failures :
  let wrong := attempt "wrong-password" in
  snd ((do r1 <- wrong ;; do r2 <- wrong ;; do r3 <- wrong ;; do r4 <- wrong ;; do r5 <- wrong ;;
        do r6 <- attempt "secret-password" ;; ret [r1; r2; r3; r4; r5; r6])
    (with_limits 5 60 0)) = Ok [None; None; None; None; None; None] /\
  is_some (match snd (attempt "secret-password" (with_limits 5 60 0)) with
           | Ok r => r | _ => None end) = true.
Proof. by vm_compute. Qed.

Example memory_lock_manager_serializes_acquisition :
  let acquire := memory_acquire (lit "sync:account:1") 1000 in
  let held o := match o with Some _ => true | None => false end in
  snd ((do lock <- acquire ;; do second <- acquire ;;
        memory_release (lit "sync:account:1") [] ;;; do third <- acquire ;;
        ret (held lock, held second, held third)) CoordinationWitness.m0) =
  Ok (true, false, true).
Proof. by vm_compute. Qed.
End AccessTests.

(** ** tests/imap_protocol.rs: sessions on a database

    [handle] answers a command line of a session whose database the calls of
    the test have filled; no search backend and no mutation engine is running. *)
Module SessionTests.
Abbreviation Session := (M Error Srv).

Definition username : string := "user@example.test".
Definition mail_account : NewMailAccount :=
  mkNewMailAccount 1 (lit "Protocol Test") (lit username) (lit "imap.example.test") 993 Tls Login
    (lit "upstream-user") (lit "upstream-secret").
Definition with_user : list RepoCall :=
  [CreateUser (mkNewUser (lit username) (lit "secret-password"));
   CreateMailAccount secrets nonce nonce mail_account].
Definition mailbox_named (name : string) (subscribed : bool) : RepoCall :=
  CreateMailbox (mkNewMailbox 1 (lit name) (to_ascii_lowercase (lit name)) (Some (lit "/"))
    [lit "\HasNoChildren"] subscribed None (Some 1) (Some 1) (Some 0) 0 0 0).
Definition inbox : RepoCall := mailbox_named "INBOX" true.
Definition message_in (mailbox_id message_id local_uid : Z) (flags : list string) : RepoCall :=
  UpsertMailboxMessage (mkNewMailboxMessage mailbox_id message_id local_uid
    (Some (300 + local_uid)) (Some 1) (map lit flags) [] false None).

Definition session_on (calls : list RepoCall) : Srv :=
  mkServer (ImapSession_new (lit "conn"))
    (mkEngine (run_calls calls world0) (mkMemoryObjectStore ∅) tt tt tt AppMetrics_new)
    (with_limits 5 900 0) [] [].
Definition only_repository : AppServices := mkAppServices true false false.
Definition say (line : string) : Session (list str) :=
  handle only_repository secrets (txt line ++ crlf).
Definition log_in : Session (list str) := say "A1 LOGIN 'user@example.test' 'secret-password'".
(** What a test looks up: the rows of a mailbox and the state of the session. *)
Definition stored (mailbox_id : Z) : Session (list (Z * list str)) :=
  do rows <- on_db (list_mailbox_messages mailbox_id) ;;
  ret (map (fun m => (MailboxMessage_local_uid m, MailboxMessage_flags m)) rows).
Definition now : Session State := gets (fun sv => state (sv_session sv)).
Definition answers (calls : list RepoCall) {A} (m : Session A) : Result A :=
  snd ((log_in ;;; m) (session_on calls)).
(** A message, told apart from the others by its blob key. *)
Definition a_message (key : string) : RepoCall :=
  UpsertMessage (mkNewMessage 1 (lit key) (lit key) None (Some (lit key)) Null Null Null Null Null
    Null Null None None 32 None).

Example login_and_capability_flow_works :
  snd ((do caps <- say "A1 CAPABILITY" ;; do login <- say "A2 LOGIN 'user@example.test' 'secret-password'" ;;
        do s <- now ;; do all <- gets (fun sv => capabilities (sv_session sv)) ;;
        ret (existsb (fun line => contains line (lit "UNSELECT")) caps,
             existsb (starts_with (lit "A2 OK")) login, s,
             forallb (fun c => existsb (str_eqb c) all) [lit "UNSELECT"; lit "ESEARCH"; lit "ID"]))
    (session_on with_user)) = Ok (false, true, Authenticated, true).
Proof. by vm_compute. Qed.

(** The answers to a list of command lines, after the login. *)
Fixpoint dialogue (lines : list string) : Session (list (list str)) :=
  match lines with
  | [] => ret []
  | line :: lines =>
      do answer <- say line ;; do answers <- dialogue lines ;; ret (answer :: answers)
  end.
Definition lines_of (answers : list (list string)) : list (list str) := map (map txt) answers.

Example mailbox_commands_use_database_state :
  answers (with_user ++ [inbox]) (dialogue
    ["A2 CREATE 'Projects'"; "A3 LIST '' '*'";
     "A4 LIST '' '*' RETURN (STATUS (MESSAGES UIDNEXT HIGHESTMODSEQ))";
     "A6 STATUS 'Projects' (MESSAGES UIDNEXT HIGHESTMODSEQ)";
     "A7 RENAME 'Projects' 'Projects-renamed'"; "A8 SUBSCRIBE 'Projects-renamed'";
     "A9 UNSUBSCRIBE 'Projects-renamed'"; "A10 LSUB '' '*'"; "A11 DELETE 'Projects-renamed'";
     "A12 LIST '' '*'"]) =
  Ok (lines_of
    [["A2 OK CREATE completed"];
     ["* LIST (\HasNoChildren) '/' 'INBOX'"; "* LIST (\HasNoChildren) '/' 'Projects'";
      "A3 OK LIST completed"];
     ["* LIST (\HasNoChildren) '/' 'INBOX'";
      "* STATUS 'INBOX' (MESSAGES 0 UIDNEXT 1 HIGHESTMODSEQ 0)";
      "* LIST (\HasNoChildren) '/' 'Projects'";
      "* STATUS 'Projects' (MESSAGES 0 UIDNEXT 1 HIGHESTMODSEQ 0)"; "A4 OK LIST completed"];
     ["* STATUS 'Projects' (MESSAGES 0 UIDNEXT 1 HIGHESTMODSEQ 0)"; "A6 OK STATUS completed"];
     ["A7 OK RENAME completed"]; ["A8 OK SUBSCRIBE completed"]; ["A9 OK UNSUBSCRIBE completed"];
     ["* LSUB (\HasNoChildren) '/' 'INBOX'"; "A10 OK LSUB completed"];
     ["A11 OK DELETE completed"];
     ["* LIST (\HasNoChildren) '/' 'INBOX'"; "A12 OK LIST completed"]]).
Proof. by vm_compute. Qed.

Example list_and_lsub_apply_wildcard_patterns :
  answers (with_user ++ [inbox; mailbox_named "Projects/Alpha" true;
      mailbox_named "Projects/Alpha/Child" true; mailbox_named "Projects/Private" false])
    (dialogue ["A2 LIST '' 'Projects/%'"; "A3 LIST '' 'Projects/*'"; "A4 LSUB '' 'Projects/%'"]) =
  Ok (lines_of
    [["* LIST (\HasNoChildren) '/' 'Projects/Alpha'";
      "* LIST (\HasNoChildren) '/' 'Projects/Private'"; "A2 OK LIST completed"];
     ["* LIST (\HasNoChildren) '/' 'Projects/Alpha'";
      "* LIST (\HasNoChildren) '/' 'Projects/Alpha/Child'";
      "* LIST (\HasNoChildren) '/' 'Projects/Private'"; "A3 OK LIST completed"];
     ["* LSUB (\HasNoChildren) '/' 'Projects/Alpha'"; "A4 OK LSUB completed"]]).
Proof. by vm_compute. Qed.

Example mailbox_commands_require_selected_mailbox :
  answers with_user (dialogue ["A2 CHECK"; "A3 IDLE"; "A4 UNSELECT"; "A5 CLOSE"]) =
  Ok (lines_of
    [["A2 NO [BADSTATE] CHECK requires a selected mailbox"];
     ["A3 NO [BADSTATE] IDLE requires a selected mailbox"];
     ["A4 NO [BADSTATE] UNSELECT requires a selected mailbox"];
     ["A5 NO [BADSTATE] CLOSE requires a selected mailbox"]]).
Proof. by vm_compute. Qed.

Example close_and_unselect_update_selected_mailbox_state :
  answers (with_user ++ [inbox; a_message "close"; message_in 1 1 1 []])
    (do select <- say "A2 SELECT INBOX" ;; do selected <- now ;;
     do store <- say "A3 STORE 1 (\Deleted)" ;;
     say "A4 UNSELECT" ;;; do unselected <- now ;; do kept <- stored 1 ;;
     say "A5 SELECT INBOX" ;;; do close <- say "A6 CLOSE" ;; do closed <- now ;;
     do left <- stored 1 ;;
     ret (existsb (fun line => contains line (lit "HIGHESTMODSEQ 1")) select, selected,
          store, unselected, length kept, close, closed, left)) =
  Ok (true, SelectedMailbox false (lit "INBOX"),
      [txt "* 1 FETCH (FLAGS (\Deleted))"; txt "A3 OK STORE completed"], Authenticated, 1%nat,
      [txt "A6 OK CLOSE completed"], Authenticated, []).
Proof. by vm_compute. Qed.

Example examine_keeps_mailbox_read_only :
  answers (with_user ++ [inbox; a_message "examine"; message_in 1 1 1 ["\Deleted"]])
    (do examine <- say "A2 EXAMINE INBOX" ;; do selected <- now ;;
     do refused <- dialogue ["A3 STORE 1 +FLAGS (\Seen)"; "A4 EXPUNGE"] ;;
     do close <- say "A5 CLOSE" ;; do rows <- stored 1 ;;
     ret (last examine, selected, refused, close, rows)) =
  Ok (Some (txt "A2 OK [READ-ONLY] EXAMINE completed"), SelectedMailbox true (lit "INBOX"),
      lines_of [["A3 NO [READ-ONLY] STORE is not permitted in a read-only mailbox"];
                ["A4 NO [READ-ONLY] EXPUNGE is not permitted in a read-only mailbox"]],
      [txt "A5 OK CLOSE completed"], [(1, [lit "\Deleted"])]).
Proof. by vm_compute. Qed.

Example store_updates_flags_and_honors_silent_modifier :
  answers (with_user ++ [inbox; a_message "store"; message_in 1 1 1 []])
    (say "A2 SELECT INBOX" ;;;
     do said <- dialogue ["A3 STORE 1 +FLAGS (\Seen)"; "A4 FETCH 1 (MODSEQ)";
                          "A5 STORE 1 +FLAGS.SILENT (\Flagged)"; "A6 FETCH 1 (MODSEQ)"] ;;
     do rows <- stored 1 ;; ret (said, rows)) =
  Ok (lines_of [["* 1 FETCH (FLAGS (\Seen))"; "A3 OK STORE completed"];
                ["* 1 FETCH (MODSEQ (2))"; "A4 OK FETCH completed"];
                ["A5 OK STORE completed"];
                ["* 1 FETCH (MODSEQ (3))"; "A6 OK FETCH completed"]],
      [(1, [lit "\Seen"; lit "\Flagged"])]).
Proof. by vm_compute. Qed.

Example copy_move_store_and_expunge_update_local_mailbox_rows :
  answers (with_user ++ [inbox; mailbox_named "Archive" true; a_message "copy";
                         message_in 1 1 1 []; message_in 1 1 2 []])
    (say "A0 SELECT INBOX" ;;;
     do copy <- say "A1 COPY 1 Archive" ;; do archive1 <- stored 2 ;; do inbox1 <- stored 1 ;;
     do moved <- say "A2 UID MOVE 2 Archive" ;; do archive2 <- stored 2 ;; do inbox2 <- stored 1 ;;
     do store <- say "A3 STORE 1 (\Deleted)" ;; do inbox3 <- stored 1 ;;
     do expunge <- say "A4 EXPUNGE" ;; do inbox4 <- stored 1 ;;
     ret ([copy; moved; store; expunge], map fst archive1, map fst inbox1,
          map fst archive2, map fst inbox2, inbox3, inbox4)) =
  Ok (lines_of [["A1 OK [COPYUID 1 1 1] COPY completed"];
                ["A2 OK [COPYUID 1 2 2] UID MOVE completed"];
                ["* 1 FETCH (FLAGS (\Deleted))"; "A3 OK STORE completed"];
                ["* 1 EXPUNGE"; "A4 OK EXPUNGE completed"]],
      [1], [1; 2], [1; 2], [1], [(1, [lit "\Deleted"])], []).
Proof. by vm_compute. Qed.

Example uid_expunge_only_removes_deleted_messages :
  answers (with_user ++ [inbox; a_message "uid-expunge"; message_in 1 1 1 ["\Deleted"];
                         message_in 1 1 2 []])
    (say "A0 SELECT INBOX" ;;; do said <- say "A1 UID EXPUNGE 1:2" ;; do rows <- stored 1 ;;
     ret (said, rows)) =
  Ok ([txt "* 1 EXPUNGE"; txt "A1 OK UID EXPUNGE completed"], [(2, [])]).
Proof. by vm_compute. Qed.

(** A second session on the same database. *)
Definition as_other {A} (m : Session A) : Session (A * ImapSession) :=
  do mine <- gets sv_session ;;
  let switch s := modify (fun sv => mkServer s (sv_engine sv) (sv_auth sv) (sv_input sv) (sv_wire sv)) in
  switch (ImapSession_new (lit "other")) ;;; do r <- m ;; do theirs <- gets sv_session ;;
  switch mine ;;; ret (r, theirs).
Definition resume {A} (s : ImapSession) (m : Session A) : Session A :=
  modify (fun sv => mkServer s (sv_engine sv) (sv_auth sv) (sv_input sv) (sv_wire sv)) ;;; m.

Example expunge_renumbers_sequence_numbers_for_other_selected_clients :
  answers (with_user ++ [inbox; a_message "one"; a_message "two"; message_in 1 1 1 ["\Deleted"];
                         message_in 1 2 2 []])
    (say "A2 SELECT INBOX" ;;;
     do other <- as_other (log_in ;;; say "B2 SELECT INBOX") ;;
     do expunge <- say "A3 EXPUNGE" ;;
     do fetch <- resume (snd other) (say "B3 FETCH 1 (UID FLAGS)") ;;
     do rows <- stored 1 ;; ret (expunge, fetch, rows)) =
  Ok ([txt "* 1 EXPUNGE"; txt "A3 OK EXPUNGE completed"],
      [txt "* 1 FETCH (FLAGS () UID 2)"; txt "B3 OK FETCH completed"], [(2, [])]).
Proof. by vm_compute. Qed.

(** A message with a subject and a size. *)
Definition subject_message (subject : string) (size : Z) : RepoCall :=
  UpsertMessage (mkNewMessage 1 (lit subject) (lit subject) None (Some (lit subject)) Null Null Null
    Null Null (Object [(lit "subject", VString (lit subject))]) Null None None size None).
Definition one_recent : RepoCall :=
  UpsertMailbox (mkNewMailbox 1 (lit "INBOX") (lit "inbox") (Some (lit "/")) [] true None (Some 1)
    (Some 1) (Some 0) 0 1 0).
Definition seen_and_unseen : list RepoCall :=
  with_user ++ [one_recent; subject_message "Seen message" 200; message_in 1 1 1 ["\Seen"];
                subject_message "Unseen message" 20; message_in 1 2 2 []].

Example search_filters_by_seen_and_size :
  answers seen_and_unseen (say "A0 SELECT INBOX" ;;; dialogue
    ["A1 SEARCH SEEN LARGER 100"; "A2 SEARCH UNSEEN SMALLER 50"; "A3 SEARCH CHARSET UTF-8 UNSEEN";
     "A4 SEARCH RECENT"; "A5 SEARCH NEW"; "A6 SEARCH OLD";
     "A7 SEARCH HEADER Subject 'Unseen message'";
     "A8 UID SEARCH RETURN (COUNT) CHARSET UTF-8 SEEN"; "A9 UID SEARCH ALL SEEN";
     "A10 SEARCH NOT SEEN"; "A11 SEARCH OR SEEN UNSEEN"; "A12 UID SEARCH OR SEEN UNSEEN"]) =
  Ok (lines_of
    [["* SEARCH 1"; "A1 OK SEARCH completed"]; ["* SEARCH 2"; "A2 OK SEARCH completed"];
     ["* SEARCH 2"; "A3 OK SEARCH completed"]; ["* SEARCH 2"; "A4 OK SEARCH completed"];
     ["* SEARCH 2"; "A5 OK SEARCH completed"]; ["* SEARCH 1"; "A6 OK SEARCH completed"];
     ["* SEARCH 2"; "A7 OK SEARCH completed"];
     ["* ESEARCH (TAG 'A8') COUNT 1"; "A8 OK UID SEARCH completed"];
     ["* SEARCH 1"; "A9 OK UID SEARCH completed"]; ["* SEARCH 2"; "A10 OK SEARCH completed"];
     ["* SEARCH 1 2"; "A11 OK SEARCH completed"]; ["* SEARCH 1 2"; "A12 OK UID SEARCH completed"]]).
Proof. by vm_compute. Qed.

Example search_return_count_min_max_all_emits_esearch :
  answers seen_and_unseen (say "A0 SELECT INBOX" ;;; dialogue
    ["A1 SEARCH RETURN (COUNT MIN MAX ALL) SEEN"; "A2 UID SEARCH RETURN (COUNT MIN MAX ALL) SEEN"]) =
  Ok (lines_of
    [["* ESEARCH (TAG 'A1') COUNT 1 MIN 1 MAX 1 ALL 1"; "A1 OK SEARCH completed"];
     ["* ESEARCH (TAG 'A2') COUNT 1 MIN 1 MAX 1 ALL 1"; "A2 OK UID SEARCH completed"]]).
Proof. by vm_compute. Qed.

Example sort_and_uid_sort_order_by_subject :
  answers (with_user ++ [inbox; subject_message "Alpha" 12; message_in 1 1 20 [];
                         subject_message "Zulu" 12; message_in 1 2 10 []])
    (say "A0 SELECT INBOX" ;;;
     dialogue ["A1 SORT (SUBJECT) UTF-8 ALL"; "A2 UID SORT (SUBJECT) UTF-8 ALL"]) =
  Ok (lines_of [["* SORT 2 1"; "A1 OK SORT completed"];
                ["* SORT 20 10"; "A2 OK UID SORT completed"]]).
Proof. by vm_compute. Qed.

Example namespace_id_and_enable_return_metadata :
  answers with_user
    (do ns <- say "A1 NAMESPACE" ;; do id <- say "A2 ID NIL" ;; do en <- say "A3 ENABLE CONDSTORE" ;;
     do all <- gets (fun sv => capabilities (sv_session sv)) ;;
     ret (ns, map (starts_with (txt "* ID ('name' 'imap-cache-rs'")) id, last id, en,
          existsb (str_eqb (lit "LIST-STATUS")) all)) =
  Ok ([txt "* NAMESPACE (('' '/')) NIL NIL"; txt "A1 OK NAMESPACE completed"],
      [true; false], Some (txt "A2 OK ID completed"),
      [txt "* ENABLED CONDSTORE"; txt "A3 OK ENABLE completed"], true).
Proof. by vm_compute. Qed.

Example enable_requires_authentication :
  snd (dialogue ["A1 ENABLE CONDSTORE"; "A2 CONDSTORE"] (session_on with_user)) =
  Ok (lines_of [["A1 NO [BADSTATE] ENABLE requires an authenticated session"];
                ["A2 NO [BADSTATE] CONDSTORE requires an authenticated session"]]).
Proof. by vm_compute. Qed.
End SessionTests.

(** ** tests/postgres_repo.rs *)
Module RepositoryTests.
Import SessionTests.

Definition on (calls : list RepoCall) {A} (m : Repo A) : Result A := snd (m (run_calls calls world0)).
Definition new_row (mailbox_id message_id local_uid upstream_uid : Z) : NewMailboxMessage :=
  mkNewMailboxMessage mailbox_id message_id local_uid (Some upstream_uid) None [] [] false None.
Definition modseq_of_inbox : Repo (option Z) :=
  do mb <- find_mailbox 1 (lit "INBOX") ;; ret (mb ≫= Mailbox_highestmodseq).

Example delete_mailbox_message_only_advances_modseq_when_a_row_is_removed :
  on (with_user ++ [inbox; a_message "delete-modseq"; UpsertMailboxMessage (new_row 1 1 7 33)])
    (do initial <- modseq_of_inbox ;;
     do missing <- delete_mailbox_message 1 99 ;; do after_missing <- modseq_of_inbox ;;
     do removed <- delete_mailbox_message 1 7 ;; do after_delete <- modseq_of_inbox ;;
     do view <- find_mailbox_message_view 1 7 ;;
     ret (initial, missing, after_missing, removed, after_delete, view)) =
  Ok (Some 1, 0, Some 1, 1, Some 2, None).
Proof. by vm_compute. Qed.

Example mailbox_message_auto_assigns_local_uid_and_copy_uses_next_slot :
  on (with_user ++ [inbox; mailbox_named "Archive" true; a_message "uid-1"; a_message "uid-2";
                    a_message "uid-3"])
    (do one <- upsert_mailbox_message (new_row 1 1 0 11) ;;
     do two <- upsert_mailbox_message (new_row 1 2 0 12) ;;
     upsert_mailbox_message (new_row 2 3 1 21) ;;;
     do copied <- copy_mailbox_message 1 2 1 ;; do dest <- list_mailbox_messages 2 ;;
     ret (MailboxMessage_local_uid one, MailboxMessage_local_uid two,
          MailboxMessage_local_uid <$> copied, map MailboxMessage_local_uid dest)) =
  Ok (1, 2, Some 2, [1; 2]).
Proof. by vm_compute. Qed.

Example cache_object_ref_counts_increment_and_release :
  let cached := mkNewCacheObject (Some 1) (lit "cache") (lit "Cache/abc") (lit "deadbeef") 7 1 None in
  on with_user
    (do first <- upsert_cache_object cached ;; do second <- upsert_cache_object cached ;;
     do released_one <- delete_cache_object_for_account 1 (lit "Cache/abc") ;;
     do left <- list_cache_objects_for_account 1 ;;
     do released_two <- delete_cache_object_for_account 1 (lit "Cache/abc") ;;
     do none <- list_cache_objects_for_account 1 ;;
     ret (CacheObject_ref_count first, CacheObject_ref_count second, released_one,
          map CacheObject_ref_count left, released_two, none)) =
  Ok (1, 2, false, [1], true, []).
Proof. by vm_compute. Qed.
End RepositoryTests.

(** ** Connections, with a bootstrap user and no database *)
Module WireTests.
Definition bootstrap : StaticAuthenticator :=
  mkStaticAuthenticator (lit "user@example.test") (lit "secret") 1.
#[local] Instance only_bootstrap : Authenticator MemoryLoginThrottle | 0 :=
  StaticAuthenticatorInstance bootstrap.
Definition nothing : AppServices := mkAppServices false false false.
(** What a client gets that sends the lines and closes its side. *)
Definition connection (lines : list str) : option (State * list str) :=
  let input := flat_map (fun line => line ++ crlf) lines in
  (fun c => (state (sv_session (snd c)), drop 1 (transcript (sv_wire (snd c))))) <$>
  run_connection nothing secrets false 0 (S (S (length input))) []
    (Running, open_connection false (lit "conn") None false engine (with_limits 5 60 0) input).

Example malformed_search_returns_bad_without_closing_connection :
  (fun c => drop 8 (snd c)) <$> connection (map txt
    ["A1 LOGIN 'user@example.test' 'secret'"; "A2 SELECT INBOX"; "A3 SEARCH RETURN"; "A4 NOOP";
     "A5 SEARCH CHARSET ISO-8859-1 UNSEEN"; "A6 NOOP"; "A7 LOGOUT"]) =
  Some (map txt ["A2 OK [READ-WRITE] SELECT completed"; "A3 BAD RETURN requires options";
    "A4 OK NOOP completed"; "A5 NO [BADCHARSET] unsupported SEARCH charset: ISO-8859-1";
    "A6 OK NOOP completed"; "* BYE IMAP cache proxy logging out"; "A7 OK LOGOUT completed"] ++ [[]]).
Proof. by vm_compute. Qed.

Example login_commands_are_rate_limited_after_repeated_failures :
  let refused tag := lit tag ++ lit " NO [AUTHENTICATIONFAILED] invalid credentials" in
  connection (map txt
    ["A1 LOGIN 'user@example.test' 'wrong'"; "A2 LOGIN 'user@example.test' 'wrong'";
     "A3 LOGIN 'user@example.test' 'wrong'"; "A4 LOGIN 'user@example.test' 'wrong'";
     "A5 LOGIN 'user@example.test' 'wrong'"; "A6 LOGIN 'user@example.test' 'secret'"]) =
  Some (NotAuthenticated,
    [refused "A1"; refused "A2"; refused "A3"; refused "A4"; refused "A5"; refused "A6"; []]%string).
Proof. by vm_compute. Qed.

(** The payloads as they are after the Base64 decoding. *)
Definition plain (password : string) : str :=
  [0] ++ lit "user@example.test" ++ [0] ++ lit password.

Example authenticates_plain_with_initial_response :
  connection [lit "A1 AUTHENTICATE PLAIN " ++ plain "secret"] =
  Some (Authenticated, [lit "A1 OK AUTHENTICATE completed"; []]).
Proof. by vm_compute. Qed.

Example authenticates_plain_via_continuation_and_rejects_bad_password :
  connection [lit "A1 AUTHENTICATE PLAIN"; plain "secret"] =
    Some (Authenticated, [lit "+ "; lit "A1 OK AUTHENTICATE completed"; []]) /\
  connection [lit "A2 AUTHENTICATE PLAIN"; plain "wrong"] =
    Some (NotAuthenticated,
      [lit "+ "; lit "A2 NO [AUTHENTICATIONFAILED] invalid credentials"; []]).
Proof. by vm_compute. Qed.

Example authenticate_xoauth2_continuation_completes_over_wire :
  connection [lit "A1 AUTHENTICATE XOAUTH2";
      lit "user=user@example.test" ++ [1] ++ lit "auth=Bearer secret" ++ [1; 1]] =
  Some (Authenticated, [lit "+ "; lit "A1 OK AUTHENTICATE completed"; []]).
Proof. by vm_compute. Qed.
End WireTests.
